(* ===== verification/_CoqProject ===== *)
-Q . S2P
Prelude.v
CString.v
World.v
BloomValue.v
BloomTree.v
Coding.v
SliceStatus.v
Logging.v
FilterPolicy.v
DbFormat.v
Crc32c.v
Iterators.v
TableBlock.v
TableBlockSpec.v
TwoLevelIterator.v
Merger.v
SkipList.v
SkipListSpec.v
LogFile.v
TableFormat.v
FilterBlock.v
TableBuilder.v
Table.v
TableSpec.v
TableRead.v
DbTable.v
MemTable.v
DbIter.v
Batch.v
DbWrite.v
DbWriteSpec.v
VersionEdit.v
Version.v
VersionSpec.v
OverlapSpec.v
DbRead.v
DbReadSpec.v
VersionSet.v
VersionSetSpec.v
LruCache.v
LruCacheSpec.v
TableCache.v
TableCacheSpec.v
BuildTable.v
DbState.v
BuildTableSpec.v
FlushSpec.v
ObsoleteSpec.v
Compaction.v
CompactionWork.v
DbBackground.v
DbOpen.v
CompactionSpec.v
CompactionWorkSpec.v
DumpFile.v
DBDumper.v
ThreadPool.v
DBOperation.v
SearchSpec.v
Search.v
MainFlow.v
