(* ===== verification/Prelude.v ===== *)
(** * BloomHierarchy: a verification library

    The program measures how a hierarchy of Bloom filters speeds up the search
    for a _value_ in a leveldb database.  An experiment ([src/main.cpp]) creates a
    database, builds for every table file [n.ldb] a filter file [n.bloom] of the
    values in it, searches a value by scanning all the bloom files, and searches it
    again through a tree whose leaves are those filters and whose inner nodes are
    unions; only the tables behind a matching filter are dumped and scanned.

    ** Parts and files

    - [Prelude.v]: bytes, machine integers ([wrap], [swrap], [int_check]), the
      outcomes of C++ code ([result]: returned, thrown, crashed), bit buffers, the
      tactics and hint databases.
    - [CString.v]: the members of [std::string] and the printf formats the code
      uses.  [World.v]: files, streams, clock and random draws, the
      state-and-outcome monad [M], and the total-correctness triple
      [triple m fs Q].
    - [BloomValue.v]: [bloom_hierarchy/bloom_value] (class [bloom_value]).
    - [BloomTree.v]: [bloom_hierarchy/node], [bloom_hierarchy/bloomTree].
    - [Coding.v], [SliceStatus.v], [Logging.v], [FilterPolicy.v], [DbFormat.v],
      [Crc32c.v]: leveldb's [util/coding], [slice.h], [util/status], [util/logging],
      [db/filename], [util/hash], [util/bloom], [util/comparator], [db/dbformat],
      [util/crc32c].
    - [Iterators.v]: [include/leveldb/iterator.h] as the interface [Iterator] with its
      laws ([it_at]: over which entries it ranges and where it stands).
      [TableBlock.v], [TableBlockSpec.v]: [table/block_builder], [table/block], the
      byte layout of a block and the proofs.  [TwoLevelIterator.v]:
      [table/iterator_wrapper.h], [table/two_level_iterator].
    - [TableFormat.v], [FilterBlock.v], [TableBuilder.v], [Table.v]: [table/format],
      [table/filter_block], [table/table_builder], [table/table]; [TableSpec.v],
      [TableRead.v]: the layout of a table file, that the builder writes it and the
      reader reads it.  [DbTable.v]: the tables of a database, with the comparator
      and the filter policy of internal keys.
    - [LogFile.v], [Batch.v], [VersionEdit.v]: [db/log_writer], [db/log_reader],
      [db/write_batch], [db/version_edit].
    - [SkipList.v], [SkipListSpec.v], [MemTable.v]: [db/skiplist.h] as a heap of linked
      nodes, [util/random.h], [db/memtable].  [DbWrite.v], [DbWriteSpec.v]: the write
      path of [db/db_impl.cc] (group commit, log, memtable) and reading a log back.
    - [Merger.v], [DbIter.v]: [table/merger.cc], [db/db_iter.cc].
    - [Version.v], [VersionSpec.v], [OverlapSpec.v]: [class Version] of
      [db/version_set.cc] (lookups, seek statistics, overlapping files) and the
      invariant [version_ok] of its files.  [DbRead.v], [DbReadSpec.v]: [db/snapshot.h]
      and the read side of [db/db_impl.cc].  [VersionSet.v], [VersionSetSpec.v]: applying
      and logging edits, the MANIFEST and its recovery, with the helpers of
      [util/env.cc].  [LruCache.v], [LruCacheSpec.v]: [util/cache.cc], a heap of handles
      on hash chains and on the two circular lists, against a map of entries.
      [TableCache.v], [TableCacheSpec.v]: [db/table_cache.cc] over it.
    - [BuildTable.v], [DbState.v]: [db/builder.cc], the members of [DBImpl], writing a
      memtable out and removing obsolete files; [BuildTableSpec.v], [FlushSpec.v],
      [ObsoleteSpec.v]: what these do to the files and to the version.  [Compaction.v],
      [CompactionWork.v]: [class Compaction], the choice of its inputs and its work;
      [CompactionSpec.v], [CompactionWorkSpec.v]: what a compaction keeps and writes.  [DbBackground.v]: scheduling, the background thread and
      [MakeRoomForWrite].  [DbOpen.v]: [DB::Open], [DBImpl::Recover], [DestroyDB].
    - [DumpFile.v], [DBDumper.v]: [db/dumpfile.cc], the text form of a file, and
      [bloom_hierarchy/dbDumper], [dbRecord], which parse it back.
    - [ThreadPool.v]: [bloom_hierarchy/threadPool.hpp] and [dbThreadPool.hpp], a
      transition system of workers and owner.
    - [DBOperation.v]: [bloom_hierarchy/dbOperation], the operations the
      experiments are made of.  [SearchSpec.v], [Search.v]: what these operations
      do to a database directory and what the searches count.
    - [MainFlow.v]: [main.cpp]; [MainFlow_searches_agree] composes everything.

    ** Interfaces

    Code that is not the program's, or that the program only calls, is a class the
    definitions are parametrised by: [OS] (path resolution, readdir order, clock,
    draws), [StdHash] ([std::hash]), [LevelDB] (open, put, get, property, close),
    [Spdlog], [WritableFile], [SequentialFile], [RandomAccessFile], [Iterator],
    [BlockFunction], [Cache], [Comparator] and [FilterPolicy] with their laws
    ([RandomAccessFileLaws], [IteratorLaws], ...); in the database [KeyCompare],
    [SyncFile], [Env], [RandomAccessEnv], [TableCache] and [ReadSampler] ([TableCacheLaws],
    [TableCacheIterators], [TableFiles], [TableCacheOpens]).  The laws are proved for the
    implementations that are in the sources (pread and mmap files, block and
    two-level iterators, bytewise and internal comparator, Bloom and internal
    filter policy).  [Port] stands for the compression libraries; a build without
    them, as this repository's, is [port_plain].

    ** What the theorems show

    - Filters: no value is forgotten, the file format round trips, truncated files
      load as the empty filter, the exact behaviour of the array overload.
    - Hierarchy: for a ratio of three or more the construction terminates, keeps
      the leaves and maintains the union invariant; queries report exactly the
      leaves under matching ancestors, hence lose none; ratios one and two diverge.
    - Searches: [CreateBloomValue] builds the right files; a scan and a hierarchy
      query find all the occurrences of the value; the threaded search covers all
      values.
    - leveldb formats: round trips of varints, strings, internal keys, file names,
      log records, batches and version edits; order and separator properties of
      the comparators; the table-driven CRC equals the bitwise one; the Bloom
      policy has no false negatives.
    - Tables: a block, and a table file with index, filter and footer, give back the
      entries they were built from, forwards and backwards; [Seek] and [InternalGet]
      find the first entry not before the target; the dump of a built table gives
      its entries.
    - Database: group commit numbers the updates and recovery reads them all back;
      a lookup finds the newest visible update in memtables and levels, and the
      database iterator shows exactly what lookups find; the MANIFEST restores the
      version set that wrote it; the merging iterator is the sorted union.
    - Background work: flushing a memtable writes a table of exactly its updates and
      leads to a well-formed version at whatever level it is placed; a compaction
      writes tables that answer every lookup at a snapshot in use as its inputs did;
      the files that overlap a range are found; no file in use is removed.
    - Cache: an entry a client holds stays until it is released, lookups find what was
      inserted last, and an entry is kept exactly while something refers to it.  The table
      cache answers lookups and iterations from the files, whatever it has evicted, and
      meets the laws that the lookups of a version rely on.
    - Thread pool: counting and FIFO invariants, completeness of waiting and of the
      destructor, absence of deadlock, the partition of a parallel loop.

    ** Fuel

    Loops and recursions that are not structural take a number of iterations; the
    outcome [Crash OutOfFuel] marks a run that needed more.  The callers pass a
    bound that the proofs show sufficient: the number of leaves plus one for
    [createLevel] (each level is smaller than the one below), the length of the
    nodes for [addchildren], ten bytes for a 64-bit varint, the length of the file
    plus one for the log reader, the length of the block plus one for the loops of
    the block iterator, the number of index bytes plus one for the two-level
    iterator ([block_fuel]), the length of the file for the scan of a table, the
    nodes and levels of a skip list for its searches, the number of files for
    [FindFile] and [AddBoundaryInputs], [overlap_fuel] for [GetOverlappingInputs] (each
    restart moves one end of the range to a file's), the number of entries for the
    database iterator, [BuildTable] and the loop of a compaction, 32 doublings of the
    hash table, the length of the least-recently-used list for eviction and pruning.

    ** Threads

    The database holds a mutex for all but reading, writing tables and the log.  Where
    the code gives it up, a function argument ([meanwhile], [others]) stands for what
    other threads do to the state; the theorems say what they assume of it.  Condition
    variables and the memory orderings of the skip list are not modelled.

    ** Not modelled

    Arenas and the reference counts of files and versions manage memory; tables reach
    the block cache through the interface [Cache], which has blocks as values.  Of [DBImpl] the program uses
    [GetProperty] only for "leveldb.sstables", which is [Version.DebugString];
    [GetApproximateSizes] and the manual compaction API are not used, nor are [db/repair.cc] and
    [helpers/memenv].  The posix and windows environments are system calls behind
    [Env] and the files of [World.v].  Bindings, benchmarks, tests and generated files
    are left out, and so are [synced_stream] and [timer] of the thread pool header,
    which the program does not use. *)

From Stdlib Require Import ZArith Lia Strings.Byte Strings.String Permutation.
From stdpp Require Export base tactics numbers list gmap sets strings sorting.

#[global] Open Scope Z_scope.
#[export] Set Warnings "-clear-no-such-hyp,-register-all".

(** Hints: [bloom] holds the well-formedness lemmas of filters and trees. *)
Create HintDb bloom.

(** [lia] with the quotients and remainders of the goal replaced by their
    defining equations. *)
Ltac lia_div := Z.div_mod_to_equations; lia.

(** ** Bytes and strings

    A C++ [std::string] or [leveldb::Slice] is a list of bytes. *)

Declare Scope cstr_scope.
Delimit Scope cstr_scope with cstr.

Abbreviation byte := Byte.byte.
Abbreviation str := (list byte).

(** A string literal of the source, as bytes. *)
Notation "$ s" := (String.list_byte_of_string s%string) (at level 1, format "$ s").

#[export] Instance byte_eq_decision : EqDecision byte := Byte.byte_eq_dec.

#[export] Program Instance byte_countable : Countable byte :=
  inj_countable Byte.to_N Byte.of_N _.
Next Obligation. intros b. apply Byte.of_to_N. Qed.

(** [b2z] is the value of a byte read as [uint8_t]; [z2b] the conversion of an
    integer to [uint8_t] (reduction modulo 256). *)
Definition b2z (b : byte) : Z := Z.of_N (Byte.to_N b).

Definition z2b (z : Z) : byte :=
  default Byte.x00 (Byte.of_N (Z.to_N (z mod 256))).

Lemma b2z_range b : 0 <= b2z b < 256.
Proof. unfold b2z. pose proof (Byte.to_N_bounded b). lia. Qed.

Lemma z2b_b2z b : z2b (b2z b) = b.
Proof.
  unfold z2b, b2z. rewrite Z.mod_small by apply b2z_range.
  by rewrite N2Z.id, Byte.of_to_N.
Qed.

Lemma b2z_z2b z : b2z (z2b z) = z mod 256.
Proof.
  unfold z2b, b2z. pose proof (Z.mod_pos_bound z 256 ltac:(lia)) as Hr.
  destruct (Byte.of_N (Z.to_N (z mod 256))) as [b|] eqn:E; simpl.
  - apply Byte.to_of_N in E. rewrite E. lia.
  - apply Byte.of_N_None_iff in E. lia.
Qed.

Lemma b2z_inj a b : b2z a = b2z b -> a = b.
Proof. intros H. by rewrite <- (z2b_b2z a), <- (z2b_b2z b), H. Qed.

(** [char] is signed on the platforms the code is built for: [char_val] is the
    value of a byte read as [char]. *)
Definition char_val (b : byte) : Z :=
  if b2z b <? 128 then b2z b else b2z b - 256.

(** ** Machine integers

    [wrap w z] is the conversion to an unsigned integer of [w] bits, [swrap w z]
    the conversion to a signed one (two's complement). *)
Definition wrap (w z : Z) : Z := z mod 2 ^ w.
Definition swrap (w z : Z) : Z :=
  let u := wrap w z in if u <? 2 ^ (w - 1) then u else u - 2 ^ w.

Definition INT_MAX : Z := 2147483647.
Definition INT_MIN : Z := -2147483648.
Definition SIZE_MAX : Z := 18446744073709551615.
Definition npos : Z := SIZE_MAX.

Abbreviation u8 := (wrap 8).
Abbreviation u32 := (wrap 32).
Abbreviation u64 := (wrap 64).
Abbreviation int_of := (swrap 32).

Lemma wrap_range w z : 0 <= w -> 0 <= wrap w z < 2 ^ w.
Proof. intros. apply Z.mod_pos_bound. apply Z.pow_pos_nonneg; lia. Qed.

Lemma wrap_small w z : 0 <= z < 2 ^ w -> wrap w z = z.
Proof. apply Z.mod_small. Qed.

Lemma wrap_wrap w z : 0 <= w -> wrap w (wrap w z) = wrap w z.
Proof. intros. by apply wrap_small, wrap_range. Qed.

Lemma swrap32_small z : INT_MIN <= z <= INT_MAX -> int_of z = z.
Proof.
  unfold INT_MIN, INT_MAX, swrap, wrap. intros H. change (2 ^ 32) with 4294967296.
  change (2 ^ (32 - 1)) with 2147483648.
  destruct (Z.ltb_spec (z mod 4294967296) 2147483648); lia_div.
Qed.

Lemma swrap32_range z : INT_MIN <= int_of z <= INT_MAX.
Proof.
  unfold INT_MIN, INT_MAX, swrap, wrap. change (2 ^ 32) with 4294967296.
  change (2 ^ (32 - 1)) with 2147483648.
  destruct (Z.ltb_spec (z mod 4294967296) 2147483648); lia_div.
Qed.

(** ** Outcomes of C++ code

    A call returns, throws, or does something the language gives no meaning to
    (or that stops the process).  [OutOfFuel] marks a run whose loop or recursion
    did not finish within the number of iterations the model was given. *)
Inductive fault :=
  | NullDeref | OutOfBounds | DivByZero | IntOverflow | Uninitialized
  | AssertFailed | BadDistribution | Terminate | Exit (code : Z) | OutOfFuel.

Inductive exn :=
  | RuntimeError (what : str)
  | OutOfRange.

Inductive result (A : Type) :=
  | Ret (a : A)
  | Throw (e : exn)
  | Crash (f : fault).
Arguments Ret {_} a.
Arguments Throw {_} e.
Arguments Crash {_} f.

#[export] Instance fault_eq_decision : EqDecision fault.
Proof. solve_decision. Defined.
#[export] Instance exn_eq_decision : EqDecision exn.
Proof. solve_decision. Defined.

#[export] Instance result_ret : MRet result := @Ret.
#[export] Instance result_bind : MBind result := fun A B k m =>
  match m with Ret a => k a | Throw e => Throw e | Crash f => Crash f end.
#[export] Instance result_fmap : FMap result := fun A B g m =>
  match m with Ret a => Ret (g a) | Throw e => Throw e | Crash f => Crash f end.

Lemma result_bind_ret {A B} (k : A -> result B) a : mbind k (Ret a) = k a.
Proof. reflexivity. Qed.

Lemma result_bind_Ret_inv {A B} (k : A -> result B) m b :
  mbind k m = Ret b -> exists a, m = Ret a /\ k a = Ret b.
Proof. destruct m; [eauto | discriminate | discriminate]. Qed.

(** Signed arithmetic on [int]: overflow is undefined behaviour. *)
Definition int_in (z : Z) : bool := (INT_MIN <=? z) && (z <=? INT_MAX).
Definition int_check (z : Z) : result Z :=
  if int_in z then Ret z else Crash IntOverflow.

Lemma int_check_ok z : INT_MIN <= z <= INT_MAX -> int_check z = Ret z.
Proof.
  intros H. unfold int_check, int_in.
  destruct (Z.leb_spec INT_MIN z), (Z.leb_spec z INT_MAX); simpl; auto; lia.
Qed.

(** [vec_at v i] is [v[i]] on a [std::vector] or array. *)
Definition vec_at {A} (v : list A) (i : Z) : result A :=
  if i <? 0 then Crash OutOfBounds
  else match v !! Z.to_nat i with Some a => Ret a | None => Crash OutOfBounds end.

Lemma vec_at_ok {A} (v : list A) i a :
  0 <= i -> v !! Z.to_nat i = Some a -> vec_at v i = Ret a.
Proof.
  intros Hi Ha. unfold vec_at. destruct (Z.ltb_spec i 0); [lia|]. by rewrite Ha.
Qed.

(** Left-to-right evaluation of a body over the elements of a vector. *)
Fixpoint mapR {A B} (f : A -> result B) (l : list A) : result (list B) :=
  match l with
  | [] => Ret []
  | a :: l' => b ← f a; bs ← mapR f l'; Ret (b :: bs)
  end.

(** A loop over a vector that updates a state. *)
Fixpoint foldR {A B} (f : B -> A -> result B) (b : B) (l : list A) : result B :=
  match l with
  | [] => Ret b
  | a :: l' => b' ← f b a; foldR f b' l'
  end.

Lemma foldR_app {A B} (f : B -> A -> result B) b l1 l2 :
  foldR f b (l1 ++ l2) = b' ← foldR f b l1; foldR f b' l2.
Proof.
  revert b. induction l1 as [|a l1 IH]; intros b; [done|]. cbn [app foldR]. destruct (f b a); simpl; [apply IH|done..].
Qed.

Lemma mapR_Ret {A B} (f : A -> result B) (g : A -> B) l :
  (forall a, a ∈ l -> f a = Ret (g a)) -> mapR f l = Ret (g <$> l).
Proof.
  induction l as [|a l IH]; intros H; simpl; [done|].
  rewrite H by set_solver. simpl. rewrite IH; [done|]. set_solver.
Qed.

(** ** Bits of bytes *)

Lemma b2z_bits_high b t : 8 <= t -> Z.testbit (b2z b) t = false.
Proof.
  intros Ht. pose proof (b2z_range b) as Hr.
  rewrite <- (Z.mod_small (b2z b) (2 ^ 8)) by (change (2 ^ 8) with 256; lia).
  by apply Z.mod_pow2_bits_high.
Qed.

Lemma z2b_testbit z t : 0 <= t < 8 -> Z.testbit (b2z (z2b z)) t = Z.testbit z t.
Proof.
  intros Ht. rewrite b2z_z2b. change 256 with (2 ^ 8).
  apply Z.mod_pow2_bits_low. lia.
Qed.

Lemma char_val_testbit b t : 0 <= t < 8 -> Z.testbit (char_val b) t = Z.testbit (b2z b) t.
Proof.
  intros Ht. unfold char_val. destruct (b2z b <? 128); [done|].
  rewrite <- (Z.mod_pow2_bits_low (b2z b - 256) 8) by lia.
  rewrite <- (Z.mod_pow2_bits_low (b2z b) 8) by lia.
  f_equal. change (2 ^ 8) with 256. lia_div.
Qed.

Lemma land_1_testbit z : Z.land z 1 = Z.b2z (Z.testbit z 0).
Proof. change 1 with (Z.ones 1). rewrite Z.land_ones by lia. by rewrite Z.bit0_mod. Qed.

Lemma byte_eq_bits a b :
  (forall t, 0 <= t < 8 -> Z.testbit (b2z a) t = Z.testbit (b2z b) t) -> a = b.
Proof.
  intros H. apply b2z_inj, Z.bits_inj'. intros t Ht.
  destruct (decide (t < 8)); [apply H; lia|]. rewrite !b2z_bits_high by lia. done.
Qed.

(** ** Bit arrays in byte buffers

    Bit [i] of a buffer is bit [i mod 8] of its byte [i / 8]. *)

Definition buf_bit (buf : str) (i : Z) : bool :=
  Z.testbit (b2z (nth (Z.to_nat (i / 8)) buf Byte.x00)) (i mod 8).

Lemma nth_insert (buf : str) q q' b :
  (q < length buf)%nat ->
  nth q' (<[q := b]> buf) Byte.x00 = if decide (q = q') then b else nth q' buf Byte.x00.
Proof.
  intros Hq. rewrite !nth_lookup. case_decide as E.
  - subst. by rewrite list_lookup_insert_eq.
  - by rewrite list_lookup_insert_ne.
Qed.

(** [buffer[i / 8] |= x << (i % 8)] for [x] zero or one. *)
Definition or_bit (buf : str) (i x : Z) : str :=
  let q := Z.to_nat (i / 8) in
  <[q := z2b (Z.lor (char_val (nth q buf Byte.x00)) (Z.shiftl x (i mod 8)))]> buf.

Lemma or_bit_length buf i x : length (or_bit buf i x) = length buf.
Proof. apply length_insert. Qed.

Lemma or_bit_spec buf i (x : bool) j :
  0 <= i -> 0 <= j -> (Z.to_nat (i / 8) < length buf)%nat ->
  buf_bit (or_bit buf i (Z.b2z x)) j = buf_bit buf j || (bool_decide (i = j) && x).
Proof.
  intros Hi Hj Hlen. unfold buf_bit, or_bit. rewrite nth_insert by done.
  case_decide as E.
  - assert (i / 8 = j / 8) as Eq by lia_div. rewrite z2b_testbit by lia_div.
    rewrite Z.lor_spec, char_val_testbit, E by lia_div. f_equal.
    rewrite Z.shiftl_spec by lia_div.
    destruct (decide (i = j)) as [->|Hne].
    + rewrite Z.sub_diag, bool_decide_true by done. by destruct x.
    + rewrite bool_decide_false by done. destruct x; [|apply Z.bits_0].
      destruct (decide (j mod 8 < i mod 8)); [apply Z.testbit_neg_r; lia|].
      apply (Z.pow2_bits_false 0). lia_div.
  - rewrite bool_decide_false by congruence. by rewrite orb_false_r.
Qed.

(** [(buffer[i / 8] & (1 << (i % 8))) == 0] *)
Lemma land_shift_testbit z k : 0 <= k -> (Z.land z (Z.shiftl 1 k) =? 0) = negb (Z.testbit z k).
Proof.
  intros Hk. rewrite Z.shiftl_1_l. destruct (Z.testbit z k) eqn:E; simpl.
  - apply Z.eqb_neq. intros H. apply (f_equal (fun y => Z.testbit y k)) in H.
    rewrite Z.land_spec, E, Z.pow2_bits_true, Z.bits_0 in H by done. done.
  - apply Z.eqb_eq, Z.bits_inj'. intros n Hn. rewrite Z.land_spec, Z.bits_0.
    destruct (decide (n = k)) as [->|]; [by rewrite E|].
    rewrite Z.pow2_bits_false by lia. apply andb_false_r.
Qed.
