(* ===== verification/CString.v ===== *)
(** * std::string

    The members of [std::string] and the conversions of the C++ standard library
    that the program calls, on byte lists: [find_first_of], [rfind], [substr],
    the comparison operators, [std::to_string] and the [printf] formats
    ["%llu"], ["%06llu"] and ["\\x%02x"]. *)

From Stdlib Require Import ZArith Lia.
From S2P Require Import Prelude.

Definition str_size (s : str) : Z := Z.of_nat (length s).

(** ** Search and slicing *)

Definition find_first_of (s : str) (c : byte) : Z :=
  match list_find (fun b => b = c) s with Some (i, _) => Z.of_nat i | None => npos end.

Definition rfind (s : str) (c : byte) : Z :=
  match list_find (fun b => b = c) (reverse s) with
  | Some (i, _) => str_size s - 1 - Z.of_nat i
  | None => npos
  end.

(** [s.substr(pos, n)]: throws when [pos] is past the end, stops at the end. *)
Definition substr (s : str) (pos n : Z) : result str :=
  if str_size s <? pos then Throw OutOfRange
  else Ret (take (Z.to_nat (Z.min n (str_size s - pos))) (drop (Z.to_nat pos) s)).

(** [s.substr(pos)] *)
Definition substr_from (s : str) (pos : Z) : result str := substr s pos npos.

Fixpoint str_compare (a b : str) : comparison :=
  match a, b with
  | [], [] => Eq
  | [], _ :: _ => Lt
  | _ :: _, [] => Gt
  | x :: a', y :: b' =>
      match Z.compare (b2z x) (b2z y) with Eq => str_compare a' b' | c => c end
  end.

Definition str_lt (a b : str) : bool :=
  match str_compare a b with Lt => true | _ => false end.
Definition str_le (a b : str) : bool :=
  match str_compare a b with Gt => false | _ => true end.
Definition str_eqb (a b : str) : bool := bool_decide (a = b).

(** ** Numbers as text *)

Definition digit (d : Z) : byte := z2b (48 + d).

Fixpoint dec_digits (fuel : nat) (n : Z) : str :=
  match fuel with
  | O => []
  | S f => (if n <? 10 then [] else dec_digits f (n / 10)) ++ [digit (n mod 10)]
  end.

(** ["%llu"]: a number below [2 ^ k] has at most [k] decimal digits. *)
Definition dec (n : Z) : str := dec_digits (S (Z.to_nat (Z.log2 n))) n.

(** ["%06llu"] *)
Definition dec06 (n : Z) : str :=
  let d := dec n in replicate (6 - length d) (digit 0) ++ d.

(** [std::to_string(int)] *)
Definition to_string (z : Z) : str :=
  if z <? 0 then $"-" ++ dec (- z) else dec z.

(** ["%02x"] on a value below 256. *)
Definition hex_digit (d : Z) : byte :=
  if d <? 10 then z2b (48 + d) else z2b (87 + d).
Definition hex02 (z : Z) : str := [hex_digit (z / 16); hex_digit (z mod 16)].

(** ** Lemmas: order *)

Lemma str_compare_refl a : str_compare a a = Eq.
Proof. induction a as [|x a IH]; simpl; [done|]. by rewrite Z.compare_refl. Qed.

Lemma str_compare_eq a b : str_compare a b = Eq <-> a = b.
Proof.
  split; [|intros ->; apply str_compare_refl].
  revert b. induction a as [|x a IH]; intros [|y b]; simpl; try done.
  destruct (Z.compare_spec (b2z x) (b2z y)) as [E|E|E]; try done.
  intros H. by rewrite (b2z_inj _ _ E), (IH _ H).
Qed.

Lemma str_compare_antisym a b : str_compare b a = CompOpp (str_compare a b).
Proof.
  revert b. induction a as [|x a IH]; intros [|y b]; simpl; try done.
  rewrite Z.compare_antisym. by destruct (Z.compare (b2z x) (b2z y)); simpl.
Qed.

Lemma str_compare_trans a b c :
  str_compare a b = Lt -> str_compare b c = Lt -> str_compare a c = Lt.
Proof.
  revert b c. induction a as [|x a IH]; intros [|y b] [|z c]; simpl; try done.
  destruct (Z.compare_spec (b2z x) (b2z y)), (Z.compare_spec (b2z y) (b2z z)),
    (Z.compare_spec (b2z x) (b2z z)); try done; try lia. by apply IH.
Qed.

Lemma str_eqb_eq a b : str_eqb a b = true <-> a = b.
Proof. apply bool_decide_eq_true. Qed.

(** ** Lemmas: search and slicing *)

Lemma str_size_nonneg s : 0 <= str_size s.
Proof. unfold str_size. lia. Qed.

Lemma str_size_app a b : str_size (a ++ b) = str_size a + str_size b.
Proof. unfold str_size. rewrite length_app. lia. Qed.

Lemma find_first_of_app a c b : c ∉ a -> find_first_of (a ++ c :: b) c = str_size a.
Proof.
  intros Hc. unfold find_first_of, str_size.
  destruct (list_find (fun b => b = c) (a ++ c :: b)) as [[i x]|] eqn:E.
  - apply list_find_Some in E as (Hi & -> & Hb).
    destruct (decide (i < length a)%nat) as [Hlt|Hge].
    + rewrite lookup_app_l in Hi by lia. destruct Hc. by eapply list_elem_of_lookup_2.
    + destruct (decide (i = length a)) as [->|]; [done|].
      exfalso. apply (Hb (length a) c); [|lia|done].
      by rewrite list_lookup_middle.
  - apply list_find_None in E. exfalso. rewrite Forall_forall in E.
    apply (E c); set_solver.
Qed.

Lemma find_first_of_none s c : c ∉ s -> find_first_of s c = npos.
Proof.
  intros Hc. unfold find_first_of.
  destruct (list_find (fun b => b = c) s) as [[i x]|] eqn:E; [|done].
  apply list_find_Some in E as (Hi & -> & _). destruct Hc. by eapply list_elem_of_lookup_2.
Qed.

(** Where [find_first_of] points, when it finds something. *)
Lemma find_first_of_cases s c :
  ((c ∉ s) /\ find_first_of s c = npos) \/
  (exists a b, s = a ++ c :: b /\ (c ∉ a) /\ find_first_of s c = str_size a).
Proof.
  destruct (decide (c ∈ s)) as [Hin|Hout].
  - right. apply list_elem_of_split_l in Hin as (a & b & -> & Ha).
    exists a, b. split_and!; try done. by apply find_first_of_app.
  - left. split; [done|]. by apply find_first_of_none.
Qed.

Lemma substr_app a b n :
  0 <= n -> substr (a ++ b) (str_size a) n = Ret (take (Z.to_nat n) b).
Proof.
  intros Hn. unfold substr. rewrite str_size_app.
  pose proof (str_size_nonneg b). destruct (Z.ltb_spec (str_size a + str_size b) (str_size a)); [lia|].
  f_equal. unfold str_size. rewrite Nat2Z.id, drop_app_length.
  destruct (Z.min_spec n (Z.of_nat (length a) + Z.of_nat (length b) - Z.of_nat (length a)))
    as [[? ->]|[? ->]]; [done|].
  rewrite !take_ge; [done|lia|lia].
Qed.

Lemma substr_ok s pos n : pos <= str_size s -> exists r, substr s pos n = Ret r.
Proof. intros H. unfold substr. destruct (Z.ltb_spec (str_size s) pos); [lia|eauto]. Qed.

(** ** Lemmas: decimal notation *)

Definition is_digit (b : byte) : Prop := 48 <= b2z b <= 57.
Definition digits_value (s : str) : Z := foldl (fun v b => v * 10 + (b2z b - 48)) 0 s.

Lemma b2z_digit d : 0 <= d < 10 -> b2z (digit d) = 48 + d.
Proof. intros. unfold digit. rewrite b2z_z2b, Z.mod_small; lia. Qed.

Lemma digits_value_snoc s b : digits_value (s ++ [b]) = digits_value s * 10 + (b2z b - 48).
Proof. unfold digits_value. by rewrite foldl_app. Qed.

Lemma dec_digits_value fuel n :
  0 <= n < 10 ^ Z.of_nat fuel -> digits_value (dec_digits fuel n) = n.
Proof.
  revert n. induction fuel as [|f IH]; intros n Hn.
  - simpl in *. unfold digits_value. simpl. lia.
  - cbn [dec_digits]. rewrite digits_value_snoc, b2z_digit by lia_div.
    rewrite Nat2Z.inj_succ, Z.pow_succ_r in Hn by lia.
    destruct (Z.ltb_spec n 10).
    + unfold digits_value. simpl. rewrite Z.mod_small; lia.
    + rewrite IH; lia_div.
Qed.

Lemma dec_digits_is_digit fuel n : Forall is_digit (dec_digits fuel n).
Proof.
  revert n. induction fuel as [|f IH]; intros n; cbn [dec_digits]; [done|].
  apply Forall_app. split; [by destruct (n <? 10)|].
  constructor; [|done]. unfold is_digit. rewrite b2z_digit; lia_div.
Qed.

Lemma dec_fuel n : 0 <= n -> n < 10 ^ Z.of_nat (S (Z.to_nat (Z.log2 n))).
Proof.
  intros Hn. destruct (decide (n = 0)) as [->|]; [done|].
  pose proof (Z.log2_nonneg n).
  rewrite Nat2Z.inj_succ, Z2Nat.id by lia.
  eapply Z.lt_le_trans; [apply Z.log2_spec; lia|]. apply Z.pow_le_mono_l; lia.
Qed.

Lemma dec_value n : 0 <= n -> digits_value (dec n) = n.
Proof. intros Hn. apply dec_digits_value. split; [done|]. by apply dec_fuel. Qed.

Lemma dec_is_digit n : Forall is_digit (dec n).
Proof. apply dec_digits_is_digit. Qed.

Lemma dec_nonempty n : dec n <> [].
Proof. unfold dec. cbn [dec_digits]. intros H. by apply app_eq_nil in H as [_ ?]. Qed.

Lemma dec_inj n m : 0 <= n -> 0 <= m -> dec n = dec m -> n = m.
Proof. intros Hn Hm H. rewrite <- (dec_value n), <- (dec_value m) by done. by rewrite H. Qed.

Lemma digits_value_zeros k s : digits_value (replicate k (digit 0) ++ s) = digits_value s.
Proof.
  unfold digits_value. rewrite foldl_app. f_equal.
  induction k as [|k IH]; [done|]. simpl. rewrite b2z_digit by lia. exact IH.
Qed.

Lemma dec06_value n : 0 <= n -> digits_value (dec06 n) = n.
Proof. intros. unfold dec06. rewrite digits_value_zeros. by apply dec_value. Qed.

Lemma dec06_is_digit n : Forall is_digit (dec06 n).
Proof.
  unfold dec06. apply Forall_app. split; [|apply dec_is_digit].
  apply Forall_replicate. unfold is_digit. rewrite b2z_digit; lia.
Qed.

Lemma dec06_nonempty n : dec06 n <> [].
Proof. unfold dec06. intros H. apply app_eq_nil in H as [_ H]. by apply dec_nonempty in H. Qed.

Lemma to_string_inj n m : 0 <= n -> 0 <= m -> to_string n = to_string m -> n = m.
Proof.
  intros Hn Hm. unfold to_string.
  destruct (Z.ltb_spec n 0), (Z.ltb_spec m 0); try lia. by apply dec_inj.
Qed.
