(* ===== verification/World.v ===== *)
(** * The process's environment

    Files, streams, clock and random numbers as the program sees them.

    - [filesystem]: directories of named files.  A path is split at its last
      ['/']; the directory part is resolved by the operating system.
    - [OS]: what the operating system and the C++ runtime decide and the program
      only observes (path resolution, the order of [readdir], the clock, the
      random draws, the number of hardware threads), with the documented facts
      the proofs use.
    - [World] and [M]: the state the program threads through its calls, and the
      state-and-outcome monad the operations are written in.  The state survives
      an exception, as files and streams do. *)

From Stdlib Require Import ZArith Lia.
From S2P Require Import Prelude CString.

(** ** Paths and files *)

Definition slash : byte := Byte.x2f.

Definition path_dir (p : str) : str :=
  match list_find (fun b => b = slash) (reverse p) with
  | Some (i, _) => take (length p - 1 - i) p
  | None => $"."
  end.

Definition path_base (p : str) : str :=
  match list_find (fun b => b = slash) (reverse p) with
  | Some (i, _) => drop (length p - i) p
  | None => p
  end.

(** Directories by identity, each a map from file name to contents; [locked]
    holds the (directory, name) pairs that cannot be opened for writing. *)
Record filesystem := mkFS {
  dirs : gmap str (gmap str str);
  locked : gset (str * str)
}.

Class OS := {
  resolve_dir : str -> str;
  readdir_order : nat -> gmap str str -> list str;
  readdir_perm k d : readdir_order k d ≡ₚ $"." :: $".." :: (map_to_list d).*1;
  now_ns : nat -> Z;
  uniform_int : nat -> Z -> Z -> Z;
  uniform_int_range k a b : a <= b -> a <= uniform_int k a b <= b;
  hardware_concurrency : Z
}.

Section files.
Context `{os : !OS}.

Definition fs_read (fs : filesystem) (p : str) : option str :=
  d ← dirs fs !! resolve_dir (path_dir p); d !! path_base p.

Definition fs_can_write (fs : filesystem) (p : str) : bool :=
  match dirs fs !! resolve_dir (path_dir p) with
  | Some _ => bool_decide ((resolve_dir (path_dir p), path_base p) ∉ locked fs)
  | None => false
  end.

(** Replace the contents of the file at [p], creating it if it is not there. *)
Definition fs_write (fs : filesystem) (p : str) (data : str) : filesystem :=
  let dir := resolve_dir (path_dir p) in
  {| dirs := <[dir := <[path_base p := data]> (default ∅ (dirs fs !! dir))]> (dirs fs);
     locked := locked fs |}.

(** The entries [opendir]/[readdir] give for a directory, [None] when it cannot
    be opened; [k] numbers the call. *)
Definition fs_readdir (fs : filesystem) (k : nat) (dir : str) : option (list str) :=
  readdir_order k <$> dirs fs !! resolve_dir dir.

End files.

(** ** State and outcome *)

Record World := mkWorld {
  w_fs : filesystem;
  w_cout : str;
  w_cerr : str;
  w_log : str;       (* the [std::ofstream& log] the operations write to *)
  w_clock : nat;     (* clock reads so far *)
  w_rng : nat;       (* random draws so far *)
  w_scans : nat      (* directory scans so far *)
}.

Definition M (A : Type) : Type := World -> World * result A.

#[export] Instance M_ret : MRet M := fun A a w => (w, Ret a).
#[export] Instance M_bind : MBind M := fun A B k m w =>
  match m w with
  | (w', Ret a) => k a w'
  | (w', Throw e) => (w', Throw e)
  | (w', Crash f) => (w', Crash f)
  end.

Definition lift {A} (r : result A) : M A := fun w => (w, r).
Definition gets {A} (f : World -> A) : M A := fun w => (w, Ret (f w)).
Definition modify (f : World -> World) : M unit := fun w => (f w, Ret tt).

Definition set_fs (f : filesystem -> filesystem) (w : World) : World :=
  mkWorld (f (w_fs w)) (w_cout w) (w_cerr w) (w_log w) (w_clock w) (w_rng w) (w_scans w).

Definition put_cout (s : str) : M unit := modify (fun w =>
  mkWorld (w_fs w) (w_cout w ++ s) (w_cerr w) (w_log w) (w_clock w) (w_rng w) (w_scans w)).
Definition put_cerr (s : str) : M unit := modify (fun w =>
  mkWorld (w_fs w) (w_cout w) (w_cerr w ++ s) (w_log w) (w_clock w) (w_rng w) (w_scans w)).
Definition put_log (s : str) : M unit := modify (fun w =>
  mkWorld (w_fs w) (w_cout w) (w_cerr w) (w_log w ++ s) (w_clock w) (w_rng w) (w_scans w)).

Definition nl : str := [Byte.x0a].
Definition tab : str := [Byte.x09].

Section effects.
Context `{os : !OS}.

(** One read of the system clock, in nanoseconds. *)
Definition read_clock : M Z := fun w =>
  (mkWorld (w_fs w) (w_cout w) (w_cerr w) (w_log w) (S (w_clock w)) (w_rng w) (w_scans w),
   Ret (now_ns (w_clock w))).

(** One draw of [std::uniform_int_distribution<>(a, b)]; an empty range breaks
    the distribution's precondition. *)
Definition draw (a b : Z) : M Z := fun w =>
  (mkWorld (w_fs w) (w_cout w) (w_cerr w) (w_log w) (w_clock w) (S (w_rng w)) (w_scans w),
   if b <? a then Crash BadDistribution else Ret (uniform_int (w_rng w) a b)).

Definition scan_dir (dir : str) : M (option (list str)) := fun w =>
  (mkWorld (w_fs w) (w_cout w) (w_cerr w) (w_log w) (w_clock w) (w_rng w) (S (w_scans w)),
   Ret (fs_readdir (w_fs w) (w_scans w) dir)).

End effects.

(** A [for] loop over a vector whose body returns nothing. *)
Fixpoint forM {A} (l : list A) (body : A -> M unit) : M unit :=
  match l with
  | [] => mret ()
  | a :: l' => body a ;; forM l' body
  end.

(** A [for] loop that updates local variables, gathered in an accumulator. *)
Fixpoint foldM {A B} (body : B -> A -> M B) (b : B) (l : list A) : M B :=
  match l with
  | [] => mret b
  | a :: l' => b' ← body b a; foldM body b' l'
  end.

(** ** Lemmas *)

Lemma M_bind_Ret {A B} (k : A -> M B) (m : M A) w w' a :
  m w = (w', Ret a) -> mbind k m w = k a w'.
Proof. intros H. unfold mbind, M_bind. by rewrite H. Qed.

Lemma M_bind_inv {A B} (k : A -> M B) (m : M A) w w' b :
  mbind k m w = (w', Ret b) -> exists w1 a, m w = (w1, Ret a) /\ k a w1 = (w', Ret b).
Proof.
  unfold mbind, M_bind. destruct (m w) as [w1 [a|e|f]]; [eauto|discriminate|discriminate].
Qed.

Lemma path_split_app d b :
  slash ∉ b ->
  path_dir (d ++ slash :: b) = d /\ path_base (d ++ slash :: b) = b.
Proof.
  intros Hb.
  assert (Hfind : list_find (fun x => x = slash) (reverse (d ++ slash :: b))
                  = Some (length b, slash)).
  { apply list_find_Some. rewrite reverse_app, reverse_cons, <- app_assoc.
    split_and!; [|done|].
    - simpl. rewrite lookup_app_r by (rewrite length_reverse; lia).
      by rewrite length_reverse, Nat.sub_diag.
    - intros j y Hj Hlt ->. rewrite lookup_app_l in Hj by (rewrite length_reverse; lia).
      apply list_elem_of_lookup_2 in Hj. rewrite elem_of_reverse in Hj. done. }
  unfold path_dir, path_base. rewrite Hfind, length_app. simpl. split.
  - replace (length d + S (length b) - 1 - length b)%nat with (length d) by lia.
    by rewrite take_app_length.
  - replace (length d + S (length b) - length b)%nat with (length d + 1)%nat by lia.
    rewrite <- drop_drop, drop_app_length. done.
Qed.

Section file_lemmas.
Context `{os : !OS}.

Lemma fs_read_write_eq fs p data : fs_read (fs_write fs p data) p = Some data.
Proof.
  unfold fs_read, fs_write. simpl. rewrite lookup_insert_eq. simpl. apply lookup_insert_eq.
Qed.

Lemma fs_read_write_ne fs p q data :
  (resolve_dir (path_dir p), path_base p) <> (resolve_dir (path_dir q), path_base q) ->
  fs_read (fs_write fs p data) q = fs_read fs q.
Proof.
  intros Hne. unfold fs_read, fs_write. simpl.
  destruct (decide (resolve_dir (path_dir p) = resolve_dir (path_dir q))) as [E|E].
  - rewrite E, lookup_insert_eq. simpl.
    rewrite lookup_insert_ne by congruence.
    destruct (dirs fs !! resolve_dir (path_dir q)); simpl; [done|apply lookup_empty].
  - by rewrite lookup_insert_ne by done.
Qed.

Lemma fs_can_write_write fs p q data :
  fs_can_write fs q = true -> fs_can_write (fs_write fs p data) q = true.
Proof.
  unfold fs_can_write, fs_write. simpl. intros Hw.
  destruct (decide (resolve_dir (path_dir p) = resolve_dir (path_dir q))) as [E|E].
  - rewrite E, lookup_insert_eq. by destruct (dirs fs !! _).
  - by rewrite lookup_insert_ne by done.
Qed.

End file_lemmas.

(** ** A concrete environment

    An operating system that lists directories in map order, whose clock advances
    by a millisecond per read and whose draws are the lower bound: the instance
    the concrete runs of the development use. *)
Definition demo_os : OS.
Proof.
  refine {| resolve_dir := fun p => p;
            readdir_order := fun _ d => $"." :: $".." :: (map_to_list d).*1;
            now_ns := fun k => Z.of_nat k * 1000000;
            uniform_int := fun _ a _ => a;
            hardware_concurrency := 4 |}.
  - reflexivity.
  - intros. lia.
Defined.

Definition demo_world (fs : filesystem) : World := mkWorld fs [] [] [] 0 0 0.

(** ** Reasoning about runs

    [triple m fs Q]: started in any state whose files are [fs], [m] returns (it
    neither throws nor crashes nor runs out of fuel), and its value and the files
    it leaves satisfy [Q].  Streams, clock and random draws may be anything. *)
Definition triple {A} (m : M A) (fs : filesystem) (Q : A -> filesystem -> Prop) : Prop :=
  forall w, w_fs w = fs -> exists w' a, m w = (w', Ret a) /\ Q a (w_fs w').

Lemma triple_ret {A} (a : A) fs (Q : A -> filesystem -> Prop) : Q a fs -> triple (mret a) fs Q.
Proof. intros HQ w <-. by exists w, a. Qed.

Lemma triple_lift {A} (a : A) r fs (Q : A -> filesystem -> Prop) :
  r = Ret a -> Q a fs -> triple (lift r) fs Q.
Proof. intros -> HQ w <-. by exists w, a. Qed.

Lemma triple_bind {A B} (m : M A) (k : A -> M B) fs (R : A -> filesystem -> Prop) (Q : B -> filesystem -> Prop) :
  triple m fs R -> (forall a fs', R a fs' -> triple (k a) fs' Q) -> triple (mbind k m) fs Q.
Proof.
  intros Hm Hk w Hw. destruct (Hm w Hw) as (w1 & a & Hr & HR).
  destruct (Hk a (w_fs w1) HR w1 eq_refl) as (w2 & b & Hr2 & HQ).
  exists w2, b. split; [|done]. by rewrite (M_bind_Ret _ _ _ _ _ Hr).
Qed.

Lemma triple_conseq {A} (m : M A) fs (R Q : A -> filesystem -> Prop) :
  triple m fs R -> (forall a fs', R a fs' -> Q a fs') -> triple m fs Q.
Proof. intros Hm HRQ w Hw. destruct (Hm w Hw) as (w' & a & ? & ?). eauto. Qed.

Lemma triple_gets_fs {A} (f : filesystem -> A) fs (Q : A -> filesystem -> Prop) :
  Q (f fs) fs -> triple (gets (fun w => f (w_fs w))) fs Q.
Proof. intros HQ w <-. by exists w, (f (w_fs w)). Qed.

(** Output leaves the files alone. *)
Lemma triple_put_cout s fs (Q : unit -> filesystem -> Prop) : Q tt fs -> triple (put_cout s) fs Q.
Proof. intros HQ w <-. by eexists _, tt. Qed.
Lemma triple_put_cerr s fs (Q : unit -> filesystem -> Prop) : Q tt fs -> triple (put_cerr s) fs Q.
Proof. intros HQ w <-. by eexists _, tt. Qed.
Lemma triple_put_log s fs (Q : unit -> filesystem -> Prop) : Q tt fs -> triple (put_log s) fs Q.
Proof. intros HQ w <-. by eexists _, tt. Qed.

Lemma triple_clock `{os : !OS} fs (Q : Z -> filesystem -> Prop) :
  (forall t, Q t fs) -> triple read_clock fs Q.
Proof. intros HQ w <-. by eexists _, _. Qed.

Lemma triple_scan_dir `{os : !OS} dir fs (Q : option (list str) -> filesystem -> Prop) :
  (forall k, Q (fs_readdir fs k dir) fs) -> triple (scan_dir dir) fs Q.
Proof. intros HQ w <-. by eexists _, _. Qed.

(** Loops: an invariant over the elements done so far. *)
Lemma triple_foldM {A B} (body : B -> A -> M B) (I : list A -> B -> filesystem -> Prop) l b fs :
  I [] b fs ->
  (forall done a b fs, (exists rest, l = done ++ a :: rest) -> I done b fs ->
     triple (body b a) fs (fun b' fs' => I (done ++ [a]) b' fs')) ->
  triple (foldM body b l) fs (fun b' fs' => I l b' fs').
Proof.
  intros H0 Hstep.
  assert (forall done rest b fs, l = done ++ rest -> I done b fs ->
    triple (foldM body b rest) fs (fun b' fs' => I l b' fs')) as H.
  { intros done rest. revert done. induction rest as [|a rest IH]; intros done b' fs' El Hi; simpl.
    - apply triple_ret. by rewrite El, app_nil_r.
    - eapply triple_bind; [apply Hstep; [by exists rest|done]|]. intros b2 fs2 Hi2.
      apply (IH (done ++ [a])); [|done]. by rewrite El, <- app_assoc. }
  by apply (H [] l).
Qed.

Lemma triple_forM {A} (body : A -> M unit) (I : list A -> filesystem -> Prop) l fs :
  I [] fs ->
  (forall done a fs, (exists rest, l = done ++ a :: rest) -> I done fs ->
     triple (body a) fs (fun _ fs' => I (done ++ [a]) fs')) ->
  triple (forM l body) fs (fun _ fs' => I l fs').
Proof.
  intros H0 Hstep.
  assert (forall done rest fs, l = done ++ rest -> I done fs ->
    triple (forM rest body) fs (fun _ fs' => I l fs')) as H.
  { intros done rest. revert done. induction rest as [|a rest IH]; intros done fs' El Hi; simpl.
    - apply triple_ret. by rewrite El, app_nil_r.
    - eapply triple_bind; [apply Hstep; [by exists rest|done]|]. intros u fs2 Hi2.
      apply (IH (done ++ [a])); [|done]. by rewrite El, <- app_assoc. }
  by apply (H [] l).
Qed.

Lemma forM_map {A B} (g : A -> B) (body : B -> M unit) l :
  forM (map g l) body = forM l (fun a => body (g a)).
Proof. induction l as [|a l IH]; simpl; [done|]. by rewrite IH. Qed.

Lemma triple_ext {A} (m m' : M A) fs Q : (forall w, m w = m' w) -> triple m' fs Q -> triple m fs Q.
Proof. intros He Hm w Hw. rewrite He. by apply Hm. Qed.

Lemma foldM_map {A B C} (g : A -> B) (body : C -> B -> M C) c l w :
  foldM body c (map g l) w = foldM (fun c a => body c (g a)) c l w.
Proof.
  revert c w. induction l as [|a l IH]; intros c w; simpl; [done|].
  unfold mbind, M_bind. destruct (body c (g a) w) as [w' [c'|e|f]]; [apply IH|done|done].
Qed.

(** A pure step at the head of a sequence. *)
Lemma triple_lift_bind {A B} (a : A) r (k : A -> M B) fs (Q : B -> filesystem -> Prop) :
  r = Ret a -> triple (k a) fs Q -> triple (mbind k (lift r)) fs Q.
Proof. intros -> Hk w Hw. apply (Hk w Hw). Qed.

Lemma triple_int_bind {B} z (k : Z -> M B) fs (Q : B -> filesystem -> Prop) :
  INT_MIN <= z <= INT_MAX -> triple (k z) fs Q -> triple (mbind k (lift (int_check z))) fs Q.
Proof. intros Hz. by apply triple_lift_bind, int_check_ok. Qed.

Lemma triple_cout_bind {B} s (k : unit -> M B) fs (Q : B -> filesystem -> Prop) :
  triple (k tt) fs Q -> triple (mbind k (put_cout s)) fs Q.
Proof. intros Hk. eapply triple_bind; [by apply (triple_put_cout _ _ (fun _ f => f = fs))|]. by intros [] ? ->. Qed.

Lemma triple_log_bind {B} s (k : unit -> M B) fs (Q : B -> filesystem -> Prop) :
  triple (k tt) fs Q -> triple (mbind k (put_log s)) fs Q.
Proof. intros Hk. eapply triple_bind; [by apply (triple_put_log _ _ (fun _ f => f = fs))|]. by intros [] ? ->. Qed.

Lemma triple_clock_bind `{os : !OS} {B} (k : Z -> M B) fs (Q : B -> filesystem -> Prop) :
  (forall t, triple (k t) fs Q) -> triple (mbind k read_clock) fs Q.
Proof. intros Hk. eapply triple_bind; [by apply (triple_clock _ (fun _ f => f = fs))|]. by intros t ? ->. Qed.

(** Steps that only write to the streams or read the clock. *)
Ltac triple_io :=
  repeat first [ apply triple_cout_bind | apply triple_log_bind
               | apply triple_clock_bind; let t := fresh "t" in intros t ].

Create HintDb triple.
#[export] Hint Resolve triple_put_cout triple_put_cerr triple_put_log triple_clock triple_ret : triple.
