(* ===== verification/BloomValue.v ===== *)
(** * bloom_value

    The value Bloom filter of [bloom_hierarchy/bloom_value.{hpp,cpp}] and its
    file format.  A [std::bitset<2000000>] is the set of its positions that hold
    a one; [std::hash<std::string>] is the class [StdHash]; files are those of
    [World.v]. *)

From Stdlib Require Import ZArith Lia.
From S2P Require Import Prelude CString World.

(** [std::hash<std::string>{}]: any function into [size_t]. *)
Class StdHash := {
  std_hash : str -> Z;
  std_hash_range s : 0 <= std_hash s <= SIZE_MAX
}.

(** ** Bits to bytes and back

    The loops of [saveToFile] and [loadFromFile], for a bitset of [n] bits. *)

Definition buffer_size (n : Z) : nat := Z.to_nat ((n + 7) / 8).

(** [buffer[i / 8] |= bitArray[i] << (i % 8)] *)
Definition pack_step (bits : gset Z) (buffer : str) (i : Z) : str :=
  or_bit buffer i (Z.b2z (bool_decide (i ∈ bits))).

Definition pack (n : Z) (bits : gset Z) : str :=
  foldl (pack_step bits) (replicate (buffer_size n) Byte.x00) (seqZ 0 n).

(** [bitArray[i] = (buffer[i / 8] >> (i % 8)) & 1] *)
Definition unpack_step (buffer : str) (bits : gset Z) (i : Z) : gset Z :=
  let q := Z.to_nat (i / 8) in
  if Z.land (Z.shiftr (char_val (nth q buffer Byte.x00)) (i mod 8)) 1 =? 0
  then bits ∖ {[i]} else {[i]} ∪ bits.

Definition unpack (n : Z) (buffer : str) : gset Z :=
  foldl (unpack_step buffer) ∅ (seqZ 0 n).

(** The four bytes [file.write] takes from an [int] in memory. *)
Definition int_bytes (z : Z) : str :=
  (fun k => z2b (Z.shiftr z (8 * k))) <$> [0; 1; 2; 3].

(** [file.read] of [sizeof(int)] and then of the buffer: a read that meets the
    end of the file sets the fail state, after which the second read does
    nothing; bytes not read keep the zero they were created with. *)
Definition read_buffer (n : Z) (data : str) : str :=
  let got := if (length data <? 4)%nat then [] else take (buffer_size n) (drop 4 data) in
  got ++ replicate (buffer_size n - length got) Byte.x00.

Module bloom_value.

Record bloom_value := mkBloom {
  numHashFunctions : Z;
  bitArray : gset Z
}.

Definition bitArray_size : Z := 2000000.

(** [bloom_value() {}] *)
Definition bloom_value_new : bloom_value := mkBloom 3 ∅.

Section ops.
Context `{os : !OS, sh : !StdHash}.

(** [hash % bitArray.size()] of the [i]-th hash of [key] *)
Definition hash_pos (key : str) (i : Z) : Z :=
  std_hash (key ++ to_string i) mod bitArray_size.

Definition insert (bv : bloom_value) (key : str) : bloom_value :=
  foldl (fun b i => mkBloom (numHashFunctions b) ({[hash_pos key i]} ∪ bitArray b))
    bv (seqZ 0 (numHashFunctions bv)).

(** [bool exists(const std::string& key) const] *)
Definition exists_ (bv : bloom_value) (key : str) : bool :=
  forallb (fun i => bool_decide (hash_pos key i ∈ bitArray bv))
    (seqZ 0 (numHashFunctions bv)).

(** [bool exists(const std::string key[]) const]: the bound is the length of the
    first string. *)
Fixpoint exists_from (bv : bloom_value) (key : list str) (i : Z) (fuel : nat) : result bool :=
  match fuel with
  | O => Ret false
  | S f => k ← vec_at key i;
           if exists_ bv k then Ret true else exists_from bv key (i + 1) f
  end.

Definition exists_array (bv : bloom_value) (key : list str) : result bool :=
  k0 ← vec_at key 0; exists_from bv key 0 (length k0).

Definition open_error (filename : str) : str := $"Error opening file: " ++ filename.

Definition saveToFile (bv : bloom_value) (filename : str) : M unit :=
  ok ← gets (fun w => fs_can_write (w_fs w) filename);
  if ok : bool then
    modify (set_fs (fun fs => fs_write fs filename
      (int_bytes (numHashFunctions bv) ++ pack bitArray_size (bitArray bv))))
  else put_cerr (open_error filename ++ nl).

Definition loadFromFile (filename : str) : M bloom_value :=
  f ← gets (fun w => fs_read (w_fs w) filename);
  match f with
  | None => lift (Throw (RuntimeError (open_error filename)))
  | Some data =>
      mret (mkBloom (numHashFunctions bloom_value_new)
                    (unpack bitArray_size (read_buffer bitArray_size data)))
  end.

Definition createFile (filename : str) : M unit :=
  ok ← gets (fun w => fs_can_write (w_fs w) filename);
  if ok : bool then modify (set_fs (fun fs => fs_write fs filename []))
  else put_cerr (open_error filename ++ nl).

End ops.
End bloom_value.
Import bloom_value (bloom_value, bloom_value_new, bitArray_size, bitArray, numHashFunctions, mkBloom).

(** ** The byte buffer *)

Section buffers.
Implicit Types (bits : gset Z) (buf : str).

Lemma div8_lt n i : 0 <= i < n -> (Z.to_nat (i / 8) < buffer_size n)%nat.
Proof. unfold buffer_size. intros. lia_div. Qed.

Lemma buffer_size_Z n : 0 <= n -> Z.of_nat (buffer_size n) = (n + 7) / 8.
Proof. unfold buffer_size. intros. rewrite Z2Nat.id by lia_div. done. Qed.

Lemma pack_step_bit bits buf i j :
  0 <= i -> 0 <= j -> (Z.to_nat (i / 8) < length buf)%nat ->
  buf_bit (pack_step bits buf i) j =
  buf_bit buf j || (bool_decide (i = j) && bool_decide (i ∈ bits)).
Proof. apply or_bit_spec. Qed.

Lemma pack_step_length bits buf i : length (pack_step bits buf i) = length buf.
Proof. apply or_bit_length. Qed.

Lemma pack_prefix n bits (k : nat) :
  Z.of_nat k <= n ->
  let buf := foldl (pack_step bits) (replicate (buffer_size n) Byte.x00) (seqZ 0 (Z.of_nat k)) in
  length buf = buffer_size n /\
  forall j, 0 <= j -> buf_bit buf j = bool_decide (j < Z.of_nat k) && bool_decide (j ∈ bits).
Proof.
  induction k as [|k IH]; intros Hk buf; subst buf.
  - change (seqZ 0 (Z.of_nat 0)) with (@nil Z). cbn [foldl]. split; [by rewrite length_replicate|]. intros j Hj. rewrite bool_decide_false by lia.
    unfold buf_bit. simpl. rewrite nth_lookup.
    destruct (replicate _ _ !! _) as [x|] eqn:E; simpl.
    + apply lookup_replicate in E as [-> _]. apply Z.bits_0.
    + apply Z.bits_0.
  - rewrite seqZ_S, foldl_app. cbn [foldl]. destruct IH as [IHl IHb]; [lia|].
    split; [by rewrite pack_step_length|]. intros j Hj.
    assert (Z.to_nat ((0 + Z.of_nat k) / 8) < buffer_size n)%nat by (apply div8_lt; lia).
    rewrite pack_step_bit, IHb, Z.add_0_l by (rewrite ?IHl; lia).
    destruct (decide (Z.of_nat k = j)) as [<-|Hne].
    + rewrite (bool_decide_false (Z.of_nat k < Z.of_nat k)) by lia.
      rewrite (bool_decide_true (Z.of_nat k < Z.of_nat (S k))) by lia.
      by rewrite (bool_decide_true (Z.of_nat k = Z.of_nat k)).
    + rewrite (bool_decide_false (_ = j)), orb_false_r by done. f_equal.
      apply bool_decide_ext. lia.
Qed.

Lemma pack_length n bits : 0 <= n -> length (pack n bits) = buffer_size n.
Proof.
  intros. unfold pack. rewrite <- (Z2Nat.id n) at 2 by done. apply (pack_prefix n bits). lia.
Qed.

Lemma pack_bit n bits j :
  0 <= n -> 0 <= j < n -> buf_bit (pack n bits) j = bool_decide (j ∈ bits).
Proof.
  intros Hn Hj. unfold pack. rewrite <- (Z2Nat.id n) at 2 by done.
  rewrite (proj2 (pack_prefix n bits (Z.to_nat n) ltac:(lia))) by lia.
  by rewrite bool_decide_true by lia.
Qed.

Lemma unpack_step_elem buf bits i j :
  0 <= i ->
  j ∈ unpack_step buf bits i <-> if decide (j = i) then buf_bit buf i = true else j ∈ bits.
Proof.
  intros Hi. unfold unpack_step. rewrite land_1_testbit, Z.shiftr_spec, Z.add_0_l by lia.
  rewrite char_val_testbit by lia_div. fold (buf_bit buf i).
  destruct (buf_bit buf i); simpl; case_decide; set_solver.
Qed.

Lemma unpack_elem n buf j :
  j ∈ unpack n buf <-> 0 <= j < n /\ buf_bit buf j = true.
Proof.
  unfold unpack. destruct (decide (0 <= n)) as [Hn|Hn].
  2: { rewrite seqZ_nil by lia. simpl. split; [set_solver|lia]. }
  rewrite <- (Z2Nat.id n) by done. generalize (Z.to_nat n) as k. clear n Hn.
  induction k as [|k IH].
  - simpl. split; [set_solver|lia].
  - rewrite seqZ_S, foldl_app. cbn [foldl]. rewrite unpack_step_elem, Z.add_0_l by lia.
    case_decide as E; [subst|rewrite IH]; intuition lia.
Qed.

(** The two loops are inverse of each other on a bitset of [n] bits. *)
Lemma unpack_pack n bits :
  0 <= n -> (forall i, i ∈ bits -> 0 <= i < n) -> unpack n (pack n bits) = bits.
Proof.
  intros Hn Hr. apply set_eq. intros j. rewrite unpack_elem. split.
  - intros [Hj Hb]. rewrite pack_bit in Hb by done. by apply bool_decide_eq_true in Hb.
  - intros Hj. split; [auto|]. rewrite pack_bit by auto. by apply bool_decide_eq_true.
Qed.

Lemma int_bytes_length z : length (int_bytes z) = 4%nat.
Proof. done. Qed.

Lemma read_buffer_length n data : length (read_buffer n data) = buffer_size n.
Proof.
  unfold read_buffer. rewrite length_app, length_replicate.
  case_match; simpl; [|rewrite length_take]; lia.
Qed.

Lemma read_buffer_full n hdr buf :
  length hdr = 4%nat -> length buf = buffer_size n -> read_buffer n (hdr ++ buf) = buf.
Proof.
  intros Hh Hb. unfold read_buffer.
  destruct (Nat.ltb_spec (length (hdr ++ buf)) 4) as [Hl|_];
    [rewrite length_app in Hl; lia|].
  rewrite <- Hh, drop_app_length, take_ge by lia.
  by rewrite Hb, Nat.sub_diag, app_nil_r.
Qed.

(** A file with fewer than four bytes gives an all-zero buffer. *)
Lemma read_buffer_short n data :
  (length data < 4)%nat -> read_buffer n data = replicate (buffer_size n) Byte.x00.
Proof.
  intros Hl. unfold read_buffer. destruct (Nat.ltb_spec (length data) 4); [|lia].
  by rewrite Nat.sub_0_r.
Qed.

Lemma unpack_zeros n k : unpack n (replicate k Byte.x00) = ∅.
Proof.
  apply set_eq. intros j. rewrite unpack_elem. unfold buf_bit. rewrite nth_lookup.
  split; [|set_solver]. intros [_ Hb].
  assert (default Byte.x00 (replicate k Byte.x00 !! Z.to_nat (j / 8)) = Byte.x00) as Hz.
  { destruct (replicate _ _ !! _) eqn:E; [|done]. by apply lookup_replicate in E as [-> _]. }
  rewrite Hz in Hb. change (b2z Byte.x00) with 0 in Hb. by rewrite Z.bits_0 in Hb.
Qed.

End buffers.

(** The loops run over two million positions: proofs use the lemmas above and
    never unfold them. *)
#[global] Opaque pack unpack read_buffer buffer_size.

(** ** The filter *)

Section filter.
Context `{os : !OS, sh : !StdHash}.
Implicit Types (bv : bloom_value) (k : str).
Import bloom_value.

(** Every filter of the program has the three hash functions of the constructor
    and ones only at positions of the bitset. *)
Record bloom_wf bv : Prop := {
  wf_hashes : numHashFunctions bv = 3;
  wf_bits i : i ∈ bitArray bv -> 0 <= i < bitArray_size
}.

Lemma bitArray_size_pos : 0 < bitArray_size.
Proof. reflexivity. Qed.

Lemma bitArray_size_nonneg : 0 <= bitArray_size.
Proof. apply Z.lt_le_incl, bitArray_size_pos. Qed.

Lemma hash_pos_range k i : 0 <= hash_pos k i < bitArray_size.
Proof. apply Z.mod_pos_bound, bitArray_size_pos. Qed.

Lemma new_wf : bloom_wf bloom_value_new.
Proof. split; [done|]. set_solver. Qed.

(** The positions [insert] sets for a key. *)
Definition key_bits (n : Z) k : gset Z := list_to_set (hash_pos k <$> seqZ 0 n).

Lemma elem_of_key_bits n k j : j ∈ key_bits n k <-> exists i, 0 <= i < n /\ j = hash_pos k i.
Proof.
  unfold key_bits. rewrite elem_of_list_to_set, list_elem_of_fmap.
  setoid_rewrite elem_of_seqZ. naive_solver lia.
Qed.

Lemma insert_spec bv k :
  insert bv k = mkBloom (numHashFunctions bv) (key_bits (numHashFunctions bv) k ∪ bitArray bv).
Proof.
  unfold insert, key_bits. generalize (seqZ 0 (numHashFunctions bv)) as l.
  intros l. destruct bv as [n bs]. simpl. revert bs.
  induction l as [|i l IH]; intros bs; simpl.
  - f_equal. set_solver.
  - rewrite IH. simpl. f_equal. set_solver.
Qed.

Lemma exists_spec bv k :
  exists_ bv k = true <-> key_bits (numHashFunctions bv) k ⊆ bitArray bv.
Proof.
  unfold exists_. rewrite forallb_forall.
  setoid_rewrite <- list_elem_of_In. setoid_rewrite bool_decide_eq_true.
  setoid_rewrite elem_of_seqZ. split.
  - intros H j (i & Hi & ->)%elem_of_key_bits. apply H. lia.
  - intros H i Hi. apply H, elem_of_key_bits. exists i. split; [lia|done].
Qed.

Lemma insert_wf bv k : bloom_wf bv -> bloom_wf (insert bv k).
Proof.
  intros [Hn Hb]. rewrite insert_spec. split; [done|]. simpl.
  intros i [(j & _ & ->)%elem_of_key_bits|Hi]%elem_of_union; [apply hash_pos_range|auto].
Qed.

Lemma inserts_wf bv ks : bloom_wf bv -> bloom_wf (foldl insert bv ks).
Proof. revert bv. induction ks; simpl; auto using insert_wf. Qed.

(** What a sequence of insertions leaves in the bitset. *)
Lemma inserts_spec bv ks :
  foldl insert bv ks =
  mkBloom (numHashFunctions bv) (bitArray bv ∪ ⋃ (key_bits (numHashFunctions bv) <$> ks)).
Proof.
  revert bv. induction ks as [|k ks IH]; intros bv; simpl.
  - destruct bv. simpl. f_equal. set_solver.
  - rewrite IH, insert_spec. simpl. f_equal. set_solver.
Qed.

(** A filter whose bits are a superset answers [true] at least as often. *)
Lemma exists_mono bv bv' k :
  numHashFunctions bv = numHashFunctions bv' -> bitArray bv ⊆ bitArray bv' ->
  exists_ bv k = true -> exists_ bv' k = true.
Proof. rewrite !exists_spec. intros <-. set_solver. Qed.

Lemma inserts_exists bv ks k : k ∈ ks -> exists_ (foldl insert bv ks) k = true.
Proof.
  intros Hk. rewrite exists_spec, inserts_spec. simpl.
  intros j Hj. apply elem_of_union. right. apply elem_of_union_list.
  exists (key_bits (numHashFunctions bv) k). split; [|done]. by apply list_elem_of_fmap_2.
Qed.

Lemma empty_exists_false n k : 0 < n -> exists_ (mkBloom n ∅) k = false.
Proof.
  intros Hn. apply not_true_is_false. rewrite exists_spec. simpl. intros H.
  assert (hash_pos k 0 ∈ key_bits n k) as Hin.
  { apply elem_of_key_bits. exists 0. split; [lia|done]. }
  specialize (H _ Hin). set_solver.
Qed.

Lemma exists_from_spec bv key i fuel :
  0 <= i ->
  exists_from bv key i fuel =
  if existsb (exists_ bv) (take fuel (drop (Z.to_nat i) key)) then Ret true
  else if (length key - Z.to_nat i <? fuel)%nat then Crash OutOfBounds else Ret false.
Proof.
  revert i. induction fuel as [|f IH]; intros i Hi; cbn [exists_from]; [done|].
  unfold vec_at. destruct (Z.ltb_spec i 0); [lia|].
  destruct (key !! Z.to_nat i) as [k|] eqn:E; cbn [mbind result_bind].
  - rewrite (drop_S _ _ _ E). cbn [take existsb]. destruct (exists_ bv k); [done|].
    rewrite IH by lia. replace (Z.to_nat (i + 1)) with (S (Z.to_nat i)) by lia.
    cbn [orb]. apply lookup_lt_Some in E. case_match; [done|].
    destruct (Nat.ltb_spec (length key - S (Z.to_nat i)) f),
      (Nat.ltb_spec (length key - Z.to_nat i) (S f)); try done; lia.
  - apply lookup_ge_None in E. rewrite drop_ge by done. rewrite take_nil. cbn [existsb].
    destruct (Nat.ltb_spec (length key - Z.to_nat i) (S f)); [done|lia].
Qed.

(** Contents of a file written by [saveToFile]. *)
Definition bloom_file (bv : bloom_value) : str :=
  int_bytes (numHashFunctions bv) ++ pack bitArray_size (bitArray bv).

Definition decode_file (data : str) : bloom_value :=
  mkBloom (numHashFunctions bloom_value_new)
          (unpack bitArray_size (read_buffer bitArray_size data)).

Lemma decode_bloom_file bv : bloom_wf bv -> decode_file (bloom_file bv) = bv.
Proof.
  intros [Hn Hb]. unfold decode_file, bloom_file.
  rewrite read_buffer_full; [|apply int_bytes_length|apply pack_length, bitArray_size_nonneg].
  rewrite unpack_pack; [|apply bitArray_size_nonneg|exact Hb].
  destruct bv. cbn in Hn. by subst.
Qed.

Lemma decode_short data : (length data < 4)%nat -> decode_file data = bloom_value_new.
Proof.
  intros Hl. unfold decode_file. rewrite read_buffer_short by exact Hl. by rewrite unpack_zeros.
Qed.

Lemma decode_wf data : bloom_wf (decode_file data).
Proof. split; [done|]. intros i Hi. apply unpack_elem in Hi. exact (proj1 Hi). Qed.

Lemma saveToFile_ok bv p w :
  fs_can_write (w_fs w) p = true ->
  saveToFile bv p w = (set_fs (fun fs => fs_write fs p (bloom_file bv)) w, Ret ()).
Proof. intros H. unfold saveToFile, mbind, M_bind, gets. by rewrite H. Qed.

Lemma loadFromFile_ok p w data :
  fs_read (w_fs w) p = Some data -> loadFromFile p w = (w, Ret (decode_file data)).
Proof. intros H. unfold loadFromFile, mbind, M_bind, gets. by rewrite H. Qed.

Lemma createFile_ok p w :
  fs_can_write (w_fs w) p = true ->
  createFile p w = (set_fs (fun fs => fs_write fs p []) w, Ret ()).
Proof. intros H. unfold createFile, mbind, M_bind, gets. by rewrite H. Qed.

End filter.

#[export] Hint Resolve new_wf insert_wf inserts_wf decode_wf : bloom.

(** ** A concrete hash: 64-bit FNV-1a *)

Definition fnv1a (s : str) : Z :=
  foldl (fun h b => wrap 64 (Z.lxor h (b2z b) * 1099511628211)) 14695981039346656037 s.

Lemma fnv1a_range s : 0 <= fnv1a s <= SIZE_MAX.
Proof.
  unfold fnv1a. assert (0 <= 14695981039346656037 <= SIZE_MAX) as H0 by done. revert H0.
  generalize 14695981039346656037 as h. induction s as [|b s IH]; intros h Hh; simpl; [done|].
  apply IH. pose proof (wrap_range 64 (Z.lxor h (b2z b) * 1099511628211) ltac:(lia)).
  unfold SIZE_MAX. lia.
Qed.

Definition demo_hash : StdHash := {| std_hash := fnv1a; std_hash_range := fnv1a_range |}.

(** ** Properties *)

Section properties.
Context `{os : !OS, sh : !StdHash}.
Import bloom_value.

(** C5: a filter never forgets: after any sequence of insertions, every inserted
    value, and every value it already answered for, is reported as present. *)
Theorem insert_no_false_negative bv ks k :
  k ∈ ks \/ exists_ bv k = true -> exists_ (foldl insert bv ks) k = true.
Proof.
  intros [Hk|Hk]; [by apply inserts_exists|].
  eapply exists_mono, Hk; rewrite inserts_spec; [done|]. set_solver.
Qed.

(** the exact answer of a filter built from scratch: a value is reported iff
    each of its three positions is a position of some inserted value, so a false
    positive is always a collision of hash positions. *)
Theorem exists_after_inserts_iff ks k :
  exists_ (foldl insert bloom_value_new ks) k = true <->
  forall i, 0 <= i < 3 ->
    exists k' i', k' ∈ ks /\ 0 <= i' < 3 /\ hash_pos k i = hash_pos k' i'.
Proof.
  rewrite exists_spec, inserts_spec. simpl. rewrite union_empty_l_L. split.
  - intros Hs i Hi.
    assert (hash_pos k i ∈ key_bits 3 k) as Hin by (apply elem_of_key_bits; eauto).
    apply Hs, elem_of_union_list in Hin as (X & HX & Hj).
    apply list_elem_of_fmap in HX as (k' & -> & Hk').
    apply elem_of_key_bits in Hj as (i' & Hi' & He). eauto.
  - intros Hc j (i & Hi & ->)%elem_of_key_bits.
    destruct (Hc i Hi) as (k' & i' & Hk' & Hi' & ->). apply elem_of_union_list.
    exists (key_bits 3 k'). split; [by apply list_elem_of_fmap_2|].
    apply elem_of_key_bits. eauto.
Qed.

(** C6: a well-formed filter written by [saveToFile] and read back by
    [loadFromFile] is the same filter, nothing else of the state changes, and the
    file has 250004 bytes. *)
Theorem save_load_roundtrip bv p w :
  bloom_wf bv -> fs_can_write (w_fs w) p = true ->
  (_ ← saveToFile bv p; loadFromFile p) w =
    (set_fs (fun fs => fs_write fs p (bloom_file bv)) w, Ret bv) /\
  str_size (bloom_file bv) = 250004.
Proof.
  intros Hwf Hw. split.
  - rewrite (M_bind_Ret _ _ _ _ _ (saveToFile_ok bv p w Hw)).
    rewrite (loadFromFile_ok _ _ (bloom_file bv)) by apply fs_read_write_eq.
    by rewrite decode_bloom_file.
  - unfold str_size, bloom_file. rewrite length_app, int_bytes_length.
    rewrite pack_length by apply bitArray_size_nonneg. rewrite Nat2Z.inj_add.
    rewrite buffer_size_Z by apply bitArray_size_nonneg. reflexivity.
Qed.

(** reading back a file that [createFile] made (or any file cut below four
    bytes) gives the empty filter, which reports no value: the loader does not
    notice a missing bit array. *)
Theorem load_created_empty p w data :
  fs_can_write (w_fs w) p = true -> (length data < 4)%nat ->
  (_ ← createFile p; loadFromFile p) w =
    (set_fs (fun fs => fs_write fs p []) w, Ret bloom_value_new) /\
  (fs_read (w_fs w) p = Some data -> loadFromFile p w = (w, Ret bloom_value_new)) /\
  (forall k, exists_ bloom_value_new k = false).
Proof.
  intros Hw Hl. split_and!.
  - rewrite (M_bind_Ret _ _ _ _ _ (createFile_ok p w Hw)).
    rewrite (loadFromFile_ok _ _ []) by apply fs_read_write_eq.
    by rewrite decode_short by (simpl; lia).
  - intros Hr. rewrite (loadFromFile_ok _ _ data Hr). by rewrite decode_short.
  - intros k. by apply empty_exists_false.
Qed.

(** what the overload of [exists] on an array computes on every input: it
    looks at as many strings as the first one has characters, answers [true] at
    the first hit among them, and reads past the end of the array when the first
    string is longer than the array and nothing was found. *)
Theorem exists_array_spec bv key :
  exists_array bv key =
  match key with
  | [] => Crash OutOfBounds
  | k0 :: _ =>
      if existsb (exists_ bv) (take (length k0) key) then Ret true
      else if (length key <? length k0)%nat then Crash OutOfBounds else Ret false
  end.
Proof.
  destruct key as [|k0 rest]; [done|]. unfold exists_array. cbn [mbind result_bind vec_at].
  change (vec_at (k0 :: rest) 0) with (Ret k0). cbn [mbind result_bind].
  generalize (k0 :: rest) as key. intros key.
  pose proof (exists_from_spec bv key 0 (length k0)) as H. rewrite Z2Nat.inj_0, drop_0 in H.
  rewrite H by lia. repeat case_match; try done; rewrite ?Nat.sub_0_r in *; congruence.
Qed.

End properties.

(** ** The properties at work *)

Section witnesses.
#[local] Existing Instance demo_os.
#[local] Existing Instance demo_hash.
Import bloom_value.

Definition demo_keys : list str := [$"Value1"; $"Value2"; $"Value3"].
Definition demo_filter : bloom_value := foldl insert bloom_value_new demo_keys.
Definition demo_fs : filesystem := mkFS {[ $"db" := ∅ ]} ∅.

Lemma insert_no_false_negative_witness :
  exists_ (foldl insert bloom_value_new demo_keys) ($"Value2") = true.
Proof. apply insert_no_false_negative. left. by apply (bool_decide_unpack _). Defined.

Lemma save_load_roundtrip_witness :
  (_ ← saveToFile demo_filter ($"db/000005.bloom"); loadFromFile ($"db/000005.bloom"))
    (demo_world demo_fs) =
  (set_fs (fun fs => fs_write fs ($"db/000005.bloom") (bloom_file demo_filter)) (demo_world demo_fs),
   Ret demo_filter) /\
  str_size (bloom_file demo_filter) = 250004.
Proof.
  apply save_load_roundtrip; [apply inserts_wf, new_wf|vm_compute; reflexivity].
Defined.

Lemma load_created_empty_witness :
  (_ ← createFile ($"db/f"); loadFromFile ($"db/f")) (demo_world demo_fs) =
    (set_fs (fun fs => fs_write fs ($"db/f") []) (demo_world demo_fs), Ret bloom_value_new) /\
  (fs_read (w_fs (demo_world demo_fs)) ($"db/f") = Some [Byte.x03] ->
   loadFromFile ($"db/f") (demo_world demo_fs) = (demo_world demo_fs, Ret bloom_value_new)) /\
  (forall k, exists_ bloom_value_new k = false).
Proof.
  apply load_created_empty; [vm_compute; reflexivity|simpl; lia].
Defined.

(** A filter that holds only the second of two strings: the array overload, given
    a first string of one character, does not look at the second. *)
Example exists_array_misses :
  exists_array (insert bloom_value_new ($"b")) [$"a"; $"b"] = Ret false.
Proof. vm_compute. reflexivity. Qed.

Example demo_filter_answers :
  (exists_ demo_filter ($"Value3"), exists_ demo_filter ($"Value4")) = (true, false).
Proof. vm_compute. reflexivity. Qed.

Example pack_small : unpack 20 (pack 20 {[0; 7; 8; 19]}) = {[0; 7; 8; 19]}.
Proof. vm_compute. reflexivity. Qed.

End witnesses.
