(* ===== verification/BloomTree.v ===== *)
(** * Node and bloomTree

    The hierarchy of [bloom_hierarchy/node.{hpp,cpp}] and
    [bloom_hierarchy/bloomTree.{hpp,cpp}]: leaves hold the filter of one file,
    inner nodes (named ["Memory"]) the union of their children's filters.  Nodes
    are never changed once they are linked, so a [Node*] is the tree below it.
    [createLevel] recurses on the level it has just built; the model counts the
    recursive calls with fuel and [createLevel_spec] bounds them. *)

From Stdlib Require Import ZArith Lia.
From S2P Require Import Prelude CString World BloomValue.
Import bloom_value (bloom_value, bloom_value_new, bitArray, numHashFunctions, mkBloom, exists_).

(** ** Node *)

Inductive Node := mkNode {
  children : list Node;
  blValue : bloom_value;
  filename : str
}.

Definition Memory : str := $"Memory".

(** [Node(bloom_value bv, std::string filename)] *)
Definition Node_leaf (bv : bloom_value) (filename : str) : Node := mkNode [] bv filename.

(** [Node()] *)
Definition Node_memory : Node := mkNode [] bloom_value_new Memory.

(** The [while] loop of [addchildren]. *)
Fixpoint addchildren_loop (fuel : nat) (j stop size : Z) (nodes acc : list Node)
    : result (list Node) :=
  match fuel with
  | O => Crash OutOfFuel
  | S f =>
      if (j <? stop) && (j <? size) then
        n ← vec_at nodes j;
        j' ← int_check (j + 1);
        addchildren_loop f j' stop size nodes (acc ++ [n])
      else Ret acc
  end.

Definition addchildren (this : Node) (i ratio : Z) (nodes : list Node) : result Node :=
  let size := int_of (Z.of_nat (length nodes)) in
  stop ← int_check (i + ratio);
  cs ← addchildren_loop (S (length nodes)) i stop size nodes (children this);
  Ret (mkNode cs (blValue this) (filename this)).

(** ** bloomTree *)

Record bloomTree := mkTree {
  ratio : Z;
  root : option Node;          (* [Node *root], not initialised by the constructor *)
  leafNodes : list Node;
  foundInHierarchy : Z;
  bloomNames : list str
}.

(** [bloomTree(int ratio)] *)
Definition bloomTree_new (ratio : Z) : bloomTree := mkTree ratio None [] 0 [].

Definition createLeafLevel (t : bloomTree) (bv : bloom_value) (filename : str) : bloomTree :=
  mkTree (ratio t) (root t) (leafNodes t ++ [Node_leaf bv filename])
         (foundInHierarchy t) (bloomNames t).

(** The body of the loop of [createLevel]: one node of the next level. *)
Definition or_child (bv : bloom_value) (child : Node) : bloom_value :=
  mkBloom (numHashFunctions bv) (bitArray bv ∪ bitArray (blValue child)).

Definition level_node (ratio : Z) (nodes : list Node) (i : Z) : result Node :=
  pos ← int_check (i * ratio);
  n ← addchildren Node_memory pos ratio nodes;
  Ret (mkNode (children n) (foldl or_child (blValue n) (children n)) (filename n)).

Fixpoint createLevel (fuel : nat) (ratio : Z) (nodes : list Node) : result Node :=
  match fuel with
  | O => Crash OutOfFuel
  | S f =>
      let size := int_of (Z.of_nat (length nodes)) in
      if ratio =? 0 then Crash DivByZero else
      let loop := Z.quot size ratio in
      levelNodes ← mapR (level_node ratio nodes) (seqZ 0 (loop + 1));
      let levelsize := int_of (Z.of_nat (length levelNodes)) in
      if 1 <? levelsize then createLevel f ratio levelNodes
      else vec_at levelNodes 0
  end.

Definition createTree (t : bloomTree) : result bloomTree :=
  r ← createLevel (S (length (leafNodes t))) (ratio t) (leafNodes t);
  Ret (mkTree (ratio t) (Some r) (leafNodes t) (foundInHierarchy t) (bloomNames t)).

Section queries.
Context `{sh : !StdHash}.

(** [void checkExistance(Node* n, std::string value)]: appends to [bloomNames],
    counts in [foundInHierarchy]. *)
Fixpoint checkExistance_node (n : Node) (value : str) (st : list str * Z) : list str * Z :=
  if negb (str_eqb (filename n) Memory) then (st.1 ++ [filename n], st.2)
  else if exists_ (blValue n) value then
    foldl (fun st child => checkExistance_node child value st) (st.1, st.2 + 1) (children n)
  else st.

Definition checkExistance (t : bloomTree) (value : str) : result (bloomTree * list str) :=
  match root t with
  | None => Crash Uninitialized
  | Some r =>
      let '(names, found) := checkExistance_node r value (bloomNames t, foundInHierarchy t) in
      Ret (mkTree (ratio t) (root t) (leafNodes t) found names, names)
  end.

Definition GetScannedHierarchyFilters (t : bloomTree) : Z := foundInHierarchy t.

(** [void checkExistanceThread(Node* n, std::string value, std::vector<std::string>& blNames)] *)
Fixpoint checkExistanceThread_node (n : Node) (value : str) (blNames : list str) : list str :=
  if negb (str_eqb (filename n) Memory) then blNames ++ [filename n]
  else if exists_ (blValue n) value then
    foldl (fun names child => checkExistanceThread_node child value names) blNames (children n)
  else blNames.

Definition checkExistanceThread (t : bloomTree) (value : str) : result (list str) :=
  match root t with
  | None => Crash Uninitialized
  | Some r => Ret (checkExistanceThread_node r value [])
  end.

End queries.

(** [void traverse(Node* n)]: what it prints. *)
Fixpoint traverse_node (n : Node) : str :=
  filename n ++ nl
  ++ $"Bloom Size: " ++ dec bloom_value.bitArray_size ++ nl
  ++ $"Number of 0 in Bloom: "
  ++ dec (bloom_value.bitArray_size - Z.of_nat (size (bitArray (blValue n)))) ++ nl
  ++ concat (map traverse_node (children n)).

Definition traverse (n : option Node) : str :=
  match n with None => [] | Some n => traverse_node n end.

(** ** Induction over trees *)

Lemma Node_rect_list (P : Node -> Prop) :
  (forall cs bv f, Forall P cs -> P (mkNode cs bv f)) -> forall n, P n.
Proof.
  intros H. fix IH 1. intros [cs bv f]. apply H.
  induction cs as [|c cs IHcs]; constructor; [apply IH | exact IHcs].
Qed.

(** ** Abstract view

    [leaves] are the nodes a query can report, in order; [leaf_paths] pairs each
    leaf's name with the filters met on the way to it; [inner_paths] lists for
    each inner node the filters from the root to the node itself. *)
Fixpoint leaves (n : Node) : list Node :=
  if negb (str_eqb (filename n) Memory) then [n] else concat (map leaves (children n)).

Fixpoint leaf_paths (n : Node) : list (list bloom_value * str) :=
  if negb (str_eqb (filename n) Memory) then [([], filename n)]
  else map (fun '(path, f) => (blValue n :: path, f)) (concat (map leaf_paths (children n))).

Fixpoint inner_paths (n : Node) : list (list bloom_value) :=
  if negb (str_eqb (filename n) Memory) then []
  else [blValue n] :: map (cons (blValue n)) (concat (map inner_paths (children n))).

(** The invariant of a hierarchy: an inner node's filter is the union of its
    children's filters. *)
Inductive hier_ok : Node -> Prop :=
  | hier_leaf n : filename n <> Memory -> hier_ok n
  | hier_inner cs :
      Forall hier_ok cs ->
      hier_ok (mkNode cs (mkBloom 3 (⋃ ((bitArray ∘ blValue) <$> cs))) Memory).

(** ** One level *)

Definition mem_node (cs : list Node) : Node :=
  mkNode cs (mkBloom 3 (⋃ ((bitArray ∘ blValue) <$> cs))) Memory.

Lemma or_children bv cs :
  foldl or_child bv cs =
  mkBloom (numHashFunctions bv) (bitArray bv ∪ ⋃ ((bitArray ∘ blValue) <$> cs)).
Proof.
  revert bv. induction cs as [|c cs IH]; intros bv; simpl.
  - destruct bv. simpl. f_equal. set_solver.
  - rewrite IH. simpl. f_equal. set_solver.
Qed.

(** [addchildren] copies the segment of [nodes] that starts at [i]. *)
Lemma addchildren_loop_spec fuel j stop nodes acc :
  0 <= j -> Z.of_nat (length nodes) <= INT_MAX ->
  Z.of_nat (length nodes) - j < Z.of_nat fuel -> 0 < Z.of_nat fuel ->
  addchildren_loop fuel j stop (Z.of_nat (length nodes)) nodes acc =
  Ret (acc ++ take (Z.to_nat (stop - j)) (drop (Z.to_nat j) nodes)).
Proof.
  revert j acc. induction fuel as [|f IH]; intros j acc Hj Hsz Hf Hpos; [lia|].
  cbn [addchildren_loop].
  destruct (Z.ltb_spec j stop) as [Hs|Hs]; cbn [andb].
  2: { replace (Z.to_nat (stop - j)) with 0%nat by lia. by rewrite take_0, app_nil_r. }
  destruct (Z.ltb_spec j (Z.of_nat (length nodes))) as [Hl|Hl].
  2: { rewrite drop_ge by lia. by rewrite take_nil, app_nil_r. }
  destruct (lookup_lt_is_Some_2 nodes (Z.to_nat j)) as [n Hn]; [lia|].
  rewrite (vec_at_ok _ _ n) by done. cbn [mbind result_bind].
  rewrite int_check_ok by (unfold INT_MIN in *; lia). cbn [mbind result_bind].
  rewrite IH by lia. f_equal. rewrite <- app_assoc. f_equal.
  replace (Z.to_nat (stop - j)) with (S (Z.to_nat (stop - (j + 1)))) by lia.
  rewrite (drop_S _ _ _ Hn). cbn [take app]. do 2 f_equal.
  f_equal. lia.
Qed.

Lemma level_node_spec ratio nodes i :
  0 < ratio -> 0 <= i * ratio <= Z.of_nat (length nodes) -> 0 <= i ->
  Z.of_nat (length nodes) + ratio <= INT_MAX ->
  level_node ratio nodes i =
  Ret (mem_node (take (Z.to_nat ratio) (drop (Z.to_nat (i * ratio)) nodes))).
Proof.
  intros Hr Hi Hi0 Hsz. unfold level_node, addchildren.
  assert (INT_MIN < 0) by done.
  rewrite int_check_ok by lia. cbn [mbind result_bind].
  rewrite int_check_ok by lia. cbn [mbind result_bind].
  rewrite swrap32_small by lia. rewrite addchildren_loop_spec; [| lia | lia | lia | lia]. cbn [mbind result_bind children blValue filename Node_memory].
  rewrite or_children. cbn [app bloom_value_new numHashFunctions bitArray].
  rewrite union_empty_l_L. do 2 f_equal. unfold mem_node.
  by replace (i * ratio + ratio - i * ratio) with ratio by lia.
Qed.

(** The segments of all the positions of a level, in order, are the level below. *)
Lemma chunks_concat {A} (r k : nat) (l : list A) :
  concat (map (fun i => take r (drop (Z.to_nat (i * Z.of_nat r)) l)) (seqZ 0 (Z.of_nat k)))
  = take (k * r) l.
Proof.
  induction k as [|k IH]; [done|].
  rewrite seqZ_S, map_app, concat_app, IH. simpl. rewrite app_nil_r.
  rewrite Z.add_0_l, <- Nat2Z.inj_mul, Nat2Z.id.
  rewrite take_take_drop. f_equal. lia.
Qed.

Lemma level_spec ratio nodes :
  0 < ratio -> Z.of_nat (length nodes) + ratio <= INT_MAX ->
  let loop := Z.quot (int_of (Z.of_nat (length nodes))) ratio in
  exists css,
    mapR (level_node ratio nodes) (seqZ 0 (loop + 1)) = Ret (mem_node <$> css) /\
    concat css = nodes /\ Z.of_nat (length css) = Z.of_nat (length nodes) / ratio + 1.
Proof.
  intros Hr Hsz loop. assert (INT_MIN < 0) by done.
  assert (0 <= Z.of_nat (length nodes) / ratio) by (apply Z.div_pos; lia).
  pose proof (Z.mul_div_le (Z.of_nat (length nodes)) ratio Hr).
  pose proof (Z.mul_succ_div_gt (Z.of_nat (length nodes)) ratio Hr).
  assert (loop = Z.of_nat (length nodes) / ratio) as Hloop.
  { subst loop. rewrite swrap32_small by lia. apply Z.quot_div_nonneg; lia. }
  clearbody loop. subst loop.
  exists (map (fun i => take (Z.to_nat ratio) (drop (Z.to_nat (i * ratio)) nodes))
            (seqZ 0 (Z.of_nat (length nodes) / ratio + 1))).
  split_and!.
  - rewrite (mapR_Ret _ (fun i => mem_node (take (Z.to_nat ratio)
      (drop (Z.to_nat (i * ratio)) nodes)))).
    { f_equal. unfold fmap. induction (seqZ _ _); simpl; [done|]. by f_equal. }
    intros i [Hi0 Hi1]%elem_of_seqZ. apply level_node_spec; try lia.
    nia.
  - pose proof (chunks_concat (Z.to_nat ratio) (Z.to_nat (Z.of_nat (length nodes) / ratio + 1)) nodes) as H'.
    rewrite (Z2Nat.id ratio), (Z2Nat.id (_ / _ + 1)) in H' by lia. rewrite H'. apply take_ge.
    nia.
  - rewrite length_map, length_seqZ, Z2Nat.id by lia. done.
Qed.

(** ** Building the tree *)

Lemma leaves_mem_node cs : leaves (mem_node cs) = concat (map leaves cs).
Proof. done. Qed.

Lemma leaves_levels css :
  concat (map leaves (mem_node <$> css)) = concat (map leaves (concat css)).
Proof.
  induction css as [|cs css IH]; [done|].
  cbn [fmap list_fmap map concat]. rewrite map_app, concat_app. f_equal. exact IH.
Qed.

Lemma mem_node_ok cs : Forall hier_ok cs -> hier_ok (mem_node cs).
Proof. apply hier_inner. Qed.

Lemma mem_nodes_ok css : Forall hier_ok (concat css) -> Forall hier_ok (mem_node <$> css).
Proof.
  induction css as [|cs css IH]; simpl; [done|].
  rewrite Forall_app. intros [H1 H2]. constructor; [by apply mem_node_ok|auto].
Qed.

(** With a ratio of at least three every level is strictly smaller than the one
    below it, so as many recursive calls as there are leaves are enough. *)
Lemma createLevel_spec fuel ratio nodes :
  3 <= ratio -> Z.of_nat (length nodes) + ratio <= INT_MAX ->
  (length nodes < fuel)%nat ->
  exists cs, createLevel fuel ratio nodes = Ret (mem_node cs) /\
             concat (map leaves cs) = concat (map leaves nodes) /\
             (Forall hier_ok nodes -> Forall hier_ok cs).
Proof.
  revert nodes. induction fuel as [|f IH]; intros nodes Hr Hsz Hf; [lia|].
  cbn [createLevel]. destruct (Z.eqb_spec ratio 0); [lia|].
  destruct (level_spec ratio nodes) as (css & -> & Hcat & Hlen); [lia|done|].
  assert (0 <= Z.of_nat (length nodes) / ratio) by (apply Z.div_pos; lia).
  pose proof (Z.mul_div_le (Z.of_nat (length nodes)) ratio ltac:(lia)).
  cbn [mbind result_bind]. rewrite length_fmap, swrap32_small by (unfold INT_MIN; nia).
  destruct (Z.ltb_spec 1 (Z.of_nat (length css))) as [H1|H1].
  - assert (length css < length nodes)%nat as Hlt by nia.
    destruct (IH (mem_node <$> css)) as (cs & -> & Hl & Hok);
      rewrite ?length_fmap; try lia.
    exists cs. split_and!; [done| |].
    + by rewrite Hl, leaves_levels, Hcat.
    + intros Hn. apply Hok, mem_nodes_ok. by rewrite Hcat.
  - destruct css as [|cs [|]]; simpl in H1, Hlen; try lia.
    exists cs. simpl in Hcat. rewrite app_nil_r in Hcat. subst nodes. done.
Qed.

(** A ratio of two keeps two nodes at every level, a ratio of one grows the level:
    the recursion of [createLevel] never reaches a single node. *)
Lemma createLevel_diverges fuel ratio nodes :
  1 <= ratio <= 2 -> ratio <= Z.of_nat (length nodes) ->
  Z.of_nat (length nodes) + Z.of_nat fuel + ratio <= INT_MAX ->
  createLevel fuel ratio nodes = Crash OutOfFuel.
Proof.
  revert nodes. induction fuel as [|f IH]; intros nodes Hr Hn Hsz; [done|].
  cbn [createLevel]. destruct (Z.eqb_spec ratio 0); [lia|].
  destruct (level_spec ratio nodes) as (css & -> & Hcat & Hlen); [lia|lia|].
  assert (ratio = 1 \/ ratio = 2) as [-> | ->] by lia.
  all: cbn [mbind result_bind]; rewrite length_fmap, swrap32_small by (unfold INT_MIN; lia_div).
  all: destruct (Z.ltb_spec 1 (Z.of_nat (length css))); [|lia_div].
  all: apply IH; rewrite ?length_fmap; lia_div.
Qed.

Lemma createTree_spec t :
  3 <= ratio t -> Z.of_nat (length (leafNodes t)) + ratio t <= INT_MAX ->
  exists cs, createTree t = Ret (mkTree (ratio t) (Some (mem_node cs)) (leafNodes t)
                                   (foundInHierarchy t) (bloomNames t)) /\
             concat (map leaves cs) = concat (map leaves (leafNodes t)) /\
             (Forall hier_ok (leafNodes t) -> Forall hier_ok cs).
Proof.
  intros Hr Hsz. unfold createTree.
  destruct (createLevel_spec (S (length (leafNodes t))) (ratio t) (leafNodes t))
    as (cs & -> & H1 & H2); [done|done|lia|]. eauto.
Qed.

Lemma leaves_of_leaf n : filename n <> Memory -> leaves n = [n].
Proof.
  intros H. destruct n as [cs bv f]. simpl in *. unfold str_eqb.
  by rewrite bool_decide_false.
Qed.

Lemma leaves_of_leaves ns :
  Forall (fun n => filename n <> Memory) ns -> concat (map leaves ns) = ns.
Proof.
  induction 1 as [|n ns Hn Hns IH]; [done|]. simpl. by rewrite leaves_of_leaf, IH.
Qed.

(** In a hierarchy every inner filter covers the leaves below it. *)
Lemma hier_ok_leaf_bits n l :
  hier_ok n -> l ∈ leaves n -> bitArray (blValue l) ⊆ bitArray (blValue n).
Proof.
  revert l. induction n as [cs bv f IH] using Node_rect_list. intros l Hok Hl.
  simpl in Hl. destruct (str_eqb f Memory) eqn:E; simpl in Hl.
  - inversion Hok as [? Hne|cs' Hcs]; subst; simpl in *.
    { by apply str_eqb_eq in E. }
    apply list_elem_of_In, in_concat in Hl as (ls & Hls & Hin).
    apply in_map_iff in Hls as (c & <- & Hc). apply list_elem_of_In in Hc, Hin.
    rewrite Forall_forall in IH, Hcs. etrans; [by apply (IH c Hc); auto|].
    intros j Hj. apply elem_of_union_list. exists (bitArray (blValue c)).
    split; [|done]. by apply (list_elem_of_fmap_2 (bitArray ∘ blValue)).
  - by apply list_elem_of_singleton in Hl as ->.
Qed.

Lemma hier_ok_inner_hashes n :
  hier_ok n -> filename n = Memory -> numHashFunctions (blValue n) = 3.
Proof. by inversion 1. Qed.

(** ** Queries *)

Section query_lemmas.
Context `{sh : !StdHash}.

(** All the filters of a path report [v]. *)
Definition path_match (v : str) (path : list bloom_value) : bool :=
  forallb (fun bv => exists_ bv v) path.

(** The specification of a query: the names of the leaves whose every ancestor
    reports [v], in the order of the leaves. *)
Definition reported (v : str) (n : Node) : list str :=
  map snd (List.filter (path_match v ∘ fst) (leaf_paths n)).

(** The number of inner filters a query finds [v] in. *)
Definition scanned (v : str) (n : Node) : Z :=
  Z.of_nat (length (List.filter (path_match v) (inner_paths n))).

Lemma filter_under_match v bv (ps : list (list bloom_value * str)) :
  map snd (List.filter (path_match v ∘ fst) (map (fun '(path, f) => (bv :: path, f)) ps))
  = if exists_ bv v then map snd (List.filter (path_match v ∘ fst) ps) else [].
Proof.
  induction ps as [|[p f] ps IH]; simpl; [by destruct (exists_ bv v)|].
  destruct (exists_ bv v) eqn:E; simpl; [|done].
  destruct (path_match v p); simpl; by rewrite IH.
Qed.

Lemma filter_inner_match v bv (ps : list (list bloom_value)) :
  length (List.filter (path_match v) (map (cons bv) ps))
  = if exists_ bv v then length (List.filter (path_match v) ps) else 0%nat.
Proof.
  induction ps as [|p ps IH]; simpl; [by destruct (exists_ bv v)|].
  destruct (exists_ bv v) eqn:E; simpl; [|done].
  destruct (path_match v p); simpl; by rewrite IH.
Qed.

Lemma reported_inner v cs bv :
  reported v (mkNode cs bv Memory) =
  if exists_ bv v then concat (map (reported v) cs) else [].
Proof.
  unfold reported. cbn [leaf_paths filename blValue children]. simpl negb. cbn [negb].
  change (str_eqb Memory Memory) with true. cbn [negb]. rewrite filter_under_match.
  destruct (exists_ bv v); [|done].
  induction cs as [|c cs IH]; [done|]. simpl.
  by rewrite List.filter_app, map_app, IH.
Qed.

Lemma scanned_inner v cs bv :
  scanned v (mkNode cs bv Memory) =
  if exists_ bv v then 1 + foldr (fun c z => scanned v c + z) 0 cs else 0.
Proof.
  unfold scanned. cbn [inner_paths filename blValue children].
  change (str_eqb Memory Memory) with true. cbn [negb List.filter path_match forallb].
  destruct (exists_ bv v) eqn:E; cbn [andb length]; rewrite filter_inner_match, E; [|done].
  rewrite Nat2Z.inj_succ, <- Z.add_1_l. f_equal.
  induction cs as [|c cs IH]; [done|]. simpl.
  rewrite List.filter_app, length_app, Nat2Z.inj_add. unfold scanned in IH. lia.
Qed.

Lemma leaf_reported v cs bv f :
  f <> Memory -> reported v (mkNode cs bv f) = [f] /\ scanned v (mkNode cs bv f) = 0.
Proof.
  intros Hf. unfold reported, scanned. simpl. unfold str_eqb.
  by rewrite bool_decide_false.
Qed.

Lemma check_thread_spec n v acc :
  checkExistanceThread_node n v acc = acc ++ reported v n.
Proof.
  revert acc. induction n as [cs bv f IH] using Node_rect_list. intros acc.
  cbn [checkExistanceThread_node filename children blValue].
  destruct (decide (f = Memory)) as [->|Hf].
  2: { destruct (leaf_reported v cs bv f Hf) as [-> _]. unfold str_eqb.
       by rewrite bool_decide_false. }
  rewrite reported_inner. change (str_eqb Memory Memory) with true. cbn [negb].
  destruct (exists_ bv v); [|by rewrite app_nil_r].
  revert acc. induction IH as [|c cs Hc Hcs IHcs]; intros acc; simpl; [by rewrite app_nil_r|].
  by rewrite Hc, IHcs, app_assoc.
Qed.

Lemma check_spec n v names found :
  checkExistance_node n v (names, found) = (names ++ reported v n, found + scanned v n).
Proof.
  revert names found. induction n as [cs bv f IH] using Node_rect_list. intros names found.
  cbn [checkExistance_node filename children blValue fst snd].
  destruct (decide (f = Memory)) as [->|Hf].
  2: { destruct (leaf_reported v cs bv f Hf) as [-> ->]. unfold str_eqb.
       rewrite bool_decide_false by done. by rewrite Z.add_0_r. }
  rewrite reported_inner, scanned_inner. change (str_eqb Memory Memory) with true. cbn [negb].
  destruct (exists_ bv v); [|by rewrite app_nil_r, Z.add_0_r].
  rewrite Z.add_assoc. generalize (found + 1) as z.
  revert names. induction IH as [|c cs Hc Hcs IHcs]; intros names z; simpl.
  - by rewrite app_nil_r, Z.add_0_r.
  - by rewrite Hc, IHcs, app_assoc, Z.add_assoc.
Qed.

(** A leaf whose own filter reports [v] is never pruned. *)
Lemma reported_complete n v l :
  hier_ok n -> l ∈ leaves n -> numHashFunctions (blValue l) = 3 ->
  exists_ (blValue l) v = true -> filename l ∈ reported v n.
Proof.
  revert l. induction n as [cs bv f IH] using Node_rect_list. intros l Hok Hl Hn Hv.
  destruct (decide (f = Memory)) as [->|Hf].
  2: { destruct (leaf_reported v cs bv f Hf) as [-> _].
       rewrite leaves_of_leaf in Hl by done. apply list_elem_of_singleton in Hl as ->.
       by apply list_elem_of_singleton. }
  pose proof (hier_ok_leaf_bits _ _ Hok Hl) as Hbits.
  rewrite reported_inner. cbn [blValue] in *.
  rewrite (exists_mono (blValue l) bv v); [|rewrite Hn; symmetry; by apply (hier_ok_inner_hashes _ Hok)|done|done].
  simpl in Hl. apply list_elem_of_In, in_concat in Hl as (ls & Hls & Hin).
  apply in_map_iff in Hls as (c & <- & Hc). apply list_elem_of_In in Hin.
  apply list_elem_of_In, in_concat. exists (reported v c).
  split; [by apply in_map|]. apply list_elem_of_In.
  inversion Hok as [? Hne|cs' Hcs]; subst; [done|]. apply list_elem_of_In in Hc.
  rewrite Forall_forall in IH, Hcs. by apply IH; auto.
Qed.

(** Only leaves are reported, each at most once and in order. *)
Lemma reported_sublist n v : reported v n `sublist_of` (filename <$> leaves n).
Proof.
  induction n as [cs bv f IH] using Node_rect_list.
  destruct (decide (f = Memory)) as [->|Hf].
  2: { destruct (leaf_reported v cs bv f Hf) as [-> _].
       rewrite leaves_of_leaf by done. done. }
  rewrite reported_inner. cbn [leaves filename]. change (str_eqb Memory Memory) with true.
  cbn [negb children]. destruct (exists_ bv v); [|apply sublist_nil_l].
  induction IH as [|c cs Hc Hcs IHcs]; simpl; [done|].
  rewrite fmap_app. by apply sublist_app.
Qed.

End query_lemmas.

(** ** Properties *)

Section tree_properties.
Context `{sh : !StdHash}.

(** A leaf as [CreateLeafHierarchyLevel] makes it: a file's filter under the
    file's name. *)
Definition leaf_ok (n : Node) : Prop :=
  filename n <> Memory /\ numHashFunctions (blValue n) = 3.

Lemma leaf_ok_names ns : Forall leaf_ok ns -> Forall (fun n => filename n <> Memory) ns.
Proof. intros H. eapply Forall_impl; [exact H|]. by intros n []. Qed.

Lemma leaf_ok_hier ns : Forall leaf_ok ns -> Forall hier_ok ns.
Proof. intros H. eapply Forall_impl; [exact H|]. intros n []. by apply hier_leaf. Qed.

(** C3: for every ratio of at least three [createTree] returns, without signed
    overflow and without reading past a level; the tree it builds has exactly the
    leaves it was given, in order, and every inner filter is the union of its
    children's filters; nothing else of the object changes. *)
Theorem createTree_correct t :
  3 <= ratio t -> Z.of_nat (length (leafNodes t)) + ratio t <= INT_MAX ->
  Forall leaf_ok (leafNodes t) ->
  exists r, createTree t = Ret (mkTree (ratio t) (Some r) (leafNodes t)
                                  (foundInHierarchy t) (bloomNames t)) /\
            filename r = Memory /\ leaves r = leafNodes t /\ hier_ok r.
Proof.
  intros Hr Hsz Hok. destruct (createTree_spec t Hr Hsz) as (cs & -> & Hl & Hh).
  exists (mem_node cs). split_and!; [done|done| |].
  - rewrite leaves_mem_node, Hl. by apply leaves_of_leaves, leaf_ok_names.
  - apply mem_node_ok, Hh. by apply leaf_ok_hier.
Qed.



(** C2: the hierarchy loses nothing: whatever file's filter reports a value, the
    query on the tree built from the files reports that file; and what it reports
    is always a subsequence of the files. *)
Theorem hierarchy_no_false_negative t t' v :
  3 <= ratio t -> Z.of_nat (length (leafNodes t)) + ratio t <= INT_MAX ->
  Forall leaf_ok (leafNodes t) -> createTree t = Ret t' ->
  exists names, checkExistanceThread t' v = Ret names /\
    names `sublist_of` (filename <$> leafNodes t) /\
    (forall l, l ∈ leafNodes t -> exists_ (blValue l) v = true -> filename l ∈ names).
Proof.
  intros Hr Hsz Hok Ht. destruct (createTree_spec t Hr Hsz) as (cs & Hc & Hl & Hh).
  rewrite Hc in Ht. injection Ht as <-. unfold checkExistanceThread. cbn [root].
  rewrite check_thread_spec. exists (reported v (mem_node cs)).
  rewrite (leaves_of_leaves _ (leaf_ok_names _ Hok)) in Hl. split_and!; [done| |].
  - rewrite <- Hl. apply reported_sublist.
  - intros l Hin Hv. apply reported_complete; [|by rewrite leaves_mem_node, Hl| |done].
    + apply mem_node_ok, Hh. by apply leaf_ok_hier.
    + rewrite Forall_forall in Hok. by apply Hok.
Qed.

(** [bloomNames] and [foundInHierarchy] are never reset: the second query on a
    tree returns the names of the first one followed by its own, and the counter
    of scanned filters is the sum of both. *)
Theorem checkExistance_accumulates ratio0 leafs r v1 v2 t1 n1 t2 n2 :
  checkExistance (mkTree ratio0 (Some r) leafs 0 []) v1 = Ret (t1, n1) ->
  checkExistance t1 v2 = Ret (t2, n2) ->
  n1 = reported v1 r /\ n2 = n1 ++ reported v2 r /\
  GetScannedHierarchyFilters t2 = scanned v1 r + scanned v2 r.
Proof.
  unfold checkExistance. cbn [root bloomNames foundInHierarchy ratio leafNodes].
  rewrite check_spec. intros [= <- <-]. cbn [root bloomNames foundInHierarchy].
  rewrite check_spec. intros [= <- <-]. simpl. split_and!; [done|done|lia].
Qed.

End tree_properties.

Section tree_witnesses.
#[local] Existing Instance demo_hash.
Import bloom_value.

Definition demo_leaf (k : Z) : Node :=
  Node_leaf (insert bloom_value_new ($"Value" ++ to_string k)) (to_string k ++ $".bloom").

Definition demo_tree : bloomTree := mkTree 3 None (demo_leaf <$> seqZ 1 7) 0 [].

Definition demo_built : bloomTree :=
  match createTree demo_tree with Ret t => t | _ => demo_tree end.

Lemma demo_leaves_ok : Forall leaf_ok (leafNodes demo_tree).
Proof. repeat constructor; vm_compute; discriminate. Qed.

Lemma createTree_correct_witness :
  exists r, createTree demo_tree = Ret (mkTree 3 (Some r) (leafNodes demo_tree) 0 []) /\
            filename r = Memory /\ leaves r = leafNodes demo_tree /\ hier_ok r.
Proof. apply (createTree_correct demo_tree); [done|done|apply demo_leaves_ok]. Defined.


Definition demo_root : Node := default Node_memory (root demo_built).


Lemma hierarchy_no_false_negative_witness :
  exists names, checkExistanceThread demo_built ($"Value4") = Ret names /\
    names `sublist_of` (filename <$> leafNodes demo_tree) /\
    (forall l, l ∈ leafNodes demo_tree -> exists_ (blValue l) ($"Value4") = true ->
       filename l ∈ names).
Proof.
  apply (hierarchy_no_false_negative demo_tree);
    [done|done|apply demo_leaves_ok|vm_compute; reflexivity].
Defined.

Definition demo_names : list str := [$"4.bloom"; $"5.bloom"; $"6.bloom"].

Lemma checkExistance_accumulates_witness :
  demo_names = reported ($"Value4") demo_root /\
  demo_names ++ demo_names = demo_names ++ reported ($"Value5") demo_root /\
  GetScannedHierarchyFilters
    (mkTree 3 (Some demo_root) [] 6 (demo_names ++ demo_names))
    = scanned ($"Value4") demo_root + scanned ($"Value5") demo_root.
Proof.
  apply (checkExistance_accumulates 3 [] demo_root ($"Value4") ($"Value5")
           (mkTree 3 (Some demo_root) [] 3 demo_names)); vm_compute; reflexivity.
Defined.

(** Seven leaves under a ratio of three: three inner levels, one of whose nodes
    prunes the leaves that do not hold the value. *)
Example demo_query :
  checkExistanceThread demo_built ($"Value4") = Ret [$"4.bloom"; $"5.bloom"; $"6.bloom"].
Proof. vm_compute. reflexivity. Qed.

End tree_witnesses.
