(* ===== verification/Coding.v ===== *)
(** * leveldb: util/coding

    Fixed-width and variable-width integers and length-prefixed strings as
    [util/coding.{h,cc}] writes them into and reads them from byte strings.  A
    [Slice*] that a reader advances is the rest of the input it returns; a reader
    that answers [false] or [nullptr] returns [None]. *)

From Stdlib Require Import ZArith Lia.
From S2P Require Import Prelude CString.

(** ** Fixed width *)

Definition EncodeFixed32 (value : Z) : str :=
  [z2b value; z2b (Z.shiftr value 8); z2b (Z.shiftr value 16); z2b (Z.shiftr value 24)].

Definition EncodeFixed64 (value : Z) : str :=
  [z2b value; z2b (Z.shiftr value 8); z2b (Z.shiftr value 16); z2b (Z.shiftr value 24);
   z2b (Z.shiftr value 32); z2b (Z.shiftr value 40); z2b (Z.shiftr value 48);
   z2b (Z.shiftr value 56)].

Definition PutFixed32 (dst : str) (value : Z) : str := dst ++ EncodeFixed32 value.
Definition PutFixed64 (dst : str) (value : Z) : str := dst ++ EncodeFixed64 value.

(** [buffer[k]] shifted to its place. *)
Definition byte_at (ptr : str) (k : Z) : Z :=
  Z.shiftl (b2z (nth (Z.to_nat k) ptr Byte.x00)) (8 * k).

Definition DecodeFixed32 (ptr : str) : Z :=
  Z.lor (Z.lor (Z.lor (byte_at ptr 0) (byte_at ptr 1)) (byte_at ptr 2)) (byte_at ptr 3).

Definition DecodeFixed64 (ptr : str) : Z :=
  Z.lor (Z.lor (Z.lor (Z.lor (Z.lor (Z.lor (Z.lor
    (byte_at ptr 0) (byte_at ptr 1)) (byte_at ptr 2)) (byte_at ptr 3))
    (byte_at ptr 4)) (byte_at ptr 5)) (byte_at ptr 6)) (byte_at ptr 7).

(** ** Variable width *)

Definition EncodeVarint32 (v : Z) : str :=
  let B := 128 in
  if v <? Z.shiftl 1 7 then [z2b v]
  else if v <? Z.shiftl 1 14 then [z2b (Z.lor v B); z2b (Z.shiftr v 7)]
  else if v <? Z.shiftl 1 21 then
    [z2b (Z.lor v B); z2b (Z.lor (Z.shiftr v 7) B); z2b (Z.shiftr v 14)]
  else if v <? Z.shiftl 1 28 then
    [z2b (Z.lor v B); z2b (Z.lor (Z.shiftr v 7) B); z2b (Z.lor (Z.shiftr v 14) B);
     z2b (Z.shiftr v 21)]
  else
    [z2b (Z.lor v B); z2b (Z.lor (Z.shiftr v 7) B); z2b (Z.lor (Z.shiftr v 14) B);
     z2b (Z.lor (Z.shiftr v 21) B); z2b (Z.shiftr v 28)].

Definition PutVarint32 (dst : str) (v : Z) : str := dst ++ EncodeVarint32 v.

(** The [while] loop; the buffer it writes to has ten bytes. *)
Fixpoint varint_loop (fuel : nat) (v : Z) : str :=
  match fuel with
  | O => []
  | S f => if 128 <=? v then z2b (Z.lor v 128) :: varint_loop f (Z.shiftr v 7) else [z2b v]
  end.

Definition EncodeVarint64 (v : Z) : str := varint_loop 10 v.

Definition PutVarint64 (dst : str) (v : Z) : str := dst ++ EncodeVarint64 v.

Definition PutLengthPrefixedSlice (dst value : str) : str :=
  PutVarint32 dst (u32 (str_size value)) ++ value.

Fixpoint varint_length_loop (fuel : nat) (v len : Z) : Z :=
  match fuel with
  | O => len
  | S f => if 128 <=? v then varint_length_loop f (Z.shiftr v 7) (len + 1) else len
  end.

Definition VarintLength (v : Z) : Z := varint_length_loop 10 v 1.

(** The loop of [GetVarint32PtrFallback] (32 bits, five bytes at most) and of
    [GetVarint64Ptr] (64 bits, ten bytes at most). *)
Fixpoint varint_get (w : Z) (fuel : nat) (shift result : Z) (p : str) : option (Z * str) :=
  match fuel, p with
  | S f, b :: p' =>
      let byte := b2z b in
      if Z.land byte 128 =? 0
      then Some (Z.lor result (wrap w (Z.shiftl byte shift)), p')
      else varint_get w f (shift + 7)
             (Z.lor result (wrap w (Z.shiftl (Z.land byte 127) shift))) p'
  | _, _ => None
  end.

Definition GetVarint32PtrFallback (p : str) : option (Z * str) := varint_get 32 5 0 0 p.

Definition GetVarint32Ptr (p : str) : option (Z * str) :=
  match p with
  | b :: p' => if Z.land (b2z b) 128 =? 0 then Some (b2z b, p') else GetVarint32PtrFallback p
  | [] => GetVarint32PtrFallback p
  end.

Definition GetVarint64Ptr (p : str) : option (Z * str) := varint_get 64 10 0 0 p.

Definition GetVarint32 (input : str) : option (Z * str) := GetVarint32Ptr input.
Definition GetVarint64 (input : str) : option (Z * str) := GetVarint64Ptr input.

Definition GetLengthPrefixedSlice (input : str) : option (str * str) :=
  match GetVarint32 input with
  | Some (len, rest) =>
      if len <=? str_size rest
      then Some (take (Z.to_nat len) rest, drop (Z.to_nat len) rest)
      else None
  | None => None
  end.

(** ** Fixed width: lemmas *)

(** Bits of an integer rebuilt from bytes. *)
Lemma byte_at_bit ptr k i :
  0 <= k -> 0 <= i ->
  Z.testbit (byte_at ptr k) i =
  if decide (8 * k <= i < 8 * k + 8)
  then Z.testbit (b2z (nth (Z.to_nat k) ptr Byte.x00)) (i - 8 * k) else false.
Proof.
  intros Hk Hi. unfold byte_at. rewrite Z.shiftl_spec by done. case_decide as H; [done|].
  destruct (decide (i < 8 * k)); [apply Z.testbit_neg_r; lia|]. apply b2z_bits_high. lia.
Qed.

(** The [k]-th byte of an encoded integer. *)
Lemma encoded_bit v k i :
  0 <= i < 8 -> Z.testbit (b2z (z2b (Z.shiftr v k))) i = Z.testbit v (i + k).
Proof. intros Hi. rewrite z2b_testbit, Z.shiftr_spec by lia. done. Qed.

Ltac split_byte_bits :=
  rewrite ?Z.lor_spec, ?byte_at_bit by lia;
  repeat case_decide; try lia; rewrite ?orb_false_l, ?orb_false_r.

Ltac encoded_byte :=
  match goal with
  | |- context [Z.to_nat ?k] => let n := eval vm_compute in (Z.to_nat k) in change (Z.to_nat k) with n
  end;
  cbn [nth app EncodeFixed32 EncodeFixed64];
  first [rewrite encoded_bit by lia | rewrite z2b_testbit by lia]; f_equal; lia.

Lemma DecodeFixed32_Encode v rest :
  DecodeFixed32 (EncodeFixed32 v ++ rest) = u32 v.
Proof.
  apply Z.bits_inj'. intros i Hi. unfold DecodeFixed32, wrap. split_byte_bits.
  5: { symmetry. apply Z.mod_pow2_bits_high. lia. }
  all: rewrite Z.mod_pow2_bits_low by lia; encoded_byte.
Qed.

Lemma DecodeFixed64_Encode v rest :
  DecodeFixed64 (EncodeFixed64 v ++ rest) = u64 v.
Proof.
  apply Z.bits_inj'. intros i Hi. unfold DecodeFixed64, wrap. split_byte_bits.
  9: { symmetry. apply Z.mod_pow2_bits_high. lia. }
  all: rewrite Z.mod_pow2_bits_low by lia; encoded_byte.
Qed.

Lemma DecodeFixed64_range ptr : 0 <= DecodeFixed64 ptr < 2 ^ 64.
Proof.
  assert (DecodeFixed64 ptr = u64 (DecodeFixed64 ptr)) as ->; [|by apply wrap_range].
  apply Z.bits_inj'. intros i Hi. unfold wrap.
  destruct (decide (i < 64)); [by rewrite Z.mod_pow2_bits_low by lia|].
  rewrite Z.mod_pow2_bits_high by lia. unfold DecodeFixed64. split_byte_bits.
Qed.

(** *** Arrays of fixed-width words *)

Lemma foldl_PutFixed32 ws buf : foldl PutFixed32 buf ws = buf ++ concat (map EncodeFixed32 ws).
Proof.
  revert buf. induction ws as [|w ws IH]; intros buf; [by rewrite app_nil_r|]. cbn [map concat foldl].
  rewrite IH. unfold PutFixed32. by rewrite <- app_assoc.
Qed.

Lemma fixed32_array_length ws : length (concat (map EncodeFixed32 ws)) = (4 * length ws)%nat.
Proof. induction ws as [|w ws IH]; [done|]. cbn [map concat]. rewrite length_app, IH. simpl. lia. Qed.

Lemma fixed32_array_at ws i w rest :
  ws !! i = Some w -> DecodeFixed32 (drop (4 * i) (concat (map EncodeFixed32 ws) ++ rest)) = u32 w.
Proof.
  revert i. induction ws as [|w0 ws IH]; intros i Hi; [done|]. cbn [map concat]. rewrite <- app_assoc.
  destruct i as [|i]; simpl in Hi; [injection Hi as ->; apply DecodeFixed32_Encode|].
  replace (4 * S i)%nat with (length (EncodeFixed32 w0) + 4 * i)%nat by (change (length (EncodeFixed32 w0)) with 4%nat; lia).
  rewrite <- drop_drop, drop_app_length. by apply IH.
Qed.

Lemma DecodeFixed32_range ptr : 0 <= DecodeFixed32 ptr < 2 ^ 32.
Proof.
  assert (DecodeFixed32 ptr = u32 (DecodeFixed32 ptr)) as ->; [|by apply wrap_range].
  apply Z.bits_inj'. intros i Hi. unfold wrap.
  destruct (decide (i < 32)); [by rewrite Z.mod_pow2_bits_low by lia|].
  rewrite Z.mod_pow2_bits_high by lia. unfold DecodeFixed32. split_byte_bits.
Qed.

(** Encoding the decoded bytes gives the bytes back. *)
Lemma EncodeFixed64_Decode ptr :
  length ptr = 8%nat -> EncodeFixed64 (DecodeFixed64 ptr) = ptr.
Proof.
  intros Hl. do 9 (destruct ptr as [|? ptr]; try discriminate Hl).
  unfold EncodeFixed64. repeat f_equal; try (apply byte_eq_bits; intros i Hi).
  all: first [rewrite encoded_bit by lia | rewrite z2b_testbit by lia];
       unfold DecodeFixed64; split_byte_bits; simpl; f_equal; lia.
Qed.

(** ** Variable width: lemmas *)

Lemma varint_step v s :
  0 <= s -> Z.lor (Z.shiftl (v mod 128) s) (Z.shiftl (v / 128) (s + 7)) = Z.shiftl v s.
Proof.
  intros Hs. apply Z.bits_inj'. intros n Hn.
  rewrite Z.lor_spec, !Z.shiftl_spec by lia.
  change 128 with (2 ^ 7). rewrite <- Z.shiftr_div_pow2 by lia.
  destruct (decide (n < s)); [by rewrite !Z.testbit_neg_r by lia|].
  rewrite Z.testbit_mod_pow2 by lia.
  destruct (Z.ltb_spec (n - s) 7); cbn [andb orb].
  - rewrite (Z.testbit_neg_r _ (n - (s + 7))) by lia. by rewrite orb_false_r.
  - rewrite Z.shiftr_spec by lia. f_equal. lia.
Qed.

(** What a continuation byte and a last byte carry. *)
Lemma land_ones7 z : Z.land z 127 = z mod 128.
Proof. change 127 with (Z.ones 7). by rewrite Z.land_ones. Qed.

Lemma bit128 n : 0 <= n -> Z.testbit 128 n = bool_decide (n = 7).
Proof.
  intros Hn. change 128 with (2 ^ 7). rewrite Z.pow2_bits_eqb by lia.
  case_bool_decide; [subst; apply Z.eqb_refl|]. apply Z.eqb_neq. lia.
Qed.

Lemma more_byte_flag v : (Z.land (b2z (z2b (Z.lor v 128))) 128 =? 0) = false.
Proof.
  apply Z.eqb_neq. intros H. apply (f_equal (fun z => Z.testbit z 7)) in H.
  rewrite Z.land_spec, z2b_testbit, Z.lor_spec, bit128, Z.bits_0 in H by lia.
  rewrite orb_true_r in H. done.
Qed.

Lemma more_byte_value v : Z.land (b2z (z2b (Z.lor v 128))) 127 = v mod 128.
Proof.
  rewrite land_ones7. change 128 with (2 ^ 7) at 2 3. apply Z.bits_inj'. intros n Hn.
  rewrite !Z.testbit_mod_pow2 by lia. destruct (Z.ltb_spec n 7); [|done].
  rewrite z2b_testbit, Z.lor_spec, bit128, bool_decide_false, orb_false_r by lia. done.
Qed.

Lemma last_byte v : 0 <= v < 128 -> b2z (z2b v) = v /\ (Z.land v 128 =? 0) = true.
Proof.
  intros Hv. split; [rewrite b2z_z2b; apply Z.mod_small; lia|].
  apply Z.eqb_eq. apply Z.bits_inj'. intros n Hn. rewrite Z.land_spec, bit128, Z.bits_0 by lia.
  case_bool_decide; [subst|by rewrite andb_false_r].
  rewrite andb_true_r, <- (Z.mod_small v (2 ^ 7)) by lia. by apply Z.mod_pow2_bits_high.
Qed.

Lemma varint_get_loop w fuel fuel' v shift result rest :
  0 <= shift -> 0 <= v -> v < 2 ^ (7 * Z.of_nat fuel) -> (fuel <= fuel')%nat -> 0 < Z.of_nat fuel ->
  Z.shiftl v shift < 2 ^ w ->
  varint_get w fuel' shift result (varint_loop fuel v ++ rest) =
  Some (Z.lor result (Z.shiftl v shift), rest).
Proof.
  revert fuel' v shift result.
  induction fuel as [|f IH]; intros fuel' v shift result Hs Hv Hf Hle Hpos Hw; [lia|].
  destruct fuel' as [|f']; [lia|]. cbn [varint_loop].
  assert (forall x, 0 <= x <= v -> wrap w (Z.shiftl x shift) = Z.shiftl x shift) as Hwrap.
  { intros x Hx. apply wrap_small. rewrite Z.shiftl_mul_pow2 in * by lia.
    assert (0 < 2 ^ shift) by (apply Z.pow_pos_nonneg; lia). nia. }
  destruct (Z.leb_spec 128 v) as [Hm|Hm]; cbn [app varint_get].
  - rewrite more_byte_flag, more_byte_value, Hwrap by lia_div.
    rewrite Z.shiftr_div_pow2 by lia. change (2 ^ 7) with 128.
    destruct f as [|f]; [simpl in Hf; change (2 ^ 7) with 128 in Hf; lia|].
    rewrite IH; try lia; try lia_div.
    + by rewrite <- Z.lor_assoc, varint_step.
    + replace (7 * Z.of_nat (S (S f))) with (7 + 7 * Z.of_nat (S f)) in Hf by lia.
      rewrite Z.pow_add_r in Hf by lia. change (2 ^ 7) with 128 in Hf.
      apply Z.div_lt_upper_bound; lia.
    + eapply Z.le_lt_trans; [|exact Hw]. rewrite !Z.shiftl_mul_pow2, Z.pow_add_r by lia.
      assert (0 < 2 ^ shift) by (apply Z.pow_pos_nonneg; lia). change (2 ^ 7) with 128.
      assert (v / 128 * 128 <= v) by lia_div. nia.
  - destruct (last_byte v) as [-> ->]; [lia|]. by rewrite Hwrap by lia.
Qed.

Lemma GetVarint64_Encode v rest :
  0 <= v < 2 ^ 64 -> GetVarint64 (EncodeVarint64 v ++ rest) = Some (v, rest).
Proof.
  intros Hv. unfold GetVarint64, GetVarint64Ptr, EncodeVarint64.
  rewrite varint_get_loop; rewrite ?Z.shiftl_0_r; try done; try lia.
Qed.

(** The unrolled 32-bit encoder writes what the loop writes. *)
Lemma EncodeVarint32_loop v :
  0 <= v < 2 ^ 32 -> EncodeVarint32 v = varint_loop 5 v.
Proof.
  intros Hv. unfold EncodeVarint32. cbn [varint_loop].
  rewrite !Z.shiftr_shiftr by lia. rewrite !Z.shiftr_div_pow2 by lia.
  change (2 ^ 7) with 128. change (2 ^ (7 + 7)) with 16384.
  change (2 ^ (7 + 7 + 7)) with 2097152. change (2 ^ (7 + 7 + 7 + 7)) with 268435456.
  change (2 ^ 14) with 16384. change (2 ^ 21) with 2097152. change (2 ^ 28) with 268435456.
  change (Z.shiftl 1 7) with 128. change (Z.shiftl 1 14) with 16384.
  change (Z.shiftl 1 21) with 2097152. change (Z.shiftl 1 28) with 268435456.
  repeat (case_match; try (exfalso; lia_div)); done.
Qed.

Lemma varint_loop_more fuel fuel' v :
  0 <= v < 2 ^ (7 * Z.of_nat fuel) -> (fuel <= fuel')%nat -> 0 < Z.of_nat fuel ->
  varint_loop fuel' v = varint_loop fuel v.
Proof.
  revert fuel' v. induction fuel as [|f IH]; intros fuel' v Hv Hle Hpos; [lia|].
  destruct fuel' as [|f']; [lia|]. cbn [varint_loop].
  destruct (Z.leb_spec 128 v) as [Hm|Hm]; [|done]. f_equal.
  rewrite Z.shiftr_div_pow2 by lia. change (2 ^ 7) with 128.
  destruct f as [|f]; [simpl in Hv; change (2 ^ 7) with 128 in Hv; lia|].
  apply IH; try lia. split; [lia_div|].
  replace (7 * Z.of_nat (S (S f))) with (7 + 7 * Z.of_nat (S f)) in Hv by lia.
  rewrite Z.pow_add_r in Hv by lia. change (2 ^ 7) with 128 in Hv.
  apply Z.div_lt_upper_bound; lia.
Qed.

Lemma GetVarint32_fallback p : GetVarint32 p = GetVarint32PtrFallback p.
Proof.
  unfold GetVarint32, GetVarint32Ptr. destruct p as [|b p]; [done|].
  destruct (Z.eqb_spec (Z.land (b2z b) 128) 0) as [E|E]; [|done].
  unfold GetVarint32PtrFallback. cbn [varint_get]. rewrite E. simpl.
  rewrite Z.shiftl_0_r, wrap_small; [done|]. pose proof (b2z_range b). lia.
Qed.

Lemma GetVarint32_Encode v rest :
  0 <= v < 2 ^ 32 -> GetVarint32 (EncodeVarint32 v ++ rest) = Some (v, rest).
Proof.
  intros Hv. rewrite GetVarint32_fallback, EncodeVarint32_loop by done.
  unfold GetVarint32PtrFallback.
  rewrite varint_get_loop; rewrite ?Z.shiftl_0_r; try done; try lia.
Qed.

Lemma GetLengthPrefixedSlice_Put value rest :
  str_size value < 2 ^ 32 ->
  GetLengthPrefixedSlice (PutLengthPrefixedSlice [] value ++ rest) = Some (value, rest).
Proof.
  intros Hl. pose proof (str_size_nonneg value).
  unfold GetLengthPrefixedSlice, PutLengthPrefixedSlice, PutVarint32. simpl app.
  rewrite wrap_small by lia. rewrite <- app_assoc, GetVarint32_Encode by lia.
  rewrite str_size_app. pose proof (str_size_nonneg rest).
  destruct (Z.leb_spec (str_size value) (str_size value + str_size rest)); [|lia].
  unfold str_size. by rewrite Nat2Z.id, take_app_length, drop_app_length.
Qed.

(** What a reader accepts: a value of the width, from at most [fuel] bytes. *)
Lemma varint_get_inv w fuel shift result p v rest :
  0 <= w -> 0 <= result < 2 ^ w -> varint_get w fuel shift result p = Some (v, rest) ->
  0 <= v < 2 ^ w /\ exists pre, p = pre ++ rest /\ (1 <= length pre <= fuel)%nat.
Proof.
  intros Hw. revert shift result p. induction fuel as [|f IH]; intros shift result p Hr; [done|].
  destruct p as [|b p]; [done|]. cbn [varint_get].
  assert (forall x, 0 <= Z.lor result (wrap w x) < 2 ^ w) as Hlor.
  { intros x. pose proof (wrap_range w x Hw).
    assert (Z.lor result (wrap w x) = wrap w (Z.lor result (wrap w x))) as ->;
      [|by apply wrap_range].
    apply Z.bits_inj'. intros n Hn. unfold wrap at 2.
    rewrite Z.testbit_mod_pow2 by done. destruct (Z.ltb_spec n w); [done|].
    rewrite Z.lor_spec, <- (Z.mod_small result (2 ^ w)) by done.
    unfold wrap. by rewrite !Z.mod_pow2_bits_high by lia. }
  case_match.
  - intros [= <- <-]. split; [apply Hlor|]. exists [b]. split; [done|]. simpl. lia.
  - intros Hg. apply IH in Hg as (Hv & pre & -> & Hlen); [|apply Hlor].
    split; [done|]. exists (b :: pre). split; [done|]. simpl. lia.
Qed.

Lemma varint_length_loop_spec fuel v len :
  varint_length_loop fuel v len + 1 = len + Z.of_nat (length (varint_loop (S fuel) v)).
Proof.
  revert v len. induction fuel as [|f IH]; intros v len.
  - simpl. case_match; simpl; lia.
  - cbn [varint_length_loop]. cbn [varint_loop]. case_match; [|simpl; lia].
    rewrite IH. cbn [length]. cbn [varint_loop]. lia.
Qed.

(** ** Properties *)

(** C36: every 32-bit and 64-bit value is read back by the matching varint reader,
    whatever follows it in the input; the unrolled 32-bit writer produces the same
    bytes as the 64-bit loop, and [VarintLength] is the number of bytes. *)
Theorem varint_roundtrip v rest :
  (0 <= v < 2 ^ 32 ->
     GetVarint32 (PutVarint32 [] v ++ rest) = Some (v, rest) /\
     EncodeVarint32 v = EncodeVarint64 v) /\
  (0 <= v < 2 ^ 64 ->
     GetVarint64 (PutVarint64 [] v ++ rest) = Some (v, rest) /\
     VarintLength v = str_size (EncodeVarint64 v)).
Proof.
  split; intros Hv.
  - split; [by apply GetVarint32_Encode|].
    rewrite EncodeVarint32_loop by done. symmetry. apply varint_loop_more; lia.
  - split; [by apply GetVarint64_Encode|].
    pose proof (varint_length_loop_spec 10 v 1) as H.
    rewrite (varint_loop_more 10 11) in H by lia.
    unfold VarintLength, str_size, EncodeVarint64. lia.
Qed.

(** the varint readers are safe on arbitrary input: an accepted value fits its
    width, and what was consumed is a non-empty prefix of at most five (ten)
    bytes. *)
Theorem varint_get_safe p :
  (forall v rest, GetVarint32 p = Some (v, rest) ->
     0 <= v < 2 ^ 32 /\ exists pre, p = pre ++ rest /\ (1 <= length pre <= 5)%nat) /\
  (forall v rest, GetVarint64 p = Some (v, rest) ->
     0 <= v < 2 ^ 64 /\ exists pre, p = pre ++ rest /\ (1 <= length pre <= 10)%nat).
Proof.
  split; intros v rest.
  - rewrite GetVarint32_fallback. by apply varint_get_inv.
  - by apply varint_get_inv.
Qed.

(** a length-prefixed string is read back exactly, whatever its bytes and
    whatever follows it. *)
Theorem length_prefixed_roundtrip dst value rest :
  str_size value < 2 ^ 32 ->
  exists enc, PutLengthPrefixedSlice dst value = dst ++ enc /\
              GetLengthPrefixedSlice (enc ++ rest) = Some (value, rest).
Proof.
  intros Hl. exists (PutLengthPrefixedSlice [] value). split.
  - unfold PutLengthPrefixedSlice, PutVarint32. by rewrite app_nil_l, app_assoc.
  - by apply GetLengthPrefixedSlice_Put.
Qed.

Lemma length_prefixed_roundtrip_witness :
  exists enc, PutLengthPrefixedSlice [] ($"Value187719") = [] ++ enc /\
              GetLengthPrefixedSlice (enc ++ $"tail") = Some ($"Value187719", $"tail").
Proof. apply length_prefixed_roundtrip. vm_compute. reflexivity. Defined.

Lemma varint_get_safe_witness :
  (forall v rest, GetVarint32 [Byte.xac; Byte.x02; Byte.x07] = Some (v, rest) ->
     0 <= v < 2 ^ 32 /\
     exists pre, [Byte.xac; Byte.x02; Byte.x07] = pre ++ rest /\ (1 <= length pre <= 5)%nat) /\
  (forall v rest, GetVarint64 [Byte.xac; Byte.x02; Byte.x07] = Some (v, rest) ->
     0 <= v < 2 ^ 64 /\
     exists pre, [Byte.xac; Byte.x02; Byte.x07] = pre ++ rest /\ (1 <= length pre <= 10)%nat).
Proof. apply varint_get_safe. Defined.

Lemma varint_roundtrip_witness :
  (0 <= 300 < 2 ^ 32 ->
     GetVarint32 (PutVarint32 [] 300 ++ $"x") = Some (300, $"x") /\
     EncodeVarint32 300 = EncodeVarint64 300) /\
  (0 <= 300 < 2 ^ 64 ->
     GetVarint64 (PutVarint64 [] 300 ++ $"x") = Some (300, $"x") /\
     VarintLength 300 = str_size (EncodeVarint64 300)).
Proof. apply varint_roundtrip. Defined.

Example varint_300 : PutVarint32 [] 300 = [Byte.xac; Byte.x02].
Proof. reflexivity. Qed.
