(* ===== verification/SliceStatus.v ===== *)
(** * leveldb: Slice and Status

    [include/leveldb/slice.h]: a slice is the bytes it refers to.
    [include/leveldb/status.h] and [util/status.cc]: a status is the byte array
    its [state_] pointer owns (length, code, message), or nothing when it is OK. *)

From Stdlib Require Import ZArith Lia.
From S2P Require Import Prelude CString Coding.

(** ** Slice *)

Module Slice.

(** [operator[](size_t n)], with its assertion. *)
Definition at_ (s : str) (n : Z) : result byte :=
  if (0 <=? n) && (n <? str_size s) then Ret (nth (Z.to_nat n) s Byte.x00)
  else Crash AssertFailed.

Definition remove_prefix (s : str) (n : Z) : result str :=
  if n <=? str_size s then Ret (drop (Z.to_nat n) s) else Crash AssertFailed.

(** The sign of [memcmp] on the first [n] bytes. *)
Fixpoint memcmp (n : nat) (a b : str) : comparison :=
  match n, a, b with
  | S n', x :: a', y :: b' =>
      match Z.compare (b2z x) (b2z y) with Eq => memcmp n' a' b' | c => c end
  | _, _, _ => Eq
  end.

Definition starts_with (s x : str) : bool :=
  (str_size x <=? str_size s) &&
  match memcmp (length x) s x with Eq => true | _ => false end.

(** [operator==] *)
Definition eqb (x y : str) : bool :=
  (str_size x =? str_size y) &&
  match memcmp (length x) x y with Eq => true | _ => false end.

(** [int compare(const Slice& b) const], as the sign of its result. *)
Definition compare (a b : str) : comparison :=
  let min_len := if str_size a <? str_size b then length a else length b in
  match memcmp min_len a b with
  | Eq => if str_size a <? str_size b then Lt
          else if str_size b <? str_size a then Gt else Eq
  | c => c
  end.

End Slice.

(** Comparing slices is the lexicographic order of unsigned bytes. *)
Lemma slice_compare_lex a b : Slice.compare a b = str_compare a b.
Proof.
  revert b. induction a as [|x a IH]; intros [|y b]; [done|done|done|].
  specialize (IH b). unfold Slice.compare, str_size in *. cbn [length] in *.
  rewrite !Nat2Z.inj_succ.
  assert (forall p q : Z, (Z.succ p <? Z.succ q) = (p <? q)) as Hs.
  { intros p q. destruct (Z.ltb_spec p q), (Z.ltb_spec (Z.succ p) (Z.succ q)); try done; lia. }
  rewrite !Hs. cbn [str_compare].
  replace (if Z.of_nat (length a) <? Z.of_nat (length b) then S (length a) else S (length b))
    with (S (if Z.of_nat (length a) <? Z.of_nat (length b) then length a else length b))
    by (destruct (Z.of_nat (length a) <? Z.of_nat (length b)); reflexivity).
  cbn [Slice.memcmp]. by destruct (Z.compare (b2z x) (b2z y)).
Qed.

Lemma memcmp_prefix x s : Slice.memcmp (length x) s x = Eq /\ (length x <= length s)%nat <-> exists t, s = x ++ t.
Proof.
  revert s. induction x as [|c x IH]; intros s; simpl; [naive_solver lia|].
  destruct s as [|d s]; simpl.
  - split; [lia|]. intros [t Ht]. discriminate.
  - destruct (Z.compare_spec (b2z d) (b2z c)) as [E|E|E].
    + apply b2z_inj in E as ->. rewrite <- Nat.succ_le_mono. rewrite (IH s). naive_solver.
    + split; [naive_solver|]. intros [t [= -> _]]. lia.
    + split; [naive_solver|]. intros [t [= -> _]]. lia.
Qed.

Lemma starts_with_spec s x : Slice.starts_with s x = true <-> exists t, s = x ++ t.
Proof.
  rewrite <- memcmp_prefix. unfold Slice.starts_with, str_size.
  rewrite andb_true_iff, Z.leb_le. destruct (Slice.memcmp (length x) s x); naive_solver lia.
Qed.

Lemma slice_eqb_eq x y : Slice.eqb x y = true <-> x = y.
Proof.
  unfold Slice.eqb, str_size. rewrite andb_true_iff, Z.eqb_eq. split.
  - intros [Hl Hm]. assert (exists t, y = x ++ t) as [t ->].
    { apply memcmp_prefix. split; [|lia].
      revert y Hl Hm. induction x as [|c x IH]; intros [|d y] Hl; simpl in *; try done.
      rewrite Z.compare_antisym. destruct (Z.compare (b2z d) (b2z c)); simpl; try done.
      apply IH. lia. }
    rewrite length_app in Hl. destruct t; simpl in Hl; [by rewrite app_nil_r|lia].
  - intros ->. split; [done|].
    assert (Slice.memcmp (length y) y y = Eq) as ->; [|done].
    apply (memcmp_prefix y y). exists []. by rewrite app_nil_r.
Qed.

(** ** Status *)

Module Status.

Inductive Code := kOk | kNotFound | kCorruption | kNotSupported | kInvalidArgument | kIOError.

Definition code_value (c : Code) : Z :=
  match c with
  | kOk => 0 | kNotFound => 1 | kCorruption => 2
  | kNotSupported => 3 | kInvalidArgument => 4 | kIOError => 5
  end.

(** [state_]: [None] is the null pointer of an OK status. *)
Definition Status : Type := option str.

Definition OK : Status := None.
Definition ok (s : Status) : bool := match s with None => true | Some _ => false end.

(** [Status(Code code, const Slice& msg, const Slice& msg2)] *)
Definition make (code : Code) (msg msg2 : str) : Status :=
  let len1 := u32 (str_size msg) in
  let len2 := u32 (str_size msg2) in
  let size := u32 (len1 + (if len2 =? 0 then 0 else 2 + len2)) in
  Some (EncodeFixed32 size ++ z2b (code_value code) :: msg
        ++ (if len2 =? 0 then [] else $": " ++ msg2)).

Definition NotFound (msg msg2 : str) : Status := make kNotFound msg msg2.
Definition Corruption (msg msg2 : str) : Status := make kCorruption msg msg2.
Definition NotSupported (msg msg2 : str) : Status := make kNotSupported msg msg2.
Definition InvalidArgument (msg msg2 : str) : Status := make kInvalidArgument msg msg2.
Definition IOError (msg msg2 : str) : Status := make kIOError msg msg2.

(** [code()], on the byte at offset four. *)
Definition code (s : Status) : Z :=
  match s with None => 0 | Some st => char_val (nth 4 st Byte.x00) end.

Definition ToString (s : Status) : str :=
  match s with
  | None => $"OK"
  | Some st =>
      let type :=
        if code s =? 0 then $"OK"
        else if code s =? 1 then $"NotFound: "
        else if code s =? 2 then $"Corruption: "
        else if code s =? 3 then $"Not implemented: "
        else if code s =? 4 then $"Invalid argument: "
        else if code s =? 5 then $"IO error: "
        else $"Unknown code(" ++ to_string (code s) ++ $"): " in
      type ++ take (Z.to_nat (DecodeFixed32 st)) (drop 5 st)
  end.

(** [CopyState]: a copy of the first [size + 5] bytes. *)
Definition CopyState (st : str) : str := take (Z.to_nat (DecodeFixed32 st + 5)) st.

End Status.
Import Status (Status).

Lemma status_code_make c msg msg2 :
  Status.code (Status.make c msg msg2) = Status.code_value c.
Proof. by destruct c. Qed.

(** The text a status shows. *)
Definition code_text (c : Status.Code) : str :=
  match c with
  | Status.kOk => $"OK"
  | Status.kNotFound => $"NotFound: "
  | Status.kCorruption => $"Corruption: "
  | Status.kNotSupported => $"Not implemented: "
  | Status.kInvalidArgument => $"Invalid argument: "
  | Status.kIOError => $"IO error: "
  end.

Definition joined (msg msg2 : str) : str :=
  msg ++ match msg2 with [] => [] | _ => $": " ++ msg2 end.

(** The layout [make] builds, when the lengths fit 32 bits. *)
Lemma status_make_layout c msg msg2 :
  str_size msg + str_size msg2 + 2 < 2 ^ 32 ->
  Status.make c msg msg2 =
  Some (EncodeFixed32 (str_size (joined msg msg2)) ++ z2b (Status.code_value c) :: joined msg msg2).
Proof.
  intros H. pose proof (str_size_nonneg msg). pose proof (str_size_nonneg msg2).
  unfold Status.make. rewrite (wrap_small 32 (str_size msg)), (wrap_small 32 (str_size msg2)) by lia.
  unfold joined. destruct msg2 as [|b m].
  - change (str_size []) with 0. rewrite Z.eqb_refl, Z.add_0_r, app_nil_r, wrap_small by lia. done.
  - destruct (Z.eqb_spec (str_size (b :: m)) 0) as [E|_]; [unfold str_size in E; simpl in E; lia|].
    rewrite wrap_small by lia. rewrite !str_size_app. done.
Qed.

(** the message a status was built from is what it shows: [ToString] gives the
    code's text, the first message and, if there is a second one, a colon and the
    second; copying the state loses nothing. *)
Theorem status_ToString c msg msg2 :
  str_size msg + str_size msg2 + 2 < 2 ^ 32 ->
  Status.ToString (Status.make c msg msg2) = code_text c ++ joined msg msg2 /\
  Status.CopyState <$> Status.make c msg msg2 = Status.make c msg msg2 /\
  Status.ok (Status.make c msg msg2) = false.
Proof.
  intros H. pose proof (str_size_nonneg msg). pose proof (str_size_nonneg msg2).
  assert (str_size (joined msg msg2) < 2 ^ 32) as Hj.
  { unfold joined. destruct msg2; rewrite ?app_nil_r, ?str_size_app;
      [lia|change (str_size ($": ")) with 2; lia]. }
  pose proof (str_size_nonneg (joined msg msg2)) as Hj0.
  pose proof (status_code_make c msg msg2) as Hc.
  unfold Status.ToString. rewrite status_make_layout in * by done.
  assert (forall r, DecodeFixed32 (EncodeFixed32 (str_size (joined msg msg2)) ++ r)
                    = str_size (joined msg msg2)) as Hd.
  { intros r. rewrite DecodeFixed32_Encode. by apply wrap_small. }
  split_and!; [| |done].
  - rewrite Hc, Hd. change (drop 5 (EncodeFixed32 ?z ++ ?b :: ?m)) with m.
    unfold str_size. rewrite Nat2Z.id. rewrite firstn_all. by destruct c.
  - cbn [fmap option_fmap option_map]. f_equal. unfold Status.CopyState. rewrite Hd. apply take_ge.
    rewrite length_app. simpl. unfold str_size. lia.
Qed.

Lemma status_ToString_witness :
  Status.ToString (Status.make Status.kInvalidArgument ($"000005.txt: unknown file type") [])
    = code_text Status.kInvalidArgument ++ joined ($"000005.txt: unknown file type") [] /\
  Status.CopyState <$> Status.make Status.kInvalidArgument ($"000005.txt: unknown file type") []
    = Status.make Status.kInvalidArgument ($"000005.txt: unknown file type") [] /\
  Status.ok (Status.make Status.kInvalidArgument ($"000005.txt: unknown file type") []) = false.
Proof. apply status_ToString. vm_compute. reflexivity. Defined.
