(* ===== verification/Logging.v ===== *)
(** * leveldb: util/logging and db/filename

    Numbers and escaped strings as text, the decimal reader, and the names of the
    files of a database: what [MakeFileName] and its callers write and what
    [ParseFileName] recognises. *)

From Stdlib Require Import ZArith Lia.
From S2P Require Import Prelude CString Coding SliceStatus.

(** ** util/logging.cc *)

Definition AppendNumberTo (s : str) (num : Z) : str := s ++ dec num.

(** The text of one character of an escaped string. *)
Definition escape_char (c : byte) : str :=
  if (32 <=? char_val c) && (char_val c <=? 126) then [c]
  else $"\x" ++ hex02 (Z.land (u32 (char_val c)) 255).

Definition AppendEscapedStringTo (s : str) (value : str) : str :=
  foldl (fun s c => s ++ escape_char c) s value.

Definition NumberToString (num : Z) : str := AppendNumberTo [] num.
Definition EscapeString (value : str) : str := AppendEscapedStringTo [] value.

Definition kMaxUint64 : Z := 18446744073709551615.
Definition kLastDigitOfMaxUint64 : Z := 48 + kMaxUint64 mod 10.

(** The loop of [ConsumeDecimalNumber]: the value and the rest of the input, or
    [None] on overflow. *)
Fixpoint consume_digits (value : Z) (s : str) : option (Z * str) :=
  match s with
  | [] => Some (value, [])
  | b :: s' =>
      let ch := b2z b in
      if (ch <? 48) || (57 <? ch) then Some (value, s)
      else if (kMaxUint64 / 10 <? value) ||
              ((value =? kMaxUint64 / 10) && (kLastDigitOfMaxUint64 <? ch)) then None
      else consume_digits (u64 (value * 10 + (ch - 48))) s'
  end.

Definition ConsumeDecimalNumber (s : str) : option (Z * str) :=
  match consume_digits 0 s with
  | Some (v, rest) => if (length rest =? length s)%nat then None else Some (v, rest)
  | None => None
  end.

(** ** db/filename.cc *)

Inductive FileType :=
  | kLogFile | kDBLockFile | kTableFile | kDescriptorFile | kCurrentFile | kTempFile | kInfoLogFile.

#[export] Instance FileType_eq_decision : EqDecision FileType.
Proof. solve_decision. Defined.

Definition MakeFileName (dbname : str) (number : Z) (suffix : str) : str :=
  dbname ++ $"/" ++ dec06 number ++ $"." ++ suffix.

Definition assert_positive (number : Z) (name : str) : result str :=
  if 0 <? number then Ret name else Crash AssertFailed.

Definition LogFileName (dbname : str) (number : Z) : result str :=
  assert_positive number (MakeFileName dbname number ($"log")).
Definition TableFileName (dbname : str) (number : Z) : result str :=
  assert_positive number (MakeFileName dbname number ($"ldb")).
Definition SSTTableFileName (dbname : str) (number : Z) : result str :=
  assert_positive number (MakeFileName dbname number ($"sst")).
Definition DescriptorFileName (dbname : str) (number : Z) : result str :=
  assert_positive number (dbname ++ $"/MANIFEST-" ++ dec06 number).
Definition CurrentFileName (dbname : str) : str := dbname ++ $"/CURRENT".
Definition LockFileName (dbname : str) : str := dbname ++ $"/LOCK".
Definition TempFileName (dbname : str) (number : Z) : result str :=
  assert_positive number (MakeFileName dbname number ($"dbtmp")).
Definition InfoLogFileName (dbname : str) : str := dbname ++ $"/LOG".
Definition OldInfoLogFileName (dbname : str) : str := dbname ++ $"/LOG.old".

Definition ParseFileName (filename : str) : option (Z * FileType) :=
  if Slice.eqb filename ($"CURRENT") then Some (0, kCurrentFile)
  else if Slice.eqb filename ($"LOCK") then Some (0, kDBLockFile)
  else if Slice.eqb filename ($"LOG") || Slice.eqb filename ($"LOG.old") then Some (0, kInfoLogFile)
  else if Slice.starts_with filename ($"MANIFEST-") then
    match ConsumeDecimalNumber (drop (length ($"MANIFEST-")) filename) with
    | None => None
    | Some (num, rest) => match rest with [] => Some (num, kDescriptorFile) | _ => None end
    end
  else
    match ConsumeDecimalNumber filename with
    | None => None
    | Some (num, suffix) =>
        if Slice.eqb suffix ($".log") then Some (num, kLogFile)
        else if Slice.eqb suffix ($".sst") || Slice.eqb suffix ($".ldb") then Some (num, kTableFile)
        else if Slice.eqb suffix ($".dbtmp") then Some (num, kTempFile)
        else None
    end.

(** ** Lemmas *)

Lemma AppendEscapedStringTo_app s value :
  AppendEscapedStringTo s value = s ++ EscapeString value.
Proof.
  unfold EscapeString, AppendEscapedStringTo. rewrite <- (app_nil_r s) at 1.
  generalize (@nil byte) as acc. revert s. induction value as [|c value IH]; intros s acc; simpl; [done|].
  by rewrite <- app_assoc, IH.
Qed.

Lemma EscapeString_cons c value : EscapeString (c :: value) = escape_char c ++ EscapeString value.
Proof. unfold EscapeString at 1. simpl. apply AppendEscapedStringTo_app. Qed.

(** A printable character other than the backslash's escapes stands for itself. *)
Definition printable (c : byte) : Prop := 32 <= b2z c <= 126.

Lemma escape_char_printable c : printable c -> escape_char c = [c].
Proof.
  unfold printable, escape_char, char_val. intros H.
  destruct (Z.ltb_spec (b2z c) 128); [|lia].
  destruct (Z.leb_spec 32 (b2z c)), (Z.leb_spec (b2z c) 126); try lia. done.
Qed.

Lemma EscapeString_printable s : Forall printable s -> EscapeString s = s.
Proof.
  induction 1 as [|c s Hc Hs IH]; [done|]. by rewrite EscapeString_cons, escape_char_printable, IH.
Qed.

(** The digit reader accepts exactly the digit strings whose value fits. *)
Definition not_digit_head (rest : str) : Prop :=
  match rest with [] => True | b :: _ => ~ is_digit b end.

Lemma foldl_digits_mono v ds :
  Forall is_digit ds -> 0 <= v -> v <= foldl (fun v b => v * 10 + (b2z b - 48)) v ds.
Proof.
  intros Hd. revert v. induction Hd as [|d ds Hd Hds IH]; intros v Hv; simpl; [lia|].
  unfold is_digit in Hd. specialize (IH (v * 10 + (b2z d - 48)) ltac:(lia)). lia.
Qed.

Lemma consume_digits_stop value rest :
  not_digit_head rest -> consume_digits value rest = Some (value, rest).
Proof.
  destruct rest as [|b rest]; simpl; [done|]. unfold is_digit. intros H.
  destruct (Z.ltb_spec (b2z b) 48), (Z.ltb_spec 57 (b2z b)); simpl; try done. lia.
Qed.

Lemma consume_digits_spec value ds rest :
  Forall is_digit ds -> not_digit_head rest -> 0 <= value <= kMaxUint64 ->
  consume_digits value (ds ++ rest) =
  let v := foldl (fun v b => v * 10 + (b2z b - 48)) value ds in
  if v <=? kMaxUint64 then Some (v, rest) else None.
Proof.
  intros Hd Hr. revert value. induction Hd as [|d ds Hd Hds IH]; intros value Hv; cbn [app foldl].
  - rewrite consume_digits_stop by done. cbn zeta. destruct (Z.leb_spec value kMaxUint64); [done|lia].
  - cbn [consume_digits]. unfold is_digit in Hd.
    destruct (Z.ltb_spec (b2z d) 48); [lia|]. destruct (Z.ltb_spec 57 (b2z d)); [lia|]. cbn [orb].
    set (v := value * 10 + (b2z d - 48)).
    pose proof (foldl_digits_mono v ds Hds ltac:(lia)) as Hmono. cbn zeta in *.
    change (kMaxUint64 / 10) with 1844674407370955161. change kLastDigitOfMaxUint64 with 53.
    destruct (decide (v <= kMaxUint64)) as [Hle|Hgt]; unfold kMaxUint64 in *.
    + destruct (Z.ltb_spec 1844674407370955161 value); [lia|].
      destruct (Z.eqb_spec value 1844674407370955161), (Z.ltb_spec 53 (b2z d)); try lia;
        cbn [orb andb]; rewrite wrap_small by lia; by rewrite IH by lia.
    + destruct (Z.leb_spec (foldl (fun v b => v * 10 + (b2z b - 48)) v ds) 18446744073709551615); [lia|].
      destruct (Z.ltb_spec 1844674407370955161 value); [done|].
      destruct (Z.eqb_spec value 1844674407370955161), (Z.ltb_spec 53 (b2z d)); try lia. done.
Qed.

Lemma ConsumeDecimalNumber_spec ds rest :
  Forall is_digit ds -> ds <> [] -> not_digit_head rest ->
  ConsumeDecimalNumber (ds ++ rest) =
  if digits_value ds <=? kMaxUint64 then Some (digits_value ds, rest) else None.
Proof.
  intros Hd Hne Hr. unfold ConsumeDecimalNumber.
  rewrite consume_digits_spec by (done || (unfold kMaxUint64; lia)). cbn zeta.
  fold (digits_value ds). destruct (Z.leb_spec (digits_value ds) kMaxUint64); [|done].
  destruct (Nat.eqb_spec (length rest) (length (ds ++ rest))) as [E|_]; [|done].
  rewrite length_app in E. destruct ds; simpl in E; [done|lia].
Qed.

Lemma consume_dec06 n rest :
  0 <= n <= kMaxUint64 -> not_digit_head rest ->
  ConsumeDecimalNumber (dec06 n ++ rest) = Some (n, rest).
Proof.
  intros Hn Hr.
  rewrite ConsumeDecimalNumber_spec by auto using dec06_is_digit, dec06_nonempty.
  rewrite dec06_value by lia. destruct (Z.leb_spec n kMaxUint64); [done|lia].
Qed.

(** A name that starts with a digit is parsed as a number and a suffix. *)
Definition parse_suffix (num : Z) (suffix : str) : option (Z * FileType) :=
  if Slice.eqb suffix ($".log") then Some (num, kLogFile)
  else if Slice.eqb suffix ($".sst") || Slice.eqb suffix ($".ldb") then Some (num, kTableFile)
  else if Slice.eqb suffix ($".dbtmp") then Some (num, kTempFile)
  else None.

Ltac not_digit :=
  let H1 := fresh in let H2 := fresh in
  vm_compute; intros [H1 H2]; vm_compute in H1, H2; congruence.

Lemma slice_eqb_digit b s t : is_digit b -> not_digit_head t -> Slice.eqb (b :: s) t = false.
Proof.
  intros Hb Ht. apply not_true_is_false. rewrite slice_eqb_eq. by intros <-.
Qed.

Lemma starts_with_digit b s c t :
  is_digit b -> not_digit_head (c :: t) -> Slice.starts_with (b :: s) (c :: t) = false.
Proof.
  intros Hb Ht. apply not_true_is_false. rewrite starts_with_spec. intros [u [= -> _]]. done.
Qed.

Lemma ParseFileName_digit b s :
  is_digit b ->
  ParseFileName (b :: s) =
  match ConsumeDecimalNumber (b :: s) with Some (num, suffix) => parse_suffix num suffix | None => None end.
Proof.
  intros Hb. unfold ParseFileName.
  rewrite !(slice_eqb_digit b s) by (done || not_digit).
  change ($"MANIFEST-") with (Byte.x4d :: $"ANIFEST-") at 1.
  rewrite (starts_with_digit b s) by (done || not_digit). done.
Qed.

Lemma ParseFileName_numbered n suffix :
  0 <= n <= kMaxUint64 -> not_digit_head suffix ->
  ParseFileName (dec06 n ++ suffix) = parse_suffix n suffix.
Proof.
  intros Hn Hs. pose proof (dec06_is_digit n) as Hd. pose proof (consume_dec06 n suffix Hn Hs) as Hc.
  destruct (dec06 n) as [|b s] eqn:E; [by apply dec06_nonempty in E|].
  inversion Hd; subst. cbn [app] in *. by rewrite ParseFileName_digit, Hc.
Qed.

Lemma assert_positive_ok n name : 0 < n -> assert_positive n name = Ret name.
Proof. intros H. unfold assert_positive. destruct (Z.ltb_spec 0 n); [done|lia]. Qed.

Lemma not_digit_dot s : not_digit_head (Byte.x2e :: s).
Proof. not_digit. Qed.

(** ** Properties *)

(** the decimal reader is exact on every run of digits: it returns the value
    and stops at the first character that is not a digit, and it refuses exactly
    the runs whose value does not fit 64 bits. *)
Theorem ConsumeDecimalNumber_exact ds rest :
  Forall is_digit ds -> ds <> [] -> not_digit_head rest ->
  ConsumeDecimalNumber (ds ++ rest) =
  if digits_value ds <=? kMaxUint64 then Some (digits_value ds, rest) else None.
Proof. apply ConsumeDecimalNumber_spec. Qed.

(** every file name the database makes is recognised with its number and its
    type, for all numbers of the 64-bit range; asking for number zero fails the
    assertion instead. *)
Theorem filename_roundtrip dbname n :
  0 <= n <= kMaxUint64 ->
  match n =? 0 with
  | true =>
      LogFileName dbname n = Crash AssertFailed /\ TableFileName dbname n = Crash AssertFailed
  | false =>
      (exists b, LogFileName dbname n = Ret (dbname ++ $"/" ++ b) /\
                 ParseFileName b = Some (n, kLogFile)) /\
      (exists b, TableFileName dbname n = Ret (dbname ++ $"/" ++ b) /\
                 ParseFileName b = Some (n, kTableFile)) /\
      (exists b, SSTTableFileName dbname n = Ret (dbname ++ $"/" ++ b) /\
                 ParseFileName b = Some (n, kTableFile)) /\
      (exists b, TempFileName dbname n = Ret (dbname ++ $"/" ++ b) /\
                 ParseFileName b = Some (n, kTempFile)) /\
      (exists b, DescriptorFileName dbname n = Ret (dbname ++ $"/" ++ b) /\
                 ParseFileName b = Some (n, kDescriptorFile))
  end.
Proof.
  intros Hn. destruct (Z.eqb_spec n 0) as [->|Hne]; [done|].
  assert (0 < n) as Hpos by lia.
  unfold LogFileName, TableFileName, SSTTableFileName, TempFileName, DescriptorFileName, MakeFileName.
  rewrite !assert_positive_ok by done.
  split_and!.
  5: { exists ($"MANIFEST-" ++ dec06 n). split; [done|].
       unfold ParseFileName.
       assert (forall t, hd_error t <> Some Byte.x4d ->
                 Slice.eqb ($"MANIFEST-" ++ dec06 n) t = false) as Hneq.
       { intros t Ht. apply not_true_is_false. rewrite slice_eqb_eq. by intros <-. }
       rewrite !Hneq by (vm_compute; congruence).
       assert (Slice.starts_with ($"MANIFEST-" ++ dec06 n) ($"MANIFEST-") = true) as ->
         by (apply starts_with_spec; eauto).
       cbn [orb]. rewrite drop_app_length, <- (app_nil_r (dec06 n)), consume_dec06 by done. done. }
  all: eexists (dec06 n ++ _); split; [reflexivity|].
  all: rewrite ParseFileName_numbered by (done || apply not_digit_dot); done.
Qed.

(** a file of the form [<number>.bloom], the name the hierarchy gives its
    filters, is not a file of the database, whatever the number (leveldb never
    lists, keeps or deletes it as its own). *)
Theorem bloom_files_not_owned ds :
  Forall is_digit ds -> ds <> [] -> ParseFileName (ds ++ $".bloom") = None.
Proof.
  intros Hd Hne. pose proof (ConsumeDecimalNumber_spec ds ($".bloom") Hd Hne (not_digit_dot _)) as Hc.
  destruct ds as [|b ds]; [done|]. inversion Hd; subst. cbn [app] in *.
  rewrite ParseFileName_digit, Hc by done. by case_match.
Qed.

Lemma ConsumeDecimalNumber_exact_witness :
  ConsumeDecimalNumber ($"18446744073709551616" ++ $".ldb") =
  if digits_value ($"18446744073709551616") <=? kMaxUint64
  then Some (digits_value ($"18446744073709551616"), $".ldb") else None.
Proof.
  apply ConsumeDecimalNumber_exact; [|done|apply not_digit_dot].
  repeat constructor; vm_compute; discriminate.
Defined.

Example table_name : TableFileName ($"db") 5 = Ret ($"db/000005.ldb").
Proof. vm_compute. reflexivity. Qed.
