(* ===== verification/FilterPolicy.v ===== *)
(** * leveldb: util/hash and util/bloom

    The murmur-like hash and the built-in key Bloom filter of leveldb
    ([NewBloomFilterPolicy]), which [DBOperation::Statistics] installs.  The
    number of probes is computed by the C++ code in double precision; the model
    uses the IEEE-754 multiplication of [SpecFloat]. *)

From Stdlib Require Import ZArith Lia.
From Stdlib Require Import SpecFloat.
From S2P Require Import Prelude CString Coding.

(** ** util/hash.cc *)

Definition hash_m : Z := 3332679571. (* 0xc6a4a793 *)

(** One round on a four-byte word. *)
Definition hash_word (h w : Z) : Z :=
  let h := u32 (h + w) in
  let h := u32 (h * hash_m) in
  Z.lxor h (Z.shiftr h 16).

(** The remaining zero to three bytes, with the fall-through of the [switch]. *)
Definition hash_tail (h : Z) (data : str) : Z :=
  let h3 h := match data with [_; _; b2] => u32 (h + Z.shiftl (b2z b2) 16) | _ => h end in
  let h2 h := match data with _ :: b1 :: _ => u32 (h + Z.shiftl (b2z b1) 8) | _ => h end in
  match data with
  | [] => h
  | b0 :: _ =>
      let h := u32 (h2 (h3 h) + b2z b0) in
      let h := u32 (h * hash_m) in
      Z.lxor h (Z.shiftr h 24)
  end.

Fixpoint hash_loop (h : Z) (data : str) : Z :=
  match data with
  | b0 :: b1 :: b2 :: b3 :: rest => hash_loop (hash_word h (DecodeFixed32 [b0; b1; b2; b3])) rest
  | _ => hash_tail h data
  end.

Definition Hash (data : str) (seed : Z) : Z :=
  hash_loop (u32 (Z.lxor seed (u64 (str_size data * hash_m)))) data.

(** ** util/bloom.cc *)

Definition BloomHash (key : str) : Z := Hash key 3164544308. (* 0xbc9f1d34 *)

(** [static_cast<size_t>(bits_per_key * 0.69)] in double precision. *)
Definition double_of_int (z : Z) : spec_float := binary_normalize 53 1024 z 0 false.
Definition double_0_69 : spec_float := S754_finite false 6214967485771284 (-53).
Definition truncate (x : spec_float) : Z :=
  match x with
  | S754_finite s m e =>
      let a := if 0 <=? e then Z.pos m * 2 ^ e else Z.pos m / 2 ^ (- e) in
      if s then - a else a
  | _ => 0
  end.

Module BloomFilterPolicy.

Record BloomFilterPolicy := mkPolicy { bits_per_key_ : Z; k_ : Z }.

(** The constructor; a negative number of bits has no meaning as [size_t]. *)
Definition make (bits_per_key : Z) : result BloomFilterPolicy :=
  let k := truncate (SFmul 53 1024 (double_of_int bits_per_key) double_0_69) in
  if k <? 0 then Crash IntOverflow else
  let k := if k <? 1 then 1 else k in
  let k := if 30 <? k then 30 else k in
  Ret (mkPolicy (u64 bits_per_key) k).

Definition rotate (h : Z) : Z := Z.lor (Z.shiftr h 17) (u32 (Z.shiftl h 15)).

(** The inner loop of [CreateFilter] for one key. *)
Fixpoint set_probes (j : nat) (h delta bits : Z) (array : str) : str :=
  match j with
  | O => array
  | S j' => set_probes j' (u32 (h + delta)) delta bits (or_bit array (h mod bits) 1)
  end.

Definition add_key (p : BloomFilterPolicy) (bits : Z) (array key : str) : str :=
  let h := BloomHash key in set_probes (Z.to_nat (k_ p)) h (rotate h) bits array.

(** [bits] and [bytes] of the filter of [n] keys. *)
Definition filter_bytes (p : BloomFilterPolicy) (n : Z) : Z :=
  let bits := u64 (u64 n * bits_per_key_ p) in
  let bits := if bits <? 64 then 64 else bits in
  u64 (bits + 7) / 8.

(** [CreateFilter(keys, n, dst)] appends the array and the number of probes. *)
Definition CreateFilter (p : BloomFilterPolicy) (keys : list str) (dst : str) : str :=
  let bytes := filter_bytes p (Z.of_nat (length keys)) in
  let bits := bytes * 8 in
  let array := foldl (add_key p bits) (replicate (Z.to_nat bytes) Byte.x00 ++ [z2b (k_ p)]) keys in
  dst ++ array.

Fixpoint test_probes (j : nat) (h delta bits : Z) (array : str) : bool :=
  match j with
  | O => true
  | S j' =>
      let bitpos := h mod bits in
      if Z.land (char_val (nth (Z.to_nat (bitpos / 8)) array Byte.x00)) (Z.shiftl 1 (bitpos mod 8)) =? 0
      then false
      else test_probes j' (u32 (h + delta)) delta bits array
  end.

Definition KeyMayMatch (key bloom_filter : str) : bool :=
  let len := str_size bloom_filter in
  if len <? 2 then false else
  let bits := (len - 1) * 8 in
  let k := u64 (char_val (nth (Z.to_nat (len - 1)) bloom_filter Byte.x00)) in
  if 30 <? k then true else
  let h := BloomHash key in test_probes (Z.to_nat k) h (rotate h) bits bloom_filter.

End BloomFilterPolicy.
Import BloomFilterPolicy.

(** ** Lemmas *)

Lemma test_probe_bit array pos :
  0 <= pos ->
  (Z.land (char_val (nth (Z.to_nat (pos / 8)) array Byte.x00)) (Z.shiftl 1 (pos mod 8)) =? 0)
  = negb (buf_bit array pos).
Proof.
  intros Hp. rewrite land_shift_testbit by lia_div. by rewrite char_val_testbit by lia_div.
Qed.

(** Bits are only ever set, and the array keeps its length. *)
Lemma set_probes_mono j h delta bits array i :
  0 < bits -> bits <= 8 * Z.of_nat (length array) -> 0 <= i ->
  length (set_probes j h delta bits array) = length array /\
  (buf_bit array i = true -> buf_bit (set_probes j h delta bits array) i = true).
Proof.
  intros Hb. revert h array. induction j as [|j IH]; intros h array Hl Hi; simpl; [done|].
  pose proof (Z.mod_pos_bound h bits Hb).
  destruct (IH (u32 (h + delta)) (or_bit array (h mod bits) 1)) as [IH1 IH2];
    [by rewrite or_bit_length|done|]. rewrite IH1, or_bit_length. split; [done|].
  intros Ha. apply IH2. change 1 with (Z.b2z true). rewrite or_bit_spec by lia_div. by rewrite Ha.
Qed.

(** The probes of a key that was added all find a one, whatever was added later. *)
Lemma set_test_probes j h delta bits array array' :
  0 < bits -> bits <= 8 * Z.of_nat (length array) ->
  (forall i, 0 <= i < bits -> buf_bit (set_probes j h delta bits array) i = true ->
             buf_bit array' i = true) ->
  test_probes j h delta bits array' = true.
Proof.
  intros Hb. revert h array. induction j as [|j IH]; intros h array Hl Ha; simpl; [done|].
  pose proof (Z.mod_pos_bound h bits Hb) as Hp.
  rewrite test_probe_bit by lia. rewrite Ha; [cbn [negb]| lia |].
  - eapply IH; [|exact Ha]. by rewrite or_bit_length.
  - simpl. apply set_probes_mono; rewrite ?or_bit_length; try lia.
    change 1 with (Z.b2z true). rewrite or_bit_spec by lia_div.
    rewrite bool_decide_true by done. apply orb_true_r.
Qed.

Lemma add_keys_mono p bits keys array i :
  0 < bits -> bits <= 8 * Z.of_nat (length array) -> 0 <= i ->
  length (foldl (add_key p bits) array keys) = length array /\
  (buf_bit array i = true -> buf_bit (foldl (add_key p bits) array keys) i = true).
Proof.
  intros Hb. revert array. induction keys as [|k keys IH]; intros array Hl Hi; simpl; [done|].
  destruct (set_probes_mono (Z.to_nat (k_ p)) (BloomHash k) (rotate (BloomHash k)) bits array i)
    as [H1 H2]; [done..|].
  destruct (IH (add_key p bits array k)) as [IH1 IH2]; unfold add_key; [by rewrite H1|done|].
  unfold add_key in *. rewrite IH1, H1. auto.
Qed.

(** The array part of a filter never overlaps the byte that stores the number of
    probes. *)
Lemma set_probes_last j h delta bytes array :
  0 < bytes -> length array = S (Z.to_nat bytes) ->
  nth (Z.to_nat bytes) (set_probes j h delta (bytes * 8) array) Byte.x00
  = nth (Z.to_nat bytes) array Byte.x00.
Proof.
  intros Hb. revert h array. induction j as [|j IH]; intros h array Hl; simpl; [done|].
  pose proof (Z.mod_pos_bound h (bytes * 8) ltac:(lia)).
  rewrite IH by (by rewrite or_bit_length). unfold or_bit. rewrite nth_insert by lia_div.
  rewrite decide_False; [done|]. lia_div.
Qed.

Lemma add_keys_last p bytes keys array :
  0 < bytes -> length array = S (Z.to_nat bytes) ->
  nth (Z.to_nat bytes) (foldl (add_key p (bytes * 8)) array keys) Byte.x00
  = nth (Z.to_nat bytes) array Byte.x00.
Proof.
  intros Hb. revert array. induction keys as [|k keys IH]; intros array Hl; simpl; [done|].
  destruct (set_probes_mono (Z.to_nat (k_ p)) (BloomHash k) (rotate (BloomHash k)) (bytes * 8) array 0)
    as [H1 _]; [lia|lia|done|].
  rewrite IH; unfold add_key; [|by rewrite H1]. by apply set_probes_last.
Qed.

Lemma add_keys_member p bits keys key array :
  0 < bits -> bits <= 8 * Z.of_nat (length array) -> key ∈ keys ->
  test_probes (Z.to_nat (k_ p)) (BloomHash key) (rotate (BloomHash key)) bits
    (foldl (add_key p bits) array keys) = true.
Proof.
  intros Hb Hl Hin. revert array Hl. induction Hin as [key keys|key k keys Hin IH]; intros array Hl; simpl.
  - eapply set_test_probes; [done|exact Hl|]. intros i Hi Hbit.
    apply add_keys_mono; [done| |lia|exact Hbit].
    unfold add_key. destruct (set_probes_mono (Z.to_nat (k_ p)) (BloomHash key)
      (rotate (BloomHash key)) bits array i) as [-> _]; [done|done|lia|done].
  - apply IH. unfold add_key. destruct (set_probes_mono (Z.to_nat (k_ p)) (BloomHash k)
      (rotate (BloomHash k)) bits array 0) as [-> _]; done.
Qed.

Lemma make_range b p : make b = Ret p -> 1 <= k_ p <= 30.
Proof.
  unfold make. case_match; [done|]. intros [= <-]. simpl.
  destruct (Z.ltb_spec (truncate (SFmul 53 1024 (double_of_int b) double_0_69)) 1); simpl.
  - lia.
  - destruct (Z.ltb_spec 30 (truncate (SFmul 53 1024 (double_of_int b) double_0_69))); lia.
Qed.

Lemma filter_bytes_pos p n :
  0 <= n -> 0 <= bits_per_key_ p -> n * bits_per_key_ p + 7 <= SIZE_MAX -> 0 < filter_bytes p n.
Proof.
  unfold SIZE_MAX. intros Hn Hb Hs. unfold filter_bytes, wrap. change (2 ^ 64) with 18446744073709551616.
  assert (0 <= n * bits_per_key_ p) by nia.
  rewrite Z.mul_mod_idemp_l by lia. rewrite (Z.mod_small (n * bits_per_key_ p)) by lia.
  destruct (Z.ltb_spec (n * bits_per_key_ p) 64); rewrite Z.mod_small by lia; lia_div.
Qed.

(** The filter [CreateFilter] appends, apart from what was there. *)
Lemma CreateFilter_shape p keys dst :
  1 <= k_ p <= 30 -> 0 < filter_bytes p (Z.of_nat (length keys)) ->
  exists f, CreateFilter p keys dst = dst ++ f /\
            length f = S (Z.to_nat (filter_bytes p (Z.of_nat (length keys)))) /\
            nth (Z.to_nat (filter_bytes p (Z.of_nat (length keys)))) f Byte.x00 = z2b (k_ p) /\
            forall k, k ∈ keys ->
              test_probes (Z.to_nat (k_ p)) (BloomHash k) (rotate (BloomHash k))
                (filter_bytes p (Z.of_nat (length keys)) * 8) f = true.
Proof.
  intros Hk Hb. unfold CreateFilter. set (bytes := filter_bytes p (Z.of_nat (length keys))) in *.
  set (a0 := replicate (Z.to_nat bytes) Byte.x00 ++ [z2b (k_ p)]).
  assert (Ha0 : length a0 = S (Z.to_nat bytes)).
  { unfold a0. rewrite length_app, length_replicate. simpl. lia. }
  eexists. split_and!; [done| | |].
  - rewrite (proj1 (add_keys_mono p (bytes * 8) keys a0 0 ltac:(lia) ltac:(lia) ltac:(lia))). done.
  - rewrite add_keys_last by done. unfold a0. rewrite app_nth2; rewrite length_replicate; [|lia].
    by rewrite Nat.sub_diag.
  - intros k Hin. apply add_keys_member; [lia|lia|done].
Qed.

Lemma CreateFilter_matches p keys dst key :
  1 <= k_ p <= 30 -> 0 <= bits_per_key_ p ->
  Z.of_nat (length keys) * bits_per_key_ p + 7 <= SIZE_MAX -> key ∈ keys ->
  exists f, CreateFilter p keys dst = dst ++ f /\ KeyMayMatch key f = true.
Proof.
  intros Hk Hb Hs Hin. set (bytes := filter_bytes p (Z.of_nat (length keys))).
  assert (0 < bytes) as Hpos by (apply filter_bytes_pos; lia).
  destruct (CreateFilter_shape p keys dst Hk Hpos) as (f & -> & Hl & Hn & Ht).
  fold bytes in Hl, Hn, Ht. exists f. split; [done|]. unfold KeyMayMatch, str_size. rewrite Hl.
  destruct (Z.ltb_spec (Z.of_nat (S (Z.to_nat bytes))) 2); [lia|].
  replace (Z.of_nat (S (Z.to_nat bytes)) - 1) with bytes by lia. rewrite Hn.
  assert (u64 (char_val (z2b (k_ p))) = k_ p) as ->.
  { unfold char_val. rewrite b2z_z2b, Z.mod_small by lia.
    destruct (Z.ltb_spec (k_ p) 128); [|lia]. apply wrap_small. lia. }
  destruct (Z.ltb_spec 30 (k_ p)); [lia|]. by apply Ht.
Qed.

(** ** Properties *)

(** C34: a filter made by [CreateFilter] matches every key it was made for,
    whatever the destination held before and whatever other keys the filter has,
    as long as its size in bits fits [size_t]. *)
Theorem CreateFilter_no_false_negative bits_per_key p keys dst key :
  0 <= bits_per_key <= INT_MAX -> make bits_per_key = Ret p ->
  Z.of_nat (length keys) * bits_per_key + 7 <= SIZE_MAX -> key ∈ keys ->
  exists f, CreateFilter p keys dst = dst ++ f /\ KeyMayMatch key f = true.
Proof.
  intros Hr Hm Hs Hin. pose proof (make_range _ _ Hm) as Hk.
  assert (bits_per_key_ p = bits_per_key) as Hb.
  { unfold make in Hm. case_match; [done|]. injection Hm as <-. simpl.
    apply wrap_small. unfold INT_MAX in Hr. lia. }
  apply CreateFilter_matches; rewrite ?Hb; auto; lia.
Qed.

(** With the ten bits per key of [DBOperation::Statistics] a key is probed six
    times. *)
Example make_10 : make 10 = Ret (mkPolicy 10 6).
Proof. vm_compute. reflexivity. Qed.

Lemma CreateFilter_no_false_negative_witness :
  exists f, CreateFilter (mkPolicy 10 6) [$"Key1"; $"Key2"] ($"x") = $"x" ++ f /\
            KeyMayMatch ($"Key2") f = true.
Proof.
  apply (CreateFilter_no_false_negative 10); [done|vm_compute; reflexivity|done|set_solver].
Defined.
