(* ===== verification/DbFormat.v ===== *)
(** * leveldb: comparators and internal keys

    [util/comparator.cc], [db/dbformat.{h,cc}] and the two interfaces they meet:
    [Comparator] (what a user comparator offers and promises,
    [include/leveldb/comparator.h]) and [FilterPolicy]
    ([include/leveldb/filter_policy.h]).  The bytewise comparator and the built-in
    Bloom filter are instances; the internal comparator and the internal filter
    policy are verified against the interfaces. *)

From Stdlib Require Import ZArith Lia.
From S2P Require Import Prelude CString Coding SliceStatus Logging FilterPolicy.

(** ** Interfaces *)

(** The operations of a comparator; the asserts of an implementation make the two
    key-shortening operations partial. *)
Class Comparator := {
  Compare : str -> str -> comparison;
  FindShortestSeparator : str -> str -> result str;
  FindShortSuccessor : str -> result str
}.

(** What [comparator.h] promises.  [sep_same] is what [InternalKeyComparator]
    relies on beyond the header when both keys have the same user key. *)
Class ComparatorLaws (C : Comparator) := {
  cmp_refl a : Compare a a = Eq;
  cmp_antisym a b : Compare b a = CompOpp (Compare a b);
  cmp_trans a b c : Compare a b = Lt -> Compare b c = Lt -> Compare a c = Lt;
  cmp_eq_l a b c : Compare a b = Eq -> Compare a c = Compare b c;
  sep_between start limit :
    Compare start limit = Lt ->
    exists k, FindShortestSeparator start limit = Ret k /\
              Compare start k <> Gt /\ Compare k limit = Lt;
  sep_same start limit :
    Compare start limit = Eq ->
    exists k, FindShortestSeparator start limit = Ret k /\ Compare start k <> Lt;
  succ_above key :
    exists k, FindShortSuccessor key = Ret k /\ Compare key k <> Gt
}.

(** A filter policy, and the promise that a filter matches the keys it was made
    from, up to a number of keys. *)
Class FilterPolicy := {
  fp_CreateFilter : list str -> str -> str;
  fp_KeyMayMatch : str -> str -> bool;
  fp_max_keys : Z
}.

Class FilterPolicyLaws (P : FilterPolicy) := {
  fp_no_false_negative keys dst key :
    Z.of_nat (length keys) <= fp_max_keys -> key ∈ keys ->
    exists f, fp_CreateFilter keys dst = dst ++ f /\ fp_KeyMayMatch key f = true
}.

(** ** util/comparator.cc *)

Module Bytewise.

Definition Compare (a b : str) : comparison := Slice.compare a b.

(** The loop that finds the length of the common prefix. *)
Fixpoint diff_index (start limit : str) : nat :=
  match start, limit with
  | x :: start', y :: limit' => if decide (x = y) then S (diff_index start' limit') else O
  | _, _ => O
  end.

Definition FindShortestSeparator (start limit : str) : result str :=
  let min_length := Nat.min (length start) (length limit) in
  let i := diff_index start limit in
  if (min_length <=? i)%nat then Ret start
  else
    let diff_byte := b2z (nth i start Byte.x00) in
    if (diff_byte <? 255) && (diff_byte + 1 <? b2z (nth i limit Byte.x00)) then
      let start := take (S i) (<[i := z2b (diff_byte + 1)]> start) in
      match Compare start limit with Lt => Ret start | _ => Crash AssertFailed end
    else Ret start.

(** The search for the first byte that can be incremented, from index [i]. *)
Fixpoint short_successor (key : str) (n : nat) (i : nat) : str :=
  match n with
  | O => key
  | S n' =>
      let b := b2z (nth i key Byte.x00) in
      if b =? 255 then short_successor key n' (S i)
      else take (S i) (<[i := z2b (b + 1)]> key)
  end.

Definition FindShortSuccessor (key : str) : str := short_successor key (length key) 0.

End Bytewise.

#[export] Instance BytewiseComparator : Comparator := {
  Compare := Bytewise.Compare;
  FindShortestSeparator := Bytewise.FindShortestSeparator;
  FindShortSuccessor key := Ret (Bytewise.FindShortSuccessor key)
}.

(** ** db/dbformat *)

Inductive ValueType := kTypeDeletion | kTypeValue.
Definition type_value (t : ValueType) : Z :=
  match t with kTypeDeletion => 0 | kTypeValue => 1 end.
Definition kValueTypeForSeek : ValueType := kTypeValue.
Definition kMaxSequenceNumber : Z := Z.shiftl 1 56 - 1.

#[export] Instance ValueType_eq_decision : EqDecision ValueType.
Proof. solve_decision. Defined.

Record ParsedInternalKey := mkParsed {
  user_key : str; sequence : Z; type : ValueType
}.

Definition PackSequenceAndType (seq : Z) (t : ValueType) : result Z :=
  if kMaxSequenceNumber <? seq then Crash AssertFailed
  else if type_value kValueTypeForSeek <? type_value t then Crash AssertFailed
  else Ret (Z.lor (u64 (Z.shiftl seq 8)) (type_value t)).

Definition AppendInternalKey (result : str) (key : ParsedInternalKey) : Prelude.result str :=
  num ← PackSequenceAndType (sequence key) (type key);
  Ret (PutFixed64 (result ++ user_key key) num).

Definition InternalKeyEncodingLength (key : ParsedInternalKey) : Z :=
  u64 (str_size (user_key key) + 8).

Definition ExtractUserKey (internal_key : str) : result str :=
  if 8 <=? str_size internal_key
  then Ret (take (length internal_key - 8) internal_key) else Crash AssertFailed.

(** The eight bytes at the end of an internal key. *)
Definition key_tag (internal_key : str) : Z :=
  DecodeFixed64 (drop (length internal_key - 8) internal_key).

Definition ParseInternalKey (internal_key : str) : option ParsedInternalKey :=
  let n := str_size internal_key in
  if n <? 8 then None
  else
    let num := key_tag internal_key in
    let c := Z.land num 255 in
    if c <=? 1
    then Some (mkParsed (take (length internal_key - 8) internal_key) (Z.shiftr num 8)
                 (if c =? 0 then kTypeDeletion else kTypeValue))
    else None.

Definition ParsedInternalKey_DebugString (k : ParsedInternalKey) : str :=
  $"'" ++ EscapeString (user_key k) ++ $"' @ " ++ dec (sequence k) ++ $" : "
  ++ to_string (type_value (type k)).

(** [InternalKey]: its [rep_]. *)
Definition InternalKey_make (u : str) (s : Z) (t : ValueType) : result str :=
  AppendInternalKey [] (mkParsed u s t).
Definition InternalKey_DecodeFrom (s : str) : str * bool := (s, negb (bool_decide (s = []))).
Definition InternalKey_Encode (rep : str) : result str :=
  if decide (rep = []) then Crash AssertFailed else Ret rep.
Definition InternalKey_SetFrom (p : ParsedInternalKey) : result str := AppendInternalKey [] p.
Definition InternalKey_DebugString (rep : str) : str :=
  match ParseInternalKey rep with
  | Some parsed => ParsedInternalKey_DebugString parsed
  | None => $"(bad)" ++ EscapeString rep
  end.

(** *** InternalKeyComparator *)

Module InternalKeyComparator.
Section ops.
Context `{C : !Comparator}.

Definition Compare (akey bkey : str) : result comparison :=
  ua ← ExtractUserKey akey;
  ub ← ExtractUserKey bkey;
  match DbFormat.Compare ua ub with
  | Eq =>
      let anum := key_tag akey in
      let bnum := key_tag bkey in
      Ret (if bnum <? anum then Lt else if anum <? bnum then Gt else Eq)
  | r => Ret r
  end.

Definition assert_less (a b : str) : result unit :=
  r ← Compare a b; match r with Lt => Ret tt | _ => Crash AssertFailed end.

Definition FindShortestSeparator (start limit : str) : result str :=
  user_start ← ExtractUserKey start;
  user_limit ← ExtractUserKey limit;
  tmp ← DbFormat.FindShortestSeparator user_start user_limit;
  if (str_size tmp <? str_size user_start)
     && match DbFormat.Compare user_start tmp with Lt => true | _ => false end
  then
    num ← PackSequenceAndType kMaxSequenceNumber kValueTypeForSeek;
    let tmp := PutFixed64 tmp num in
    _ ← assert_less start tmp;
    _ ← assert_less tmp limit;
    Ret tmp
  else Ret start.

Definition FindShortSuccessor (key : str) : result str :=
  user_key ← ExtractUserKey key;
  tmp ← DbFormat.FindShortSuccessor user_key;
  if (str_size tmp <? str_size user_key)
     && match DbFormat.Compare user_key tmp with Lt => true | _ => false end
  then
    num ← PackSequenceAndType kMaxSequenceNumber kValueTypeForSeek;
    let tmp := PutFixed64 tmp num in
    _ ← assert_less key tmp;
    Ret tmp
  else Ret key.

End ops.
End InternalKeyComparator.

(** *** InternalFilterPolicy *)

Module InternalFilterPolicy.
Section ops.
Context `{P : !FilterPolicy}.

(** The loop replaces each key by its user key in place and passes the same
    array on. *)
Definition CreateFilter (keys : list str) (dst : str) : result str :=
  mkey ← mapR ExtractUserKey keys; Ret (fp_CreateFilter mkey dst).

Definition KeyMayMatch (key f : str) : result bool :=
  u ← ExtractUserKey key; Ret (fp_KeyMayMatch u f).

End ops.
End InternalFilterPolicy.

(** *** LookupKey *)

(** The bytes from [start_] to [end_], [kstart] the offset of [kstart_], and the
    size of the buffer they were written to. *)
Record LookupKey := mkLookup { lk_bytes : str; lk_kstart : nat; lk_capacity : Z }.

Definition LookupKey_make (u : str) (s : Z) : result LookupKey :=
  let usize := str_size u in
  let needed := u64 (usize + 13) in
  let capacity := if needed <=? 200 then 200 else needed in
  let klength := EncodeVarint32 (u32 (usize + 8)) in
  num ← PackSequenceAndType s kValueTypeForSeek;
  Ret (mkLookup (klength ++ u ++ EncodeFixed64 num) (length klength) capacity).

Definition memtable_key (k : LookupKey) : str := lk_bytes k.
Definition internal_key (k : LookupKey) : str := drop (lk_kstart k) (lk_bytes k).
Definition lookup_user_key (k : LookupKey) : str :=
  take (length (lk_bytes k) - lk_kstart k - 8) (drop (lk_kstart k) (lk_bytes k)).

(** ** Lemmas: the bytewise order *)

Lemma str_compare_app p a b : str_compare (p ++ a) (p ++ b) = str_compare a b.
Proof. induction p as [|x p IH]; simpl; [done|]. by rewrite Z.compare_refl. Qed.

(** The two ways the common-prefix loop can end. *)
Lemma diff_index_spec start limit :
  (exists t, start = limit ++ t) \/ (exists t, limit = start ++ t) \/
  exists p x y a b, start = p ++ x :: a /\ limit = p ++ y :: b /\ x <> y /\
    Bytewise.diff_index start limit = length p.
Proof.
  revert limit. induction start as [|x a IH]; intros [|y b]; simpl; [naive_solver..|].
  case_decide as E.
  - subst y. destruct (IH b) as [[t ->]|[[t ->]|(p & x' & y' & a' & b' & -> & -> & Hne & ->)]].
    + left. by exists t.
    + right; left. by exists t.
    + right; right. exists (x :: p), x', y', a', b'. naive_solver.
  - right; right. exists [], x, y, a, b. naive_solver.
Qed.

Lemma diff_index_prefix a t :
  Bytewise.diff_index a (a ++ t) = length a /\ Bytewise.diff_index (a ++ t) a = length a.
Proof.
  induction a as [|x a IH]; simpl; [by destruct t|].
  rewrite !decide_True by done. destruct IH as [-> ->]. done.
Qed.

Lemma insert_middle (p : str) x a c : take (S (length p)) (<[length p := c]> (p ++ x :: a)) = p ++ [c].
Proof.
  replace (length p) with (length p + 0)%nat at 2 by lia. rewrite insert_app_r. simpl.
  replace (S (length p)) with (length p + 1)%nat by lia. by rewrite take_app_add.
Qed.

Lemma nth_middle' (p : str) x a : nth (length p) (p ++ x :: a) Byte.x00 = x.
Proof. rewrite app_nth2, Nat.sub_diag by lia. done. Qed.

(** [FindShortestSeparator] never trips its assertion, for any arguments; it
    returns [start] or a shortened key above [start] and below [limit]. *)
Lemma bytewise_sep_spec start limit :
  exists k, Bytewise.FindShortestSeparator start limit = Ret k /\
    (k = start \/ (str_compare start k = Lt /\ str_compare k limit = Lt)).
Proof.
  unfold Bytewise.FindShortestSeparator.
  destruct (diff_index_spec start limit) as [[t ->]|[[t ->]|(p & x & y & a & b & -> & -> & Hne & ->)]].
  - destruct (diff_index_prefix limit t) as [_ ->]. rewrite length_app.
    rewrite (proj2 (Nat.leb_le _ _)) by lia. eauto.
  - destruct (diff_index_prefix start t) as [-> _]. rewrite length_app.
    rewrite (proj2 (Nat.leb_le _ _)) by lia. eauto.
  - rewrite !length_app. cbn [length]. rewrite (proj2 (Nat.leb_gt _ _)) by lia.
    rewrite !nth_middle', insert_middle. case_match eqn:E; [|eauto].
    apply andb_true_iff in E as [E1%Z.ltb_lt E2%Z.ltb_lt].
    pose proof (b2z_range x). pose proof (b2z_range y).
    unfold Bytewise.Compare. rewrite slice_compare_lex, !str_compare_app. simpl.
    rewrite b2z_z2b, Z.mod_small by lia.
    rewrite (proj2 (Z.compare_lt_iff (b2z x + 1) (b2z y))) by lia.
    eexists. split; [done|]. right. rewrite !str_compare_app. simpl. rewrite b2z_z2b, Z.mod_small by lia.
    rewrite (proj2 (Z.compare_lt_iff (b2z x) (b2z x + 1))) by lia.
    by rewrite (proj2 (Z.compare_lt_iff (b2z x + 1) (b2z y))) by lia.
Qed.

Lemma short_successor_spec key n i :
  (i + n = length key)%nat ->
  Bytewise.short_successor key n i = key \/
  str_compare key (Bytewise.short_successor key n i) = Lt.
Proof.
  revert i. induction n as [|n IH]; intros i Hl; simpl; [by left|].
  destruct (Z.eqb_spec (b2z (nth i key Byte.x00)) 255) as [E|E]; [apply IH; lia|]. right.
  rewrite <- (take_drop i key). set (p := take i key).
  assert (length p = i) as Hp by (unfold p; rewrite length_take; lia).
  destruct (drop i key) as [|x a] eqn:Ed.
  { apply (f_equal length) in Ed. rewrite length_drop in Ed. simpl in Ed. lia. }
  rewrite <- Hp, nth_middle', insert_middle, str_compare_app. simpl.
  assert (nth i key Byte.x00 = x) as Hx.
  { rewrite <- (take_drop i key), Ed. fold p. rewrite <- Hp at 1. apply nth_middle'. }
  rewrite Hx in E. pose proof (b2z_range x). rewrite b2z_z2b, Z.mod_small by lia.
  by rewrite (proj2 (Z.compare_lt_iff (b2z x) (b2z x + 1))) by lia.
Qed.

(** The bytewise comparator keeps the promises of [comparator.h]. *)
#[export] Instance BytewiseComparator_laws : ComparatorLaws BytewiseComparator.
Proof.
  split; simpl; unfold Bytewise.Compare; intros *; rewrite ?slice_compare_lex.
  - apply str_compare_refl.
  - apply str_compare_antisym.
  - apply str_compare_trans.
  - by intros ->%str_compare_eq.
  - intros Hlt. destruct (bytewise_sep_spec start limit) as (k & Hk & Hc).
    exists k. rewrite !slice_compare_lex. destruct Hc as [->|[H1 H2]].
    + by rewrite str_compare_refl.
    + by rewrite H1.
  - intros ->%str_compare_eq. destruct (bytewise_sep_spec limit limit) as (k & Hk & Hc).
    exists k. rewrite slice_compare_lex. destruct Hc as [->|[H1 H2]].
    + by rewrite str_compare_refl.
    + by rewrite str_compare_antisym, H1 in H2.
  - eexists. split; [done|]. rewrite slice_compare_lex. unfold Bytewise.FindShortSuccessor.
    destruct (short_successor_spec key (length key) 0 ltac:(lia)) as [->| ->];
      rewrite ?str_compare_refl; done.
Qed.

(** The built-in Bloom filter keeps the promise of [filter_policy.h]. *)
Definition bloom_policy (p : BloomFilterPolicy.BloomFilterPolicy) : FilterPolicy := {|
  fp_CreateFilter := BloomFilterPolicy.CreateFilter p;
  fp_KeyMayMatch := BloomFilterPolicy.KeyMayMatch;
  fp_max_keys := (SIZE_MAX - 7) / Z.max 1 (BloomFilterPolicy.bits_per_key_ p)
|}.

Lemma bloom_policy_laws p :
  1 <= BloomFilterPolicy.k_ p <= 30 -> 0 <= BloomFilterPolicy.bits_per_key_ p ->
  FilterPolicyLaws (bloom_policy p).
Proof.
  intros Hk Hb. split. simpl. intros keys dst key Hn Hin.
  apply CreateFilter_matches; [done|done| |done].
  destruct (Z.max_spec 1 (BloomFilterPolicy.bits_per_key_ p)) as [[? E]|[? E]]; rewrite E in Hn.
  - unfold SIZE_MAX in *. pose proof (Z.mul_div_le (18446744073709551615 - 7)
      (BloomFilterPolicy.bits_per_key_ p) ltac:(lia)). nia.
  - unfold SIZE_MAX in *. rewrite Z.div_1_r in Hn. nia.
Qed.

(** ** Lemmas: internal keys *)

Definition valid_key (k : ParsedInternalKey) : Prop := 0 <= sequence k <= kMaxSequenceNumber.

Definition packed (seq : Z) (t : ValueType) : Z := seq * 256 + type_value t.

Lemma kMaxSequenceNumber_val : kMaxSequenceNumber = 2 ^ 56 - 1.
Proof. reflexivity. Qed.

Lemma packed_range seq t : 0 <= seq <= kMaxSequenceNumber -> 0 <= packed seq t < 2 ^ 64.
Proof. rewrite kMaxSequenceNumber_val. unfold packed. destruct t; simpl type_value; lia. Qed.

Lemma Pack_ok seq t :
  0 <= seq <= kMaxSequenceNumber -> PackSequenceAndType seq t = Ret (packed seq t).
Proof.
  intros Hs. unfold PackSequenceAndType. destruct (Z.ltb_spec kMaxSequenceNumber seq); [lia|].
  rewrite kMaxSequenceNumber_val in *. rewrite Z.shiftl_mul_pow2 by lia. change (2 ^ 8) with 256.
  rewrite wrap_small by lia. destruct t; simpl.
  - rewrite Z.lor_0_r. f_equal. unfold packed. simpl. lia.
  - f_equal. unfold packed. cbn [type_value].
    assert (Z.land (seq * 256) 1 = 0) as Hl.
    { rewrite land_1_testbit, Z.bit0_odd, Z.odd_mul. cbn. by rewrite andb_false_r. }
    rewrite <- Z.lxor_lor by done. symmetry. by apply Z.add_nocarry_lxor.
Qed.

Lemma Pack_assert seq t : kMaxSequenceNumber < seq -> PackSequenceAndType seq t = Crash AssertFailed.
Proof. intros Hs. unfold PackSequenceAndType. by rewrite (proj2 (Z.ltb_lt _ _) Hs). Qed.

Lemma EncodeFixed64_length v : length (EncodeFixed64 v) = 8%nat.
Proof. reflexivity. Qed.

(** An internal key is a user key and an eight-byte tag. *)
Lemma key_split u num :
  0 <= num < 2 ^ 64 ->
  take (length (u ++ EncodeFixed64 num) - 8) (u ++ EncodeFixed64 num) = u /\
  key_tag (u ++ EncodeFixed64 num) = num.
Proof.
  intros Hn. unfold key_tag. rewrite length_app, EncodeFixed64_length, Nat.add_sub.
  rewrite take_app_length, drop_app_length. split; [done|].
  rewrite <- (app_nil_r (EncodeFixed64 num)), DecodeFixed64_Encode. by apply wrap_small.
Qed.

Lemma key_shape k :
  8 <= str_size k -> exists u num, k = u ++ EncodeFixed64 num /\ 0 <= num < 2 ^ 64.
Proof.
  unfold str_size. intros Hk. exists (take (length k - 8) k), (key_tag k). split.
  - unfold key_tag. rewrite EncodeFixed64_Decode by (rewrite length_drop; lia).
    by rewrite take_drop.
  - apply DecodeFixed64_range.
Qed.

Lemma key_size u num : str_size (u ++ EncodeFixed64 num) = str_size u + 8.
Proof. by rewrite str_size_app. Qed.

Lemma ExtractUserKey_app u num :
  0 <= num < 2 ^ 64 -> ExtractUserKey (u ++ EncodeFixed64 num) = Ret u.
Proof.
  intros Hn. unfold ExtractUserKey. rewrite key_size. pose proof (str_size_nonneg u).
  destruct (Z.leb_spec 8 (str_size u + 8)); [|lia]. by rewrite (proj1 (key_split u num Hn)).
Qed.

Lemma AppendInternalKey_ok dst k :
  valid_key k ->
  AppendInternalKey dst k = Ret (dst ++ user_key k ++ EncodeFixed64 (packed (sequence k) (type k))).
Proof.
  intros Hv. unfold AppendInternalKey. rewrite Pack_ok by done. simpl.
  unfold PutFixed64. by rewrite <- app_assoc.
Qed.

Lemma packed_fields seq t :
  0 <= seq -> Z.land (packed seq t) 255 = type_value t /\ Z.shiftr (packed seq t) 8 = seq.
Proof.
  intros Hs. change 255 with (Z.ones 8). rewrite Z.land_ones, Z.shiftr_div_pow2 by lia.
  change (2 ^ 8) with 256. unfold packed. destruct t; simpl type_value; lia_div.
Qed.

Lemma ParseInternalKey_app u num :
  0 <= num < 2 ^ 64 ->
  ParseInternalKey (u ++ EncodeFixed64 num) =
  if Z.land num 255 <=? 1
  then Some (mkParsed u (Z.shiftr num 8) (if Z.land num 255 =? 0 then kTypeDeletion else kTypeValue))
  else None.
Proof.
  intros Hn. unfold ParseInternalKey. rewrite key_size. pose proof (str_size_nonneg u).
  destruct (Z.ltb_spec (str_size u + 8) 8); [lia|]. by destruct (key_split u num Hn) as [-> ->].
Qed.

Lemma Parse_Append k :
  valid_key k -> ParseInternalKey (user_key k ++ EncodeFixed64 (packed (sequence k) (type k))) = Some k.
Proof.
  intros Hv. rewrite ParseInternalKey_app by (by apply packed_range).
  destruct k as [u s t]. unfold valid_key in Hv. simpl in *.
  destruct (packed_fields s t ltac:(lia)) as [-> ->]. by destruct t.
Qed.

Lemma Parse_inv k p :
  ParseInternalKey k = Some p ->
  valid_key p /\ k = user_key p ++ EncodeFixed64 (packed (sequence p) (type p)).
Proof.
  intros Hp. assert (8 <= str_size k) as Hs.
  { unfold ParseInternalKey in Hp. destruct (Z.ltb_spec (str_size k) 8); [done|lia]. }
  destruct (key_shape k Hs) as (u & num & -> & Hn). rewrite ParseInternalKey_app in Hp by done.
  change 255 with (Z.ones 8) in Hp. rewrite Z.land_ones, Z.shiftr_div_pow2 in Hp by lia.
  change (2 ^ 8) with 256 in Hp. destruct (Z.leb_spec (num mod 256) 1) as [Hc|]; [|done].
  injection Hp as <-. unfold valid_key, packed. cbn [sequence user_key type].
  rewrite kMaxSequenceNumber_val. split; [lia_div|]. do 2 f_equal.
  destruct (Z.eqb_spec (num mod 256) 0); cbn [type_value]; lia_div.
Qed.

(** ** Lemmas: the internal comparator *)

Section internal_comparator.
Context `{HC : !ComparatorLaws C}.
Implicit Types (u v : str).

Lemma cmp_flip a b c : Compare a b = c -> Compare b a = CompOpp c.
Proof. intros <-. apply cmp_antisym. Qed.

Lemma cmp_eq_r a b c : Compare b c = Eq -> Compare a b = Compare a c.
Proof.
  intros H. rewrite (cmp_antisym b a), (cmp_antisym c a). f_equal. by apply cmp_eq_l.
Qed.

(** Order of internal keys: user key first, then decreasing tag. *)
Definition ikey_order u n v m : comparison :=
  match Compare u v with Eq => Z.compare m n | c => c end.

Lemma ikey_compare u n v m :
  0 <= n < 2 ^ 64 -> 0 <= m < 2 ^ 64 ->
  InternalKeyComparator.Compare (u ++ EncodeFixed64 n) (v ++ EncodeFixed64 m)
  = Ret (ikey_order u n v m).
Proof.
  intros Hn Hm. unfold InternalKeyComparator.Compare. rewrite !ExtractUserKey_app by done.
  cbn [mbind result_bind]. unfold ikey_order. destruct (Compare u v); try done.
  rewrite (proj2 (key_split u n Hn)), (proj2 (key_split v m Hm)).
  destruct (Z.compare_spec m n), (Z.ltb_spec m n), (Z.ltb_spec n m); try done; lia.
Qed.

Lemma assert_less_ok u n v m :
  0 <= n < 2 ^ 64 -> 0 <= m < 2 ^ 64 -> Compare u v = Lt ->
  InternalKeyComparator.assert_less (u ++ EncodeFixed64 n) (v ++ EncodeFixed64 m) = Ret tt.
Proof.
  intros Hn Hm H. unfold InternalKeyComparator.assert_less. rewrite ikey_compare by done.
  unfold ikey_order. by rewrite H.
Qed.

Lemma seek_tag : PackSequenceAndType kMaxSequenceNumber kValueTypeForSeek
  = Ret (packed kMaxSequenceNumber kTypeValue) /\
  0 <= packed kMaxSequenceNumber kTypeValue < 2 ^ 64.
Proof. split; [by apply Pack_ok|by apply packed_range]. Qed.

(** The two shortenings keep the key, or cut its user key and take the largest
    tag. *)
Lemma internal_sep_cases u n v m :
  0 <= n < 2 ^ 64 -> 0 <= m < 2 ^ 64 -> ikey_order u n v m <> Gt ->
  exists k, InternalKeyComparator.FindShortestSeparator (u ++ EncodeFixed64 n) (v ++ EncodeFixed64 m) = Ret k /\
    (k = u ++ EncodeFixed64 n \/
     exists tmp, k = tmp ++ EncodeFixed64 (packed kMaxSequenceNumber kTypeValue) /\
       Compare u tmp = Lt /\ Compare tmp v = Lt /\ str_size tmp < str_size u).
Proof.
  intros Hn Hm Hc. unfold InternalKeyComparator.FindShortestSeparator. rewrite !ExtractUserKey_app by done.
  cbn [mbind result_bind]. unfold ikey_order in Hc. destruct (Compare u v) eqn:Huv; [| |done].
  - destruct (sep_same u v Huv) as (k & -> & Hk). cbn [mbind result_bind].
    destruct (Compare u k); [rewrite andb_false_r|done|rewrite andb_false_r]; eauto.
  - destruct (sep_between u v Huv) as (k & -> & Hk1 & Hk2). cbn [mbind result_bind].
    case_match eqn:E; [|eauto]. apply andb_true_iff in E as [El E]. destruct (Compare u k) eqn:Huk; try done.
    destruct seek_tag as [-> Ht]. cbn [mbind result_bind]. unfold PutFixed64.
    rewrite !assert_less_ok by done. cbn [mbind result_bind]. eexists. split; [done|]. right. exists k.
    apply Z.ltb_lt in El. done.
Qed.

Lemma internal_succ_cases u n :
  0 <= n < 2 ^ 64 ->
  exists k, InternalKeyComparator.FindShortSuccessor (u ++ EncodeFixed64 n) = Ret k /\
    (k = u ++ EncodeFixed64 n \/
     exists tmp, k = tmp ++ EncodeFixed64 (packed kMaxSequenceNumber kTypeValue) /\ Compare u tmp = Lt /\ str_size tmp < str_size u).
Proof.
  intros Hn. unfold InternalKeyComparator.FindShortSuccessor. rewrite ExtractUserKey_app by done. cbn [mbind result_bind].
  destruct (succ_above u) as (k & -> & _). cbn [mbind result_bind]. case_match eqn:E; [|eauto].
  apply andb_true_iff in E as [El E]. destruct (Compare u k) eqn:Huk; try done.
  destruct seek_tag as [-> Ht]. cbn [mbind result_bind]. unfold PutFixed64. rewrite assert_less_ok by done.
  cbn [mbind result_bind]. eexists. split; [done|]. right. exists k. apply Z.ltb_lt in El. done.
Qed.

End internal_comparator.

(** ** Properties *)

(** internal keys round trip: what [AppendInternalKey] appends is parsed back
    to the same user key, sequence number and type; and a byte string that parses
    is exactly the encoding of the key it parses to (so parsing loses nothing and
    no two encodings of a key exist). *)
Theorem internal_key_roundtrip k rep :
  (valid_key k -> exists enc, AppendInternalKey [] k = Ret enc /\ ParseInternalKey enc = Some k) /\
  (ParseInternalKey rep = Some k -> AppendInternalKey [] k = Ret rep).
Proof.
  split.
  - intros Hv. eexists. split; [by apply AppendInternalKey_ok|]. by apply Parse_Append.
  - intros [Hv ->]%Parse_inv. by apply AppendInternalKey_ok.
Qed.

(** internal keys are ordered by increasing user key, then decreasing sequence
    number, then decreasing type, for any user comparator; on keys that carry a
    tag the comparison never fails. *)
Theorem internal_compare_order `{C : !Comparator} a b ea eb :
  valid_key a -> valid_key b -> AppendInternalKey [] a = Ret ea -> AppendInternalKey [] b = Ret eb ->
  InternalKeyComparator.Compare ea eb =
  Ret match Compare (user_key a) (user_key b) with
      | Eq => match Z.compare (sequence b) (sequence a) with
              | Eq => Z.compare (type_value (type b)) (type_value (type a))
              | c => c
              end
      | c => c
      end.
Proof.
  intros Ha Hb. rewrite !AppendInternalKey_ok by done. intros [= <-] [= <-]. simpl.
  rewrite ikey_compare by (by apply packed_range). unfold ikey_order. f_equal.
  destruct (Compare _ _); try done. unfold packed.
  destruct (Z.compare_spec (sequence b) (sequence a)) as [E|E|E];
    [rewrite E|apply Z.compare_lt_iff|apply Z.compare_gt_iff];
    destruct (type a), (type b); cbn [type_value]; try lia;
    [apply Z.compare_eq_iff|apply Z.compare_gt_iff|apply Z.compare_lt_iff|apply Z.compare_eq_iff]; lia.
Qed.

(** for every comparator that keeps the promises of [comparator.h],
    [InternalKeyComparator::FindShortestSeparator] passes its assertions and
    returns a key that is not below [start] and strictly below [limit]. *)
Theorem internal_separator_between `{HC : !ComparatorLaws C} start limit :
  InternalKeyComparator.Compare start limit = Ret Lt ->
  exists k, InternalKeyComparator.FindShortestSeparator start limit = Ret k /\
            (k = start \/ InternalKeyComparator.Compare start k = Ret Lt) /\
            InternalKeyComparator.Compare k limit = Ret Lt.
Proof.
  intros Hlt. pose proof Hlt as H0. unfold InternalKeyComparator.Compare, ExtractUserKey in H0.
  destruct (Z.leb_spec 8 (str_size start)) as [Hs|]; [|done].
  destruct (Z.leb_spec 8 (str_size limit)) as [Hl|]; [|done]. clear H0.
  apply key_shape in Hs as (u & n & -> & Hn). apply key_shape in Hl as (v & m & -> & Hm).
  pose proof Hlt as Hc. rewrite ikey_compare in Hc by done. injection Hc as Hc.
  destruct (internal_sep_cases u n v m Hn Hm) as (k & -> & [->|(tmp & -> & Hut & Htv & _)]); [congruence|by eauto|].
  destruct seek_tag as [_ Ht]. eexists. split; [done|]. rewrite !ikey_compare by done. unfold ikey_order.
  rewrite Hut, Htv. auto.
Qed.

(** the buffer of a [LookupKey] is never overrun: for user keys that leave
    room in 32 bits, the constructor writes at most the capacity it allocated, and
    the three views of the buffer are the length-prefixed internal key, the
    internal key and the user key. *)
Theorem LookupKey_views u s :
  str_size u + 13 < 2 ^ 32 -> 0 <= s <= kMaxSequenceNumber ->
  exists lk ik, LookupKey_make u s = Ret lk /\
    AppendInternalKey [] (mkParsed u s kValueTypeForSeek) = Ret ik /\
    str_size (lk_bytes lk) <= lk_capacity lk /\
    GetLengthPrefixedSlice (memtable_key lk) = Some (ik, []) /\
    internal_key lk = ik /\ lookup_user_key lk = u.
Proof.
  intros Hu Hs. unfold LookupKey_make. rewrite Pack_ok by done. cbn [mbind result_bind].
  eexists _, _. split; [done|]. split; [by apply AppendInternalKey_ok|]. simpl.
  pose proof (str_size_nonneg u). rewrite !wrap_small by lia.
  set (tag := EncodeFixed64 (packed s kValueTypeForSeek)).
  assert (str_size (u ++ tag) = str_size u + 8) as Hsz by apply key_size.
  unfold memtable_key, internal_key, lookup_user_key. simpl.
  rewrite drop_app_length. split_and!; [| |done|].
  - rewrite str_size_app, Hsz.
    assert (str_size (EncodeVarint32 (str_size u + 8)) <= 5).
    { unfold EncodeVarint32, str_size. repeat case_match; simpl; lia. }
    destruct (Z.leb_spec (str_size u + 13) 200); lia.
  - pose proof (GetLengthPrefixedSlice_Put (u ++ tag) [] ltac:(lia)) as Hg.
    unfold PutLengthPrefixedSlice, PutVarint32 in Hg. rewrite Hsz, wrap_small in Hg by lia.
    by rewrite app_nil_r in Hg.
  - rewrite !length_app. replace (length tag) with 8%nat by done.
    replace (_ + _ - _ - 8)%nat with (length u) by lia. apply take_app_length.
Qed.

(** a filter built from internal keys by [InternalFilterPolicy] matches every
    internal key with the same user key as one of them, for every filter policy
    that has no false negatives. *)
Theorem internal_filter_no_false_negative `{HP : !FilterPolicyLaws P} keys dst k k' u :
  Forall (fun k => 8 <= str_size k) keys -> Z.of_nat (length keys) <= fp_max_keys ->
  k ∈ keys -> ExtractUserKey k = Ret u -> ExtractUserKey k' = Ret u ->
  exists f, InternalFilterPolicy.CreateFilter keys dst = Ret (dst ++ f) /\
            InternalFilterPolicy.KeyMayMatch k' f = Ret true.
Proof.
  intros Hs Hmax Hin Hk Hk'. unfold InternalFilterPolicy.CreateFilter, InternalFilterPolicy.KeyMayMatch.
  rewrite (mapR_Ret _ (fun k => take (length k - 8) k)).
  2: { intros a Ha. rewrite Forall_forall in Hs. unfold ExtractUserKey.
       by rewrite (proj2 (Z.leb_le _ _) (Hs a Ha)). }
  cbn [mbind result_bind]. rewrite Hk'. cbn [mbind result_bind].
  destruct (fp_no_false_negative ((fun k => take (length k - 8) k) <$> keys) dst u) as (f & -> & Hf).
  - by rewrite length_fmap.
  - apply list_elem_of_fmap. exists k. split; [|done]. unfold ExtractUserKey in Hk.
    by case_match; simplify_eq.
  - exists f. by rewrite Hf.
Qed.

(** ** Concrete runs *)

Definition demo_key : ParsedInternalKey := mkParsed ($"Key7") 12 kTypeValue.
Definition ikey (u : str) (s : Z) : str := u ++ EncodeFixed64 (packed s kTypeValue).

Lemma internal_key_roundtrip_witness :
  (valid_key demo_key ->
     exists enc, AppendInternalKey [] demo_key = Ret enc /\ ParseInternalKey enc = Some demo_key) /\
  (ParseInternalKey (ikey ($"Key7") 12) = Some demo_key ->
     AppendInternalKey [] demo_key = Ret (ikey ($"Key7") 12)).
Proof. apply (internal_key_roundtrip demo_key (ikey ($"Key7") 12)). Defined.

Example separator_run :
  InternalKeyComparator.FindShortestSeparator (ikey ($"Key1234") 5) (ikey ($"Key9") 6)
  = Ret (ikey ($"Key2") kMaxSequenceNumber).
Proof. vm_compute. reflexivity. Qed.

Lemma LookupKey_views_witness :
  exists lk ik, LookupKey_make ($"Key1") 7 = Ret lk /\
    AppendInternalKey [] (mkParsed ($"Key1") 7 kValueTypeForSeek) = Ret ik /\
    str_size (lk_bytes lk) <= lk_capacity lk /\
    GetLengthPrefixedSlice (memtable_key lk) = Some (ik, []) /\
    internal_key lk = ik /\ lookup_user_key lk = $"Key1".
Proof. apply (LookupKey_views ($"Key1") 7); [done|vm_compute; split; discriminate]. Defined.

Lemma internal_filter_no_false_negative_witness :
  exists f, @InternalFilterPolicy.CreateFilter (bloom_policy (BloomFilterPolicy.mkPolicy 10 6))
              [ikey ($"Key1") 1; ikey ($"Key2") 2] [] = Ret ([] ++ f) /\
            @InternalFilterPolicy.KeyMayMatch (bloom_policy (BloomFilterPolicy.mkPolicy 10 6))
              (ikey ($"Key2") 9) f = Ret true.
Proof.
  assert (FilterPolicyLaws (bloom_policy (BloomFilterPolicy.mkPolicy 10 6))).
  { apply bloom_policy_laws; done. }
  apply (internal_filter_no_false_negative [ikey ($"Key1") 1; ikey ($"Key2") 2] []
           (ikey ($"Key2") 2) (ikey ($"Key2") 9) ($"Key2")).
  - repeat constructor; vm_compute; discriminate.
  - vm_compute. discriminate.
  - set_solver.
  - reflexivity.
  - reflexivity.
Defined.
