(* ===== verification/Iterators.v ===== *)
(** * leveldb: iterators

    [include/leveldb/iterator.h] as a class of operations ([Iterator]) and the
    contract the iterators of the table code keep ([IteratorLaws]): an iterator
    stands at a position in a list of entries, the length of the list meaning "not
    valid".  [table/iterator.cc]: the iterator without entries. *)

From Stdlib Require Import ZArith Lia.
From S2P Require Import Prelude CString SliceStatus DbFormat.

Abbreviation entry := (str * str)%type.

(** The operations; the assertions [assert(Valid())] make them partial. *)
Class Iterator (I : Type) := {
  it_Valid : I -> bool;
  it_key : I -> result str;
  it_value : I -> result str;
  it_status : I -> Status.Status;
  it_SeekToFirst : I -> result I;
  it_SeekToLast : I -> result I;
  it_Seek : I -> str -> result I;
  it_Next : I -> result I;
  it_Prev : I -> result I
}.

#[export] Hint Mode Iterator ! : typeclass_instances.

(** The position of the first key that is not smaller than a target. *)
Fixpoint seek_pos `{C : !Comparator} (target : str) (es : list entry) : nat :=
  match es with
  | [] => O
  | e :: es' => match Compare (fst e) target with Lt => S (seek_pos target es') | _ => O end
  end.

(** Keys in strictly increasing order. *)
Definition keys_sorted `{C : !Comparator} (es : list entry) : Prop :=
  StronglySorted (fun a b => Compare (fst a) (fst b) = Lt) es.

(** [it_at it es i]: the iterator ranges over [es] and stands at [i]. *)
Class IteratorLaws {I : Type} (IT : Iterator I) := {
  it_at : I -> list entry -> nat -> Prop;
  at_le it es i : it_at it es i -> (i <= length es)%nat;
  at_valid it es i : it_at it es i -> it_Valid it = (i <? length es)%nat;
  at_entry it es i k v : it_at it es i -> es !! i = Some (k, v) -> it_key it = Ret k /\ it_value it = Ret v;
  at_status it es i : it_at it es i -> it_status it = Status.OK;
  at_first it es i : it_at it es i -> exists it', it_SeekToFirst it = Ret it' /\ it_at it' es 0;
  at_last it es i : it_at it es i ->
    exists it', it_SeekToLast it = Ret it' /\ it_at it' es (length es - 1);
  at_next it es i : it_at it es i -> (i < length es)%nat ->
    exists it', it_Next it = Ret it' /\ it_at it' es (S i);
  at_prev it es i : it_at it es i -> (i < length es)%nat ->
    exists it', it_Prev it = Ret it' /\ it_at it' es (match i with O => length es | S j => j end)
}.

(** An iterator over sorted entries finds the first key that is not smaller than
    a target, from wherever it stands. *)
Class SeekLaws {I : Type} {IT : Iterator I} (C : Comparator) (IL : IteratorLaws IT) := {
  at_seek it es i target : it_at it es i -> keys_sorted es ->
    exists it', it_Seek it target = Ret it' /\ it_at it' es (seek_pos target es)
}.

(** [for (it->SeekToFirst(); it->Valid(); it->Next())], collecting the entries;
    the number of turns is bounded by [fuel]. *)
Section scan.
Context {I : Type} `{IT : !Iterator I}.

Fixpoint scan_from (fuel : nat) (it : I) : result (list entry * I) :=
  if it_Valid it then
    match fuel with
    | O => Crash OutOfFuel
    | S f =>
        k ← it_key it; v ← it_value it; it ← it_Next it;
        q ← scan_from f it;
        let '(es, it) := (q : list entry * I) in
        Ret ((k, v) :: es, it)
    end
  else Ret ([], it).

Definition scan_all (fuel : nat) (it : I) : result (list entry * I) :=
  it ← it_SeekToFirst it; scan_from fuel it.

(** The same backwards: [for (...; it->Valid(); it->Prev())]. *)
Fixpoint scan_back (fuel : nat) (it : I) : result (list entry) :=
  if it_Valid it then
    match fuel with
    | O => Crash OutOfFuel
    | S f =>
        k ← it_key it; v ← it_value it; it ← it_Prev it;
        es ← scan_back f it;
        Ret ((k, v) :: es)
    end
  else Ret [].

(** [it->SeekToFirst()] and then [i] times [it->Next()]. *)
Definition forward (i : nat) (it : I) : result I :=
  it ← it_SeekToFirst it; foldR (fun it _ => it_Next it) it (seq 0 i).

Context `{IL : !IteratorLaws IT}.

Lemma forward_at i it es j :
  it_at it es j -> (i <= length es)%nat -> exists it', forward i it = Ret it' /\ it_at it' es i.
Proof.
  intros Hat Hi. destruct (at_first _ _ _ Hat) as (it0 & Hr & Hat0). unfold forward. rewrite Hr. cbn [mbind result_bind].
  induction i as [|i IH]; [by exists it0|]. destruct (IH ltac:(lia)) as (it1 & Hf & Hat1).
  rewrite seq_S, foldR_app, Hf. cbn [mbind result_bind foldR].
  destruct (at_next _ _ _ Hat1 ltac:(lia)) as (it2 & -> & Hat2). by exists it2.
Qed.

Lemma scan_back_from fuel it es i :
  it_at it es i -> (i < length es)%nat -> (i < fuel)%nat -> scan_back fuel it = Ret (rev (take (S i) es)).
Proof.
  revert it i. induction fuel as [|f IH]; intros it i Hat Hi Hf; [lia|]. cbn [scan_back].
  rewrite (at_valid _ _ _ Hat). destruct (Nat.ltb_spec i (length es)); [|lia].
  destruct (lookup_lt_is_Some_2 es i Hi) as [[k v] He].
  destruct (at_entry _ _ _ _ _ Hat He) as [-> ->]. cbn [mbind result_bind].
  destruct (at_prev _ _ _ Hat Hi) as (it1 & -> & Hat1). cbn [mbind result_bind].
  rewrite (take_S_r _ _ _ He), rev_app_distr. destruct i as [|i].
  - destruct f; cbn [scan_back]; rewrite (at_valid _ _ _ Hat1), Nat.ltb_irrefl; done.
  - by rewrite (IH it1 i Hat1 ltac:(lia) ltac:(lia)).
Qed.

Lemma scan_back_at fuel it es :
  it_at it es (length es - 1) -> (length es <= fuel)%nat -> scan_back fuel it = Ret (rev es).
Proof.
  intros Hat Hf. destruct es as [|e es].
  - destruct fuel; cbn [scan_back]; by rewrite (at_valid _ _ _ Hat).
  - erewrite scan_back_from; [|exact Hat|simpl; lia|simpl in *; lia].
    f_equal. f_equal. apply take_ge. simpl. lia.
Qed.

Lemma scan_from_at fuel it es i :
  it_at it es i -> (length es - i <= fuel)%nat ->
  exists it', scan_from fuel it = Ret (drop i es, it') /\ it_at it' es (length es).
Proof.
  revert it i. induction fuel as [|f IH]; intros it i Hat Hf; pose proof (at_le _ _ _ Hat) as Hle;
    cbn [scan_from]; rewrite (at_valid _ _ _ Hat); destruct (Nat.ltb_spec i (length es)) as [Hi|Hi]; try lia;
    try (rewrite drop_ge by lia; exists it; split; [done|]; by replace (length es) with i by lia).
  destruct (lookup_lt_is_Some_2 es i Hi) as [[k v] He].
  destruct (at_entry _ _ _ _ _ Hat He) as [-> ->]. cbn [mbind result_bind].
  destruct (at_next _ _ _ Hat Hi) as (it1 & -> & Hat1). cbn [mbind result_bind].
  destruct (IH it1 (S i) Hat1 ltac:(lia)) as (it2 & -> & Hat2). cbn [mbind result_bind].
  exists it2. split; [|done]. by rewrite (drop_S _ _ _ He).
Qed.

(** A scan gives all the entries in order and ends without an error. *)
Lemma scan_all_at fuel it es i :
  it_at it es i -> (length es <= fuel)%nat ->
  exists it', scan_all fuel it = Ret (es, it') /\ it_at it' es (length es).
Proof.
  intros Hat Hf. destruct (at_first _ _ _ Hat) as (it1 & Hr & Hat1). unfold scan_all. rewrite Hr.
  apply (scan_from_at fuel it1 es 0 Hat1). lia.
Qed.

End scan.

(** ** table/iterator.cc: EmptyIterator *)

Module EmptyIterator.

(** [NewEmptyIterator()] has the status OK, [NewErrorIterator(s)] the status [s]. *)
Record EmptyIterator := mkEmpty { status_ : Status.Status }.

Definition NewEmptyIterator : EmptyIterator := mkEmpty Status.OK.
Definition NewErrorIterator (s : Status.Status) : EmptyIterator := mkEmpty s.

End EmptyIterator.

(** ** Positions in sorted lists *)

Section sorted.
Context `{HC : !ComparatorLaws C}.
Implicit Types (es : list entry) (target : str).

Lemma sorted_lt es i j a b :
  keys_sorted es -> es !! i = Some a -> es !! j = Some b -> (i < j)%nat -> Compare (fst a) (fst b) = Lt.
Proof.
  intros Hs. revert i j. induction Hs as [|e es Hs IH Hall]; intros i j Ha Hb Hij; [done|].
  destruct j as [|j]; [lia|]. simpl in Hb. destruct i as [|i]; simpl in Ha.
  - injection Ha as <-. rewrite Forall_forall in Hall. apply Hall. by eapply list_elem_of_lookup_2.
  - by eapply (IH i j); [| |lia].
Qed.

Lemma seek_pos_le target es : (seek_pos target es <= length es)%nat.
Proof. induction es as [|e es IH]; simpl; [lia|]. case_match; lia. Qed.

Lemma seek_pos_before target es i e :
  es !! i = Some e -> (i < seek_pos target es)%nat -> Compare (fst e) target = Lt.
Proof.
  revert i. induction es as [|a es IH]; intros i He Hi; [done|]. simpl in Hi.
  destruct (Compare (fst a) target) eqn:Ea; try lia.
  destruct i as [|i]; simpl in He; [congruence|]. apply (IH i He). lia.
Qed.

Lemma seek_pos_at target es e :
  es !! seek_pos target es = Some e -> Compare (fst e) target <> Lt.
Proof.
  induction es as [|a es IH]; simpl; [done|].
  destruct (Compare (fst a) target) eqn:Ea; simpl; [|exact IH|]; intros [= <-]; by rewrite Ea.
Qed.

Lemma seek_pos_app target l1 l2 :
  Forall (fun e => Compare (fst e) target = Lt) l1 -> seek_pos target (l1 ++ l2) = (length l1 + seek_pos target l2)%nat.
Proof. induction 1 as [|e l1 He _ IH]; simpl; [done|]. by rewrite He, IH. Qed.

Lemma seek_pos_app_l target l1 l2 :
  Forall (fun e => Compare (fst e) target <> Lt) l2 -> seek_pos target (l1 ++ l2) = seek_pos target l1.
Proof.
  intros H2. induction l1 as [|e l1 IH]; simpl; [|by rewrite IH].
  destruct H2 as [|e l2 He _]; simpl; [done|]. by destruct (Compare (fst e) target).
Qed.

(** In a sorted list, a key below the target has only such keys before it. *)
Lemma seek_pos_gt target es i e :
  keys_sorted es -> es !! i = Some e -> Compare (fst e) target = Lt -> (i < seek_pos target es)%nat.
Proof.
  intros Hs He Hlt. destruct (Nat.lt_ge_cases i (seek_pos target es)) as [|Hge]; [done|]. exfalso.
  pose proof (lookup_lt_Some _ _ _ He).
  destruct (lookup_lt_is_Some_2 es (seek_pos target es)) as [a Ha]; [lia|].
  apply (seek_pos_at target es a Ha).
  destruct (decide (i = seek_pos target es)) as [Ei|Hne]; [subst; congruence|].
  eapply cmp_trans; [|exact Hlt]. apply (sorted_lt es (seek_pos target es) i a e Hs Ha He). lia.
Qed.

Lemma seek_pos_unique target es i :
  (i <= length es)%nat -> (forall j e, (j < i)%nat -> es !! j = Some e -> Compare (fst e) target = Lt) ->
  (forall e, es !! i = Some e -> Compare (fst e) target <> Lt) -> seek_pos target es = i.
Proof.
  revert i. induction es as [|a es IH]; intros i Hi Hb Ha; simpl in *; [lia|].
  destruct i as [|i].
  - specialize (Ha a eq_refl). by destruct (Compare (fst a) target).
  - rewrite (Hb O a ltac:(lia) eq_refl). f_equal. apply IH; [lia| |].
    + intros j e Hj He. apply (Hb (S j) e); [lia|done].
    + intros e He. by apply Ha.
Qed.

(** A key of the list is found at its position. *)
Lemma seek_pos_key es m k v : keys_sorted es -> es !! m = Some (k, v) -> seek_pos k es = m.
Proof.
  intros Hs Hm. apply seek_pos_unique.
  - apply lookup_lt_Some in Hm. lia.
  - intros j e Hj He. by apply (sorted_lt es j m e (k, v) Hs He Hm).
  - intros e He. rewrite Hm in He. injection He as <-. cbn. by rewrite cmp_refl.
Qed.

End sorted.
