(* ===== verification/TableBlock.v ===== *)
(** * leveldb: blocks

    [table/block_builder.{h,cc}] and [table/block.{h,cc}]: a block is a sequence of
    prefix-compressed entries followed by the offsets of its restart points.  The
    builder appends to a buffer; the iterator holds offsets into the block's bytes
    ([value_] is an offset and a length, or nothing when it does not point into
    them).  Offsets are [uint32_t], lengths of strings [size_t]. *)

From Stdlib Require Import ZArith Lia.
From S2P Require Import Prelude CString Coding SliceStatus DbFormat Iterators.

(** ** BlockBuilder *)

Module BlockBuilder.

Record BlockBuilder := mkBuilder {
  buffer_ : str;
  restarts_ : list Z;
  counter_ : Z;
  finished_ : bool;
  last_key_ : str
}.

Definition empty (b : BlockBuilder) : bool := str_size (buffer_ b) =? 0.

(** The [while] loop that measures the common prefix. *)
Fixpoint shared_prefix (a b : str) : nat :=
  match a, b with
  | x :: a', y :: b' => if decide (x = y) then S (shared_prefix a' b') else O
  | _, _ => O
  end.

Section ops.
Context `{C : !Comparator} (block_restart_interval : Z).

Definition fresh : BlockBuilder := mkBuilder [] [0] 0 false [].

Definition make : result BlockBuilder :=
  if 1 <=? block_restart_interval then Ret fresh else Crash AssertFailed.

Definition Reset (b : BlockBuilder) : BlockBuilder := fresh.

Definition CurrentSizeEstimate (b : BlockBuilder) : Z :=
  str_size (buffer_ b) + Z.of_nat (length (restarts_ b)) * 4 + 4.

Definition Finish (b : BlockBuilder) : BlockBuilder * str :=
  let buffer := foldl PutFixed32 (buffer_ b) (restarts_ b) in
  let buffer := PutFixed32 buffer (u32 (Z.of_nat (length (restarts_ b)))) in
  (mkBuilder buffer (restarts_ b) (counter_ b) true (last_key_ b), buffer).

Definition Add (b : BlockBuilder) (key value : str) : result BlockBuilder :=
  if finished_ b then Crash AssertFailed
  else if block_restart_interval <? counter_ b then Crash AssertFailed
  else if negb (empty b) && negb (match Compare key (last_key_ b) with Gt => true | _ => false end)
  then Crash AssertFailed
  else
    let '(shared, restarts, counter) :=
      if counter_ b <? block_restart_interval
      then (shared_prefix (last_key_ b) key, restarts_ b, counter_ b)
      else (O, restarts_ b ++ [u32 (str_size (buffer_ b))], 0) in
    let non_shared := (length key - shared)%nat in
    let buffer := PutVarint32 (buffer_ b) (u32 (Z.of_nat shared)) in
    let buffer := PutVarint32 buffer (u32 (Z.of_nat non_shared)) in
    let buffer := PutVarint32 buffer (u32 (str_size value)) in
    let buffer := buffer ++ drop shared key in
    let buffer := buffer ++ value in
    let last_key := take shared (last_key_ b) ++ drop shared key in
    if Slice.eqb last_key key then
      counter ← int_check (counter + 1);
      Ret (mkBuilder buffer restarts counter (finished_ b) last_key)
    else Crash AssertFailed.

End ops.
End BlockBuilder.

(** ** Block *)

Module Block.

(** [restart_offset_] is set only when the contents are large enough. *)
Record Block := mkBlock { data_ : str; size_ : Z; restart_offset_ : Z }.

Definition NumRestarts (data : str) (size : Z) : Z := DecodeFixed32 (drop (Z.to_nat (size - 4)) data).

Definition make (contents : str) : Block :=
  let size := str_size contents in
  if size <? 4 then mkBlock contents 0 0
  else
    let max_restarts_allowed := (size - 4) / 4 in
    if max_restarts_allowed <? NumRestarts contents size then mkBlock contents 0 0
    else mkBlock contents size (u64 (size - u32 (1 + NumRestarts contents size) * 4)).

(** The three lengths of the entry at the start of [p], and what follows them. *)
Definition DecodeEntry (p : str) : option (Z * Z * Z * str) :=
  match p with
  | b0 :: b1 :: b2 :: p3 =>
      let fast := Z.lor (Z.lor (b2z b0) (b2z b1)) (b2z b2) <? 128 in
      let r :=
        if fast then Some (b2z b0, b2z b1, b2z b2, p3)
        else
          match GetVarint32Ptr p with
          | Some (shared, p) =>
              match GetVarint32Ptr p with
              | Some (non_shared, p) =>
                  match GetVarint32Ptr p with
                  | Some (value_length, p) => Some (shared, non_shared, value_length, p)
                  | None => None
                  end
              | None => None
              end
          | None => None
          end in
      match r with
      | Some (shared, non_shared, value_length, p) =>
          if u32 (str_size p) <? u32 (non_shared + value_length) then None
          else Some (shared, non_shared, value_length, p)
      | None => None
      end
  | _ => None
  end.

Section iter.
Context `{C : !Comparator}.

Record Iter := mkIter {
  it_data : str;
  restarts_ : Z;
  num_restarts_ : Z;
  current_ : Z;
  restart_index_ : Z;
  key_ : str;
  value_ : option (Z * Z);
  status_ : Status.Status
}.

Definition make_iter (data : str) (restarts num_restarts : Z) : result Iter :=
  if 0 <? num_restarts
  then Ret (mkIter data restarts num_restarts restarts num_restarts [] None Status.OK)
  else Crash AssertFailed.

Definition Valid (it : Iter) : bool := current_ it <? restarts_ it.

Definition status (it : Iter) : Status.Status := status_ it.

Definition key (it : Iter) : result str := if Valid it then Ret (key_ it) else Crash AssertFailed.

(** The bytes from [off], at most [len] of them. *)
Definition bytes_at (data : str) (off len : Z) : str := take (Z.to_nat len) (drop (Z.to_nat off) data).

(** Reading [len] bytes at [off]: the block's bytes are all there is. *)
Definition read_bytes (data : str) (off len : Z) : result str :=
  if str_size data <? off + len then Crash OutOfBounds else Ret (bytes_at data off len).

Definition value (it : Iter) : result str :=
  if Valid it then
    match value_ it with
    | Some (off, len) => read_bytes (it_data it) off len
    | None => Ret []
    end
  else Crash AssertFailed.

Definition NextEntryOffset (it : Iter) : result Z :=
  match value_ it with
  | Some (off, len) => Ret (u32 (off + len))
  | None => Crash Uninitialized
  end.

Definition GetRestartPoint (it : Iter) (index : Z) : result Z :=
  if index <? num_restarts_ it
  then Ret (DecodeFixed32 (drop (Z.to_nat (restarts_ it + index * 4)) (it_data it)))
  else Crash AssertFailed.

Definition SeekToRestartPoint (it : Iter) (index : Z) : result Iter :=
  offset ← GetRestartPoint it index;
  Ret (mkIter (it_data it) (restarts_ it) (num_restarts_ it) (current_ it) index []
         (Some (offset, 0)) (status_ it)).

Definition CorruptionError (it : Iter) : Iter :=
  mkIter (it_data it) (restarts_ it) (num_restarts_ it) (restarts_ it) (num_restarts_ it) [] None
    (Status.Corruption ($"bad entry in block") []).

(** [while (restart_index_ + 1 < num_restarts_ && GetRestartPoint(restart_index_ + 1) < current_)] *)
Fixpoint advance_restart (fuel : nat) (it : Iter) (index : Z) : result Z :=
  match fuel with
  | O => Crash OutOfFuel
  | S f =>
      if u32 (index + 1) <? num_restarts_ it then
        p ← GetRestartPoint it (u32 (index + 1));
        if p <? current_ it then advance_restart f it (u32 (index + 1)) else Ret index
      else Ret index
  end.

(** The bytes of the entries from [off] to the restart array. *)
Definition entries_at (it : Iter) (off : Z) : str := bytes_at (it_data it) off (restarts_ it - off).

Definition ParseNextKey (it : Iter) : result (Iter * bool) :=
  current ← NextEntryOffset it;
  if restarts_ it <=? current then
    Ret (mkIter (it_data it) (restarts_ it) (num_restarts_ it) (restarts_ it) (num_restarts_ it)
           (key_ it) (value_ it) (status_ it), false)
  else
    let it := mkIter (it_data it) (restarts_ it) (num_restarts_ it) current (restart_index_ it)
                (key_ it) (value_ it) (status_ it) in
    match DecodeEntry (entries_at it current) with
    | Some (shared, non_shared, value_length, p) =>
        if str_size (key_ it) <? shared then Ret (CorruptionError it, false)
        else
          delta ← read_bytes (it_data it) (restarts_ it - str_size p) non_shared;
          let key := take (Z.to_nat shared) (key_ it) ++ delta in
          let it := mkIter (it_data it) (restarts_ it) (num_restarts_ it) current (restart_index_ it) key
                      (Some (restarts_ it - str_size p + non_shared, value_length)) (status_ it) in
          index ← advance_restart (S (Z.to_nat (num_restarts_ it))) it (restart_index_ it);
          Ret (mkIter (it_data it) (restarts_ it) (num_restarts_ it) current index key
                 (value_ it) (status_ it), true)
    | None => Ret (CorruptionError it, false)
    end.

Definition Next (it : Iter) : result Iter :=
  if Valid it then q ← ParseNextKey it; Ret (fst (q : Iter * bool)) else Crash AssertFailed.

Definition SeekToFirst (it : Iter) : result Iter :=
  it ← SeekToRestartPoint it 0; q ← ParseNextKey it; Ret (fst (q : Iter * bool)).

(** [while (ParseNextKey() && NextEntryOffset() < limit)], then whatever the last
    call left; [Prev] has it as a [do] loop without a body. *)
Fixpoint parse_until (fuel : nat) (limit : Z) (it : Iter) : result Iter :=
  match fuel with
  | O => Crash OutOfFuel
  | S f =>
      q ← ParseNextKey it;
      let '(it, found) := (q : Iter * bool) in
      if found then
        off ← NextEntryOffset it;
        if off <? limit then parse_until f limit it else Ret it
      else Ret it
  end.

(** Every entry takes at least three bytes. *)
Definition scan_fuel (it : Iter) : nat := S (length (it_data it)).

Definition SeekToLast (it : Iter) : result Iter :=
  it ← SeekToRestartPoint it (u32 (num_restarts_ it - 1));
  parse_until (scan_fuel it) (restarts_ it) it.

(** The loop of [Prev] over the restart points; [None] when there is no entry
    before the current one. *)
Fixpoint prev_restart (fuel : nat) (it : Iter) (index original : Z) : result (option Z) :=
  match fuel with
  | O => Crash OutOfFuel
  | S f =>
      p ← GetRestartPoint it index;
      if original <=? p then
        if index =? 0 then Ret None else prev_restart f it (u32 (index - 1)) original
      else Ret (Some index)
  end.

Definition Prev (it : Iter) : result Iter :=
  if Valid it then
    let original := current_ it in
    r ← prev_restart (S (Z.to_nat (num_restarts_ it))) it (restart_index_ it) original;
    match r : option Z with
    | None => Ret (mkIter (it_data it) (restarts_ it) (num_restarts_ it) (restarts_ it) (num_restarts_ it)
                     (key_ it) (value_ it) (status_ it))
    | Some index =>
        it ← SeekToRestartPoint it index;
        parse_until (scan_fuel it) original it
    end
  else Crash AssertFailed.

(** The binary search of [Seek] over the restart points; [None] for a bad entry. *)
Fixpoint binary_search (fuel : nat) (it : Iter) (target : str) (left right : Z) : result (option Z) :=
  match fuel with
  | O => Crash OutOfFuel
  | S f =>
      if left <? right then
        let mid := u32 (left + right + 1) / 2 in
        region_offset ← GetRestartPoint it mid;
        match DecodeEntry (entries_at it region_offset) with
        | Some (shared, non_shared, value_length, p) =>
            if negb (shared =? 0) then Ret None
            else
              mid_key ← read_bytes (it_data it) (restarts_ it - str_size p) non_shared;
              match Compare mid_key target with
              | Lt => binary_search f it target mid right
              | _ => binary_search f it target left (u32 (mid - 1))
              end
        | None => Ret None
        end
      else Ret (Some left)
  end.

Fixpoint linear_search (fuel : nat) (it : Iter) (target : str) : result Iter :=
  match fuel with
  | O => Crash OutOfFuel
  | S f =>
      q ← ParseNextKey it;
      let '(it, found) := (q : Iter * bool) in
      if found then
        match Compare (key_ it) target with Lt => linear_search f it target | _ => Ret it end
      else Ret it
  end.

Definition Seek (it : Iter) (target : str) : result Iter :=
  let right := u32 (num_restarts_ it - 1) in
  let cmp := if Valid it then Compare (key_ it) target else Eq in
  if Valid it && (match cmp with Eq => true | _ => false end) then Ret it
  else
    let '(lo, hi) :=
      if Valid it then
        match cmp with
        | Lt => (restart_index_ it, right)
        | _ => (0, restart_index_ it)
        end
      else (0, right) in
    r ← binary_search (S (Z.to_nat (num_restarts_ it))) it target lo hi;
    match r : option Z with
    | None => Ret (CorruptionError it)
    | Some left_ =>
        let skip_seek := (left_ =? restart_index_ it) && (match cmp with Lt => true | _ => false end) in
        it ← (if skip_seek then Ret it else SeekToRestartPoint it left_);
        linear_search (scan_fuel it) it target
    end.

(** What [NewIterator] returns. *)
Definition BlockIterator : Type := EmptyIterator.EmptyIterator + Iter.

(** [Block::NewIterator]: a block that is too short, or has no restart points,
    gives an iterator without entries. *)
Definition NewIterator (b : Block) : result BlockIterator :=
  if size_ b <? 4 then Ret (inl (EmptyIterator.NewErrorIterator (Status.Corruption ($"bad block contents") [])))
  else
    let num_restarts := NumRestarts (data_ b) (size_ b) in
    if num_restarts =? 0 then Ret (inl EmptyIterator.NewEmptyIterator)
    else it ← make_iter (data_ b) (u32 (restart_offset_ b)) num_restarts; Ret (inr it).

End iter.
End Block.

(** The iterators of blocks, through the virtual functions of [Iterator]. *)
#[export] Instance BlockIterator_ops `{C : !Comparator} : Iterator Block.BlockIterator := {
  it_Valid i := match i with inl _ => false | inr it => Block.Valid it end;
  it_key i := match i with inl _ => Crash AssertFailed | inr it => Block.key it end;
  it_value i := match i with inl _ => Crash AssertFailed | inr it => Block.value it end;
  it_status i := match i with inl e => EmptyIterator.status_ e | inr it => Block.status it end;
  it_SeekToFirst i := match i with inl e => Ret (inl e) | inr it => inr <$> Block.SeekToFirst it end;
  it_SeekToLast i := match i with inl e => Ret (inl e) | inr it => inr <$> Block.SeekToLast it end;
  it_Seek i target := match i with inl e => Ret (inl e) | inr it => inr <$> Block.Seek it target end;
  it_Next i := match i with inl _ => Crash AssertFailed | inr it => inr <$> Block.Next it end;
  it_Prev i := match i with inl _ => Crash AssertFailed | inr it => inr <$> Block.Prev it end
}.

