(* ===== verification/TableBlockSpec.v ===== *)
(** * What a block means

    The layout of a block ([layout]: entries with the length each shares with its
    predecessor, and the positions of the restart points), that the builder makes
    such blocks, and that the iterator of [TableBlock.v] walks them: it keeps the
    contract [IteratorLaws]. *)

From Stdlib Require Import ZArith Lia.
From S2P Require Import Prelude CString Coding SliceStatus DbFormat Iterators TableBlock.

(** ** Encoded entries *)

(** The length shared with the previous key, and the entry. *)
Abbreviation slot := (nat * entry)%type.

Definition enc_slot (s : slot) : str :=
  let '(shared, (k, v)) := s in
  EncodeVarint32 (Z.of_nat shared) ++ EncodeVarint32 (str_size k - Z.of_nat shared)
  ++ EncodeVarint32 (str_size v) ++ drop shared k ++ v.

Definition enc_slots (ss : list slot) : str := concat (map enc_slot ss).
Definition offset (ss : list slot) (i : nat) : Z := str_size (enc_slots (take i ss)).

Lemma enc_slots_app a b : enc_slots (a ++ b) = enc_slots a ++ enc_slots b.
Proof. unfold enc_slots. by rewrite map_app, concat_app. Qed.

Lemma varint32_nonempty v : (1 <= length (EncodeVarint32 v))%nat.
Proof. unfold EncodeVarint32. repeat case_match; simpl; lia. Qed.

Lemma enc_slot_length s : (3 <= length (enc_slot s))%nat.
Proof.
  destruct s as [n [k v]]. unfold enc_slot. rewrite !length_app.
  pose proof (varint32_nonempty (Z.of_nat n)). pose proof (varint32_nonempty (str_size k - Z.of_nat n)).
  pose proof (varint32_nonempty (str_size v)). lia.
Qed.

Lemma offset_S ss i s : ss !! i = Some s -> offset ss (S i) = offset ss i + str_size (enc_slot s).
Proof.
  intros Hs. unfold offset. rewrite (take_S_r _ _ _ Hs), enc_slots_app, str_size_app.
  unfold enc_slots at 2. simpl. by rewrite app_nil_r.
Qed.

Lemma length_enc_slots l : (length l <= length (enc_slots l))%nat.
Proof.
  induction l as [|s l IH]; [done|]. unfold enc_slots in *. cbn [map concat length]. rewrite length_app.
  pose proof (enc_slot_length s). lia.
Qed.

Lemma offset_ge ss i : (length ss <= i)%nat -> offset ss i = str_size (enc_slots ss).
Proof. intros Hi. unfold offset. by rewrite take_ge. Qed.

Lemma offset_nonneg ss i : 0 <= offset ss i.
Proof. apply str_size_nonneg. Qed.

Lemma offset_lt ss i j : (i < j)%nat -> (i < length ss)%nat -> offset ss i < offset ss j.
Proof.
  intros Hij Hi. destruct (lookup_lt_is_Some_2 ss i Hi) as [s Hs].
  assert (forall k, offset ss (S i) <= offset ss (S i + k)) as Hm.
  { intros k. unfold offset. rewrite <- take_take_drop, enc_slots_app, str_size_app.
    pose proof (str_size_nonneg (enc_slots (take k (drop (S i) ss)))). lia. }
  specialize (Hm (j - S i)%nat). replace (S i + (j - S i))%nat with j in Hm by lia.
  pose proof (offset_S ss i s Hs). pose proof (enc_slot_length s).
  unfold str_size in *. lia.
Qed.

Lemma offset_le_total ss i : offset ss i <= str_size (enc_slots ss).
Proof.
  unfold offset. rewrite <- (take_drop i ss) at 2. rewrite enc_slots_app, str_size_app.
  pose proof (str_size_nonneg (enc_slots (drop i ss))). lia.
Qed.

(** *** Decoding one entry *)

(** A varint whose first byte has no continuation bit is that byte. *)
Lemma GetVarint32Ptr_one b p : b2z b < 128 -> GetVarint32Ptr (b :: p) = Some (b2z b, p).
Proof.
  intros Hb. unfold GetVarint32Ptr. destruct (last_byte (b2z b)) as [_ ->]; [|done].
  pose proof (b2z_range b). lia.
Qed.

(** The fast path of [DecodeEntry] gives what the slow path gives. *)
Lemma DecodeEntry_slow p s p1 n p2 v p3 :
  GetVarint32Ptr p = Some (s, p1) -> GetVarint32Ptr p1 = Some (n, p2) -> GetVarint32Ptr p2 = Some (v, p3) ->
  (3 <= length p)%nat -> u32 (n + v) <= u32 (str_size p3) -> Block.DecodeEntry p = Some (s, n, v, p3).
Proof.
  intros H1 H2 H3 Hl Hu. destruct p as [|b0 [|b1 [|b2 p0]]]; simpl in Hl; try lia. unfold Block.DecodeEntry.
  destruct (Z.ltb_spec (Z.lor (Z.lor (b2z b0) (b2z b1)) (b2z b2)) 128) as [Hf|Hf].
  - pose proof (b2z_range b0). pose proof (b2z_range b1). pose proof (b2z_range b2).
    assert (forall x y, 0 <= x -> 0 <= y -> Z.lor x y < 128 -> x < 128 /\ y < 128) as Hlor.
    { intros x y Hx Hy Hxy.
      assert (forall z, 0 <= z -> Z.ldiff z (Z.ones 7) = 0 -> z < 128) as Hz.
      { intros z Hz E. rewrite Z.ldiff_ones_r in E by lia. rewrite Z.shiftl_mul_pow2 in E by lia.
        assert (Z.shiftr z 7 = 0) as E' by lia. rewrite Z.shiftr_div_pow2 in E' by lia.
        apply Z.div_small_iff in E'; lia. }
      assert (Z.ldiff (Z.lor x y) (Z.ones 7) = 0) as E.
      { rewrite Z.ldiff_ones_r, Z.shiftr_div_pow2 by lia. rewrite Z.div_small; [done|].
        split; [by apply Z.lor_nonneg|done]. }
      assert (forall z, (z = x \/ z = y) -> Z.ldiff z (Z.ones 7) = 0) as Hd.
      { intros z Hzz. apply Z.bits_inj'. intros i Hi. apply (f_equal (fun t => Z.testbit t i)) in E.
        rewrite Z.ldiff_spec, Z.lor_spec, Z.bits_0 in E. rewrite Z.ldiff_spec, Z.bits_0.
        destruct Hzz as [-> | ->]; destruct (Z.testbit x i), (Z.testbit y i), (Z.testbit (Z.ones 7) i); done. }
      split; apply Hz; auto. }
    assert (0 <= Z.lor (b2z b0) (b2z b1)) by (apply Z.lor_nonneg; lia).
    destruct (Hlor (Z.lor (b2z b0) (b2z b1)) (b2z b2) ltac:(done) ltac:(lia) Hf) as [Hf1 Hb2].
    destruct (Hlor (b2z b0) (b2z b1) ltac:(lia) ltac:(lia) Hf1) as [Hb0 Hb1].
    rewrite GetVarint32Ptr_one in H1 by done. injection H1 as <- <-.
    rewrite GetVarint32Ptr_one in H2 by done. injection H2 as <- <-.
    rewrite GetVarint32Ptr_one in H3 by done. injection H3 as <- <-.
    destruct (Z.ltb_spec (u32 (str_size p0)) (u32 (b2z b1 + b2z b2))); [lia|done].
  - rewrite H1, H2, H3. destruct (Z.ltb_spec (u32 (str_size p3)) (u32 (n + v))); [lia|done].
Qed.

Lemma DecodeEntry_enc shared k v rest :
  (shared <= length k)%nat -> Z.of_nat shared < 2 ^ 32 ->
  str_size k - Z.of_nat shared + str_size v + str_size rest < 2 ^ 32 ->
  Block.DecodeEntry (enc_slot (shared, (k, v)) ++ rest) =
  Some (Z.of_nat shared, str_size k - Z.of_nat shared, str_size v, drop shared k ++ v ++ rest).
Proof.
  intros Hs Hs2 Hz. pose proof (str_size_nonneg k). pose proof (str_size_nonneg v). pose proof (str_size_nonneg rest).
  assert (Z.of_nat shared <= str_size k) by (unfold str_size; lia).
  unfold enc_slot. rewrite <- !app_assoc.
  eapply DecodeEntry_slow; [apply GetVarint32_Encode; lia|apply GetVarint32_Encode; lia|apply GetVarint32_Encode; lia| |].
  - rewrite !length_app. pose proof (varint32_nonempty (Z.of_nat shared)).
    pose proof (varint32_nonempty (str_size k - Z.of_nat shared)). pose proof (varint32_nonempty (str_size v)). lia.
  - assert (str_size (drop shared k ++ v ++ rest) = str_size k - Z.of_nat shared + str_size v + str_size rest) as E.
    { rewrite !str_size_app. unfold str_size. rewrite length_drop. lia. }
    rewrite E, !wrap_small by lia. lia.
Qed.

(** ** The layout of a block *)

(** A key shares with its predecessor what its slot says. *)
Record chained (ss : list slot) : Prop := {
  ch_first s e : ss !! O = Some (s, e) -> s = O;
  ch_next i s' e' s e : ss !! i = Some (s', e') -> ss !! S i = Some (s, e) ->
    (s <= length (fst e))%nat /\ (s <= length (fst e'))%nat /\ take s (fst e') = take s (fst e)
}.

Definition enc_restarts (ss : list slot) (rs : list nat) : str :=
  concat (map EncodeFixed32 (map (offset ss) rs)).

(** [data] holds the slots [ss] with the restart points at the positions [rs]. *)
Record layout (data : str) (ss : list slot) (rs : list nat) : Prop := {
  ly_data : data = enc_slots ss ++ enc_restarts ss rs ++ EncodeFixed32 (Z.of_nat (length rs));
  ly_size : str_size data < 2 ^ 32;
  ly_first : rs !! O = Some O;
  ly_incr j r r' : rs !! j = Some r -> rs !! S j = Some r' -> (r < r')%nat;
  ly_restart j r : rs !! S j = Some r -> exists e, ss !! r = Some (O, e);
  ly_chained : chained ss
}.

Lemma read_bytes_app (a x b : str) : Block.read_bytes (a ++ x ++ b) (str_size a) (str_size x) = Ret x.
Proof.
  unfold Block.read_bytes, Block.bytes_at. rewrite !str_size_app. pose proof (str_size_nonneg b).
  destruct (Z.ltb_spec (str_size a + (str_size x + str_size b)) (str_size a + str_size x)); [lia|].
  unfold str_size. by rewrite !Nat2Z.id, drop_app_length, take_app_length.
Qed.

Lemma length_EncodeFixed32 v : length (EncodeFixed32 v) = 4%nat.
Proof. done. Qed.

Lemma enc_restarts_length ss rs : length (enc_restarts ss rs) = (4 * length rs)%nat.
Proof. unfold enc_restarts. by rewrite fixed32_array_length, length_map. Qed.

Lemma enc_restarts_at ss rs j r rest :
  rs !! j = Some r -> DecodeFixed32 (drop (4 * j) (enc_restarts ss rs ++ rest)) = u32 (offset ss r).
Proof. intros Hr. apply fixed32_array_at. by rewrite list_lookup_fmap, Hr. Qed.

(** The encoding of the slots, split at position [i]. *)
Lemma enc_slots_split ss i : enc_slots ss = enc_slots (take i ss) ++ enc_slots (drop i ss).
Proof. by rewrite <- enc_slots_app, take_drop. Qed.

Lemma enc_slots_drop ss i s : ss !! i = Some s -> enc_slots (drop i ss) = enc_slot s ++ enc_slots (drop (S i) ss).
Proof. intros Hs. by rewrite (drop_S _ _ _ Hs). Qed.

(** ** The iterator over a block *)

Section walk.
Context `{HC : !ComparatorLaws C} (data : str) (ss : list slot) (rs : list nat) (L : layout data ss rs).

Local Abbreviation total := (str_size (enc_slots ss)).
Local Abbreviation n := (length ss).
Local Abbreviation num := (Z.of_nat (length rs)).

(** The fields of an iterator over this block that never change, and a status
    without error. *)
Record over (it : Block.Iter) : Prop := {
  ov_data : Block.it_data it = data;
  ov_restarts : Block.restarts_ it = total;
  ov_num : Block.num_restarts_ it = num;
  ov_status : Block.status_ it = Status.OK
}.

(** [restart_index_] is an index of a restart point at or before position [i]. *)
Definition restart_before (index : Z) (i : nat) : Prop :=
  exists j r, index = Z.of_nat j /\ rs !! j = Some r /\ (r <= i)%nat.

(** Standing at the slot [i]. *)
Definition stands (it : Block.Iter) (i : nat) : Prop :=
  over it /\ Block.current_ it = offset ss i /\ restart_before (Block.restart_index_ it) i /\
  exists s k v, ss !! i = Some (s, (k, v)) /\ Block.key_ it = k /\
    Block.value_ it = Some (offset ss (S i) - str_size v, str_size v).

(** Past the last slot, or not yet positioned. *)
Definition exhausted (it : Block.Iter) : Prop := over it /\ Block.current_ it = total.

(** About to parse the slot [i]: [value_] ends where it starts, and [key_] has the
    prefix it shares. *)
Definition ready (it : Block.Iter) (i : nat) : Prop :=
  over it /\ (i <= n)%nat /\ restart_before (Block.restart_index_ it) i /\
  (exists off len, Block.value_ it = Some (off, len) /\ off + len = offset ss i) /\
  (forall s k v, ss !! i = Some (s, (k, v)) -> (s <= length k)%nat /\ (s <= length (Block.key_ it))%nat /\
     take s (Block.key_ it) = take s k).

Definition at_pos (it : Block.Iter) (i : nat) : Prop := (stands it i) \/ (i = n /\ exhausted it).

Lemma data_size : str_size data = total + 4 * num + 4 /\ total + 4 * num + 4 < 2 ^ 32.
Proof.
  pose proof (ly_size _ _ _ L) as Hs. rewrite (ly_data _ _ _ L) in Hs |- *. rewrite !str_size_app in *.
  assert (str_size (enc_restarts ss rs) = 4 * num) as E by (unfold str_size; rewrite enc_restarts_length; lia).
  assert (str_size (EncodeFixed32 num) = 4) as E4 by done. rewrite E, E4 in *. lia.
Qed.

Lemma offset_fits i : 0 <= offset ss i <= total /\ u32 (offset ss i) = offset ss i.
Proof.
  pose proof data_size. pose proof (offset_nonneg ss i). pose proof (offset_le_total ss i).
  split; [lia|]. apply wrap_small. lia.
Qed.

(** What a key shares lies in the bytes before it. *)
Lemma shared_fits i s k v : ss !! i = Some (s, (k, v)) -> Z.of_nat s <= offset ss i.
Proof.
  revert s k v. induction i as [|i IH]; intros s k v Hs.
  - rewrite (ch_first _ (ly_chained _ _ _ L) _ _ Hs). apply offset_nonneg.
  - pose proof (lookup_lt_Some _ _ _ Hs). destruct (lookup_lt_is_Some_2 ss i) as [[s' [k' v']] Hs']; [lia|].
    destruct (ch_next _ (ly_chained _ _ _ L) _ _ _ _ _ Hs' Hs) as (_ & Hle & _). simpl in Hle.
    specialize (IH _ _ _ Hs'). rewrite (offset_S _ _ _ Hs'). unfold enc_slot. rewrite !str_size_app.
    unfold str_size in *. rewrite length_drop. lia.
Qed.

Lemma shared_le i s k v : ss !! i = Some (s, (k, v)) -> (s <= length k)%nat.
Proof.
  destruct i as [|i]; intros Hs.
  - rewrite (ch_first _ (ly_chained _ _ _ L) _ _ Hs). lia.
  - pose proof (lookup_lt_Some _ _ _ Hs). destruct (lookup_lt_is_Some_2 ss i) as [[s' e'] Hs']; [lia|].
    by destruct (ch_next _ (ly_chained _ _ _ L) _ _ _ _ _ Hs' Hs) as (? & _).
Qed.

Lemma restart_le j r : rs !! j = Some r -> (r <= n)%nat.
Proof.
  destruct j as [|j]; intros Hr.
  - rewrite (ly_first _ _ _ L) in Hr. injection Hr as <-. lia.
  - destruct (ly_restart _ _ _ L j r Hr) as [e He]. apply lookup_lt_Some in He. lia.
Qed.

Lemma GetRestartPoint_at it j r :
  over it -> rs !! j = Some r -> Block.GetRestartPoint it (Z.of_nat j) = Ret (offset ss r).
Proof.
  intros [Hd Ht Hn _] Hr. unfold Block.GetRestartPoint. rewrite Hd, Ht, Hn.
  pose proof (lookup_lt_Some _ _ _ Hr). destruct (Z.ltb_spec (Z.of_nat j) num); [|lia].
  f_equal. rewrite (ly_data _ _ _ L). pose proof (str_size_nonneg (enc_slots ss)).
  replace (Z.to_nat (total + Z.of_nat j * 4)) with (length (enc_slots ss) + 4 * j)%nat by (unfold str_size; lia).
  rewrite <- drop_drop, drop_app_length. rewrite (enc_restarts_at ss rs j r _ Hr). apply offset_fits.
Qed.

Lemma entries_at_offset it i : over it -> Block.entries_at it (offset ss i) = enc_slots (drop i ss).
Proof.
  intros [Hd Ht _ _]. unfold Block.entries_at, Block.bytes_at. rewrite Hd, Ht, (ly_data _ _ _ L).
  rewrite (enc_slots_split ss i). unfold offset, str_size. rewrite length_app, Nat2Z.id, <- !app_assoc, drop_app_length.
  replace (Z.to_nat _) with (length (enc_slots (drop i ss))) by lia. apply take_app_length.
Qed.

(** Decoding the slot [i] from the block: the three lengths, and where the bytes
    that are not shared and the value lie. *)
Lemma decode_slot it i s k v :
  over it -> ss !! i = Some (s, (k, v)) ->
  exists p, Block.DecodeEntry (Block.entries_at it (offset ss i)) =
      Some (Z.of_nat s, str_size k - Z.of_nat s, str_size v, p) /\
    total - str_size p + (str_size k - Z.of_nat s) = offset ss (S i) - str_size v /\
    Block.read_bytes data (total - str_size p) (str_size k - Z.of_nat s) = Ret (drop s k) /\
    Block.read_bytes data (offset ss (S i) - str_size v) (str_size v) = Ret v.
Proof.
  intros Hov Hs. pose proof (shared_le _ _ _ _ Hs) as Hle. pose proof data_size as [_ Hsz].
  rewrite entries_at_offset by done. rewrite (enc_slots_drop _ _ _ Hs).
  set (rest := enc_slots (drop (S i) ss)). set (pre := EncodeVarint32 (Z.of_nat s) ++
    EncodeVarint32 (str_size k - Z.of_nat s) ++ EncodeVarint32 (str_size v)).
  assert (enc_slots ss = enc_slots (take i ss) ++ pre ++ drop s k ++ v ++ rest) as E.
  { rewrite (enc_slots_split ss i), (enc_slots_drop _ _ _ Hs). unfold pre, rest, enc_slot. by rewrite <- !app_assoc. }
  assert (str_size (drop s k) = str_size k - Z.of_nat s) as Ed by (unfold str_size; rewrite length_drop; lia).
  assert (total = offset ss i + str_size pre + str_size (drop s k) + str_size v + str_size rest) as Et.
  { unfold offset. rewrite E at 1. rewrite !str_size_app. lia. }
  assert (offset ss (S i) + str_size rest = total) as En.
  { unfold offset, rest. rewrite (enc_slots_split ss (S i)), str_size_app. lia. }
  pose proof (offset_nonneg ss i). pose proof (str_size_nonneg pre).
  assert (data = (enc_slots (take i ss) ++ pre) ++ drop s k ++ (v ++ rest ++ enc_restarts ss rs ++ EncodeFixed32 num)) as E1.
  { rewrite (ly_data _ _ _ L), E. by rewrite <- !app_assoc. }
  assert (data = (enc_slots (take i ss) ++ pre ++ drop s k) ++ v ++ (rest ++ enc_restarts ss rs ++ EncodeFixed32 num)) as E2.
  { rewrite E1. by rewrite <- !app_assoc. }
  exists (drop s k ++ v ++ rest). split.
  { pose proof (shared_fits i s k v Hs). pose proof (offset_fits i). apply DecodeEntry_enc; [done|lia|lia]. }
  assert (str_size (drop s k ++ v ++ rest) = str_size (drop s k) + str_size v + str_size rest) as Ep
    by (rewrite !str_size_app; lia).
  split; [|split].
  - lia.
  - rewrite E1 at 1. rewrite <- Ed.
    replace (total - _) with (str_size (enc_slots (take i ss) ++ pre)); [apply read_bytes_app|].
    rewrite str_size_app. fold (offset ss i). lia.
  - rewrite E2 at 1. replace (offset ss (S i) - str_size v) with (str_size (enc_slots (take i ss) ++ pre ++ drop s k));
      [apply read_bytes_app|]. rewrite !str_size_app. fold (offset ss i). lia.
Qed.
Lemma advance_restart_before fuel it index i :
  over it -> Block.current_ it = offset ss i -> (i < n)%nat -> restart_before index i ->
  num - index < Z.of_nat fuel -> exists index', Block.advance_restart fuel it index = Ret index' /\ restart_before index' i.
Proof.
  intros Hov Hc Hi. pose proof data_size. revert index.
  induction fuel as [|f IH]; intros index (j & r & -> & Hr & Hle) Hf; [pose proof (lookup_lt_Some _ _ _ Hr); lia|].
  pose proof (lookup_lt_Some _ _ _ Hr) as Hj. pose proof (str_size_nonneg (enc_slots ss)).
  cbn [Block.advance_restart]. rewrite (ov_num _ Hov), wrap_small by lia.
  destruct (Z.ltb_spec (Z.of_nat j + 1) num); [|by eexists; split; [done|exists j, r]].
  destruct (lookup_lt_is_Some_2 rs (S j)) as [r' Hr']; [lia|].
  replace (Z.of_nat j + 1) with (Z.of_nat (S j)) by lia. rewrite (GetRestartPoint_at it _ _ Hov Hr').
  cbn [mbind result_bind]. rewrite Hc. destruct (Z.ltb_spec (offset ss r') (offset ss i)) as [Hlt|];
    [|by eexists; split; [done|exists j, r]].
  apply IH; [|lia]. exists (S j), r'. repeat split; [done|].
  destruct (Nat.lt_ge_cases i r') as [Hir|]; [|lia]. pose proof (offset_lt ss i r' Hir Hi). lia.
Qed.

Lemma value_of_stands it i s k v :
  stands it i -> ss !! i = Some (s, (k, v)) -> Block.key it = Ret k /\ Block.value it = Ret v /\ Block.Valid it = true.
Proof.
  intros (Hov & Hc & Hr & s' & k' & v' & Hs' & Hk & Hv) Hs. rewrite Hs' in Hs. injection Hs as -> -> ->.
  assert (Block.Valid it = true) as HV.
  { unfold Block.Valid. rewrite Hc, (ov_restarts _ Hov). apply Z.ltb_lt.
    pose proof (lookup_lt_Some _ _ _ Hs'). rewrite <- (offset_ge ss n) by lia. by apply offset_lt. }
  unfold Block.key, Block.value. rewrite HV, Hk, Hv, (ov_data _ Hov). repeat split.
  by destruct (decode_slot it i s k v Hov Hs') as (p & _ & _ & _ & Hrd).
Qed.

(** Parsing the next slot. *)
Lemma ParseNextKey_slot it i :
  ready it i -> (i < n)%nat -> exists it', Block.ParseNextKey it = Ret (it', true) /\ stands it' i.
Proof.
  intros (Hov & _ & Hrb & (off & len & Hv & Hol) & Hpre) Hi. destruct (offset_fits i) as [Hf1 Hf2].
  destruct (lookup_lt_is_Some_2 ss i Hi) as [[s [k v]] Hs]. destruct (Hpre s k v Hs) as (Hsk & Hskey & Ht).
  unfold Block.ParseNextKey, Block.NextEntryOffset. rewrite Hv. cbn [mbind result_bind]. rewrite Hol, Hf2.
  pose proof (offset_lt ss i n Hi Hi) as Hlt. rewrite (offset_ge ss n) in Hlt by lia.
  rewrite (ov_restarts _ Hov). destruct (Z.leb_spec total (offset ss i)); [lia|].
  set (it1 := Block.mkIter _ _ _ _ _ _ _ _). assert (over it1) as Hov1.
  { destruct Hov as [Hd Ht' Hn Hst]. by split. }
  destruct (decode_slot it1 i s k v Hov1 Hs) as (p & -> & Hoff & Hrd & _).
  change (Block.key_ it1) with (Block.key_ it). change (Block.it_data it1) with (Block.it_data it).
  change (Block.restarts_ it1) with total. change (Block.num_restarts_ it1) with (Block.num_restarts_ it).
  destruct (Z.ltb_spec (str_size (Block.key_ it)) (Z.of_nat s)); [unfold str_size in *; lia|].
  rewrite (ov_data _ Hov) in *. rewrite Hrd. cbn [mbind result_bind].
  set (it2 := Block.mkIter _ _ _ _ _ _ _ _). assert (over it2) as Hov2.
  { destruct Hov as [Hd Ht' Hn Hst]. by split. }
  change (Block.num_restarts_ it2) with (Block.num_restarts_ it).
  destruct (advance_restart_before (S (Z.to_nat (Block.num_restarts_ it))) it2 (Block.restart_index_ it) i Hov2 eq_refl Hi Hrb)
    as (index' & Hadv & Hrb').
  { rewrite (ov_num _ Hov). destruct Hrb as (j & r & -> & _ & _). lia. }
  change (Block.restart_index_ it2) with (Block.restart_index_ it). rewrite Hadv. cbn [mbind result_bind].
  eexists. split; [done|]. split; [|split; [done|split; [done|]]].
  - destruct Hov as [Hd Ht' Hn Hst]. by split.
  - exists s, k, v. split; [done|]. cbn. rewrite Nat2Z.id, Ht, take_drop. split; [done|]. by rewrite Hoff.
Qed.

Lemma ParseNextKey_end it : ready it n -> exists it', Block.ParseNextKey it = Ret (it', false) /\ exhausted it'.
Proof.
  intros (Hov & _ & Hrb & (off & len & Hv & Hol) & Hpre). destruct (offset_fits n) as [Hf1 Hf2].
  unfold Block.ParseNextKey, Block.NextEntryOffset. rewrite Hv. cbn [mbind result_bind]. rewrite Hol, Hf2.
  rewrite (offset_ge ss n) by lia. rewrite (ov_restarts _ Hov), Z.leb_refl. eexists. split; [done|].
  split; [|done]. destruct Hov as [Hd Ht' Hn Hst]. by split.
Qed.

Lemma ready_next it i : stands it i -> ready it (S i).
Proof.
  intros (Hov & _ & (j & r & Hj & Hr & Hle) & s & k & v & Hs & Hk & Hv). pose proof (lookup_lt_Some _ _ _ Hs).
  split; [done|]. split; [lia|]. split; [exists j, r; repeat split; [done|done|lia]|].
  split; [do 2 eexists; split; [exact Hv|lia]|]. intros s' k' v' Hs'. rewrite Hk.
  destruct (ch_next _ (ly_chained _ _ _ L) _ _ _ _ _ Hs Hs') as (? & ? & ?). done.
Qed.

Lemma SeekToRestartPoint_ready it j r :
  over it -> rs !! j = Some r -> exists it', Block.SeekToRestartPoint it (Z.of_nat j) = Ret it' /\ ready it' r.
Proof.
  intros Hov Hr. unfold Block.SeekToRestartPoint. rewrite (GetRestartPoint_at _ _ _ Hov Hr). cbn [mbind result_bind].
  eexists. split; [done|]. split; [destruct Hov; by split|]. split; [by eapply restart_le|].
  split; [by exists j, r|]. split; [do 2 eexists; split; [done|lia]|].
  intros s k v Hs. assert (s = O) as ->; [|simpl; split; [lia|by rewrite !take_0]].
  destruct j as [|j].
  - rewrite (ly_first _ _ _ L) in Hr. injection Hr as <-. by apply (ch_first _ (ly_chained _ _ _ L)) in Hs.
  - destruct (ly_restart _ _ _ L j r Hr) as [e He]. congruence.
Qed.

Lemma scan_fuel_enough it : over it -> (n < Block.scan_fuel it)%nat.
Proof.
  intros Hov. unfold Block.scan_fuel. rewrite (ov_data _ Hov). pose proof data_size as [Hd _].
  pose proof (length_enc_slots ss). unfold str_size in Hd. lia.
Qed.

Lemma NextEntryOffset_stands it i : stands it i -> Block.NextEntryOffset it = Ret (offset ss (S i)).
Proof.
  intros (Hov & _ & _ & s & k & v & Hs & _ & Hv). unfold Block.NextEntryOffset. rewrite Hv. f_equal.
  rewrite Z.sub_add. apply offset_fits.
Qed.

(** Parsing up to the offset of position [m] ends at the slot before it. *)
Lemma parse_until_before fuel it i m :
  ready it i -> (i < m <= n)%nat -> (m - i <= fuel)%nat ->
  exists it', Block.parse_until fuel (offset ss m) it = Ret it' /\ stands it' (m - 1).
Proof.
  revert it i. induction fuel as [|f IH]; intros it i Hrd Hm Hf; [lia|]. cbn [Block.parse_until].
  destruct (ParseNextKey_slot it i Hrd ltac:(lia)) as (it1 & -> & Hst). cbn [mbind result_bind].
  rewrite (NextEntryOffset_stands _ _ Hst). cbn [mbind result_bind].
  destruct (Z.ltb_spec (offset ss (S i)) (offset ss m)) as [Hlt|Hge].
  - apply (IH it1 (S i)); [by apply ready_next| |lia]. destruct (decide (S i = m)) as [<-|]; lia.
  - exists it1. split; [done|]. destruct (decide (m = S i)) as [->|]; [by replace (S i - 1)%nat with i by lia|].
    pose proof (offset_lt ss (S i) m ltac:(lia) ltac:(lia)). lia.
Qed.

(** The linear part of [Seek]. *)
Lemma linear_search_pos fuel it i target :
  ready it i -> (i <= seek_pos target (map snd ss))%nat -> (n - i < fuel)%nat ->
  exists it', Block.linear_search fuel it target = Ret it' /\ at_pos it' (seek_pos target (map snd ss)).
Proof.
  revert it i. pose proof (seek_pos_le target (map snd ss)) as Hle. rewrite length_map in Hle.
  induction fuel as [|f IH]; intros it i Hrd Hi Hf; [lia|]. cbn [Block.linear_search].
  destruct (decide (i = n)) as [->|Hne].
  - destruct (ParseNextKey_end it Hrd) as (it1 & -> & Hex). cbn [mbind result_bind]. exists it1.
    split; [done|]. right. split; [lia|done].
  - destruct (ParseNextKey_slot it i Hrd ltac:(lia)) as (it1 & -> & Hst). cbn [mbind result_bind].
    pose proof Hst as (_ & _ & _ & s & k & v & Hs & -> & _).
    assert (map snd ss !! i = Some (k, v)) as He by (by rewrite list_lookup_fmap, Hs).
    destruct (decide (i = seek_pos target (map snd ss))) as [E|Hn].
    + pose proof (seek_pos_at target (map snd ss) (k, v)) as Hsp. rewrite <- E in Hsp. specialize (Hsp He). simpl in Hsp.
      exists it1. rewrite <- E. split; [by destruct (Compare k target)|by left].
    + pose proof (seek_pos_before target _ _ _ He ltac:(lia)) as Hsp. simpl in Hsp. rewrite Hsp. apply (IH it1 (S i)); [by apply ready_next|lia|lia].
Qed.

(** The binary part of [Seek]: the restart point found lies at or before the
    position sought when the one it starts from does. *)
Lemma binary_search_before fuel it target (lo hi : nat) :
  over it -> keys_sorted (map snd ss) -> (lo <= hi < length rs)%nat ->
  (forall r, rs !! lo = Some r -> (r <= seek_pos target (map snd ss))%nat) -> (hi - lo < fuel)%nat ->
  exists j r, Block.binary_search fuel it target (Z.of_nat lo) (Z.of_nat hi) = Ret (Some (Z.of_nat j)) /\
    rs !! j = Some r /\ (r <= seek_pos target (map snd ss))%nat.
Proof.
  intros Hov Hsorted. revert lo hi. pose proof data_size. pose proof (str_size_nonneg (enc_slots ss)).
  induction fuel as [|f IH]; intros lo hi Hb Hlo Hf; [lia|]. cbn [Block.binary_search].
  destruct (Z.ltb_spec (Z.of_nat lo) (Z.of_nat hi)).
  2:{ destruct (lookup_lt_is_Some_2 rs lo) as [r Hr]; [lia|]. exists lo, r. eauto. }
  rewrite !(wrap_small 32 (Z.of_nat lo + Z.of_nat hi + 1)) by lia. set (mid := ((lo + hi + 1) / 2)%nat).
  assert (lo < mid <= hi)%nat as Hmid by (unfold mid; split; [apply Nat.div_le_lower_bound|apply Nat.Div0.div_le_upper_bound]; lia).
  replace ((Z.of_nat lo + Z.of_nat hi + 1) / 2) with (Z.of_nat mid) by (unfold mid; rewrite Nat2Z.inj_div; f_equal; lia).
  destruct (lookup_lt_is_Some_2 rs mid) as [r Hr]; [lia|]. rewrite (GetRestartPoint_at it mid r Hov Hr). cbn [mbind result_bind].
  destruct mid as [|m] eqn:Em; [lia|]. destruct (ly_restart _ _ _ L m r Hr) as [[k v] Hs].
  destruct (decode_slot it r O k v Hov Hs) as (p & -> & _ & Hrd & _). simpl negb. cbv iota.
  rewrite (ov_data _ Hov), (ov_restarts _ Hov), Hrd. cbn [mbind result_bind drop]. rewrite drop_0.
  assert (map snd ss !! r = Some (k, v)) as He by (by rewrite list_lookup_fmap, Hs).
  rewrite (wrap_small 32 (Z.of_nat (S m) - 1)) by lia. replace (Z.of_nat (S m) - 1) with (Z.of_nat m) by lia.
  destruct (Compare k target) eqn:Ec; [|apply (IH (S m) hi); [lia| |lia]|]; try (apply (IH lo m); [lia|done|lia]).
  intros r' Hr'. replace r' with r by congruence. pose proof (seek_pos_gt target _ _ _ Hsorted He Ec). lia.
Qed.

Lemma at_pos_over it i : at_pos it i -> over it /\ (i <= n)%nat.
Proof.
  intros [(Hov & _ & _ & s & k & v & Hs & _) | [-> [Hov _]]]; [|done]. apply lookup_lt_Some in Hs. split; [done|lia].
Qed.

Lemma at_pos_valid it i : at_pos it i -> Block.Valid it = (i <? n)%nat.
Proof.
  intros [Hst | [-> [Hov Hc]]].
  - pose proof Hst as (_ & _ & _ & s & k & v & Hs & _). destruct (value_of_stands it i s k v Hst Hs) as (_ & _ & ->).
    apply lookup_lt_Some in Hs. symmetry. by apply Nat.ltb_lt.
  - unfold Block.Valid. rewrite Hc, (ov_restarts _ Hov), Z.ltb_irrefl. symmetry. by apply Nat.ltb_irrefl.
Qed.

Lemma at_pos_stands it i : at_pos it i -> (i < n)%nat -> stands it i.
Proof. intros [|[-> _]]; [done|lia]. Qed.

(** Parsing from a ready iterator stands at that position. *)
Lemma ParseNextKey_pos it i : ready it i -> exists it' b, Block.ParseNextKey it = Ret (it', b) /\ at_pos it' i.
Proof.
  intros Hrd. pose proof Hrd as (_ & Hi & _). destruct (decide (i = n)) as [->|].
  - destruct (ParseNextKey_end it Hrd) as (it' & Hp & Hex). exists it', false. split; [done|by right].
  - destruct (ParseNextKey_slot it i Hrd ltac:(lia)) as (it' & Hp & Hst). exists it', true. split; [done|by left].
Qed.

Lemma SeekToFirst_pos it : over it -> exists it', Block.SeekToFirst it = Ret it' /\ at_pos it' 0.
Proof.
  intros Hov. unfold Block.SeekToFirst.
  destruct (SeekToRestartPoint_ready it 0 0 Hov (ly_first _ _ _ L)) as (it1 & Hs & Hrd). change (Z.of_nat 0) with 0 in Hs. rewrite Hs.
  cbn [mbind result_bind]. destruct (ParseNextKey_pos it1 0 Hrd) as (it2 & b & -> & Hat). by exists it2.
Qed.

Lemma SeekToLast_pos it : over it -> exists it', Block.SeekToLast it = Ret it' /\ at_pos it' (n - 1).
Proof.
  intros Hov. unfold Block.SeekToLast. pose proof data_size. pose proof (str_size_nonneg (enc_slots ss)).
  pose proof (lookup_lt_Some _ _ _ (ly_first _ _ _ L)).
  destruct (lookup_lt_is_Some_2 rs (length rs - 1)) as [r Hr]; [lia|].
  rewrite (ov_num _ Hov), wrap_small by lia. replace (num - 1) with (Z.of_nat (length rs - 1)) by lia.
  destruct (SeekToRestartPoint_ready it _ r Hov Hr) as (it1 & -> & Hrd). cbn [mbind result_bind].
  pose proof Hrd as (Hov1 & Hrn & _). pose proof (scan_fuel_enough it1 Hov1). rewrite (ov_restarts _ Hov1).
  destruct (decide (r = n)) as [->|Hne].
  - assert (n = O) as En.
    { destruct (length rs - 1)%nat as [|j] eqn:Ej.
      - rewrite (ly_first _ _ _ L) in Hr. congruence.
      - destruct (ly_restart _ _ _ L _ _ Hr) as [e He]. apply lookup_lt_Some in He. lia. }
    destruct (Block.scan_fuel it1) as [|f]; [lia|]. cbn [Block.parse_until].
    destruct (ParseNextKey_end it1 Hrd) as (it2 & -> & Hex). cbn [mbind result_bind]. exists it2.
    split; [done|]. right. split; [lia|done].
  - rewrite <- (offset_ge ss n) by lia.
    destruct (parse_until_before (Block.scan_fuel it1) it1 r n Hrd ltac:(lia) ltac:(lia)) as (it2 & -> & Hst).
    exists it2. split; [done|by left].
Qed.

Lemma Next_pos it i : at_pos it i -> (i < n)%nat -> exists it', Block.Next it = Ret it' /\ at_pos it' (S i).
Proof.
  intros Hat Hi. unfold Block.Next. rewrite (at_pos_valid _ _ Hat). apply Nat.ltb_lt in Hi as Hb. rewrite Hb.
  destruct (ParseNextKey_pos it (S i)) as (it' & b & -> & Hat'); [|by exists it'].
  apply ready_next. by apply at_pos_stands.
Qed.

(** The restart points before the slot [i]. *)
Lemma prev_restart_before fuel it j r i :
  over it -> rs !! j = Some r -> (r <= i < n)%nat -> (2 <= fuel)%nat ->
  (i = O /\ Block.prev_restart fuel it (Z.of_nat j) (offset ss i) = Ret None) \/
  (exists j' r', Block.prev_restart fuel it (Z.of_nat j) (offset ss i) = Ret (Some (Z.of_nat j')) /\
    rs !! j' = Some r' /\ (r' < i)%nat).
Proof.
  intros Hov Hr Hi Hf. destruct fuel as [|[|f]]; [lia|lia|]. cbn [Block.prev_restart].
  rewrite (GetRestartPoint_at it j r Hov Hr). cbn [mbind result_bind].
  pose proof data_size. pose proof (str_size_nonneg (enc_slots ss)). pose proof (lookup_lt_Some _ _ _ Hr).
  destruct (decide (r = i)) as [->|Hne].
  - rewrite Z.leb_refl. destruct (Z.eqb_spec (Z.of_nat j) 0) as [E|E].
    + left. destruct j; [|lia]. rewrite (ly_first _ _ _ L) in Hr. split; [congruence|done].
    + right. destruct j as [|j]; [lia|]. rewrite wrap_small by lia. replace (Z.of_nat (S j) - 1) with (Z.of_nat j) by lia.
      destruct (lookup_lt_is_Some_2 rs j) as [r' Hr']; [lia|]. pose proof (ly_incr _ _ _ L j r' i Hr' Hr) as Hlt.
      rewrite (GetRestartPoint_at it j r' Hov Hr'). cbn [mbind result_bind].
      pose proof (offset_lt ss r' i Hlt ltac:(lia)). destruct (Z.leb_spec (offset ss i) (offset ss r')); [lia|].
      by exists j, r'.
  - pose proof (offset_lt ss r i ltac:(lia) ltac:(lia)). destruct (Z.leb_spec (offset ss i) (offset ss r)); [lia|].
    right. exists j, r. repeat split; [done|lia].
Qed.

Lemma Prev_pos it i :
  at_pos it i -> (i < n)%nat ->
  exists it', Block.Prev it = Ret it' /\ at_pos it' (match i with O => n | S j => j end).
Proof.
  intros Hat Hi. unfold Block.Prev. rewrite (at_pos_valid _ _ Hat). apply Nat.ltb_lt in Hi as Hb. rewrite Hb.
  pose proof (at_pos_stands _ _ Hat Hi) as (Hov & Hc & (j & r & Hj & Hr & Hle) & _).
  pose proof (lookup_lt_Some _ _ _ Hr). rewrite Hj, Hc, (ov_num _ Hov).
  destruct (prev_restart_before (S (Z.to_nat num)) it j r i Hov Hr ltac:(lia) ltac:(lia))
    as [[-> ->] | (j' & r' & -> & Hr' & Hlt)]; cbn [mbind result_bind].
  - eexists. split; [done|]. right. split; [done|]. destruct Hov. by repeat split.
  - destruct (SeekToRestartPoint_ready it j' r' Hov Hr') as (it1 & -> & Hrd). cbn [mbind result_bind].
    pose proof Hrd as (Hov1 & _). pose proof (scan_fuel_enough it1 Hov1).
    destruct (parse_until_before (Block.scan_fuel it1) it1 r' i Hrd ltac:(lia) ltac:(lia)) as (it2 & -> & Hst).
    exists it2. split; [done|]. left. destruct i as [|i]; [lia|]. by replace (S i - 1)%nat with i in Hst by lia.
Qed.

(** The search from a window of restart points, when the iterator may keep its
    position [skip]. *)
Lemma search_window it target (lo hi : nat) (skip : Z -> bool) :
  over it -> keys_sorted (map snd ss) -> (lo <= hi < length rs)%nat ->
  (forall r, rs !! lo = Some r -> (r <= seek_pos target (map snd ss))%nat) ->
  (forall j, skip j = true -> exists i, stands it i /\ (i < seek_pos target (map snd ss))%nat) ->
  exists it', (r ← Block.binary_search (S (length rs)) it target (Z.of_nat lo) (Z.of_nat hi);
    match r : option Z with
    | None => Ret (Block.CorruptionError it)
    | Some left_ =>
        it ← (if skip left_ then Ret it else Block.SeekToRestartPoint it left_);
        Block.linear_search (Block.scan_fuel it) it target
    end) = Ret it' /\ at_pos it' (seek_pos target (map snd ss)).
Proof.
  intros Hov Hsorted Hb Hlo Hskip.
  destruct (binary_search_before (S (length rs)) it target lo hi Hov Hsorted Hb Hlo ltac:(lia)) as (j & r & -> & Hr & Hle).
  cbn [mbind result_bind]. destruct (skip (Z.of_nat j)) eqn:Es.
  - destruct (Hskip _ Es) as (i & Hst & Hi). cbn [mbind result_bind].
    pose proof (scan_fuel_enough it Hov). apply (linear_search_pos _ it (S i)); [by apply ready_next|lia|lia].
  - destruct (SeekToRestartPoint_ready it j r Hov Hr) as (it1 & -> & Hrd). cbn [mbind result_bind].
    pose proof Hrd as (Hov1 & _). pose proof (scan_fuel_enough it1 Hov1). apply (linear_search_pos _ it1 r); [done|lia|lia].
Qed.

Lemma Seek_pos it i target :
  at_pos it i -> keys_sorted (map snd ss) ->
  exists it', Block.Seek it target = Ret it' /\ at_pos it' (seek_pos target (map snd ss)).
Proof.
  intros Hat Hsorted. unfold Block.Seek. rewrite (at_pos_valid _ _ Hat).
  pose proof (at_pos_over _ _ Hat) as [Hov Hin]. pose proof data_size. pose proof (str_size_nonneg (enc_slots ss)).
  pose proof (lookup_lt_Some _ _ _ (ly_first _ _ _ L)).
  assert (forall r, rs !! O = Some r -> (r <= seek_pos target (map snd ss))%nat) as Hzero.
  { intros r Hr. rewrite (ly_first _ _ _ L) in Hr. injection Hr as <-. lia. }
  rewrite (ov_num _ Hov), wrap_small by lia. replace (num - 1) with (Z.of_nat (length rs - 1)) by lia.
  replace (S (Z.to_nat num)) with (S (length rs)) by lia.
  destruct (Nat.ltb_spec i n) as [Hi|Hi].
  2:{ cbv iota zeta beta. cbn [andb]. apply (search_window it target 0 (length rs - 1) (fun l => (l =? _) && false));
        [done|done|lia|done|]. intros j Hj. by rewrite andb_false_r in Hj. }
  pose proof (at_pos_stands _ _ Hat Hi) as Hst. pose proof Hst as (_ & _ & (j & r & Hj & Hr & Hle) & s & k & v & Hs & Hk & _).
  assert (map snd ss !! i = Some (k, v)) as He by (by rewrite list_lookup_fmap, Hs).
  pose proof (lookup_lt_Some _ _ _ Hr). rewrite Hk, Hj. destruct (Compare k target) eqn:Ec; cbn [andb]; cbv iota zeta beta.
  - exists it. split; [done|]. rewrite (seek_pos_unique target (map snd ss) i); [done|rewrite length_map; lia| |].
    + intros j' e Hj' He'. pose proof (sorted_lt _ _ _ _ _ Hsorted He' He Hj') as Hlt. simpl in Hlt.
      by rewrite (cmp_eq_r (fst e) _ _ Ec) in Hlt.
    + intros e He'. rewrite He in He'. injection He' as <-. simpl. congruence.
  - pose proof (seek_pos_gt target _ _ _ Hsorted He Ec) as Hgt.
    apply (search_window it target j (length rs - 1) (fun l => (l =? Z.of_nat j) && true)); [done|done|lia| |].
    + intros r' Hr'. replace r' with r by congruence. lia.
    + intros _ _. by exists i.
  - apply (search_window it target 0 j (fun l => (l =? Z.of_nat j) && false)); [done|done|lia|done|].
    intros l Hl. by rewrite andb_false_r in Hl.
Qed.

End walk.

(** *** The iterator keeps the contract of iterators *)

Definition block_at (i : Block.BlockIterator) (es : list entry) (pos : nat) : Prop :=
  match i with
  | inl e => EmptyIterator.status_ e = Status.OK /\ es = [] /\ pos = O
  | inr it => exists data ss rs, layout data ss rs /\ es = map snd ss /\ at_pos data ss rs it pos
  end.

#[export] Program Instance BlockIterator_laws (C : Comparator) : IteratorLaws (BlockIterator_ops (C := C)) := {
  it_at := block_at
}.
Next Obligation.
  intros C [e|it] es i; simpl; [intros (_ & -> & ->); done|]. intros (data & ss & rs & L & -> & Hat).
  rewrite length_map. by eapply at_pos_over.
Qed.
Next Obligation.
  intros C [e|it] es i; simpl; [intros (_ & -> & ->); done|]. intros (data & ss & rs & L & -> & Hat).
  rewrite length_map. by eapply at_pos_valid.
Qed.
Next Obligation.
  intros C [e|it] es i k v; simpl; [intros (_ & -> & ->); done|]. intros (data & ss & rs & L & -> & Hat) He.
  rewrite list_lookup_fmap in He. destruct (ss !! i) as [[s e]|] eqn:Hs; simplify_eq/=.
  pose proof (lookup_lt_Some _ _ _ Hs). pose proof (at_pos_stands _ _ _ _ _ Hat ltac:(lia)) as Hst.
  by destruct (value_of_stands _ _ _ L _ _ _ _ _ Hst Hs) as (? & ? & _).
Qed.
Next Obligation.
  intros C [e|it] es i; simpl; [by intros (-> & _)|]. intros (data & ss & rs & L & -> & Hat).
  apply at_pos_over in Hat as [Hov _]. by destruct Hov.
Qed.
Next Obligation.
  intros C [e|it] es i; simpl; [intros (? & -> & ->); by eexists|]. intros (data & ss & rs & L & -> & Hat).
  apply at_pos_over in Hat as [Hov _]. destruct (SeekToFirst_pos _ _ _ L it Hov) as (it' & -> & Hat').
  eexists. split; [done|]. by exists data, ss, rs.
Qed.
Next Obligation.
  intros C [e|it] es i; simpl; [intros (? & -> & ->); by eexists|]. intros (data & ss & rs & L & -> & Hat).
  apply at_pos_over in Hat as [Hov _]. destruct (SeekToLast_pos _ _ _ L it Hov) as (it' & -> & Hat').
  eexists. split; [done|]. exists data, ss, rs. by rewrite length_map.
Qed.
Next Obligation.
  intros C [e|it] es i; simpl; [intros (? & -> & ->) Hi; simpl in Hi; lia|].
  intros (data & ss & rs & L & -> & Hat) Hi. rewrite length_map in Hi.
  destruct (Next_pos _ _ _ L it i Hat Hi) as (it' & -> & Hat'). eexists. split; [done|]. by exists data, ss, rs.
Qed.
Next Obligation.
  intros C [e|it] es i; simpl; [intros (? & -> & ->) Hi; simpl in Hi; lia|].
  intros (data & ss & rs & L & -> & Hat) Hi. rewrite length_map in Hi |- *.
  destruct (Prev_pos _ _ _ L it i Hat Hi) as (it' & -> & Hat'). eexists. split; [done|]. by exists data, ss, rs.
Qed.

#[export] Instance BlockIterator_seek `{HC : !ComparatorLaws C} : SeekLaws C (BlockIterator_laws C).
Proof.
  constructor. intros [e|it] es i target; simpl; [intros (? & -> & ->) _; by eexists|].
  intros (data & ss & rs & L & -> & Hat) Hs. destruct (Seek_pos _ _ _ L it i target Hat Hs) as (it' & -> & Hat').
  eexists. split; [done|]. by exists data, ss, rs.
Qed.
(** A block with this layout gives an iterator over its entries. *)
Lemma NewIterator_layout (C : Comparator) data ss rs :
  layout data ss rs -> exists it, Block.NewIterator (Block.make data) = Ret it /\ it_at (IteratorLaws := BlockIterator_laws C) it (map snd ss) (length ss).
Proof.
  intros L. destruct (data_size _ _ _ L) as [Hd Hsz]. pose proof (str_size_nonneg (enc_slots ss)) as Ht.
  pose proof (lookup_lt_Some _ _ _ (ly_first _ _ _ L)) as Hl.
  assert (Block.NumRestarts data (str_size data) = Z.of_nat (length rs)) as Hnum.
  { unfold Block.NumRestarts. replace (Z.to_nat (str_size data - 4)) with (length (enc_slots ss ++ enc_restarts ss rs))
      by (rewrite length_app, enc_restarts_length; unfold str_size in *; lia).
    rewrite (ly_data _ _ _ L), app_assoc, drop_app_length. rewrite <- (app_nil_r (EncodeFixed32 _)), DecodeFixed32_Encode.
    apply wrap_small. lia. }
  assert (Block.make data = Block.mkBlock data (str_size data) (str_size (enc_slots ss))) as ->.
  { unfold Block.make. destruct (Z.ltb_spec (str_size data) 4); [lia|]. rewrite Hnum.
    assert (Z.of_nat (length rs) <= (str_size data - 4) / 4) by (apply Z.div_le_lower_bound; lia).
    destruct (Z.ltb_spec ((str_size data - 4) / 4) (Z.of_nat (length rs))); [lia|]. f_equal.
    rewrite (wrap_small 32), wrap_small by lia. lia. }
  unfold Block.NewIterator. cbn [Block.size_ Block.data_ Block.restart_offset_]. rewrite Hnum.
  destruct (Z.ltb_spec (str_size data) 4); [lia|]. destruct (Z.eqb_spec (Z.of_nat (length rs)) 0); [lia|].
  unfold Block.make_iter. destruct (Z.ltb_spec 0 (Z.of_nat (length rs))); [|lia]. cbn [mbind result_bind].
  rewrite wrap_small by lia. eexists. split; [done|]. exists data, ss, rs. split; [done|]. split; [done|].
  right. split; [done|]. by repeat split.
Qed.

(** ** The builder makes such blocks *)

Lemma offset_snoc ss s r : (r <= length ss)%nat -> offset (ss ++ [s]) r = offset ss r.
Proof. intros Hr. unfold offset. by rewrite take_app_le. Qed.

Lemma shared_prefix_spec a b :
  (BlockBuilder.shared_prefix a b <= length a)%nat /\ (BlockBuilder.shared_prefix a b <= length b)%nat /\
  take (BlockBuilder.shared_prefix a b) a = take (BlockBuilder.shared_prefix a b) b.
Proof.
  revert b. induction a as [|x a IH]; intros [|y b]; simpl; [by repeat split; lia..|].
  case_decide as E; simpl; [|by repeat split; lia]. destruct (IH b) as (? & ? & Ht). subst. rewrite Ht. by repeat split; lia.
Qed.

Lemma varint32_length_le v : (length (EncodeVarint32 v) <= 5)%nat.
Proof. unfold EncodeVarint32. repeat case_match; simpl; lia. Qed.

Section build.
Context `{HC : !ComparatorLaws C} (interval : Z) (Hint : 1 <= interval <= INT_MAX).

(** The key of the last slot. *)
Definition last_slot_key (ss : list slot) : str := match last ss with Some (_, (k, _)) => k | None => [] end.

(** [b] has taken the slots [ss], with restart points at [rs]. *)
Record built (b : BlockBuilder.BlockBuilder) (ss : list slot) (rs : list nat) : Prop := {
  bu_buffer : BlockBuilder.buffer_ b = enc_slots ss;
  bu_restarts : BlockBuilder.restarts_ b = map (offset ss) rs;
  bu_open : BlockBuilder.finished_ b = false;
  bu_last : BlockBuilder.last_key_ b = last_slot_key ss;
  bu_counter : 0 <= BlockBuilder.counter_ b <= interval;
  bu_empty : ss = [] -> BlockBuilder.counter_ b = 0;
  bu_first : rs !! O = Some O;
  bu_incr j r r' : rs !! j = Some r -> rs !! S j = Some r' -> (r < r')%nat;
  bu_restart j r : rs !! S j = Some r -> exists e, ss !! r = Some (O, e);
  bu_within j r : rs !! j = Some r -> (r <= length ss - 1)%nat;
  bu_chained : chained ss
}.

Lemma built_fresh : built BlockBuilder.fresh [] [O].
Proof.
  split; try done; simpl.
  - lia.
  - intros [|j] r; simpl; [intros [= <-]; lia|done].
Qed.

Lemma last_slot_lookup ss : ss <> [] -> exists s v, ss !! (length ss - 1)%nat = Some (s, (last_slot_key ss, v)).
Proof.
  intros Hne. destruct (exists_last Hne) as (l & [s [k v]] & ->). exists s, v. unfold last_slot_key.
  rewrite last_snoc, length_app. simpl. replace (length l + 1 - 1)%nat with (length l) by lia. by apply list_lookup_middle.
Qed.

Lemma last_slot_lt ss k v es :
  keys_sorted (map snd ss ++ (k, v) :: es) -> ss = [] \/ Compare k (last_slot_key ss) = Gt.
Proof.
  intros Hs. destruct (decide (ss = [])) as [|Hne]; [by left|right].
  destruct (last_slot_lookup ss Hne) as (s0 & v0 & Hlast). pose proof (lookup_lt_Some _ _ _ Hlast).
  apply (cmp_flip (last_slot_key ss) k Lt).
  apply (sorted_lt _ (length ss - 1) (length ss) (last_slot_key ss, v0) (k, v) Hs); [| |lia].
  - rewrite lookup_app_l by (rewrite length_map; lia). by rewrite list_lookup_fmap, Hlast.
  - apply list_lookup_middle. by rewrite length_map.
Qed.

Lemma chained_snoc ss s k v :
  chained ss -> (s <= length k)%nat -> (s <= length (last_slot_key ss))%nat ->
  take s (last_slot_key ss) = take s k -> chained (ss ++ [(s, (k, v))]).
Proof.
  intros [Hf Hn] H1 H2 H3. split.
  - intros s' e. destruct ss as [|a ss]; simpl; [intros [= <- <-]; unfold last_slot_key in H2; simpl in H2; lia|].
    apply Hf.
  - intros i s1 e1 s2 e2 Ha Hb. destruct (decide (S i < length ss)%nat) as [Hlt|Hge].
    + rewrite lookup_app_l in Ha, Hb by lia. by eapply Hn.
    + pose proof (lookup_lt_Some _ _ _ Hb) as Hlen. rewrite length_app in Hlen. simpl in Hlen.
      assert (i = length ss - 1)%nat as -> by lia. assert (ss <> []) as Hne by (intros ->; simpl in *; lia).
      rewrite lookup_app_l in Ha by lia. destruct (last_slot_lookup ss Hne) as (s0 & v0 & E). rewrite E in Ha.
      rewrite lookup_app_r in Hb by lia. replace (S (length ss - 1) - length ss)%nat with O in Hb by lia.
      by injection Ha as <- <-; injection Hb as <- <-.
Qed.

(** The restart points after an entry. *)
Lemma restarts_snoc ss rs s e :
  Forall (fun r => r <= length ss)%nat rs -> map (offset (ss ++ [(s, e)])) rs = map (offset ss) rs.
Proof.
  intros Hr. apply map_ext_in. intros r Hin. apply offset_snoc. rewrite Forall_forall in Hr. apply Hr. by apply list_elem_of_In.
Qed.

(** A builder with one more slot; with a restart point there when it shares
    nothing. *)
Lemma built_snoc b ss rs s k v counter (restart : bool) :
  built b ss rs -> (s <= length k)%nat -> (s <= length (last_slot_key ss))%nat ->
  take s (last_slot_key ss) = take s k -> 0 < counter <= interval ->
  (restart = true -> s = O /\ ss <> []) ->
  built (BlockBuilder.mkBuilder (enc_slots (ss ++ [(s, (k, v))]))
           (BlockBuilder.restarts_ b ++ (if restart then [offset ss (length ss)] else [])) counter false k)
    (ss ++ [(s, (k, v))]) (rs ++ (if restart then [length ss] else [])).
Proof.
  intros B H1 H2 H3 Hc Hr. pose proof (lookup_lt_Some _ _ _ (bu_first _ _ _ B)) as Hl.
  assert (length (ss ++ [(s, (k, v))]) = S (length ss)) as Hlen by (rewrite length_app; simpl; lia).
  assert (forall j r, (rs ++ (if restart then [length ss] else [])) !! j = Some r ->
    rs !! j = Some r \/ (restart = true /\ j = length rs /\ r = length ss)) as Hlook.
  { intros j r Hj. destruct (decide (j < length rs)%nat) as [Hlt|Hge]; [rewrite lookup_app_l in Hj by done; by left|].
    rewrite lookup_app_r in Hj by lia. destruct restart; [|done]. destruct (j - length rs)%nat as [|m] eqn:E; [|by destruct m].
    simpl in Hj. injection Hj as <-. right. repeat split; lia. }
  split; simpl; try done; try lia.
  - rewrite map_app, (restarts_snoc ss rs s (k, v)), <- (bu_restarts _ _ _ B).
    + destruct restart; [simpl; by rewrite offset_snoc|done].
    + apply Forall_lookup. intros j r Hj. pose proof (bu_within _ _ _ B j r Hj). lia.
  - unfold last_slot_key. by rewrite last_snoc.
  - intros E. by destruct ss.
  - rewrite lookup_app_l by done. by apply (bu_first _ _ _ B).
  - intros j r r' Ha Hb. destruct (Hlook _ _ Hb) as [Hb'|(Er & Ej & ->)].
    + destruct (Hlook _ _ Ha) as [Ha'|(_ & -> & _)]; [by eapply (bu_incr _ _ _ B)|apply lookup_lt_Some in Hb'; lia].
    + destruct (Hlook _ _ Ha) as [Ha'|(_ & -> & _)]; [|lia]. pose proof (bu_within _ _ _ B _ _ Ha').
      destruct (Hr Er) as [_ Hne]. destruct ss; [done|]. simpl in *. lia.
  - intros j r Hj. destruct (Hlook _ _ Hj) as [Hj'|(Er & _ & ->)].
    + destruct (bu_restart _ _ _ B _ _ Hj') as [e He]. exists e. by apply lookup_app_l_Some.
    + destruct (Hr Er) as [-> _]. exists (k, v). by apply list_lookup_middle.
  - intros j r Hj. rewrite Hlen. destruct (Hlook _ _ Hj) as [Hj'|(_ & _ & ->)]; [|lia].
    pose proof (bu_within _ _ _ B _ _ Hj'). lia.
  - apply chained_snoc; [apply (bu_chained _ _ _ B)|done..].
Qed.

(** Adding an entry after the last key. *)
Lemma Add_built b ss rs k v :
  built b ss rs -> (ss = [] \/ Compare k (last_slot_key ss) = Gt) ->
  str_size (enc_slots ss) < 2 ^ 32 -> str_size k < 2 ^ 32 -> str_size v < 2 ^ 32 ->
  exists b' s rs', BlockBuilder.Add interval b k v = Ret b' /\ built b' (ss ++ [(s, (k, v))]) rs' /\
    (length rs' <= S (length rs))%nat.
Proof.
  intros B Hk Hsz Hks Hvs. unfold BlockBuilder.Add. rewrite (bu_open _ _ _ B), (bu_buffer _ _ _ B), (bu_last _ _ _ B).
  pose proof (bu_counter _ _ _ B) as Hc. destruct (Z.ltb_spec interval (BlockBuilder.counter_ b)); [lia|].
  assert (negb (BlockBuilder.empty b) && negb (match Compare k (last_slot_key ss) with Gt => true | _ => false end) = false) as ->.
  { destruct Hk as [->| ->]; [|by rewrite andb_false_r]. unfold BlockBuilder.empty. by rewrite (bu_buffer _ _ _ B). }
  set (restart := negb (BlockBuilder.counter_ b <? interval)).
  set (s := if restart then O else BlockBuilder.shared_prefix (last_slot_key ss) k).
  assert ((s <= length k)%nat /\ (s <= length (last_slot_key ss))%nat /\ take s (last_slot_key ss) = take s k) as (H1 & H2 & H3).
  { unfold s. destruct restart; [by repeat split; lia|]. destruct (shared_prefix_spec (last_slot_key ss) k) as (? & ? & ?). done. }
  assert ((if BlockBuilder.counter_ b <? interval then (BlockBuilder.shared_prefix (last_slot_key ss) k, BlockBuilder.restarts_ b, BlockBuilder.counter_ b)
     else (O, BlockBuilder.restarts_ b ++ [u32 (str_size (enc_slots ss))], 0)) =
     (s, BlockBuilder.restarts_ b ++ (if restart then [offset ss (length ss)] else []), if restart then 0 else BlockBuilder.counter_ b)) as ->.
  { unfold s, restart. destruct (BlockBuilder.counter_ b <? interval); simpl; [by rewrite app_nil_r|].
    rewrite offset_ge, wrap_small by (try lia; pose proof (str_size_nonneg (enc_slots ss)); lia). done. }
  cbv iota zeta beta. rewrite H3, take_drop, (proj2 (slice_eqb_eq k k) eq_refl).
  assert (restart = true -> BlockBuilder.counter_ b = interval) as Hr.
  { unfold restart. destruct (Z.ltb_spec (BlockBuilder.counter_ b) interval); [done|lia]. }
  assert (0 < (if restart then 0 else BlockBuilder.counter_ b) + 1 <= interval) as Hc'.
  { unfold restart. destruct (Z.ltb_spec (BlockBuilder.counter_ b) interval); simpl; lia. }
  rewrite int_check_ok by (unfold INT_MIN, INT_MAX in *; lia). cbn [mbind result_bind].
  eexists _, s, _. split; [reflexivity|]. split; [|instantiate (1 := rs ++ (if restart then [length ss] else []));
    rewrite length_app; destruct restart; simpl; lia].
  assert (PutVarint32 (PutVarint32 (PutVarint32 (enc_slots ss) (u32 (Z.of_nat s))) (u32 (Z.of_nat (length k - s)))) (u32 (str_size v))
    ++ drop s k = enc_slots ss ++ EncodeVarint32 (Z.of_nat s) ++ EncodeVarint32 (str_size k - Z.of_nat s) ++ EncodeVarint32 (str_size v) ++ drop s k) as ->.
  { unfold PutVarint32, str_size in *. rewrite !wrap_small by lia. rewrite <- !app_assoc. do 4 f_equal. lia. }
  replace (_ ++ v) with (enc_slots (ss ++ [(s, (k, v))])) by
    (rewrite enc_slots_app; unfold enc_slots at 2; simpl; rewrite app_nil_r, <- !app_assoc; done).
  apply built_snoc; try done. intros Er. split; [unfold s; by rewrite Er|]. intros ->.
  pose proof (bu_empty _ _ _ B eq_refl). pose proof (Hr Er). lia.
Qed.

Lemma Finish_layout b ss rs :
  built b ss rs -> BlockBuilder.CurrentSizeEstimate b < 2 ^ 32 -> layout (snd (BlockBuilder.Finish b)) ss rs.
Proof.
  intros B Hsz. unfold BlockBuilder.CurrentSizeEstimate in Hsz. rewrite (bu_buffer _ _ _ B), (bu_restarts _ _ _ B), length_map in Hsz.
  pose proof (str_size_nonneg (enc_slots ss)).
  assert (snd (BlockBuilder.Finish b) = enc_slots ss ++ enc_restarts ss rs ++ EncodeFixed32 (Z.of_nat (length rs))) as E.
  { unfold BlockBuilder.Finish. simpl. rewrite (bu_buffer _ _ _ B), (bu_restarts _ _ _ B), foldl_PutFixed32, length_map.
    rewrite wrap_small by lia. unfold PutFixed32. by rewrite <- app_assoc. }
  split; [done| |apply B|apply B|apply B|apply B].
  rewrite E, !str_size_app. unfold str_size in *. rewrite enc_restarts_length, length_EncodeFixed32. lia.
Qed.

(** The bytes a block needs at most for its entries: three varints and a restart
    offset each; eight more bytes hold what every block has. *)
Definition block_room (es : list entry) : Z :=
  foldr (fun e room => 19 + str_size (fst e) + str_size (snd e) + room) 0 es.

Lemma block_room_ge es : 0 <= block_room es.
Proof.
  induction es as [|e es IH]; simpl; [lia|]. pose proof (str_size_nonneg (fst e)). pose proof (str_size_nonneg (snd e)). lia.
Qed.

Lemma enc_slot_size s k v : str_size (enc_slot (s, (k, v))) <= 15 + str_size k + str_size v.
Proof.
  unfold enc_slot. rewrite !str_size_app. unfold str_size. rewrite length_drop.
  pose proof (varint32_length_le (Z.of_nat s)). pose proof (varint32_length_le (Z.of_nat (length k) - Z.of_nat s)).
  pose proof (varint32_length_le (Z.of_nat (length v))). lia.
Qed.

(** Adding a sorted list of entries to a builder. *)
Lemma Adds_built es b ss rs :
  built b ss rs -> keys_sorted (map snd ss ++ es) ->
  BlockBuilder.CurrentSizeEstimate b + block_room es < 2 ^ 32 ->
  exists b' ss' rs', foldR (fun b e => BlockBuilder.Add interval b (fst e) (snd e)) b es = Ret b' /\
    built b' (ss ++ ss') rs' /\ map snd ss' = es /\ BlockBuilder.CurrentSizeEstimate b' < 2 ^ 32.
Proof.
  revert b ss rs. induction es as [|[k v] es IH]; intros b ss rs B Hs Hsz.
  - exists b, [], rs. rewrite app_nil_r. simpl in Hsz. split; [done|]. split; [done|]. split; [done|lia].
  - cbn [block_room foldr fst snd] in Hsz. fold (block_room es) in Hsz. pose proof (block_room_ge es).
    pose proof (str_size_nonneg k). pose proof (str_size_nonneg v). pose proof (str_size_nonneg (enc_slots ss)).
    assert (BlockBuilder.CurrentSizeEstimate b = str_size (enc_slots ss) + Z.of_nat (length rs) * 4 + 4) as Ec.
    { unfold BlockBuilder.CurrentSizeEstimate. by rewrite (bu_buffer _ _ _ B), (bu_restarts _ _ _ B), length_map. }
    destruct (Add_built b ss rs k v B (last_slot_lt _ _ _ _ Hs)) as (b1 & s & rs1 & Ha & B1 & Hl1); [lia..|].
    assert (BlockBuilder.CurrentSizeEstimate b1 <= BlockBuilder.CurrentSizeEstimate b + 19 + str_size k + str_size v) as Hle.
    { unfold BlockBuilder.CurrentSizeEstimate at 1. rewrite (bu_buffer _ _ _ B1), (bu_restarts _ _ _ B1), length_map.
      rewrite enc_slots_app, str_size_app. unfold enc_slots at 2. cbn [map concat]. rewrite app_nil_r.
      pose proof (enc_slot_size s k v). lia. }
    destruct (IH b1 (ss ++ [(s, (k, v))]) rs1 B1) as (b2 & ss2 & rs2 & Hf & B2 & Hm & Hsz2);
      [by rewrite map_app, <- app_assoc|lia|].
    exists b2, ((s, (k, v)) :: ss2), rs2. cbn [foldR fst snd]. rewrite Ha. cbn [mbind result_bind].
    rewrite <- app_assoc in B2. split; [done|]. split; [done|]. split; [by simpl; rewrite Hm|done].
Qed.

(** Building a block from its entries, as the users of [BlockBuilder] do. *)
Definition build_block (es : list entry) : result str :=
  b ← BlockBuilder.make interval;
  b ← foldR (fun b e => BlockBuilder.Add interval b (fst e) (snd e)) b es;
  Ret (snd (BlockBuilder.Finish b)).

Lemma build_block_ok es :
  keys_sorted es -> block_room es + 8 < 2 ^ 32 ->
  exists data ss rs, build_block es = Ret data /\ layout data ss rs /\ map snd ss = es.
Proof.
  intros Hs Hr. unfold build_block, BlockBuilder.make. destruct (Z.leb_spec 1 interval); [|lia]. cbn [mbind result_bind].
  destruct (Adds_built es BlockBuilder.fresh [] [O] built_fresh) as (b & ss & rs & -> & B & Hm & Hsz); [done| |].
  { change (BlockBuilder.CurrentSizeEstimate BlockBuilder.fresh) with 8. lia. }
  cbn [mbind result_bind]. do 3 eexists. split; [done|]. split; [by apply Finish_layout|done].
Qed.

End build.

(** ** Theorems *)

Section theorems.
Context `{HC : !ComparatorLaws C} (interval : Z).

(** What a [BlockBuilder] was given in increasing key order comes back from
    the iterator of the block it finishes, for every restart interval: a scan from
    the first entry yields exactly the entries added and ends with the status OK,
    and a scan started from the last entry with [Prev] passes them in reverse. *)
Theorem block_roundtrip es :
  1 <= interval <= INT_MAX -> keys_sorted es -> block_room es + 8 < 2 ^ 32 ->
  exists data it it', build_block interval es = Ret data /\ Block.NewIterator (Block.make data) = Ret it /\
    scan_all (length es) it = Ret (es, it') /\ it_status it' = Status.OK /\
    (exists last, it_SeekToLast it' = Ret last /\ scan_back (length es) last = Ret (rev es)).
Proof.
  intros Hi Hs Hr. destruct (build_block_ok interval Hi es Hs Hr) as (data & ss & rs & Hb & L & Hm).
  destruct (NewIterator_layout C data ss rs L) as (it & Hn & Hat). rewrite Hm in Hat.
  destruct (scan_all_at (length es) it es (length ss) Hat ltac:(lia)) as (it' & Hsc & Hat').
  exists data, it, it'. split; [done|]. split; [done|]. split; [done|]. split; [by eapply at_status|].
  destruct (at_last _ _ _ Hat') as (last & Hl & Hatl). exists last. split; [done|]. by apply scan_back_at.
Qed.

(** [Seek] on a block stops at the first entry whose key is not before the
    target, wherever the iterator stood: it is valid exactly when there is such an
    entry, and then gives its key and value. *)
Theorem block_seek es data it i target :
  1 <= interval <= INT_MAX -> keys_sorted es -> block_room es + 8 < 2 ^ 32 ->
  build_block interval es = Ret data -> Block.NewIterator (Block.make data) = Ret it ->
  (i <= length es)%nat ->
  exists it1 it2, forward i it = Ret it1 /\ it_Seek it1 target = Ret it2 /\
    match es !! seek_pos target es with
    | Some (k, v) => it_Valid it2 = true /\ it_key it2 = Ret k /\ it_value it2 = Ret v /\ Compare k target <> Lt
    | None => it_Valid it2 = false /\ Forall (fun e => Compare (fst e) target = Lt) es
    end.
Proof.
  intros Hi Hs Hr Hb Hn Hle. destruct (build_block_ok interval Hi es Hs Hr) as (data' & ss & rs & Hb' & L & Hm).
  destruct (NewIterator_layout C data' ss rs L) as (it' & Hn' & Hat). rewrite Hm in Hat.
  replace data' with data in * by congruence. replace it' with it in * by congruence.
  destruct (forward_at i it es _ Hat Hle) as (it1 & Hf & Hat1).
  destruct (at_seek it1 es i target Hat1 Hs) as (it2 & Hsk & Hat2). exists it1, it2. split; [done|]. split; [done|].
  rewrite (at_valid _ _ _ Hat2). destruct (es !! seek_pos target es) as [[k v]|] eqn:He.
  - destruct (at_entry _ _ _ _ _ Hat2 He) as [-> ->]. pose proof (lookup_lt_Some _ _ _ He) as Hlt.
    split; [by apply Nat.ltb_lt|]. split; [done|]. split; [done|]. by apply (seek_pos_at target es (k, v)).
  - apply lookup_ge_None in He. split; [by apply Nat.ltb_ge|]. apply Forall_lookup. intros j e Hj.
    apply (seek_pos_before target es j e Hj). apply lookup_lt_Some in Hj. lia.
Qed.

End theorems.

(** *** Witnesses *)

(** Five entries with shared prefixes, a restart point every second entry. *)
Definition demo_entries : list entry :=
  [($"apple", $"1"); ($"apply", $"two"); ($"banana", $""); ($"bandana", $"4"); ($"cherry", $"five")].

Lemma demo_sorted : keys_sorted demo_entries.
Proof. repeat constructor. Qed.

Lemma block_roundtrip_witness :
  exists data it it', build_block 2 demo_entries = Ret data /\ Block.NewIterator (Block.make data) = Ret it /\
    scan_all 5 it = Ret (demo_entries, it') /\ it_status it' = Status.OK /\
    (exists last, it_SeekToLast it' = Ret last /\ scan_back 5 last = Ret (rev demo_entries)).
Proof. apply (block_roundtrip 2 demo_entries); [unfold INT_MAX; lia|apply demo_sorted|vm_compute; done]. Defined.

Definition demo_block : str := match build_block 2 demo_entries with Ret d => d | _ => [] end.
Definition demo_iter : Block.BlockIterator :=
  match Block.NewIterator (Block.make demo_block) with Ret it => it | _ => inl EmptyIterator.NewEmptyIterator end.

Lemma block_seek_witness :
  exists it1 it2, forward 4 demo_iter = Ret it1 /\ it_Seek it1 ($"band") = Ret it2 /\
    match demo_entries !! seek_pos ($"band") demo_entries with
    | Some (k, v) => it_Valid it2 = true /\ it_key it2 = Ret k /\ it_value it2 = Ret v /\ Compare k ($"band") <> Lt
    | None => it_Valid it2 = false /\ Forall (fun e => Compare (fst e) ($"band") = Lt) demo_entries
    end.
Proof.
  apply (block_seek 2 demo_entries demo_block demo_iter);
    [unfold INT_MAX; lia|apply demo_sorted|vm_compute; done|vm_compute; done|vm_compute; done|simpl; lia].
Defined.
