(* ===== verification/TwoLevelIterator.v ===== *)
(** * leveldb: iterators over two levels

    [table/iterator_wrapper.h] and [table/two_level_iterator.cc]: an index iterator
    whose values are handles, and the iterator of the block a handle stands for.
    The block function may change its argument (a table's block cache), which is
    therefore part of the iterator's state. *)

From Stdlib Require Import ZArith Lia.
From S2P Require Import Prelude CString SliceStatus DbFormat Iterators.

(** ** table/iterator_wrapper.h *)

Module IteratorWrapper.

Section wrapper.
Context {I : Type} `{IT : !Iterator I}.

(** [iter_] may be [nullptr]; [valid_] and [key_] cache its answers. *)
Record IteratorWrapper := mkWrapper { iter_ : option I; valid_ : bool; key_ : str }.

Definition Update (w : IteratorWrapper) : result IteratorWrapper :=
  match iter_ w with
  | None => Crash AssertFailed
  | Some it =>
      if it_Valid it then k ← it_key it; Ret (mkWrapper (Some it) true k)
      else Ret (mkWrapper (Some it) false (key_ w))
  end.

Definition Set_ (w : IteratorWrapper) (iter : option I) : result IteratorWrapper :=
  match iter with
  | None => Ret (mkWrapper None false (key_ w))
  | Some it => Update (mkWrapper (Some it) (valid_ w) (key_ w))
  end.

Definition make (iter : option I) : result IteratorWrapper := Set_ (mkWrapper None false []) iter.

Definition Valid (w : IteratorWrapper) : bool := valid_ w.

Definition key (w : IteratorWrapper) : result str := if valid_ w then Ret (key_ w) else Crash AssertFailed.

Definition value (w : IteratorWrapper) : result str :=
  if valid_ w then match iter_ w with Some it => it_value it | None => Crash AssertFailed end
  else Crash AssertFailed.

Definition status (w : IteratorWrapper) : result Status.Status :=
  match iter_ w with Some it => Ret (it_status it) | None => Crash AssertFailed end.

(** An operation of the wrapped iterator, followed by [Update()]. *)
Definition step (op : I -> result I) (w : IteratorWrapper) : result IteratorWrapper :=
  match iter_ w with
  | None => Crash AssertFailed
  | Some it => it ← op it; Update (mkWrapper (Some it) (valid_ w) (key_ w))
  end.

Definition Next (w : IteratorWrapper) : result IteratorWrapper := step it_Next w.
Definition Prev (w : IteratorWrapper) : result IteratorWrapper := step it_Prev w.
Definition Seek (w : IteratorWrapper) (k : str) : result IteratorWrapper := step (fun it => it_Seek it k) w.
Definition SeekToFirst (w : IteratorWrapper) : result IteratorWrapper := step it_SeekToFirst w.
Definition SeekToLast (w : IteratorWrapper) : result IteratorWrapper := step it_SeekToLast w.

End wrapper.
Arguments IteratorWrapper I : clear implicits.
End IteratorWrapper.

(** ** table/two_level_iterator.cc *)

(** The block function: the iterator of the block a handle stands for, and the
    argument after the call.  [block_fuel] bounds the number of index entries the
    loops over blocks pass. *)
Class BlockFunction (A D : Type) := {
  block_function : A -> str -> result (D * A);
  block_fuel : A -> nat
}.

Module TwoLevelIterator.

Section two.
Context {I D A : Type} `{ITI : !Iterator I, ITD : !Iterator D, BF : !BlockFunction A D}.

Record TwoLevelIterator := mkTwo {
  arg_ : A;
  status_ : Status.Status;
  index_iter_ : IteratorWrapper.IteratorWrapper I;
  data_iter_ : IteratorWrapper.IteratorWrapper D;
  data_block_handle_ : str
}.

(** [NewTwoLevelIterator] *)
Definition make (index_iter : I) (arg : A) : result TwoLevelIterator :=
  index ← IteratorWrapper.make (Some index_iter);
  data ← IteratorWrapper.make None;
  Ret (mkTwo arg Status.OK index data []).

Definition Valid (it : TwoLevelIterator) : bool := IteratorWrapper.Valid (data_iter_ it).

Definition key (it : TwoLevelIterator) : result str :=
  if Valid it then IteratorWrapper.key (data_iter_ it) else Crash AssertFailed.

Definition value (it : TwoLevelIterator) : result str :=
  if Valid it then IteratorWrapper.value (data_iter_ it) else Crash AssertFailed.

(** The index iterator is never [nullptr]. *)
Definition status (it : TwoLevelIterator) : Status.Status :=
  match IteratorWrapper.iter_ (index_iter_ it) with
  | Some index =>
      if negb (Status.ok (it_status index)) then it_status index
      else
        match IteratorWrapper.iter_ (data_iter_ it) with
        | Some data => if negb (Status.ok (it_status data)) then it_status data else status_ it
        | None => status_ it
        end
  | None => status_ it
  end.

Definition SaveError (it : TwoLevelIterator) (s : Status.Status) : TwoLevelIterator :=
  if Status.ok (status_ it) && negb (Status.ok s)
  then mkTwo (arg_ it) s (index_iter_ it) (data_iter_ it) (data_block_handle_ it)
  else it.

Definition set_index (it : TwoLevelIterator) (w : IteratorWrapper.IteratorWrapper I) : TwoLevelIterator :=
  mkTwo (arg_ it) (status_ it) w (data_iter_ it) (data_block_handle_ it).
Definition set_data (it : TwoLevelIterator) (w : IteratorWrapper.IteratorWrapper D) : TwoLevelIterator :=
  mkTwo (arg_ it) (status_ it) (index_iter_ it) w (data_block_handle_ it).

Definition SetDataIterator (it : TwoLevelIterator) (data_iter : option D) : result TwoLevelIterator :=
  let it := match IteratorWrapper.iter_ (data_iter_ it) with
            | Some d => SaveError it (it_status d)
            | None => it
            end in
  w ← IteratorWrapper.Set_ (data_iter_ it) data_iter;
  Ret (set_data it w).

Definition has_data (it : TwoLevelIterator) : bool :=
  match IteratorWrapper.iter_ (data_iter_ it) with Some _ => true | None => false end.

Definition InitDataBlock (it : TwoLevelIterator) : result TwoLevelIterator :=
  if negb (IteratorWrapper.Valid (index_iter_ it)) then SetDataIterator it None
  else
    handle ← IteratorWrapper.value (index_iter_ it);
    if has_data it && (match Slice.compare handle (data_block_handle_ it) with Eq => true | _ => false end)
    then Ret it
    else
      q ← block_function (arg_ it) handle;
      let '(iter, arg) := (q : D * A) in
      SetDataIterator (mkTwo arg (status_ it) (index_iter_ it) (data_iter_ it) handle) (Some iter).

(** [if (data_iter_.iter() != nullptr) data_iter_.op()] *)
Definition on_data (op : D -> result D) (it : TwoLevelIterator) : result TwoLevelIterator :=
  if has_data it then w ← IteratorWrapper.step op (data_iter_ it); Ret (set_data it w) else Ret it.

(** [index_iter_.op()] *)
Definition on_index (op : I -> result I) (it : TwoLevelIterator) : result TwoLevelIterator :=
  w ← IteratorWrapper.step op (index_iter_ it); Ret (set_index it w).

(** The loops of [SkipEmptyDataBlocksForward] and [SkipEmptyDataBlocksBackward];
    an iterator that is null is not valid. *)
Fixpoint skip (fuel : nat) (move : I -> result I) (enter : D -> result D) (it : TwoLevelIterator) : result TwoLevelIterator :=
  if negb (has_data it) || negb (IteratorWrapper.Valid (data_iter_ it)) then
    if negb (IteratorWrapper.Valid (index_iter_ it)) then SetDataIterator it None
    else
      match fuel with
      | O => Crash OutOfFuel
      | S f =>
          it ← on_index move it;
          it ← InitDataBlock it;
          it ← on_data enter it;
          skip f move enter it
      end
  else Ret it.

Definition SkipEmptyDataBlocksForward (it : TwoLevelIterator) : result TwoLevelIterator :=
  skip (block_fuel (arg_ it)) it_Next it_SeekToFirst it.

Definition SkipEmptyDataBlocksBackward (it : TwoLevelIterator) : result TwoLevelIterator :=
  skip (block_fuel (arg_ it)) it_Prev it_SeekToLast it.

Definition Seek (it : TwoLevelIterator) (target : str) : result TwoLevelIterator :=
  it ← on_index (fun i => it_Seek i target) it;
  it ← InitDataBlock it;
  it ← on_data (fun d => it_Seek d target) it;
  SkipEmptyDataBlocksForward it.

Definition SeekToFirst (it : TwoLevelIterator) : result TwoLevelIterator :=
  it ← on_index it_SeekToFirst it;
  it ← InitDataBlock it;
  it ← on_data it_SeekToFirst it;
  SkipEmptyDataBlocksForward it.

Definition SeekToLast (it : TwoLevelIterator) : result TwoLevelIterator :=
  it ← on_index it_SeekToLast it;
  it ← InitDataBlock it;
  it ← on_data it_SeekToLast it;
  SkipEmptyDataBlocksBackward it.

Definition Next (it : TwoLevelIterator) : result TwoLevelIterator :=
  if Valid it then
    w ← IteratorWrapper.Next (data_iter_ it);
    SkipEmptyDataBlocksForward (set_data it w)
  else Crash AssertFailed.

Definition Prev (it : TwoLevelIterator) : result TwoLevelIterator :=
  if Valid it then
    w ← IteratorWrapper.Prev (data_iter_ it);
    SkipEmptyDataBlocksBackward (set_data it w)
  else Crash AssertFailed.

End two.
Arguments TwoLevelIterator I D A : clear implicits.

(** The two-level iterator through the virtual functions of [Iterator]. *)
#[global] Instance TwoLevelIterator_ops {I D A} `{ITI : !Iterator I, ITD : !Iterator D, BF : !BlockFunction A D} :
    Iterator (TwoLevelIterator I D A) := {
  it_Valid := Valid;
  it_key := key;
  it_value := value;
  it_status := status;
  it_SeekToFirst := SeekToFirst;
  it_SeekToLast := SeekToLast;
  it_Seek := Seek;
  it_Next := Next;
  it_Prev := Prev
}.

End TwoLevelIterator.

(** ** What a two-level iterator ranges over *)

(** [denotes a h es]: the handle [h] stands for a block with the entries [es];
    loading blocks does not change what handles stand for. *)
Class BlockFunctionLaws {A D : Type} {ITD : Iterator D} (LD : IteratorLaws ITD) (BF : BlockFunction A D) := {
  denotes : A -> str -> list entry -> Prop;
  bf_load a h es : denotes a h es ->
    exists d a' p, block_function a h = Ret (d, a') /\ it_at d es p /\ block_fuel a' = block_fuel a /\
      (forall h' es', denotes a h' es' -> denotes a' h' es')
}.

(** A wrapper around an iterator that stands at [p], its caches up to date. *)
Record wrapped {I : Type} `{LI : !IteratorLaws IT} (w : IteratorWrapper.IteratorWrapper I) (es : list entry) (p : nat) : Prop := {
  wr_iter : exists it, IteratorWrapper.iter_ w = Some it /\ it_at it es p;
  wr_valid : IteratorWrapper.valid_ w = (p <? length es)%nat;
  wr_key e : es !! p = Some e -> IteratorWrapper.key_ w = fst e
}.

Section wrapper_lemmas.
Context {I : Type} {IT : Iterator I} {LI : IteratorLaws IT}.
Implicit Types (w : IteratorWrapper.IteratorWrapper I).

Lemma Update_wrapped it v k es p :
  it_at it es p -> exists w, IteratorWrapper.Update (IteratorWrapper.mkWrapper (Some it) v k) = Ret w /\ wrapped w es p.
Proof.
  intros Hat. unfold IteratorWrapper.Update. cbn [IteratorWrapper.iter_]. rewrite (at_valid _ _ _ Hat).
  destruct (Nat.ltb_spec p (length es)) as [Hp|Hp].
  - destruct (lookup_lt_is_Some_2 es p Hp) as [[k' v'] He]. destruct (at_entry _ _ _ _ _ Hat He) as [-> _].
    eexists. split; [done|]. split; [by exists it|cbn; symmetry; by apply Nat.ltb_lt|].
    intros e He'. rewrite He in He'. by injection He' as <-.
  - eexists. split; [done|]. split; [by exists it|cbn; symmetry; by apply Nat.ltb_ge|].
    intros e He. apply lookup_lt_Some in He. lia.
Qed.

(** An operation of the iterator lifts to its wrapper. *)
Lemma step_wrapped (op : I -> result I) w es p q :
  (forall it, it_at it es p -> exists it', op it = Ret it' /\ it_at it' es q) ->
  wrapped w es p -> exists w', IteratorWrapper.step op w = Ret w' /\ wrapped w' es q.
Proof.
  intros Hop [(it & Hi & Hat) _ _]. unfold IteratorWrapper.step. rewrite Hi.
  destruct (Hop it Hat) as (it' & -> & Hat'). cbn [mbind result_bind]. by apply Update_wrapped.
Qed.

Lemma wrapped_value w es p k v : wrapped w es p -> es !! p = Some (k, v) ->
  IteratorWrapper.key w = Ret k /\ IteratorWrapper.value w = Ret v.
Proof.
  intros [(it & Hi & Hat) Hv Hk] He. unfold IteratorWrapper.key, IteratorWrapper.value. rewrite Hv, Hi, (Hk _ He).
  pose proof (lookup_lt_Some _ _ _ He) as Hlt. apply Nat.ltb_lt in Hlt. rewrite Hlt.
  by destruct (at_entry _ _ _ _ _ Hat He) as [_ ->].
Qed.

Lemma wrapped_status w es p : wrapped w es p -> exists it, IteratorWrapper.iter_ w = Some it /\ it_status it = Status.OK.
Proof. intros [(it & Hi & Hat) _ _]. exists it. split; [done|]. by eapply at_status. Qed.

End wrapper_lemmas.

Section two_laws.
Context {I D A : Type} {ITI : Iterator I} {ITD : Iterator D} {BF : BlockFunction A D}.
Context {LI : IteratorLaws ITI} {LD : IteratorLaws ITD} {BL : BlockFunctionLaws LD BF}.
Implicit Types (it : TwoLevelIterator.TwoLevelIterator I D A).
Import TwoLevelIterator.

Section walk2.
Context (blk : str -> list entry) (ies : list entry).

(** The entries of the blocks the index entries stand for. *)
Definition block_of (e : entry) : list entry := blk (snd e).
Definition all_of (l : list entry) : list entry := concat (map block_of l).
Definition pos (j : nat) : nat := length (all_of (take j ies)).

(** The index iterator stands at [j]; a data iterator, if any, ranges over the
    block of its handle; nothing went wrong. *)
Record core it (j : nat) : Prop := {
  co_index : wrapped (index_iter_ it) ies j;
  co_status : status_ it = Status.OK;
  co_denotes e : e ∈ ies -> denotes (arg_ it) (snd e) (block_of e);
  co_fuel : (length ies < block_fuel (arg_ it))%nat;
  co_data : has_data it = true -> exists p, wrapped (data_iter_ it) (blk (data_block_handle_ it)) p
}.

(** The data iterator stands at [p] in the block of the index entry [j]. *)
Definition in_block it (j p : nat) : Prop :=
  core it j /\ has_data it = true /\
  exists e, ies !! j = Some e /\ data_block_handle_ it = snd e /\ wrapped (data_iter_ it) (block_of e) p.

(** After the last block. *)
Definition ended it : Prop := core it (length ies) /\ has_data it = false /\ IteratorWrapper.valid_ (data_iter_ it) = false.

Lemma pos_S j e : ies !! j = Some e -> pos (S j) = (pos j + length (block_of e))%nat.
Proof.
  intros He. unfold pos, all_of. rewrite (take_S_r _ _ _ He), map_app, concat_app, length_app. simpl. by rewrite app_nil_r.
Qed.

Lemma pos_all : pos (length ies) = length (all_of ies).
Proof. unfold pos. by rewrite take_ge. Qed.

Lemma pos_le j : (pos j <= length (all_of ies))%nat.
Proof.
  unfold pos, all_of. rewrite <- (take_drop j ies) at 2. rewrite map_app, concat_app, length_app. lia.
Qed.

(** The entry at a position of a block. *)
Lemma all_of_lookup j e p : ies !! j = Some e -> (p < length (block_of e))%nat -> all_of ies !! (pos j + p)%nat = block_of e !! p.
Proof.
  intros He Hp. unfold all_of. rewrite <- (take_drop j ies) at 1. rewrite map_app, concat_app.
  rewrite lookup_app_r by (unfold pos, all_of; lia). replace (_ - _)%nat with p by (unfold pos, all_of; lia).
  rewrite (drop_S _ _ _ He). cbn [map concat]. by apply lookup_app_l.
Qed.

Lemma core_le it j : core it j -> (j <= length ies)%nat.
Proof. intros [[(w & _ & Hat) _ _] _ _ _ _]. exact (at_le _ _ _ Hat). Qed.

(** Moving the index iterator. *)
Lemma on_index_core (op : I -> result I) it j j' :
  (forall x, it_at x ies j -> exists x', op x = Ret x' /\ it_at x' ies j') ->
  core it j -> exists it', on_index op it = Ret it' /\ core it' j'.
Proof.
  intros Hop [Hi Hs Hd Hf Hdata]. unfold on_index. destruct (step_wrapped op _ _ _ _ Hop Hi) as (w & -> & Hw).
  cbn [mbind result_bind]. eexists. split; [done|]. by split.
Qed.

Lemma SetDataIterator_eq it x :
  (has_data it = true -> exists es p, wrapped (data_iter_ it) es p) ->
  SetDataIterator it x = w ← IteratorWrapper.Set_ (data_iter_ it) x; Ret (set_data it w).
Proof.
  intros Hd. unfold SetDataIterator, has_data in *. destruct (IteratorWrapper.iter_ (data_iter_ it)) as [d|] eqn:E; [|done].
  destruct (Hd eq_refl) as (es & p & Hw). destruct (wrapped_status _ _ _ Hw) as (d' & Hi & Hst). rewrite E in Hi.
  injection Hi as <-. unfold SaveError. rewrite Hst. by rewrite andb_false_r.
Qed.

Lemma SetDataIterator_null it j : core it j -> (j = length ies)%nat -> exists it', SetDataIterator it None = Ret it' /\ ended it'.
Proof.
  intros [Hi Hs Hd Hf Hdata] ->. rewrite SetDataIterator_eq; [|intros Hh; eexists; by apply Hdata].
  eexists. split; [done|]. split; [|done]. by split.
Qed.

(** Loading the block the index iterator points to. *)
Lemma InitDataBlock_core it j :
  core it j -> exists it', InitDataBlock it = Ret it' /\
    ((j = length ies /\ ended it') \/ exists p, in_block it' j p).
Proof.
  intros Hc. pose proof (core_le _ _ Hc). unfold InitDataBlock. pose proof (co_index _ _ Hc) as Hw.
  unfold IteratorWrapper.Valid. rewrite (wr_valid _ _ _ Hw). destruct (Nat.ltb_spec j (length ies)) as [Hj|Hj]; simpl negb; cbv iota.
  2:{ destruct (SetDataIterator_null it j Hc ltac:(lia)) as (it' & -> & He). exists it'. split; [done|]. left. split; [lia|done]. }
  destruct (lookup_lt_is_Some_2 ies j Hj) as [[k h] He]. destruct (wrapped_value _ _ _ _ _ Hw He) as [_ ->]. cbn [mbind result_bind].
  destruct Hc as [Hi Hs Hd Hf Hdata].
  destruct (has_data it && (match Slice.compare h (data_block_handle_ it) with Eq => true | _ => false end)) eqn:Eh.
  - apply andb_true_iff in Eh as [Hh Hcmp]. destruct (Slice.compare h (data_block_handle_ it)) eqn:Ec; try done.
    rewrite slice_compare_lex in Ec. apply str_compare_eq in Ec. destruct (Hdata Hh) as [p Hp].
    exists it. split; [done|]. right. exists p. split; [by split|]. split; [done|]. exists (k, h). split; [done|].
    unfold block_of. simpl. by rewrite <- Ec in *.
  - destruct (bf_load (arg_ it) h (block_of (k, h))) as (d & a' & p & -> & Hat & Hfu & Hkeep);
      [by apply (Hd (k, h)); eapply list_elem_of_lookup_2|].
    cbn [mbind result_bind]. rewrite SetDataIterator_eq; [|intros Hh; eexists; by apply Hdata].
    cbn [data_iter_ IteratorWrapper.Set_].
    destruct (Update_wrapped d (IteratorWrapper.valid_ (data_iter_ it)) (IteratorWrapper.key_ (data_iter_ it)) _ _ Hat) as (w & -> & Hwd).
    cbn [mbind result_bind]. eexists. split; [done|]. right. exists p.
    assert (has_data (set_data (mkTwo a' (status_ it) (index_iter_ it) (data_iter_ it) h) w) = true) as Hh.
    { unfold has_data. cbn. by destruct (wr_iter _ _ _ Hwd) as (d' & -> & _). }
    split; [|split; [done|by exists (k, h)]]. split; try done.
    + intros e Hin. apply Hkeep. by apply Hd.
    + cbn. by rewrite Hfu.
    + intros _. by exists p.
Qed.

(** Positioning the data iterator. *)
Lemma on_data_block (op : D -> result D) it j p q e :
  (forall x, it_at x (block_of e) p -> exists x', op x = Ret x' /\ it_at x' (block_of e) q) ->
  ies !! j = Some e -> in_block it j p -> exists it', on_data op it = Ret it' /\ in_block it' j q.
Proof.
  intros Hop He (Hc & Hh & e' & He' & Hhd & Hw). rewrite He in He'. injection He' as <-.
  unfold on_data. rewrite Hh. destruct (step_wrapped op _ _ _ _ Hop Hw) as (w & -> & Hw'). cbn [mbind result_bind].
  eexists. split; [done|]. assert (has_data (set_data it w) = true) as Hh'.
  { unfold has_data. cbn. by destruct (wr_iter _ _ _ Hw') as (d' & -> & _). }
  split; [|split; [done|by exists e]]. destruct Hc as [Hi Hs Hd Hf Hdata]. split; try done.
  intros _. exists q. cbn. rewrite Hhd. exact Hw'.
Qed.

Lemma on_data_ended (op : D -> result D) it : ended it -> on_data op it = Ret it.
Proof. intros (_ & Hh & _). unfold on_data. by rewrite Hh. Qed.

Lemma in_block_valid it j p e :
  in_block it j p -> ies !! j = Some e -> IteratorWrapper.valid_ (data_iter_ it) = (p <? length (block_of e))%nat.
Proof. intros (_ & _ & e' & He' & _ & Hw) He. rewrite He in He'. injection He' as <-. apply (wr_valid _ _ _ Hw). Qed.

(** Standing at a position of the whole. *)
Definition at2 it (i : nat) : Prop :=
  (exists j p e, in_block it j p /\ ies !! j = Some e /\ (p < length (block_of e))%nat /\ i = (pos j + p)%nat) \/
  (ended it /\ i = length (all_of ies)).

(** [index_iter_.Next()] etc., then the block, then entering it. *)
Lemma enter_block (move : I -> result I) (enter : D -> result D) it j j' q :
  core it j ->
  (forall x, it_at x ies j -> exists x', move x = Ret x' /\ it_at x' ies j') ->
  (forall e x p, ies !! j' = Some e -> it_at x (block_of e) p -> exists x', enter x = Ret x' /\ it_at x' (block_of e) (q e)) ->
  exists it', (it ← on_index move it; it ← InitDataBlock it; on_data enter it) = Ret it' /\
    ((j' = length ies /\ ended it') \/ exists e, ies !! j' = Some e /\ in_block it' j' (q e)).
Proof.
  intros Hc Hmove Henter. destruct (on_index_core move it j j' Hmove Hc) as (it1 & -> & Hc1). cbn [mbind result_bind].
  destruct (InitDataBlock_core it1 j' Hc1) as (it2 & -> & [[Hj He]|[p Hb]]); cbn [mbind result_bind].
  - exists it2. split; [by apply on_data_ended|by left].
  - pose proof Hb as (_ & _ & e & He & _ & _).
    destruct (on_data_block enter it2 j' p (q e) e) as (it3 & -> & Hb3); [|done|done|].
    + intros x Hx. by apply (Henter e x p).
    + exists it3. split; [done|]. right. by exists e.
Qed.

Lemma skip_ended fuel move enter it : ended it -> exists it', skip fuel move enter it = Ret it' /\ at2 it' (length (all_of ies)).
Proof.
  intros (Hc & Hh & Hv). assert (skip fuel move enter it = SetDataIterator it None) as ->.
  { destruct fuel; cbn [skip]; rewrite Hh; cbn [negb orb]; unfold IteratorWrapper.Valid;
      rewrite (wr_valid _ _ _ (co_index _ _ Hc)), Nat.ltb_irrefl; done. }
  destruct (SetDataIterator_null it _ Hc eq_refl) as (it' & -> & He). exists it'. split; [done|by right].
Qed.

(** Nothing to skip. *)
Lemma skip_here fuel move enter it j p e :
  in_block it j p -> ies !! j = Some e -> (p < length (block_of e))%nat ->
  skip fuel move enter it = Ret it /\ at2 it (pos j + p).
Proof.
  intros Hb He Hp. split; [|left; by exists j, p, e]. pose proof Hb as (_ & Hh & _).
  destruct fuel; cbn [skip]; rewrite Hh; unfold IteratorWrapper.Valid; rewrite (in_block_valid _ _ _ _ Hb He);
    apply Nat.ltb_lt in Hp; by rewrite Hp.
Qed.

(** One turn of a skipping loop. *)
Lemma skip_turn f move enter it j p e :
  in_block it j p -> ies !! j = Some e -> (length (block_of e) <= p)%nat ->
  skip (S f) move enter it = (it ← (it ← on_index move it; it ← InitDataBlock it; on_data enter it); skip f move enter it).
Proof.
  intros Hb He Hp. pose proof Hb as (Hc & Hh & _). cbn [skip]. rewrite Hh. unfold IteratorWrapper.Valid.
  rewrite (in_block_valid _ _ _ _ Hb He), (wr_valid _ _ _ (co_index _ _ Hc)).
  apply Nat.ltb_ge in Hp. rewrite Hp. pose proof (lookup_lt_Some _ _ _ He) as Hj. apply Nat.ltb_lt in Hj. rewrite Hj.
  cbn [negb orb]. destruct (on_index move it) as [it1| |]; [|done|done]. cbn [mbind result_bind].
  destruct (InitDataBlock it1); done.
Qed.

Lemma skip_forward fuel it j p :
  in_block it j p -> (length ies - j <= fuel)%nat ->
  exists it', skip fuel it_Next it_SeekToFirst it = Ret it' /\ at2 it' (pos j + p).
Proof.
  revert it j p. induction fuel as [|f IH]; intros it j p Hb Hf; pose proof Hb as (Hc & _ & e & He & _ & Hw);
    pose proof (lookup_lt_Some _ _ _ He) as Hj; [lia|].
  assert (p <= length (block_of e))%nat as Hple by (destruct (wr_iter _ _ _ Hw) as (x & _ & Hx); exact (at_le _ _ _ Hx)).
  destruct (decide (p < length (block_of e))%nat) as [Hp|Hp].
  { destruct (skip_here (S f) it_Next it_SeekToFirst it j p e Hb He Hp) as [-> Hat]. by exists it. }
  rewrite (skip_turn f _ _ _ j p e Hb He ltac:(lia)).
  assert (pos j + p = pos (S j) + 0)%nat as -> by (rewrite (pos_S _ _ He); lia).
  destruct (enter_block it_Next it_SeekToFirst it j (S j) (fun _ => O) Hc) as (it1 & -> & Hr).
  - intros x Hx. apply (at_next x ies j Hx Hj).
  - intros e' x q _ Hx. apply (at_first x _ q Hx).
  - cbn [mbind result_bind]. destruct Hr as [[HSj He1]|(e1 & He1 & Hb1)].
    + rewrite HSj, pos_all, Nat.add_0_r. by apply skip_ended.
    + apply (IH it1 (S j) O Hb1). lia.
Qed.

(** Backwards, from a data iterator that is not valid: the last entry before the
    block [j], or none. *)
Lemma skip_backward fuel it j p e :
  in_block it j p -> ies !! j = Some e -> (length (block_of e) <= p)%nat -> (j < fuel)%nat ->
  exists it', skip fuel it_Prev it_SeekToLast it = Ret it' /\
    at2 it' (match pos j with O => length (all_of ies) | S i => i end).
Proof.
  revert it j p e. induction fuel as [|f IH]; intros it j p e Hb He Hp Hf; [lia|]. pose proof Hb as (Hc & _).
  pose proof (lookup_lt_Some _ _ _ He) as Hj. rewrite (skip_turn f _ _ _ j p e Hb He Hp).
  destruct (enter_block it_Prev it_SeekToLast it j (match j with O => length ies | S j' => j' end)
              (fun e => length (block_of e) - 1)%nat Hc) as (it1 & -> & Hr).
  - intros x Hx. apply (at_prev x ies j Hx Hj).
  - intros e' x q _ Hx. apply (at_last x _ q Hx).
  - cbn [mbind result_bind]. destruct Hr as [[HSj He1]|(e1 & He1 & Hb1)].
    + destruct j as [|j]; [|lia]. by apply skip_ended.
    + destruct j as [|j]; [rewrite lookup_ge_None_2 in He1 by lia; done|]. rewrite (pos_S _ _ He1).
      destruct (decide (length (block_of e1) = O)) as [E|E].
      * rewrite E, Nat.add_0_r in *. apply (IH it1 j _ e1 Hb1 He1); lia.
      * destruct (skip_here f it_Prev it_SeekToLast it1 j _ e1 Hb1 He1 ltac:(lia)) as [-> Hat].
        exists it1. split; [done|]. destruct (pos j + length (block_of e1))%nat as [|i] eqn:Ei; [lia|].
        by replace i with (pos j + (length (block_of e1) - 1))%nat by lia.
Qed.

Lemma at2_core it i : at2 it i -> exists j, core it j.
Proof. intros [(j & p & e & (Hc & _) & _)|[(Hc & _) _]]; by eexists. Qed.

Lemma at2_le it i : at2 it i -> (i <= length (all_of ies))%nat.
Proof.
  intros [(j & p & e & _ & He & Hp & ->)|[_ ->]]; [|done]. pose proof (pos_S _ _ He). pose proof (pos_le (S j)). lia.
Qed.

Lemma at2_valid it i : at2 it i -> Valid it = (i <? length (all_of ies))%nat.
Proof.
  intros [(j & p & e & Hb & He & Hp & ->)|[(_ & _ & Hv) ->]]; unfold Valid, IteratorWrapper.Valid.
  - rewrite (in_block_valid _ _ _ _ Hb He). pose proof (pos_S _ _ He). pose proof (pos_le (S j)).
    destruct (Nat.ltb_spec p (length (block_of e))), (Nat.ltb_spec (pos j + p) (length (all_of ies))); done || lia.
  - by rewrite Hv, Nat.ltb_irrefl.
Qed.

Lemma at2_entry it i k v : at2 it i -> all_of ies !! i = Some (k, v) -> key it = Ret k /\ value it = Ret v.
Proof.
  intros Hat Hi. pose proof (at2_valid _ _ Hat) as Hv. unfold key, value. rewrite Hv.
  pose proof (lookup_lt_Some _ _ _ Hi) as Hlt. apply Nat.ltb_lt in Hlt as Hb. rewrite Hb.
  destruct Hat as [(j & p & e & (_ & _ & e' & He' & _ & Hw) & He & Hp & ->)|[_ ->]]; [|lia].
  rewrite He in He'. injection He' as <-. rewrite (all_of_lookup j e p He Hp) in Hi. exact (wrapped_value _ _ _ _ _ Hw Hi).
Qed.

Lemma at2_status it i : at2 it i -> status it = Status.OK.
Proof.
  intros Hat. destruct (at2_core _ _ Hat) as [j [Hi Hs _ _ Hdata]]. unfold status.
  destruct (wrapped_status _ _ _ Hi) as (x & -> & ->). simpl. unfold has_data in Hdata.
  destruct (IteratorWrapper.iter_ (data_iter_ it)) as [d|] eqn:Ed; [|done]. destruct (Hdata eq_refl) as [p Hw].
  destruct (wrapped_status _ _ _ Hw) as (d' & Hd' & Hst). rewrite Ed in Hd'. injection Hd' as <-. by rewrite Hst.
Qed.

(** The operations that start from the index: the index iterator moves, the block
    is loaded and entered, and empty blocks are skipped. *)
Lemma reenter (move : I -> result I) (enter : D -> result D) (finish : TwoLevelIterator I D A -> result (TwoLevelIterator I D A)) it :
  (it ← on_index move it; it ← InitDataBlock it; it ← on_data enter it; finish it) =
  (it ← (it ← on_index move it; it ← InitDataBlock it; on_data enter it); finish it).
Proof. destruct (on_index move it) as [it1| |]; [|done|done]. cbn [mbind result_bind]. by destruct (InitDataBlock it1). Qed.

Lemma at2_first it i : at2 it i -> exists it', SeekToFirst it = Ret it' /\ at2 it' 0.
Proof.
  intros Hat. destruct (at2_core _ _ Hat) as [j Hc]. unfold SeekToFirst. rewrite reenter.
  destruct (enter_block it_SeekToFirst it_SeekToFirst it j 0 (fun _ => O) Hc) as (it1 & -> & Hr).
  - intros x Hx. apply (at_first x _ j Hx).
  - intros e x q _ Hx. apply (at_first x _ q Hx).
  - cbn [mbind result_bind]. unfold SkipEmptyDataBlocksForward. destruct Hr as [[Hj He]|(e & He & Hb)].
    + replace 0%nat with (length (all_of ies)) by (rewrite (nil_length_inv ies); done). by apply skip_ended.
    + apply (skip_forward _ it1 0 0 Hb). pose proof Hb as (Hc1 & _). pose proof (co_fuel _ _ Hc1). lia.
Qed.

Lemma at2_last it i : at2 it i -> exists it', SeekToLast it = Ret it' /\ at2 it' (length (all_of ies) - 1).
Proof.
  intros Hat. destruct (at2_core _ _ Hat) as [j Hc]. unfold SeekToLast. rewrite reenter.
  destruct (enter_block it_SeekToLast it_SeekToLast it j (length ies - 1) (fun e => length (block_of e) - 1)%nat Hc) as (it1 & -> & Hr).
  - intros x Hx. apply (at_last x _ j Hx).
  - intros e x q _ Hx. apply (at_last x _ q Hx).
  - cbn [mbind result_bind]. unfold SkipEmptyDataBlocksBackward. destruct Hr as [[Hj He]|(e & He & Hb)].
    + assert (ies = []) as E by (apply nil_length_inv; lia).
      replace (length (all_of ies) - 1)%nat with (length (all_of ies)) by (by rewrite E). by apply skip_ended.
    + pose proof (lookup_lt_Some _ _ _ He). assert (length (all_of ies) = pos (length ies - 1) + length (block_of e))%nat as Et.
      { rewrite <- pos_all, <- (pos_S _ _ He). f_equal. lia. }
      destruct (decide (length (block_of e) = O)) as [E|E].
      * destruct (skip_backward (block_fuel (arg_ it1)) it1 _ _ e Hb He ltac:(lia)) as (it2 & Hs & Hat2).
        { pose proof Hb as (Hc1 & _). pose proof (co_fuel _ _ Hc1). lia. }
        exists it2. split; [done|]. replace (pos (length ies - 1)) with (length (all_of ies)) in Hat2 by lia.
        destruct (length (all_of ies)); simpl; [done|]. by rewrite Nat.sub_0_r.
      * destruct (skip_here (block_fuel (arg_ it1)) it_Prev it_SeekToLast it1 _ _ e Hb He ltac:(lia)) as [Hs Hat2].
        exists it1. split; [done|]. rewrite Et. by replace (pos (length ies - 1) + length (block_of e) - 1)%nat with (pos (length ies - 1) + (length (block_of e) - 1))%nat by lia.
Qed.

(** Moving the data iterator of a block. *)
Lemma data_step (op : D -> result D) it j p q e :
  in_block it j p -> ies !! j = Some e ->
  (forall x, it_at x (block_of e) p -> exists x', op x = Ret x' /\ it_at x' (block_of e) q) ->
  exists w, IteratorWrapper.step op (data_iter_ it) = Ret w /\ in_block (set_data it w) j q.
Proof.
  intros Hb He Hop. destruct (on_data_block op it j p q e Hop He Hb) as (it' & Hd & Hb').
  pose proof Hb as (_ & Hh & _). unfold on_data in Hd. rewrite Hh in Hd.
  destruct (IteratorWrapper.step op (data_iter_ it)) as [w| |]; simplify_eq/=. by exists w.
Qed.

Lemma at2_next it i : at2 it i -> (i < length (all_of ies))%nat -> exists it', Next it = Ret it' /\ at2 it' (S i).
Proof.
  intros Hat Hi. unfold Next. rewrite (at2_valid _ _ Hat). apply Nat.ltb_lt in Hi as Hb. rewrite Hb.
  destruct Hat as [(j & p & e & Hblk & He & Hp & ->)|[_ ->]]; [|lia].
  destruct (data_step it_Next it j p (S p) e Hblk He) as (w & Hw & Hb').
  { intros x Hx. by apply (at_next x _ p). }
  unfold IteratorWrapper.Next. rewrite Hw. cbn [mbind result_bind].
  replace (S (pos j + p)) with (pos j + S p)%nat by lia. apply skip_forward; [done|].
  pose proof Hb' as (Hc & _). pose proof (co_fuel _ _ Hc). lia.
Qed.

Lemma at2_prev it i :
  at2 it i -> (i < length (all_of ies))%nat ->
  exists it', Prev it = Ret it' /\ at2 it' (match i with O => length (all_of ies) | S i' => i' end).
Proof.
  intros Hat Hi. unfold Prev. rewrite (at2_valid _ _ Hat). apply Nat.ltb_lt in Hi as Hb. rewrite Hb.
  destruct Hat as [(j & p & e & Hblk & He & Hp & ->)|[_ ->]]; [|lia].
  destruct (data_step it_Prev it j p (match p with O => length (block_of e) | S p' => p' end) e Hblk He) as (w & Hw & Hb').
  { intros x Hx. by apply (at_prev x _ p). }
  unfold IteratorWrapper.Prev. rewrite Hw. cbn [mbind result_bind]. unfold SkipEmptyDataBlocksBackward.
  pose proof Hb' as (Hc & _). pose proof (co_fuel _ _ Hc). pose proof (lookup_lt_Some _ _ _ He). destruct p as [|p].
  - rewrite Nat.add_0_r. apply (skip_backward _ _ j _ e Hb' He); lia.
  - destruct (skip_here (block_fuel (arg_ (set_data it w))) it_Prev it_SeekToLast _ j p e Hb' He ltac:(lia)) as [-> Hat'].
    eexists. split; [done|]. by replace (pos j + S p)%nat with (S (pos j + p)) by lia.
Qed.

(** *** Seek *)

Section seek2.
Context `{HC : !ComparatorLaws C} {SI : SeekLaws C LI} {SD : SeekLaws C LD}.

(** An index key is at or above the keys of its block and below those of later
    blocks. *)
Definition separated : Prop :=
  forall j e, ies !! j = Some e ->
    (forall x, x ∈ block_of e -> Compare (fst x) (fst e) <> Gt) /\
    (forall j' e' x, (j < j')%nat -> ies !! j' = Some e' -> x ∈ block_of e' -> Compare (fst e) (fst x) = Lt).

Lemma cmp_le_lt a b c : Compare a b <> Gt -> Compare b c = Lt -> Compare a c = Lt.
Proof.
  intros Hab Hbc. destruct (Compare a b) eqn:E; [by rewrite (cmp_eq_l _ _ _ E)|by eapply cmp_trans|done].
Qed.

Lemma block_sorted j e : keys_sorted (all_of ies) -> ies !! j = Some e -> keys_sorted (block_of e).
Proof.
  intros Hs He. unfold all_of in Hs. rewrite <- (take_drop_middle ies j e He), map_app, concat_app in Hs.
  cbn [map concat] in Hs. unfold keys_sorted in *. apply StronglySorted_app in Hs as (_ & _ & Hs).
  by apply StronglySorted_app in Hs as (_ & Hs & _).
Qed.

Lemma elem_all_of l x : x ∈ all_of l -> exists j e, l !! j = Some e /\ x ∈ block_of e.
Proof.
  unfold all_of. induction l as [|a l IH]; cbn [map concat]; [by intros Hx%elem_of_nil|].
  intros [Hx|Hx]%elem_of_app; [by exists O, a|]. destruct (IH Hx) as (j & e & ? & ?). by exists (S j), e.
Qed.

(** Where a target lies: in the block of the first index key not before it. *)
Lemma seek_pos_blocks target :
  separated ->
  seek_pos target (all_of ies) =
    (pos (seek_pos target ies) + match ies !! seek_pos target ies with Some e => seek_pos target (block_of e) | None => O end)%nat.
Proof.
  intros Hsep. set (j := seek_pos target ies). unfold all_of at 1. rewrite <- (take_drop j ies) at 1.
  rewrite map_app, concat_app, seek_pos_app.
  2:{ apply Forall_forall. intros x Hx. apply elem_all_of in Hx as (l & e & Hl & Hx).
      apply lookup_take_Some in Hl as [Hl Hlt]. destruct (Hsep l e Hl) as [Hle _].
      eapply cmp_le_lt; [by apply Hle|]. by apply (seek_pos_before target ies l e Hl). }
  unfold pos, all_of at 1. f_equal. destruct (ies !! j) as [e|] eqn:He; [|by rewrite drop_ge by by apply lookup_ge_None].
  rewrite (drop_S _ _ _ He). cbn [map concat]. apply seek_pos_app_l. apply Forall_forall. intros x Hx Hlt.
  apply elem_all_of in Hx as (l & e' & Hl & Hx). rewrite lookup_drop in Hl. destruct (Hsep j e He) as [_ Hgt].
  apply (seek_pos_at target ies e He). eapply cmp_trans; [|exact Hlt]. by apply (Hgt (S j + l)%nat e'); [lia|..].
Qed.

Lemma at2_seek it i target :
  at2 it i -> keys_sorted ies -> keys_sorted (all_of ies) -> separated ->
  exists it', Seek it target = Ret it' /\ at2 it' (seek_pos target (all_of ies)).
Proof.
  intros Hat Hsi Hsa Hsep. destruct (at2_core _ _ Hat) as [j Hc]. unfold Seek. rewrite reenter.
  destruct (enter_block (fun x => it_Seek x target) (fun x => it_Seek x target) it j (seek_pos target ies)
              (fun e => seek_pos target (block_of e)) Hc) as (it1 & -> & Hr).
  - intros x Hx. by apply (at_seek x ies j target).
  - intros e x q He Hx. apply (at_seek x _ q target); [done|by eapply block_sorted].
  - cbn [mbind result_bind]. unfold SkipEmptyDataBlocksForward. rewrite (seek_pos_blocks target Hsep).
    destruct Hr as [[Hj He]|(e & He & Hb)].
    + rewrite Hj, lookup_ge_None_2, pos_all, Nat.add_0_r by lia. by apply skip_ended.
    + rewrite He. apply skip_forward; [done|]. pose proof Hb as (Hc1 & _). pose proof (co_fuel _ _ Hc1). lia.
Qed.
End seek2.

End walk2.

(** The iterator ranges over the entries of the blocks of its index entries. *)
Definition two_at it (es : list entry) (i : nat) : Prop := exists blk ies, es = all_of blk ies /\ at2 blk ies it i.

#[global] Program Instance TwoLevelIterator_laws : IteratorLaws (TwoLevelIterator_ops (I := I) (D := D) (A := A)) := {
  it_at := two_at
}.
Next Obligation. intros it es i (blk & ies & -> & Hat). by eapply at2_le. Qed.
Next Obligation. intros it es i (blk & ies & -> & Hat). by apply at2_valid. Qed.
Next Obligation. intros it es i k v (blk & ies & -> & Hat) He. by eapply at2_entry. Qed.
Next Obligation. intros it es i (blk & ies & -> & Hat). by eapply at2_status. Qed.
Next Obligation.
  intros it es i (blk & ies & -> & Hat). destruct (at2_first _ _ _ _ Hat) as (it' & Hr & Hat').
  exists it'. split; [done|]. by exists blk, ies.
Qed.
Next Obligation.
  intros it es i (blk & ies & -> & Hat). destruct (at2_last _ _ _ _ Hat) as (it' & Hr & Hat').
  exists it'. split; [done|]. by exists blk, ies.
Qed.
Next Obligation.
  intros it es i (blk & ies & -> & Hat) Hi. destruct (at2_next _ _ _ _ Hat Hi) as (it' & Hr & Hat').
  exists it'. split; [done|]. by exists blk, ies.
Qed.
Next Obligation.
  intros it es i (blk & ies & -> & Hat) Hi. destruct (at2_prev _ _ _ _ Hat Hi) as (it' & Hr & Hat').
  exists it'. split; [done|]. by exists blk, ies.
Qed.

(** A new two-level iterator, not positioned yet. *)
Lemma make_at blk ies index a j :
  it_at index ies (length ies) -> (j = length (all_of blk ies))%nat ->
  (forall e, e ∈ ies -> denotes a (snd e) (block_of blk e)) -> (length ies < block_fuel a)%nat ->
  exists it, make index a = Ret it /\ at2 blk ies it j.
Proof.
  intros Hi -> Hd Hf. unfold make, IteratorWrapper.make, IteratorWrapper.Set_.
  destruct (Update_wrapped index false [] ies (length ies) Hi) as (w & Hw & Hwr). simpl in Hw |- *. rewrite Hw.
  eexists. split; [done|]. right. split; [|done]. split; [by split|done].
Qed.

(** *** Over sorted entries *)

Section sorted.
Context `{HC : !ComparatorLaws C} {SI : SeekLaws C LI} {SD : SeekLaws C LD}.

(** The entries are sorted and the index keys separate the blocks. *)
Definition sorted_at it (es : list entry) (i : nat) : Prop :=
  exists blk ies, es = all_of blk ies /\ at2 blk ies it i /\ (keys_sorted ies /\ separated blk ies).

#[global] Program Instance sorted_two_laws : IteratorLaws (TwoLevelIterator_ops (I := I) (D := D) (A := A)) := {
  it_at := sorted_at
}.
Next Obligation. intros it es i (blk & ies & -> & Hat & Hs). by eapply at2_le. Qed.
Next Obligation. intros it es i (blk & ies & -> & Hat & Hs). by apply at2_valid. Qed.
Next Obligation. intros it es i k v (blk & ies & -> & Hat & Hs) He. by eapply at2_entry. Qed.
Next Obligation. intros it es i (blk & ies & -> & Hat & Hs). by eapply at2_status. Qed.
Next Obligation.
  intros it es i (blk & ies & -> & Hat & Hs). destruct (at2_first _ _ _ _ Hat) as (it' & Hr & Hat').
  exists it'. split; [done|]. by exists blk, ies.
Qed.
Next Obligation.
  intros it es i (blk & ies & -> & Hat & Hs). destruct (at2_last _ _ _ _ Hat) as (it' & Hr & Hat').
  exists it'. split; [done|]. by exists blk, ies.
Qed.
Next Obligation.
  intros it es i (blk & ies & -> & Hat & Hs) Hi. destruct (at2_next _ _ _ _ Hat Hi) as (it' & Hr & Hat').
  exists it'. split; [done|]. by exists blk, ies.
Qed.
Next Obligation.
  intros it es i (blk & ies & -> & Hat & Hs) Hi. destruct (at2_prev _ _ _ _ Hat Hi) as (it' & Hr & Hat').
  exists it'. split; [done|]. by exists blk, ies.
Qed.

#[global] Instance sorted_two_seek : SeekLaws C sorted_two_laws.
Proof.
  split. intros it es i target (blk & ies & -> & Hat & Hs & Hsep) Hsorted.
  destruct (at2_seek blk ies it i target Hat Hs Hsorted Hsep) as (it' & Hr & Hat'). exists it'. split; [done|]. by exists blk, ies.
Qed.
End sorted.
End two_laws.
