(* ===== verification/Merger.v ===== *)
(** * leveldb: merging iterators

    [table/merger.cc]: an iterator over the union of several sorted iterators.  The
    children are [IteratorWrapper]s; [current_] is the index of the one with the
    smallest (or, going backwards, the largest) key. *)

From Stdlib Require Import ZArith Lia Permutation.
From S2P Require Import Prelude CString SliceStatus DbFormat Iterators TableBlock TableBlockSpec TwoLevelIterator.

(** A call of a virtual function goes to the iterator that is behind the pointer. *)
#[export] Instance either_iterator {A B} `{IA : !Iterator A, IB : !Iterator B} : Iterator (A + B) := {
  it_Valid i := match i with inl a => it_Valid a | inr b => it_Valid b end;
  it_key i := match i with inl a => it_key a | inr b => it_key b end;
  it_value i := match i with inl a => it_value a | inr b => it_value b end;
  it_status i := match i with inl a => it_status a | inr b => it_status b end;
  it_SeekToFirst i := match i with inl a => inl <$> it_SeekToFirst a | inr b => inr <$> it_SeekToFirst b end;
  it_SeekToLast i := match i with inl a => inl <$> it_SeekToLast a | inr b => inr <$> it_SeekToLast b end;
  it_Seek i t := match i with inl a => inl <$> it_Seek a t | inr b => inr <$> it_Seek b t end;
  it_Next i := match i with inl a => inl <$> it_Next a | inr b => inr <$> it_Next b end;
  it_Prev i := match i with inl a => inl <$> it_Prev a | inr b => inr <$> it_Prev b end
}.

(** [EmptyIterator]: never valid; [Next], [Prev], [key] and [value] assert. *)
#[export] Instance empty_iterator : Iterator EmptyIterator.EmptyIterator := {
  it_Valid _ := false;
  it_key _ := Crash AssertFailed;
  it_value _ := Crash AssertFailed;
  it_status e := EmptyIterator.status_ e;
  it_SeekToFirst e := Ret e;
  it_SeekToLast e := Ret e;
  it_Seek e _ := Ret e;
  it_Next _ := Crash AssertFailed;
  it_Prev _ := Crash AssertFailed
}.

Module MergingIterator.

Inductive Direction := kForward | kReverse.

Section ops.
Context {I : Type} `{IT : !Iterator I, C : !Comparator}.
Abbreviation wrapper := (IteratorWrapper.IteratorWrapper I).

Record MergingIterator := mkMerge { children_ : list wrapper; current_ : option nat; direction_ : Direction }.

Definition make (children : list I) : result MergingIterator :=
  ws ← mapR (fun it => IteratorWrapper.make (Some it)) children;
  Ret (mkMerge ws None kForward).

Definition Valid (m : MergingIterator) : bool := match current_ m with Some _ => true | None => false end.

Definition child (ws : list wrapper) (c : nat) : result wrapper :=
  match ws !! c with Some w => Ret w | None => Crash OutOfBounds end.

(** One turn of the loops of [FindSmallest] and [FindLargest]: [better] says when
    the child replaces the one found so far. *)
Definition find_turn (better : comparison -> bool) (ws : list wrapper) (best : option nat) (i : nat) : result (option nat) :=
  w ← child ws i;
  if IteratorWrapper.Valid w then
    match best with
    | None => Ret (Some i)
    | Some b =>
        bw ← child ws b;
        k ← IteratorWrapper.key w;
        bk ← IteratorWrapper.key bw;
        Ret (if better (Compare k bk) then Some i else Some b)
    end
  else Ret best.

Definition is_lt (c : comparison) : bool := match c with Lt => true | _ => false end.
Definition is_gt (c : comparison) : bool := match c with Gt => true | _ => false end.

Definition FindSmallest (ws : list wrapper) : result (option nat) :=
  foldR (find_turn is_lt ws) None (seq 0 (length ws)).
Definition FindLargest (ws : list wrapper) : result (option nat) :=
  foldR (find_turn is_gt ws) None (rev (seq 0 (length ws))).

Definition SeekToFirst (m : MergingIterator) : result MergingIterator :=
  ws ← mapR IteratorWrapper.SeekToFirst (children_ m);
  c ← FindSmallest ws;
  Ret (mkMerge ws c kForward).

Definition SeekToLast (m : MergingIterator) : result MergingIterator :=
  ws ← mapR IteratorWrapper.SeekToLast (children_ m);
  c ← FindLargest ws;
  Ret (mkMerge ws c kReverse).

Definition Seek (m : MergingIterator) (target : str) : result MergingIterator :=
  ws ← mapR (fun w => IteratorWrapper.Seek w target) (children_ m);
  c ← FindSmallest ws;
  Ret (mkMerge ws c kForward).

Definition key (m : MergingIterator) : result str :=
  match current_ m with Some c => w ← child (children_ m) c; IteratorWrapper.key w | None => Crash AssertFailed end.
Definition value (m : MergingIterator) : result str :=
  match current_ m with Some c => w ← child (children_ m) c; IteratorWrapper.value w | None => Crash AssertFailed end.

(** The children other than [current_] are placed behind the key. *)
Definition place_after (k : str) (w : wrapper) : result wrapper :=
  w ← IteratorWrapper.Seek w k;
  if IteratorWrapper.Valid w then
    ck ← IteratorWrapper.key w;
    match Compare k ck with Eq => IteratorWrapper.Next w | _ => Ret w end
  else Ret w.

(** The children other than [current_] are placed before the key. *)
Definition place_before (k : str) (w : wrapper) : result wrapper :=
  w ← IteratorWrapper.Seek w k;
  if IteratorWrapper.Valid w then IteratorWrapper.Prev w else IteratorWrapper.SeekToLast w.

Definition others (c : nat) (place : wrapper -> result wrapper) (ws : list wrapper) : result (list wrapper) :=
  mapR (fun x => if (fst x =? c)%nat then Ret (snd x) else place (snd x)) (zip (seq 0 (length ws)) ws).

Definition Next (m : MergingIterator) : result MergingIterator :=
  match current_ m with
  | None => Crash AssertFailed
  | Some c =>
      ws ← (match direction_ m with
            | kForward => Ret (children_ m)
            | kReverse => k ← key m; others c (place_after k) (children_ m)
            end);
      w ← child ws c;
      w ← IteratorWrapper.Next w;
      let ws := <[c := w]> ws in
      c ← FindSmallest ws;
      Ret (mkMerge ws c kForward)
  end.

Definition Prev (m : MergingIterator) : result MergingIterator :=
  match current_ m with
  | None => Crash AssertFailed
  | Some c =>
      ws ← (match direction_ m with
            | kReverse => Ret (children_ m)
            | kForward => k ← key m; others c (place_before k) (children_ m)
            end);
      w ← child ws c;
      w ← IteratorWrapper.Prev w;
      let ws := <[c := w]> ws in
      c ← FindLargest ws;
      Ret (mkMerge ws c kReverse)
  end.

(** The first status that is not OK; the children are never [nullptr]. *)
Fixpoint first_error (ws : list wrapper) : Status.Status :=
  match ws with
  | [] => Status.OK
  | w :: ws =>
      match IteratorWrapper.iter_ w with
      | Some it => if Status.ok (it_status it) then first_error ws else it_status it
      | None => first_error ws
      end
  end.
Definition status (m : MergingIterator) : Status.Status := first_error (children_ m).

End ops.
Arguments MergingIterator I : clear implicits.

#[global] Instance MergingIterator_ops {I} `{IT : !Iterator I, C : !Comparator} : Iterator (MergingIterator I) := {
  it_Valid := Valid;
  it_key := key;
  it_value := value;
  it_status := status;
  it_SeekToFirst := SeekToFirst;
  it_SeekToLast := SeekToLast;
  it_Seek := Seek;
  it_Next := Next;
  it_Prev := Prev
}.

(** [NewMergingIterator]: no child, the only child, or a merging iterator. *)
Abbreviation Merged I := (EmptyIterator.EmptyIterator + (I + MergingIterator I))%type.

Definition NewMergingIterator {I} `{IT : !Iterator I} (children : list I) : result (Merged I) :=
  match children with
  | [] => Ret (inl EmptyIterator.NewEmptyIterator)
  | [it] => Ret (inr (inl it))
  | _ => m ← make children; Ret (inr (inr m))
  end.

End MergingIterator.

(** ** What a merging iterator ranges over *)

(** [Seek] reaches the first key that is not smaller, for targets that are [ok]. *)
Class SeekOn {I : Type} {IT : Iterator I} (ok : str -> Prop) (C : Comparator) (IL : IteratorLaws IT) := {
  at_seek_on it es i target : ok target -> it_at it es i -> keys_sorted es ->
    exists it', it_Seek it target = Ret it' /\ it_at it' es (seek_pos target es)
}.

#[export] Instance SeekLaws_on {I} {IT : Iterator I} {C : Comparator} {IL : IteratorLaws IT} {SL : SeekLaws C IL} ok : SeekOn ok C IL.
Proof. split. intros. by eapply at_seek. Qed.

(** [es] is the sorted union of the sorted lists [ess]. *)
Record merge_of `{C : !Comparator} (es : list entry) (ess : list (list entry)) : Prop := {
  mo_sorted : keys_sorted es;
  mo_parts : Forall keys_sorted ess;
  mo_perm : es ≡ₚ concat ess
}.

Section merge_laws.
Context {I : Type} {IT : Iterator I} {IL : IteratorLaws IT} {C : Comparator} {HC : ComparatorLaws C}.
Context (ok : str -> Prop) {SO : SeekOn ok C IL}.
Import MergingIterator.
Abbreviation wrapper := (IteratorWrapper.IteratorWrapper I).

(** An operation on every child. *)
Lemma mapR_children ws cs (f : wrapper -> result wrapper) (g : list entry -> nat -> nat) :
  Forall2 (fun w c => wrapped w (fst c) (snd c)) ws cs ->
  (forall w l n, (l, n) ∈ cs -> wrapped w l n -> exists w', f w = Ret w' /\ wrapped w' l (g l n)) ->
  exists ws', mapR f ws = Ret ws' /\ Forall2 (fun w c => wrapped w (fst c) (snd c)) ws' (map (fun c => (fst c, g (fst c) (snd c))) cs).
Proof.
  intros Hws. induction Hws as [|w [l n] ws' cs' Hw Hrest IH]; intros Hf; cbn [mapR map]; [by eexists|].
  destruct (Hf w l n ltac:(set_solver) Hw) as (w' & -> & Hw'). cbn [mbind result_bind].
  destruct IH as (ws'' & -> & Hws''); [intros; apply Hf; [set_solver|done]|]. cbn [mbind result_bind]. eexists. split; [done|]. by constructor.
Qed.

(** An operation on every child but one. *)
Definition but (c a : nat) (g : list entry -> nat -> nat) (cs : list (list entry * nat)) : list (list entry * nat) :=
  imap (fun j x => if (a + j =? c)%nat then x else (fst x, g (fst x) (snd x))) cs.

Lemma others_ok c (f : wrapper -> result wrapper) (g : list entry -> nat -> nat) ws cs :
  Forall2 (fun w x => wrapped w (fst x) (snd x)) ws cs ->
  (forall j w l n, cs !! j = Some (l, n) -> j <> c -> wrapped w l n -> exists w', f w = Ret w' /\ wrapped w' l (g l n)) ->
  exists ws', others c f ws = Ret ws' /\ Forall2 (fun w x => wrapped w (fst x) (snd x)) ws' (but c 0 g cs).
Proof.
  unfold others. intros Hws Hf. assert (forall j w l n, cs !! j = Some (l, n) -> (0 + j)%nat <> c -> wrapped w l n -> exists w', f w = Ret w' /\ wrapped w' l (g l n)) as Hf' by (intros; by eapply Hf).
  clear Hf. revert Hf'. generalize O as a. induction Hws as [|w [l n] ws cs Hw Hrest IH]; intros a Hf; [by eexists|].
  cbn [length seq zip zip_with mapR fst snd]. unfold but. cbn [imap]. rewrite Nat.add_0_r.
  destruct (IH (S a)) as (ws' & Hws' & Hall); [intros j w' l' n' Hj Hne; apply (Hf (S j)); [done|lia]|].
  assert (imap ((fun j x => if (a + j =? c)%nat then x else (x.1, g x.1 x.2)) ∘ S) cs = but c (S a) g cs) as ->.
  { unfold but. apply imap_ext. intros j x _. cbn. by rewrite Nat.add_succ_r. }
  destruct (Nat.eqb_spec a c) as [->|Hne].
  - cbn [mbind result_bind]. rewrite Hws'. cbn [mbind result_bind]. eexists. split; [done|]. by constructor.
  - destruct (Hf O w l n eq_refl ltac:(lia) Hw) as (w' & -> & Hw'). cbn [mbind result_bind]. rewrite Hws'. cbn [mbind result_bind].
    eexists. split; [done|]. by constructor.
Qed.

Lemma but_fst c a g cs : map fst (but c a g cs) = map fst cs.
Proof. unfold but. revert a. induction cs as [|x cs IH]; intros a; [done|]. cbn [imap map]. f_equal; [by destruct (a + 0 =? c)%nat|].
  rewrite <- (IH (S a)). f_equal. apply imap_ext. intros j y _. cbn. by rewrite Nat.add_succ_r. Qed.

Lemma but_lookup c g cs j x : but c 0 g cs !! j = Some x ->
  exists l n, cs !! j = Some (l, n) /\ x = (if (j =? c)%nat then (l, n) else (l, g l n)).
Proof.
  unfold but. rewrite list_lookup_imap. intros ([l n] & Hc & Hx)%fmap_Some. exists l, n. by split.
Qed.

Section positions.
Context (es : list entry) (ess : list (list entry)) (Hmo : merge_of es ess).
Implicit Types (l : list entry).

Lemma es_pos_unique q q' e e' : es !! q = Some e -> es !! q' = Some e' -> Compare (fst e) (fst e') = Eq -> q = q'.
Proof.
  intros Hq Hq' E. destruct (Nat.lt_total q q') as [H|[H|H]]; [|done|].
  - by rewrite (sorted_lt es q q' e e' (mo_sorted _ _ Hmo) Hq Hq' H) in E.
  - rewrite cmp_antisym, (sorted_lt es q' q e' e (mo_sorted _ _ Hmo) Hq' Hq H) in E. done.
Qed.

(** The order of keys is the order of their positions. *)
Lemma es_compare q q' e e' : es !! q = Some e -> es !! q' = Some e' ->
  Compare (fst e) (fst e') = Nat.compare q q'.
Proof.
  intros Hq Hq'. destruct (Nat.compare_spec q q') as [->|H|H].
  - rewrite Hq in Hq'. injection Hq' as <-. apply cmp_refl.
  - by apply (sorted_lt es q q' e e' (mo_sorted _ _ Hmo)).
  - by rewrite cmp_antisym, (sorted_lt es q' q e' e (mo_sorted _ _ Hmo)).
Qed.

Lemma part_sorted j l : ess !! j = Some l -> keys_sorted l.
Proof. intros Hl. pose proof (mo_parts _ _ Hmo) as H. rewrite Forall_lookup in H. by eapply H. Qed.

Lemma part_pos j l m e : ess !! j = Some l -> l !! m = Some e -> exists q, es !! q = Some e.
Proof.
  intros Hl Hm. apply list_elem_of_lookup. rewrite (mo_perm _ _ Hmo). apply list_elem_of_In, in_concat.
  exists l. split; apply list_elem_of_In; by eapply list_elem_of_lookup_2.
Qed.

Lemma pos_part q e : es !! q = Some e -> exists j l m, ess !! j = Some l /\ l !! m = Some e.
Proof.
  intros Hq. apply list_elem_of_lookup_2 in Hq. rewrite (mo_perm _ _ Hmo) in Hq.
  apply list_elem_of_In, in_concat in Hq as (l & Hl & He). apply list_elem_of_In, list_elem_of_lookup in Hl as [j Hj].
  apply list_elem_of_In, list_elem_of_lookup in He as [m Hm]. by exists j, l, m.
Qed.

Lemma es_nodup : NoDup es.
Proof.
  apply NoDup_alt. intros i j e Hi Hj. eapply es_pos_unique; [exact Hi|exact Hj|apply cmp_refl].
Qed.

(** No entry is in two of the lists. *)
Lemma part_unique j j' l l' m m' e :
  ess !! j = Some l -> l !! m = Some e -> ess !! j' = Some l' -> l' !! m' = Some e -> j = j'.
Proof.
  intros Hl Hm Hl' Hm'. assert (NoDup (concat ess)) as Hnd by (rewrite <- (mo_perm _ _ Hmo); apply es_nodup).
  revert j j' Hl Hl'. clear -Hnd Hm Hm'. induction ess as [|x ess' IH]; intros j j' Hl Hl'; [done|].
  cbn [concat] in Hnd. apply NoDup_app in Hnd as (_ & Hd & Hnd).
  assert (forall i y n, ess' !! i = Some y -> y !! n = Some e -> e ∈ concat ess') as Hin.
  { intros i y n Hy Hn. apply list_elem_of_In, in_concat. exists y. split; apply list_elem_of_In; by eapply list_elem_of_lookup_2. }
  destruct j as [|j], j' as [|j']; cbn in Hl, Hl'; [done| | |f_equal; by apply IH].
  - injection Hl as ->. destruct (Hd e); [by eapply list_elem_of_lookup_2|by eapply Hin].
  - injection Hl' as ->. destruct (Hd e); [by eapply list_elem_of_lookup_2|by eapply Hin].
Qed.

(** [cut l i n]: the first [n] entries of [l] are those among the first [i] of [es]. *)
Definition cut l (i n : nat) : Prop :=
  (n <= length l)%nat /\ forall m e q, l !! m = Some e -> es !! q = Some e -> (m < n <-> q < i)%nat.

Lemma part_order j l m m' e e' q q' : ess !! j = Some l -> l !! m = Some e -> l !! m' = Some e' ->
  es !! q = Some e -> es !! q' = Some e' -> (m < m' <-> q < q')%nat.
Proof.
  intros Hl Hm Hm' Hq Hq'. pose proof (part_sorted _ _ Hl) as Hs. destruct (Nat.lt_total m m') as [H|[->|H]].
  - pose proof (sorted_lt l m m' e e' Hs Hm Hm' H) as E. rewrite (es_compare q q' e e' Hq Hq') in E. apply Nat.compare_lt_iff in E. lia.
  - rewrite Hm in Hm'. injection Hm' as <-. assert (q = q') by (by eapply es_pos_unique; [..|apply cmp_refl]). lia.
  - pose proof (sorted_lt l m' m e' e Hs Hm' Hm H) as E. rewrite (es_compare q' q e' e Hq' Hq) in E. apply Nat.compare_lt_iff in E. lia.
Qed.

Lemma cut_here j l n i e : ess !! j = Some l -> l !! n = Some e -> es !! i = Some e -> cut l i n.
Proof.
  intros Hl Hn Hi. split; [by apply lookup_lt_Some in Hn; lia|]. intros m e' q Hm Hq. by eapply part_order.
Qed.

Lemma cut_seek j l t : ess !! j = Some l -> cut l (seek_pos t es) (seek_pos t l).
Proof.
  intros Hl. split; [apply seek_pos_le|]. intros m e q Hm Hq. pose proof (part_sorted _ _ Hl) as Hs. split.
  - intros H. apply (seek_pos_gt t es q e (mo_sorted _ _ Hmo) Hq). exact (seek_pos_before t l m e Hm H).
  - intros H. apply (seek_pos_gt t l m e Hs Hm). exact (seek_pos_before t es q e Hq H).
Qed.

Lemma cut_first l : cut l 0 0.
Proof. split; [lia|]. intros. lia. Qed.

Lemma cut_last l : cut l (length es) (length l).
Proof. split; [lia|]. intros m e q Hm%lookup_lt_Some Hq%lookup_lt_Some. lia. Qed.

Lemma cut_next j l n i e : ess !! j = Some l -> l !! n = Some e -> es !! i = Some e -> cut l (S i) (S n).
Proof.
  intros Hl Hn Hi. split; [by apply lookup_lt_Some in Hn; lia|]. intros m e' q Hm Hq.
  pose proof (part_order j l n m e e' i q Hl Hn Hm Hi Hq). lia.
Qed.

(** An entry that is not in the list does not matter. *)
Lemma cut_skip l n i e : es !! i = Some e -> e ∉ l -> cut l i n <-> cut l (S i) n.
Proof.
  intros Hi Hl. split; intros [Hn Hc]; (split; [done|]); intros m e' q Hm Hq; rewrite (Hc m e' q Hm Hq);
    (destruct (decide (q = i)) as [->|]; [|lia]); rewrite Hi in Hq; injection Hq as <-; by apply list_elem_of_lookup_2 in Hm.
Qed.

(** Going backwards, a child stands at the last entry before the cut. *)
Definition pred_pos l (n : nat) : nat := match n with O => length l | S m => m end.

(** Child [j] stands at the entry of position [q]. *)
Definition at_idx (cs : list (list entry * nat)) (j q : nat) : Prop :=
  exists l n e, cs !! j = Some (l, n) /\ l !! n = Some e /\ es !! q = Some e.

Definition fwd (cs : list (list entry * nat)) (i : nat) : Prop := forall j l n, cs !! j = Some (l, n) -> cut l i n.
Definition bwd (cs : list (list entry * nat)) (i : nat) : Prop :=
  forall j l n, cs !! j = Some (l, n) -> exists n', cut l i n' /\ n = pred_pos l n'.

Section find.
Context (ws : list wrapper) (cs : list (list entry * nat)).
Context (Hcs : map fst cs = ess) (Hws : Forall2 (fun w c => wrapped w (fst c) (snd c)) ws cs).
Context (better : comparison -> bool) (rank : nat -> Z).
Context (Hbetter : forall a b, better (Nat.compare a b) = (rank a <? rank b)).

Lemma cs_part j l n : cs !! j = Some (l, n) -> ess !! j = Some l.
Proof. intros H. by rewrite <- Hcs, list_lookup_fmap, H. Qed.

(** The child at an index is wrapped, and valid just when it stands at an entry. *)
Lemma child_at j : (j < length ws)%nat -> exists w l n, child ws j = Ret w /\ cs !! j = Some (l, n) /\ wrapped w l n.
Proof.
  intros Hj. destruct (lookup_lt_is_Some_2 ws j Hj) as [w Hw]. destruct (Forall2_lookup_l _ _ _ _ _ Hws Hw) as ([l n] & Hc & Hwr).
  exists w, l, n. unfold child. by rewrite Hw.
Qed.

Lemma at_idx_key w j l n q : cs !! j = Some (l, n) -> wrapped w l n -> at_idx cs j q ->
  IteratorWrapper.Valid w = true /\ exists e, es !! q = Some e /\ IteratorWrapper.key w = Ret (fst e).
Proof.
  intros Hc Hw (l' & n' & e & Hc' & Hn & Hq). rewrite Hc in Hc'. injection Hc' as <- <-.
  split; [unfold IteratorWrapper.Valid; rewrite (wr_valid _ _ _ Hw); apply Nat.ltb_lt; by eapply lookup_lt_Some|].
  exists e. split; [done|]. destruct e as [k v]. by destruct (wrapped_value _ _ _ _ _ Hw Hn).
Qed.

Lemma at_idx_det j q q' : at_idx cs j q -> at_idx cs j q' -> q = q'.
Proof.
  intros (l & n & e & Hc & Hn & Hq) (l' & n' & e' & Hc' & Hn' & Hq'). rewrite Hc in Hc'. injection Hc' as <- <-.
  rewrite Hn in Hn'. injection Hn' as <-. by eapply es_pos_unique; [..|apply cmp_refl].
Qed.

Lemma find_turn_ok best j : (j < length ws)%nat -> (forall b, best = Some b -> exists q, at_idx cs b q) ->
  exists r, find_turn better ws best j = Ret r /\
    match r with
    | None => best = None /\ forall q, ~ at_idx cs j q
    | Some c => exists q, at_idx cs c q /\ (best = Some c \/ c = j) /\
        (forall q', at_idx cs j q' -> rank q <= rank q') /\ (forall b q', best = Some b -> at_idx cs b q' -> rank q <= rank q')
    end.
Proof.
  intros Hj Hb. destruct (child_at j Hj) as (w & l & n & Hch & Hc & Hw). unfold find_turn. rewrite Hch. cbn [mbind result_bind].
  destruct (l !! n) as [e|] eqn:En.
  - destruct (part_pos j l n e (cs_part j l n Hc) En) as [q Hq]. assert (at_idx cs j q) as Hat by (by exists l, n, e).
    destruct (at_idx_key w j l n q Hc Hw Hat) as (-> & e0 & He0 & Hk). rewrite He0 in Hq. injection Hq as ->.
    destruct best as [b|].
    + destruct (Hb b eq_refl) as [qb Hqb]. pose proof Hqb as (lb & nb & eb & Hcb & Hnb & Heb).
      destruct (child_at b) as (wb & l' & n' & Hchb & Hcb' & Hwb).
      { rewrite (Forall2_length _ _ _ Hws). by eapply lookup_lt_Some. }
      rewrite Hchb. cbn [mbind result_bind]. destruct (at_idx_key wb b l' n' qb Hcb' Hwb Hqb) as (_ & eb' & Heb' & Hkb). rewrite Hk, Hkb. cbn [mbind result_bind].
      rewrite (es_compare q qb e eb' He0 Heb'), Hbetter. eexists. split; [done|]. destruct (Z.ltb_spec (rank q) (rank qb)).
      * exists q. split; [done|]. split; [by right|]. split.
        -- intros q' Hq'. rewrite (at_idx_det j q' q Hq' Hat); lia.
        -- intros b' q' [= <-] Hq'. rewrite (at_idx_det b q' qb Hq' Hqb). lia.
      * exists qb. split; [done|]. split; [by left|]. split.
        -- intros q' Hq'. rewrite (at_idx_det j q' q Hq' Hat); lia.
        -- intros b' q' [= <-] Hq'. rewrite (at_idx_det b q' qb Hq' Hqb); lia.
    + eexists. split; [done|]. exists q. split; [done|]. split; [by right|]. split; [|done].
      intros q' Hq'. rewrite (at_idx_det j q' q Hq' Hat); lia.
  - assert (IteratorWrapper.Valid w = false) as ->.
    { unfold IteratorWrapper.Valid. rewrite (wr_valid _ _ _ Hw). apply Nat.ltb_ge. by apply lookup_ge_None. }
    assert (forall q, ~ at_idx cs j q) as Hno by (intros q (l' & n' & e & Hc' & Hn' & _); rewrite Hc in Hc'; by injection Hc' as <- <-; rewrite En in Hn').
    exists best. split; [done|]. destruct best as [b|]; [|done]. destruct (Hb b eq_refl) as [q Hq]. exists q. split; [done|]. split; [by left|].
    split; [intros q' Hq'; by destruct (Hno q')|]. intros b' q' [= <-] Hq'. rewrite (at_idx_det b q' q Hq' Hq). lia.
Qed.

(** The loop ends at a child no other one is better than. *)
Lemma find_ok idx : forall best, Forall (fun j => (j < length ws)%nat) idx -> (forall b, best = Some b -> exists q, at_idx cs b q) ->
  exists r, foldR (find_turn better ws) best idx = Ret r /\
    match r with
    | None => best = None /\ forall j q, j ∈ idx -> ~ at_idx cs j q
    | Some c => exists q, at_idx cs c q /\ (forall j q', j ∈ idx -> at_idx cs j q' -> rank q <= rank q') /\
        (forall b q', best = Some b -> at_idx cs b q' -> rank q <= rank q')
    end.
Proof.
  induction idx as [|j idx IH]; intros best Hidx Hb; cbn [foldR].
  - exists best. split; [done|]. destruct best as [b|]; [|split; [done|]; intros j q H; by apply not_elem_of_nil in H].
    destruct (Hb b eq_refl) as [q Hq]. exists q. split; [done|]. split; [intros j q' H; by apply not_elem_of_nil in H|].
    intros b' q' [= <-] Hq'. rewrite (at_idx_det b q' q Hq' Hq). lia.
  - apply Forall_cons_1 in Hidx as [Hj Hidx]. destruct (find_turn_ok best j Hj Hb) as (r & -> & Hr). cbn [mbind result_bind].
    destruct (IH r Hidx) as (r' & -> & Hr').
    { intros b ->. destruct Hr as (q & Hq & _). by exists q. }
    exists r'. split; [done|]. destruct r' as [c|].
    + destruct Hr' as (q & Hq & Hall & Hbest). exists q. split; [done|]. destruct r as [b|].
      * destruct Hr as (qb & Hqb & Hwho & Hjb & Hbb). pose proof (Hbest b qb eq_refl Hqb) as Hle.
        assert (forall q', rank qb <= rank q' -> rank q <= rank q') as Htr by lia.
        split; [|intros b' q' Eb' Hq'; apply Htr; by eapply Hbb].
        intros j' q' [->|Hin]%elem_of_cons Hq'; [apply Htr; by apply Hjb|by eapply Hall].
      * destruct Hr as (-> & Hno). split; [|done]. intros j' q' [->|Hin]%elem_of_cons Hq'; [by destruct (Hno q')|by eapply Hall].
    + destruct Hr' as (-> & Hnone). destruct Hr as (-> & Hno). split; [done|].
      intros j' q' [->|Hin]%elem_of_cons Hq'; [by apply (Hno q')|by apply (Hnone j' q')].
Qed.

End find.

Section find_at.
Context (ws : list wrapper) (cs : list (list entry * nat)).
Context (Hcs : map fst cs = ess) (Hws : Forall2 (fun w c => wrapped w (fst c) (snd c)) ws cs).

Lemma at_idx_bound j q : at_idx cs j q -> (j < length ws)%nat.
Proof. intros (l & n & e & Hc & _). rewrite (Forall2_length _ _ _ Hws). by eapply lookup_lt_Some. Qed.

(** Some child stands at the entry a cut is before. *)
Lemma fwd_at i e : fwd cs i -> es !! i = Some e -> exists j, at_idx cs j i.
Proof.
  intros Hf Hi. destruct (pos_part i e Hi) as (j & l & m & Hl & Hm).
  pose proof Hl as Hc. rewrite <- Hcs, list_lookup_fmap in Hc. apply fmap_Some in Hc as ([l' n] & Hc & E). cbn in E. subst l'.
  destruct (Hf j l n Hc) as [Hn Hcut]. exists j, l, n, e. split; [done|]. split; [|done].
  assert (n = m) as ->; [|done]. pose proof (Hcut m e i Hm Hi). destruct (decide (n < m)%nat) as [Hlt|]; [|lia].
  destruct (lookup_lt_is_Some_2 l n) as [e' He']; [apply lookup_lt_Some in Hm; lia|]. destruct (part_pos j l n e' Hl He') as [q Hq].
  pose proof (Hcut n e' q He' Hq). pose proof (part_order j l n m e' e q i Hl He' Hm Hq Hi). lia.
Qed.

Lemma bwd_at i e : bwd cs (S i) -> es !! i = Some e -> exists j, at_idx cs j i.
Proof.
  intros Hb Hi. destruct (pos_part i e Hi) as (j & l & m & Hl & Hm).
  pose proof Hl as Hc. rewrite <- Hcs, list_lookup_fmap in Hc. apply fmap_Some in Hc as ([l' n] & Hc & E). cbn in E. subst l'.
  destruct (Hb j l n Hc) as (n' & [Hn Hcut] & ->). exists j, l, (pred_pos l n'), e. split; [done|]. split; [|done].
  pose proof (Hcut m e i Hm Hi). destruct n' as [|n']; [lia|]. cbn. assert (n' = m) as ->; [|done].
  destruct (decide (m < n')%nat) as [Hlt|]; [|lia]. destruct (lookup_lt_is_Some_2 l n') as [e' He']; [lia|].
  destruct (part_pos j l n' e' Hl He') as [q Hq]. pose proof (Hcut n' e' q He' Hq).
  pose proof (part_order j l m n' e e' i q Hl Hm He' Hi Hq). lia.
Qed.

Lemma FindSmallest_at i : fwd cs i -> (i <= length es)%nat ->
  exists r, FindSmallest ws = Ret r /\ match r with None => i = length es | Some c => at_idx cs c i end.
Proof.
  intros Hf Hi. destruct (find_ok ws cs Hcs Hws is_lt Z.of_nat) with (idx := seq 0 (length ws)) (best := @None nat) as (r & Hr & Hspec).
  { intros a b. destruct (Nat.compare_spec a b); destruct (Z.ltb_spec (Z.of_nat a) (Z.of_nat b)); cbn; lia || done. }
  { apply Forall_forall. intros x Hx%elem_of_seq. lia. }
  { done. }
  exists r. split; [done|]. assert (forall j q, at_idx cs j q -> j ∈ seq 0 (length ws)) as Hin.
  { intros j q Hq. apply elem_of_seq. apply at_idx_bound in Hq. lia. }
  destruct r as [c|].
  - destruct Hspec as (q & Hq & Hall & _). destruct Hq as (l & n & e & Hc & Hn & He). pose proof (proj2 (Hf c l n Hc) n e q Hn He).
    destruct (lookup_lt_is_Some_2 es i) as [ei Hei]; [apply lookup_lt_Some in He; lia|]. destruct (fwd_at i ei Hf Hei) as [j Hj].
    pose proof (Hall j i (Hin j i Hj) Hj). assert (q = i) as -> by lia. by exists l, n, e.
  - destruct Hspec as (_ & Hno). destruct (decide (i < length es)%nat) as [Hlt|]; [|lia].
    destruct (lookup_lt_is_Some_2 es i Hlt) as [ei Hei]. destruct (fwd_at i ei Hf Hei) as [j Hj]. by destruct (Hno j i (Hin j i Hj)).
Qed.

Lemma FindLargest_at i : bwd cs i -> (i <= length es)%nat ->
  exists r, FindLargest ws = Ret r /\ match r with None => i = O | Some c => exists i', i = S i' /\ at_idx cs c i' end.
Proof.
  intros Hb Hi. destruct (find_ok ws cs Hcs Hws is_gt (fun n => - Z.of_nat n)) with (idx := rev (seq 0 (length ws))) (best := @None nat) as (r & Hr & Hspec).
  { intros a b. destruct (Nat.compare_spec a b); destruct (Z.ltb_spec (- Z.of_nat a) (- Z.of_nat b)); cbn; lia || done. }
  { apply Forall_forall. intros x Hx%list_elem_of_In%in_rev%list_elem_of_In%elem_of_seq. lia. }
  { done. }
  exists r. split; [done|]. assert (forall j q, at_idx cs j q -> j ∈ rev (seq 0 (length ws))) as Hin.
  { intros j q Hq. apply list_elem_of_In. rewrite <- in_rev. apply list_elem_of_In, elem_of_seq. apply at_idx_bound in Hq. lia. }
  destruct r as [c|].
  - destruct Hspec as (q & Hq & Hall & _). destruct Hq as (l & n & e & Hc & Hn & He). destruct (Hb c l n Hc) as (n' & [Hn' Hcut] & ->).
    pose proof (lookup_lt_Some _ _ _ Hn) as Hlt. destruct n' as [|n']; cbn in Hn, Hlt; [lia|]. pose proof (Hcut n' e q Hn He).
    destruct i as [|i]; [lia|]. exists i. split; [done|]. destruct (lookup_lt_is_Some_2 es i) as [ei Hei]; [lia|].
    destruct (bwd_at i ei Hb Hei) as [j Hj]. pose proof (Hall j i (Hin j i Hj) Hj). assert (q = i) as -> by lia. by exists l, n', e.
  - destruct Hspec as (_ & Hno). destruct i as [|i]; [done|]. destruct (lookup_lt_is_Some_2 es i) as [ei Hei]; [lia|].
    destruct (bwd_at i ei Hb Hei) as [j Hj]. by destruct (Hno j i (Hin j i Hj)).
Qed.

End find_at.

End positions.

(** The iterator ranges over the sorted union of its children's entries. *)
Definition merge_at (m : MergingIterator I) (es : list entry) (i : nat) : Prop :=
  Forall (fun e => ok (fst e)) es /\ (i <= length es)%nat /\
  exists cs, merge_of es (map fst cs) /\ Forall2 (fun w c => wrapped w (fst c) (snd c)) (children_ m) cs /\
    match current_ m with
    | None => i = length es
    | Some c => at_idx es cs c i /\ (match direction_ m with kForward => fwd es cs i | kReverse => bwd es cs (S i) end)
    end.

Lemma wrapped_seek w l n t : ok t -> keys_sorted l -> wrapped w l n ->
  exists w', IteratorWrapper.Seek w t = Ret w' /\ wrapped w' l (seek_pos t l).
Proof. intros Ht Hl. apply step_wrapped. intros it Hat. by eapply at_seek_on. Qed.

Lemma wrapped_next w l n : (n < length l)%nat -> wrapped w l n -> exists w', IteratorWrapper.Next w = Ret w' /\ wrapped w' l (S n).
Proof. intros Hn. apply step_wrapped. intros it Hat. by apply at_next. Qed.

Lemma wrapped_prev w l n : (n < length l)%nat -> wrapped w l n -> exists w', IteratorWrapper.Prev w = Ret w' /\ wrapped w' l (pred_pos l n).
Proof. intros Hn. apply step_wrapped. intros it Hat. by apply at_prev. Qed.

Lemma wrapped_last w l n : wrapped w l n -> exists w', IteratorWrapper.SeekToLast w = Ret w' /\ wrapped w' l (pred_pos l (length l)).
Proof.
  apply step_wrapped. intros it Hat. destruct (at_last _ _ _ Hat) as (it' & Hr & Hat'). exists it'. split; [done|].
  destruct l; cbn in *; [done|]. by rewrite Nat.sub_0_r in Hat'.
Qed.

Section moves.
Context (es : list entry) (cs : list (list entry * nat)) (Hmo : merge_of es (map fst cs)).
Implicit Types (ws : list wrapper).

(** An entry is in the list of its own child only. *)
Lemma other_child c i e j l n l' n' : cs !! c = Some (l, n) -> l !! n = Some e -> es !! i = Some e ->
  cs !! j = Some (l', n') -> j <> c -> e ∉ l'.
Proof.
  intros Hc Hn Hi Hj Hne [m Hm]%list_elem_of_lookup. apply Hne.
  eapply (part_unique es _ Hmo j c l' l m n e); [|done| |done]; by rewrite list_lookup_fmap, ?Hj, ?Hc.
Qed.

(** Finding the smallest child from a cut, the largest before one. *)
Lemma find_forward ws cs' i : map fst cs' = map fst cs -> Forall2 (fun w c => wrapped w (fst c) (snd c)) ws cs' ->
  Forall (fun e => ok (fst e)) es -> fwd es cs' i -> (i <= length es)%nat ->
  exists c, FindSmallest ws = Ret c /\ merge_at (mkMerge ws c kForward) es i.
Proof.
  intros Hfst Hws Hok Hf Hi. rewrite <- Hfst in Hmo. destruct (FindSmallest_at es _ Hmo ws cs' eq_refl Hws i Hf Hi) as (r & -> & Hr).
  exists r. split; [done|]. split; [done|]. split; [done|]. exists cs'. split; [done|]. split; [done|]. by destruct r.
Qed.

Lemma find_backward ws cs' i : map fst cs' = map fst cs -> Forall2 (fun w c => wrapped w (fst c) (snd c)) ws cs' ->
  Forall (fun e => ok (fst e)) es -> bwd es cs' i -> (i <= length es)%nat ->
  exists c, FindLargest ws = Ret c /\ merge_at (mkMerge ws c kReverse) es (pred_pos es i).
Proof.
  intros Hfst Hws Hok Hb Hi. rewrite <- Hfst in Hmo. destruct (FindLargest_at es _ Hmo ws cs' eq_refl Hws i Hb Hi) as (r & -> & Hr).
  exists r. split; [done|]. split; [done|]. destruct r as [c|]; cbn [current_ direction_].
  - destruct Hr as (i' & -> & Hat). cbn [pred_pos]. split; [lia|]. by exists cs'.
  - subst i. split; [cbn; lia|]. by exists cs'.
Qed.

(** [Next()] once the other children are behind the key. *)
Lemma next_step ws cs' c i : map fst cs' = map fst cs -> Forall2 (fun w c => wrapped w (fst c) (snd c)) ws cs' ->
  Forall (fun e => ok (fst e)) es -> at_idx es cs' c i ->
  (forall j l n, cs' !! j = Some (l, n) -> j <> c -> cut es l (S i) n) ->
  exists m, (w ← child ws c; w ← IteratorWrapper.Next w; let ws := <[c := w]> ws in c ← FindSmallest ws; Ret (mkMerge ws c kForward)) = Ret m /\
    merge_at m es (S i).
Proof.
  intros Hfst Hws Hok (l & n & e & Hc & Hn & He) Hcut. destruct (Forall2_lookup_r _ _ _ _ _ Hws Hc) as (w & Hw & Hwr).
  unfold child. rewrite Hw. cbn [mbind result_bind]. destruct (wrapped_next w l n) as (w' & -> & Hwr'); [by eapply lookup_lt_Some|done|]. cbn [mbind result_bind].
  destruct (find_forward (<[c := w']> ws) (<[c := (l, S n)]> cs') (S i)) as (c' & -> & Hat).
  - rewrite <- Hfst. change (map fst (<[c:=(l, S n)]> cs')) with (fst <$> <[c:=(l, S n)]> cs'). rewrite list_fmap_insert. apply list_insert_id.
    by rewrite list_lookup_fmap, Hc.
  - by apply Forall2_insert.
  - done.
  - intros j l' n' Hj. destruct (decide (j = c)) as [->|Hne].
    + rewrite list_lookup_insert_eq in Hj by (by eapply lookup_lt_Some). injection Hj as <- <-.
      eapply (cut_next es _ Hmo c l n i e); [|done|done]. by rewrite <- Hfst, list_lookup_fmap, Hc.
    + rewrite list_lookup_insert_ne in Hj by done. by eapply Hcut.
  - by apply lookup_lt_Some in He.
  - cbn [mbind result_bind]. by eexists.
Qed.

(** [Prev()] once the other children are before the key. *)
Lemma prev_step ws cs' c i : map fst cs' = map fst cs -> Forall2 (fun w c => wrapped w (fst c) (snd c)) ws cs' ->
  Forall (fun e => ok (fst e)) es -> at_idx es cs' c i ->
  (forall j l n, cs' !! j = Some (l, n) -> j <> c -> exists n', cut es l i n' /\ n = pred_pos l n') ->
  exists m, (w ← child ws c; w ← IteratorWrapper.Prev w; let ws := <[c := w]> ws in c ← FindLargest ws; Ret (mkMerge ws c kReverse)) = Ret m /\
    merge_at m es (pred_pos es i).
Proof.
  intros Hfst Hws Hok (l & n & e & Hc & Hn & He) Hcut. destruct (Forall2_lookup_r _ _ _ _ _ Hws Hc) as (w & Hw & Hwr).
  unfold child. rewrite Hw. cbn [mbind result_bind]. destruct (wrapped_prev w l n) as (w' & -> & Hwr'); [by eapply lookup_lt_Some|done|]. cbn [mbind result_bind].
  destruct (find_backward (<[c := w']> ws) (<[c := (l, pred_pos l n)]> cs') i) as (c' & -> & Hat).
  - rewrite <- Hfst. change (map fst (<[c:=(l, pred_pos l n)]> cs')) with (fst <$> <[c:=(l, pred_pos l n)]> cs'). rewrite list_fmap_insert. apply list_insert_id.
    by rewrite list_lookup_fmap, Hc.
  - by apply Forall2_insert.
  - done.
  - intros j l' n' Hj. destruct (decide (j = c)) as [->|Hne].
    + rewrite list_lookup_insert_eq in Hj by (by eapply lookup_lt_Some). injection Hj as <- <-. exists n. split; [|done].
      eapply (cut_here es _ Hmo c l n i e); [|done|done]. by rewrite <- Hfst, list_lookup_fmap, Hc.
    + rewrite list_lookup_insert_ne in Hj by done. by eapply Hcut.
  - apply lookup_lt_Some in He. lia.
  - cbn [mbind result_bind]. by eexists.
Qed.

End moves.

Lemma merge_first m es i : merge_at m es i -> exists m', SeekToFirst m = Ret m' /\ merge_at m' es 0.
Proof.
  intros (Hok & _ & cs & Hmo & Hws & _). unfold SeekToFirst.
  destruct (mapR_children (children_ m) cs IteratorWrapper.SeekToFirst (fun _ _ => O) Hws) as (ws & -> & Hws').
  { intros w l n _. apply step_wrapped. intros it Hat. by eapply at_first. }
  cbn [mbind result_bind]. destruct (find_forward es cs Hmo ws (map (fun c : list entry * nat => (fst c, O)) cs) 0) as (c & -> & Hat); [by rewrite map_map|done|done| |lia|by eexists].
  intros j l n Hj. rewrite list_lookup_fmap in Hj. apply fmap_Some in Hj as (x & _ & [= -> ->]). apply cut_first.
Qed.

Lemma merge_last m es i : merge_at m es i -> exists m', SeekToLast m = Ret m' /\ merge_at m' es (length es - 1).
Proof.
  intros (Hok & _ & cs & Hmo & Hws & _). unfold SeekToLast.
  destruct (mapR_children (children_ m) cs IteratorWrapper.SeekToLast (fun l _ => pred_pos l (length l)) Hws) as (ws & -> & Hws').
  { intros w l n _. apply wrapped_last. }
  cbn [mbind result_bind]. destruct (find_backward es cs Hmo ws (map (fun c : list entry * nat => (fst c, pred_pos (fst c) (length (fst c)))) cs) (length es)) as (c & -> & Hat); [by rewrite map_map|done|done| |lia|].
  { intros j l n Hj. rewrite list_lookup_fmap in Hj. apply fmap_Some in Hj as (x & _ & [= -> ->]). exists (length (fst x)). split; [apply cut_last|done]. }
  eexists. split; [done|]. destruct es; cbn in *; [done|]. by rewrite Nat.sub_0_r.
Qed.

Lemma merge_seek m es i t : ok t -> merge_at m es i -> exists m', Seek m t = Ret m' /\ merge_at m' es (seek_pos t es).
Proof.
  intros Ht (Hok & _ & cs & Hmo & Hws & _). unfold Seek.
  assert (forall j l n, cs !! j = Some (l, n) -> map fst cs !! j = Some l) as Hpart by (intros j l n Hj; by rewrite list_lookup_fmap, Hj).
  destruct (mapR_children (children_ m) cs (fun w => IteratorWrapper.Seek w t) (fun l _ => seek_pos t l) Hws) as (ws & -> & Hws').
  { intros w l n [j Hj]%list_elem_of_lookup. apply wrapped_seek; [done|]. by eapply (part_sorted es _ Hmo j), Hpart. }
  cbn [mbind result_bind]. destruct (find_forward es cs Hmo ws (map (fun c : list entry * nat => (fst c, seek_pos t (fst c))) cs) (seek_pos t es)) as (c & -> & Hat); [by rewrite map_map|done|done| |apply seek_pos_le|by eexists].
  intros j l n Hj. rewrite list_lookup_fmap in Hj. apply fmap_Some in Hj as ([l' n'] & Hj & [= -> ->]). by eapply (cut_seek es _ Hmo), Hpart.
Qed.

Lemma merge_key m es i k v : merge_at m es i -> es !! i = Some (k, v) -> key m = Ret k /\ value m = Ret v.
Proof.
  intros (_ & _ & cs & Hmo & Hws & Hcur) He. unfold key, value. destruct (current_ m) as [c|]; [|apply lookup_lt_Some in He; lia].
  destruct Hcur as ((l & n & e & Hc & Hn & Hi) & _). rewrite He in Hi. injection Hi as <-.
  destruct (Forall2_lookup_r _ _ _ _ _ Hws Hc) as (w & Hw & Hwr). unfold child. rewrite Hw. cbn [mbind result_bind]. by eapply wrapped_value.
Qed.

Lemma merge_next m es i : merge_at m es i -> (i < length es)%nat -> exists m', Next m = Ret m' /\ merge_at m' es (S i).
Proof.
  intros Hm Hi. destruct (lookup_lt_is_Some_2 es i Hi) as [[k v] He]. pose proof (merge_key m es i k v Hm He) as [Hk _].
  destruct Hm as (Hok & _ & cs & Hmo & Hws & Hcur). unfold Next. destruct (current_ m) as [c|]; [|lia]. destruct Hcur as (Hat & Hdir).
  pose proof Hat as (l0 & n0 & e0 & Hc0 & Hn0 & He0). rewrite He in He0. injection He0 as <-.
  assert (forall j l n, cs !! j = Some (l, n) -> map fst cs !! j = Some l) as Hpart by (intros j l n Hj; by rewrite list_lookup_fmap, Hj).
  destruct (direction_ m).
  - apply (next_step es cs Hmo (children_ m) cs c i); try done. intros j l n Hj Hne.
    apply (cut_skip es l n i (k, v) He); [exact (other_child es cs Hmo c i (k, v) j l0 n0 l n Hc0 Hn0 He Hj Hne)|]. by eapply Hdir.
  - rewrite Hk. cbn [mbind result_bind]. assert (ok k) as Hokk by (rewrite Forall_lookup in Hok; exact (Hok i (k, v) He)).
    destruct (others_ok c (place_after k) (fun l _ => seek_pos k l) (children_ m) cs Hws) as (ws & -> & Hws').
    { intros j w l n Hj Hne Hw. assert ((k, v) ∉ l) as Hnot by exact (other_child es cs Hmo c i (k, v) j l0 n0 l n Hc0 Hn0 He Hj Hne). unfold place_after.
      destruct (wrapped_seek w l n k Hokk (part_sorted es _ Hmo j l (Hpart j l n Hj)) Hw) as (w' & -> & Hw'). cbn [mbind result_bind].
      unfold IteratorWrapper.Valid. rewrite (wr_valid _ _ _ Hw'). destruct (Nat.ltb_spec (seek_pos k l) (length l)) as [Hlt|]; [|by eexists].
      destruct (lookup_lt_is_Some_2 l _ Hlt) as [[k' v'] He']. destruct (wrapped_value _ _ _ _ _ Hw' He') as [-> _]. cbn [mbind result_bind].
      destruct (Compare k k') eqn:E; [|by eexists..]. exfalso. destruct (part_pos es _ Hmo j l _ _ (Hpart j l n Hj) He') as [q Hq].
      assert (i = q) as <- by (eapply (es_pos_unique es _ Hmo i q (k, v) (k', v')); done). rewrite He in Hq. injection Hq as <- <-.
      by apply list_elem_of_lookup_2 in He'. }
    cbn [mbind result_bind]. apply (next_step es cs Hmo ws (but c 0 (fun l _ => seek_pos k l) cs) c i); [apply but_fst|done|done| |].
    + exists l0, n0, (k, v). split; [|done]. unfold but. rewrite list_lookup_imap, Hc0. cbn. by rewrite Nat.eqb_refl.
    + intros j l n (l' & n' & Hj & E)%but_lookup Hne. apply Nat.eqb_neq in Hne as Hne'. rewrite Hne' in E. injection E as -> ->.
      apply (cut_skip es l' _ i (k, v) He); [exact (other_child es cs Hmo c i (k, v) j l0 n0 l' n' Hc0 Hn0 He Hj Hne)|]. rewrite <- (seek_pos_key es i k v (mo_sorted _ _ Hmo) He) at 1.
      by eapply (cut_seek es _ Hmo), Hpart.
Qed.

Lemma merge_prev m es i : merge_at m es i -> (i < length es)%nat -> exists m', Prev m = Ret m' /\ merge_at m' es (pred_pos es i).
Proof.
  intros Hm Hi. destruct (lookup_lt_is_Some_2 es i Hi) as [[k v] He]. pose proof (merge_key m es i k v Hm He) as [Hk _].
  destruct Hm as (Hok & _ & cs & Hmo & Hws & Hcur). unfold Prev. destruct (current_ m) as [c|]; [|lia]. destruct Hcur as (Hat & Hdir).
  pose proof Hat as (l0 & n0 & e0 & Hc0 & Hn0 & He0). rewrite He in He0. injection He0 as <-.
  assert (forall j l n, cs !! j = Some (l, n) -> map fst cs !! j = Some l) as Hpart by (intros j l n Hj; by rewrite list_lookup_fmap, Hj).
  destruct (direction_ m).
  - rewrite Hk. cbn [mbind result_bind]. assert (ok k) as Hokk by (rewrite Forall_lookup in Hok; exact (Hok i (k, v) He)).
    destruct (others_ok c (place_before k) (fun l _ => pred_pos l (seek_pos k l)) (children_ m) cs Hws) as (ws & -> & Hws').
    { intros j w l n Hj Hne Hw. unfold place_before.
      destruct (wrapped_seek w l n k Hokk (part_sorted es _ Hmo j l (Hpart j l n Hj)) Hw) as (w' & -> & Hw'). cbn [mbind result_bind].
      unfold IteratorWrapper.Valid. rewrite (wr_valid _ _ _ Hw'). destruct (Nat.ltb_spec (seek_pos k l) (length l)) as [Hlt|Hge]; [by eapply wrapped_prev|].
      pose proof (seek_pos_le k l). replace (seek_pos k l) with (length l) by lia. by eapply wrapped_last. }
    cbn [mbind result_bind]. apply (prev_step es cs Hmo ws (but c 0 (fun l _ => pred_pos l (seek_pos k l)) cs) c i); [apply but_fst|done|done| |].
    + exists l0, n0, (k, v). split; [|done]. unfold but. rewrite list_lookup_imap, Hc0. cbn. by rewrite Nat.eqb_refl.
    + intros j l n (l' & n' & Hj & E)%but_lookup Hne. apply Nat.eqb_neq in Hne as Hne'. rewrite Hne' in E. injection E as -> ->.
      exists (seek_pos k l'). split; [|done]. rewrite <- (seek_pos_key es i k v (mo_sorted _ _ Hmo) He) at 1. by eapply (cut_seek es _ Hmo), Hpart.
  - apply (prev_step es cs Hmo (children_ m) cs c i); try done. intros j l n Hj Hne.
    destruct (Hdir j l n Hj) as (n' & Hcut & ->). exists n'. split; [|done]. apply (cut_skip es l n' i (k, v) He); [exact (other_child es cs Hmo c i (k, v) j l0 n0 l (pred_pos l n') Hc0 Hn0 He Hj Hne)|done].
Qed.

Lemma first_error_ok ws cs : Forall2 (fun w (c : list entry * nat) => wrapped w (fst c) (snd c)) ws cs -> first_error ws = Status.OK.
Proof.
  induction 1 as [|w c ws cs Hw _ IH]; [done|]. cbn [first_error]. by destruct (wrapped_status _ _ _ Hw) as (it & -> & ->).
Qed.

#[global] Program Instance MergingIterator_laws : IteratorLaws (MergingIterator_ops (I := I)) := { it_at := merge_at }.
Next Obligation. by intros m es i (_ & Hi & _). Qed.
Next Obligation.
  intros m es i (_ & Hi & cs & Hmo & Hws & Hcur). unfold it_Valid, MergingIterator_ops, Valid. destruct (current_ m) as [c|].
  - destruct Hcur as ((l & n & e & _ & _ & He) & _). symmetry. apply Nat.ltb_lt. by eapply lookup_lt_Some.
  - subst i. by rewrite Nat.ltb_irrefl.
Qed.
Next Obligation. intros m es i k v Hm He. by eapply merge_key. Qed.
Next Obligation. intros m es i (_ & _ & cs & _ & Hws & _). by eapply first_error_ok. Qed.
Next Obligation. intros m es i Hm. by eapply merge_first. Qed.
Next Obligation. intros m es i Hm. by eapply merge_last. Qed.
Next Obligation. intros m es i Hm Hi. by apply merge_next. Qed.
Next Obligation. intros m es i Hm Hi. by apply merge_prev. Qed.

#[global] Instance MergingIterator_seek : SeekOn ok C MergingIterator_laws.
Proof. split. intros m es i t Ht Hm _. by eapply merge_seek. Qed.

(** A new merging iterator is not valid and ranges over the union. *)
Lemma make_merge (its : list I) (cs : list (list entry * nat)) es :
  Forall2 (fun it c => it_at it (fst c) (snd c)) its cs -> merge_of es (map fst cs) -> Forall (fun e => ok (fst e)) es ->
  exists m, make its = Ret m /\ merge_at m es (length es).
Proof.
  intros Hits Hmo Hok. assert (exists ws, mapR (fun it => IteratorWrapper.make (Some it)) its = Ret ws /\ Forall2 (fun w c => wrapped w (fst c) (snd c)) ws cs) as (ws & Hws & Hall).
  { clear Hmo Hok. induction Hits as [|it [l n] its cs Hat _ (ws & Hws & Hall)]; [by eexists|]. cbn [mapR].
    destruct (Update_wrapped it false [] l n Hat) as (w & Hw & Hwr).
    change (IteratorWrapper.make (Some it)) with (IteratorWrapper.Update (IteratorWrapper.mkWrapper (Some it) false [])). rewrite Hw.
    cbn [mbind result_bind]. rewrite Hws. cbn [mbind result_bind]. eexists. split; [done|]. by constructor. }
  unfold make. rewrite Hws. cbn [mbind result_bind]. eexists. split; [done|]. split; [done|]. split; [done|]. by exists cs.
Qed.

End merge_laws.

(** ** The other iterators behind the pointer *)

Section either_laws.
Context {A B : Type} {IA : Iterator A} {IB : Iterator B} {LA : IteratorLaws IA} {LB : IteratorLaws IB}.

Definition either_at (i : A + B) (es : list entry) (n : nat) : Prop :=
  match i with inl a => it_at a es n | inr b => it_at b es n end.

#[global] Program Instance either_laws : IteratorLaws (either_iterator (A := A) (B := B)) := { it_at := either_at }.
Next Obligation. intros [a|b] es i H; [exact (at_le a es i H)|exact (at_le b es i H)]. Qed.
Next Obligation. intros [a|b] es i H; [exact (at_valid a es i H)|exact (at_valid b es i H)]. Qed.
Next Obligation. intros [a|b] es i k v H He; [exact (at_entry a es i k v H He)|exact (at_entry b es i k v H He)]. Qed.
Next Obligation. intros [a|b] es i H; [exact (at_status a es i H)|exact (at_status b es i H)]. Qed.
Next Obligation. intros [a|b] es i H; [destruct (at_first a es i H) as (i' & Hr & H')|destruct (at_first b es i H) as (i' & Hr & H')]; cbn; rewrite Hr; by eexists. Qed.
Next Obligation. intros [a|b] es i H; [destruct (at_last a es i H) as (i' & Hr & H')|destruct (at_last b es i H) as (i' & Hr & H')]; cbn; rewrite Hr; by eexists. Qed.
Next Obligation. intros [a|b] es i H Hi; [destruct (at_next a es i H Hi) as (i' & Hr & H')|destruct (at_next b es i H Hi) as (i' & Hr & H')]; cbn; rewrite Hr; by eexists. Qed.
Next Obligation. intros [a|b] es i H Hi; [destruct (at_prev a es i H Hi) as (i' & Hr & H')|destruct (at_prev b es i H Hi) as (i' & Hr & H')]; cbn; rewrite Hr; by eexists. Qed.

#[global] Instance either_seek ok C {SA : SeekOn ok C LA} {SB : SeekOn ok C LB} : SeekOn ok C either_laws.
Proof.
  split. intros [a|b] es i t Ht H Hs; [destruct (at_seek_on a es i t Ht H Hs) as (i' & Hr & H')|destruct (at_seek_on b es i t Ht H Hs) as (i' & Hr & H')]; cbn; rewrite Hr; by eexists.
Qed.

End either_laws.

#[export] Program Instance empty_laws : IteratorLaws empty_iterator := {
  it_at e es i := EmptyIterator.status_ e = Status.OK /\ es = [] /\ i = O
}.
Next Obligation. intros e es i (_ & -> & ->). done. Qed.
Next Obligation. intros e es i (_ & -> & ->). done. Qed.
Next Obligation. intros e es i k v (_ & -> & ->) H. done. Qed.
Next Obligation. intros e es i (H & _). done. Qed.
Next Obligation. intros e es i (H & -> & ->). by exists e. Qed.
Next Obligation. intros e es i (H & -> & ->). by exists e. Qed.
Next Obligation. intros e es i (_ & -> & ->) H. cbn in H. lia. Qed.
Next Obligation. intros e es i (_ & -> & ->) H. cbn in H. lia. Qed.

#[export] Instance empty_seek ok C : SeekOn ok C empty_laws.
Proof. split. intros e es i t _ (H & -> & ->) _. by exists e. Qed.

Section merged.
Context {I : Type} {IT : Iterator I} {IL : IteratorLaws IT} {C : Comparator} {HC : ComparatorLaws C}.
Context (ok : str -> Prop) {SO : SeekOn ok C IL}.

#[global] Instance merged_laws : IteratorLaws (either_iterator (A := EmptyIterator.EmptyIterator) (B := (I + MergingIterator.MergingIterator I)%type)) :=
  either_laws (LB := either_laws (LB := MergingIterator_laws ok)).

(** [NewMergingIterator] gives an iterator over the sorted union. *)
Lemma NewMergingIterator_at (its : list I) (cs : list (list entry * nat)) es :
  Forall2 (fun it c => it_at it (fst c) (snd c)) its cs -> merge_of es (map fst cs) -> Forall (fun e => ok (fst e)) es ->
  exists m n, MergingIterator.NewMergingIterator its = Ret m /\ it_at (IteratorLaws := merged_laws) m es n.
Proof.
  intros Hits Hmo Hok. unfold MergingIterator.NewMergingIterator. destruct its as [|it [|it' its]].
  - inversion Hits; subst. pose proof (mo_perm _ _ Hmo) as Hp. cbn in Hp. apply Permutation_nil_r in Hp as ->. by exists (inl EmptyIterator.NewEmptyIterator), O.
  - inversion Hits as [|? [l n] ? ? Hat Hrest]; subst. inversion Hrest; subst. cbn in Hmo, Hat. destruct Hmo as [Hs Hp Hperm].
    cbn [concat] in Hperm. rewrite app_nil_r in Hperm. exists (inr (inl it)), n. split; [done|]. cbn.
    assert (es = l) as ->; [|done]. apply Forall_cons_1 in Hp as [Hl _]. clear -Hs Hl Hperm HC.
    apply (StronglySorted_unique_strong (fun a b => Compare (fst a) (fst b) = Lt)); [|done|done|done].
    intros a b _ _ Hab Hba. pose proof (cmp_trans _ _ _ Hab Hba) as H. by rewrite cmp_refl in H.
  - destruct (make_merge ok (it :: it' :: its) cs es Hits Hmo Hok) as (m & -> & Hm). cbn [mbind result_bind].
    by exists (inr (inr m)), (length es).
Qed.

#[global] Instance merged_seek : SeekOn ok C merged_laws.
Proof. unfold merged_laws. apply either_seek; [apply _|apply either_seek; apply _]. Qed.


End merged.

(** ** Witness: two blocks *)

Definition demo_more : list entry := [($"apricot", $"6"); ($"bandit", $"7")].
Definition demo_block2 : str := match build_block 1 demo_more with Ret d => d | _ => [] end.
Definition demo_iter2 : Block.BlockIterator :=
  match Block.NewIterator (Block.make demo_block2) with Ret it => it | _ => inl EmptyIterator.NewEmptyIterator end.
Definition demo_union : list entry :=
  [($"apple", $"1"); ($"apply", $"two"); ($"apricot", $"6"); ($"banana", $""); ($"bandana", $"4"); ($"bandit", $"7"); ($"cherry", $"five")].

Lemma demo_iter_at interval es data it : 1 <= interval <= INT_MAX -> keys_sorted es -> block_room es + 8 < 2 ^ 32 ->
  build_block interval es = Ret data -> Block.NewIterator (Block.make data) = Ret it -> it_at it es (length es).
Proof.
  intros Hi Hs Hr Hb Hn. destruct (build_block_ok interval Hi es Hs Hr) as (data' & ss & rs & Hb' & L & Hm).
  destruct (NewIterator_layout BytewiseComparator data' ss rs L) as (it' & Hn' & Hat).
  replace data' with data in * by congruence. replace it' with it in * by congruence. rewrite <- Hm at 2. by rewrite length_map, <- Hm.
Qed.

Lemma demo_iter_1 : it_at demo_iter demo_entries 5.
Proof. apply (demo_iter_at 2 demo_entries demo_block); [unfold INT_MAX; lia|apply demo_sorted|vm_compute; done..]. Qed.

Lemma demo_iter_2 : it_at demo_iter2 demo_more 2.
Proof. apply (demo_iter_at 1 demo_more demo_block2); [unfold INT_MAX; lia|repeat constructor|vm_compute; done..]. Qed.

Lemma demo_merge_of : merge_of demo_union [demo_entries; demo_more].
Proof.
  split; [repeat constructor|repeat constructor|]. cbn. do 2 apply perm_skip.
  apply (Permutation_cons_app [_; _; _] [_]). cbn. do 2 apply perm_skip. apply perm_swap.
Qed.

