(* ===== verification/SkipList.v ===== *)
(** * leveldb: the skip list

    [util/random.h] and [db/skiplist.h].  The nodes live in an arena that only
    grows, so a [Node*] is the index of a node in the list of allocated nodes, and
    [head_] is the first.  The barriers of the links order the stores for concurrent
    readers; the model is the sequential behaviour of the operations. *)

From Stdlib Require Import ZArith Lia.
From S2P Require Import Prelude CString.

(** ** Random *)

Module Random.

Definition M : Z := 2147483647.
Definition A : Z := 16807.

Definition make (s : Z) : Z :=
  let seed := Z.land s 0x7fffffff in
  if (seed =? 0) || (seed =? 2147483647) then 1 else seed.

(** The value returned is the new seed. *)
Definition Next (seed : Z) : Z :=
  let product := u64 (seed * A) in
  let seed := u32 (Z.shiftr product 31 + Z.land product M) in
  if M <? seed then u32 (seed - M) else seed.

(** The value and the new seed. *)
Definition Uniform (seed n : Z) : Z * Z := let seed := Next seed in (seed mod n, seed).
Definition OneIn (seed n : Z) : bool * Z := let seed := Next seed in (seed mod n =? 0, seed).

Definition Skewed (seed max_log : Z) : result (Z * Z) :=
  n ← int_check (max_log + 1);
  let '(e, seed) := Uniform seed n in
  range ← int_check (Z.shiftl 1 e);
  Ret (Uniform seed range).

(** The two reductions compute the remainder, and the seeds stay off 0 and [M]. *)
Lemma Next_mod s : 1 <= s < M -> Next s = (s * A) mod M /\ 1 <= Next s < M.
Proof.
  unfold M, A. intros Hs. unfold Next, A, M. rewrite (wrap_small 64) by lia.
  set (p := s * 16807). assert (0 < p < 2147483647 * 16807) as Hp by (unfold p; lia).
  change (Z.land p 2147483647) with (Z.land p (Z.ones 31)). rewrite Z.land_ones, Z.shiftr_div_pow2 by lia.
  change (2 ^ 31) with 2147483648. pose proof (Z.div_mod p 2147483648 ltac:(lia)) as Hd.
  pose proof (Z.mod_pos_bound p 2147483648 ltac:(lia)) as Hm. set (hi := p / 2147483648) in *. set (lo := p mod 2147483648) in *.
  assert (0 <= hi < 16807) as Hh by (unfold hi; split; [apply Z.div_pos; lia|apply Z.div_lt_upper_bound; lia]).
  rewrite (wrap_small 32) by lia.
  assert (p mod 2147483647 = (hi + lo) mod 2147483647) as E.
  { rewrite Hd. replace (2147483648 * hi + lo) with (hi + lo + hi * 2147483647) by lia. apply Z_mod_plus_full. }
  assert (p mod 2147483647 <> 0) as Hn.
  { intros H0%Z.mod_divide; [|lia]. unfold p in H0. rewrite Z.mul_comm in H0. apply Z.gauss in H0; [|done].
    apply Z.divide_pos_le in H0; lia. }
  pose proof (Z.mod_pos_bound p 2147483647 ltac:(lia)) as Hb.
  destruct (Z.ltb_spec 2147483647 (hi + lo)) as [Hlt|Hge].
  - rewrite (wrap_small 32) by lia. replace (p mod 2147483647) with (hi + lo - 2147483647) in *; [lia|].
    rewrite E. symmetry. replace (hi + lo) with (hi + lo - 2147483647 + 1 * 2147483647) at 1 by lia.
    rewrite Z_mod_plus_full. apply Z.mod_small. lia.
  - assert (hi + lo <> 2147483647) as Hne by (intros H0; rewrite H0, Z_mod_same_full in E; lia).
    rewrite (Z.mod_small (hi + lo)) in E by lia. lia.
Qed.

End Random.

(** ** SkipList *)

(** The template argument [Comparator]: its call operator, for keys of type [A]. *)
Class KeyCompare (A : Type) := { compare_ : A -> A -> result comparison }.
#[export] Hint Mode KeyCompare ! : typeclass_instances.

Module SkipList.

Definition kMaxHeight : nat := 12.

(** The key of [head_] is never looked at; [nd_next] has as many links as the node
    is high. *)
Record Node (A : Type) := mkNode { nd_key : option A; nd_next : list (option nat) }.
Arguments mkNode {A} _ _.
Arguments nd_key {A} _.
Arguments nd_next {A} _.

Record SkipList (A : Type) := mkList { nodes : list (Node A); max_height_ : nat; rnd_ : Z }.
Arguments mkList {A} _ _ _.
Arguments nodes {A} _.
Arguments max_height_ {A} _.
Arguments rnd_ {A} _.

Definition head_ : nat := 0.

Section ops.
Context {A : Type} `{KC : !KeyCompare A}.
Implicit Types (ns : list (Node A)) (l : SkipList A) (key : A) (x : nat) (n level : nat).

Definition Next ns x n : result (option nat) :=
  match ns !! x with
  | Some nd => match nd_next nd !! n with Some p => Ret p | None => Crash OutOfBounds end
  | None => Crash OutOfBounds
  end.

Definition SetNext ns x n (p : option nat) : result (list (Node A)) :=
  match ns !! x with
  | Some nd =>
      if (n <? length (nd_next nd))%nat
      then Ret (<[x := mkNode (nd_key nd) (<[n := p]> (nd_next nd))]> ns)
      else Crash OutOfBounds
  | None => Crash OutOfBounds
  end.

Definition node_key ns x : result A :=
  match ns !! x with
  | Some nd => match nd_key nd with Some k => Ret k | None => Crash NullDeref end
  | None => Crash OutOfBounds
  end.

(** A new node: the arena gives fresh memory, its links are not set. *)
Definition NewNode ns key (height : nat) : nat * list (Node A) :=
  (length ns, ns ++ [mkNode (Some key) (replicate height None)]).

Definition make : SkipList A :=
  mkList [mkNode None (replicate kMaxHeight None)] 1 (Random.make 0xdeadbeef).

(** [while (height < kMaxHeight && rnd_.OneIn(kBranching)) height++], [n] the room
    left below [kMaxHeight]. *)
Fixpoint grow (n height : nat) (rnd : Z) : nat * Z :=
  match n with
  | O => (height, rnd)
  | S n => let '(b, rnd) := Random.OneIn rnd 4 in if b then grow n (S height) rnd else (height, rnd)
  end.
Definition RandomHeight (rnd : Z) : nat * Z := grow (kMaxHeight - 1) 1 rnd.

Definition KeyIsAfterNode ns key (n : option nat) : result bool :=
  match n with
  | None => Ret false
  | Some x => k ← node_key ns x; c ← compare_ k key; Ret (match c with Lt => true | _ => false end)
  end.

(** The steps of a search: a node is left behind, or the level goes down. *)
Definition search_fuel ns : nat := length ns + kMaxHeight.

Fixpoint find_greater_or_equal (fuel : nat) ns key (prev : list (option nat)) x level :
    result (option nat * list (option nat)) :=
  match fuel with
  | O => Crash OutOfFuel
  | S f =>
      next ← Next ns x level;
      after ← KeyIsAfterNode ns key next;
      match (after : bool), next with
      | true, Some y => find_greater_or_equal f ns key prev y level
      | true, None => Crash NullDeref
      | false, _ =>
          let prev := <[level := Some x]> prev in
          match level with
          | O => Ret (next, prev)
          | S level => find_greater_or_equal f ns key prev x level
          end
      end
  end.

(** The node and the array [prev], whose entries the caller has not set; a caller
    that passes a null pointer does not look at the array. *)
Definition FindGreaterOrEqual l key : result (option nat * list (option nat)) :=
  find_greater_or_equal (search_fuel (nodes l)) (nodes l) key (replicate kMaxHeight None) head_ (max_height_ l - 1).

Fixpoint find_less_than (fuel : nat) ns key x level : result nat :=
  match fuel with
  | O => Crash OutOfFuel
  | S f =>
      before ← (if (x =? head_)%nat then Ret true else KeyIsAfterNode ns key (Some x));
      if negb (before : bool) then Crash AssertFailed
      else
        next ← Next ns x level;
        after ← KeyIsAfterNode ns key next;
        match (after : bool), next with
        | true, Some y => find_less_than f ns key y level
        | true, None => Crash NullDeref
        | false, _ => match level with O => Ret x | S level => find_less_than f ns key x level end
        end
  end.

Definition FindLessThan l key : result nat :=
  find_less_than (search_fuel (nodes l)) (nodes l) key head_ (max_height_ l - 1).

Fixpoint find_last (fuel : nat) ns x level : result nat :=
  match fuel with
  | O => Crash OutOfFuel
  | S f =>
      next ← Next ns x level;
      match next with
      | None => match level with O => Ret x | S level => find_last f ns x level end
      | Some y => find_last f ns y level
      end
  end.

Definition FindLast l : result nat := find_last (search_fuel (nodes l)) (nodes l) head_ (max_height_ l - 1).

(** One turn of the loop that links the new node [x] in at level [i]. *)
Definition link x (prev : list (option nat)) ns (i : nat) : result (list (Node A)) :=
  match prev !! i with
  | Some (Some p) => next ← Next ns p i; ns ← SetNext ns x i next; SetNext ns p i (Some x)
  | _ => Crash Uninitialized
  end.

Definition Insert l key : result (SkipList A) :=
  q ← FindGreaterOrEqual l key;
  let '(x, prev) := (q : option nat * list (option nat)) in
  equal ← (match x with
           | None => Ret false
           | Some x => k ← node_key (nodes l) x; c ← compare_ key k; Ret (match c with Eq => true | _ => false end)
           end);
  if (equal : bool) then Crash AssertFailed
  else
    let '(height, rnd) := RandomHeight (rnd_ l) in
    let '(prev, max_height) :=
      if (max_height_ l <? height)%nat
      then (foldl (fun prev i => <[i := Some head_]> prev) prev (seq (max_height_ l) (height - max_height_ l)), height)
      else (prev, max_height_ l) in
    let '(x, ns) := NewNode (nodes l) key height in
    ns ← foldR (link x prev) ns (seq 0 height);
    Ret (mkList ns max_height rnd).

Definition Contains l key : result bool :=
  q ← FindGreaterOrEqual l key;
  match fst (q : option nat * list (option nat)) with
  | Some x => k ← node_key (nodes l) x; c ← compare_ key k; Ret (match c with Eq => true | _ => false end)
  | None => Ret false
  end.

(** *** The iterator *)

(** [list_] and [node_]; the list is not changed while the iterator is used. *)
Record Iterator := mkIter { list_ : SkipList A; node_ : option nat }.

Definition NewIterator l : Iterator := mkIter l None.
Definition Valid (it : Iterator) : bool := match node_ it with Some _ => true | None => false end.
Definition key (it : Iterator) : result A :=
  match node_ it with Some x => node_key (nodes (list_ it)) x | None => Crash AssertFailed end.

Definition not_head x : option nat := if (x =? head_)%nat then None else Some x.

Definition IterNext (it : Iterator) : result Iterator :=
  match node_ it with
  | Some x => p ← Next (nodes (list_ it)) x 0; Ret (mkIter (list_ it) p)
  | None => Crash AssertFailed
  end.
Definition Prev (it : Iterator) : result Iterator :=
  match node_ it with
  | Some x =>
      k ← node_key (nodes (list_ it)) x;
      y ← FindLessThan (list_ it) k;
      Ret (mkIter (list_ it) (not_head y))
  | None => Crash AssertFailed
  end.
Definition Seek (it : Iterator) (target : A) : result Iterator :=
  q ← FindGreaterOrEqual (list_ it) target;
  Ret (mkIter (list_ it) (fst (q : option nat * list (option nat)))).
Definition SeekToFirst (it : Iterator) : result Iterator :=
  p ← Next (nodes (list_ it)) head_ 0; Ret (mkIter (list_ it) p).
Definition SeekToLast (it : Iterator) : result Iterator :=
  y ← FindLast (list_ it); Ret (mkIter (list_ it) (not_head y)).

End ops.
Arguments Iterator A : clear implicits.
End SkipList.
