(* ===== verification/SkipListSpec.v ===== *)
(** * The skip list as a sorted list

    The state invariant of the skip list ([rep]: the nodes linked at level 0 are the
    keys in order, and the link of a node at a level is the next node high enough),
    and that every operation keeps it and answers for the sorted list of keys. *)

From Stdlib Require Import ZArith Lia.
From S2P Require Import Prelude CString SkipList.
Import SkipList.

(** The comparator agrees with an order on the keys in use. *)
Class KeyOrder {A : Type} (KC : KeyCompare A) := {
  key_ok : A -> Prop;
  key_order : A -> A -> comparison;
  compare_order a b : key_ok a -> key_ok b -> compare_ a b = Ret (key_order a b);
  order_flip a b : key_order b a = CompOpp (key_order a b);
  order_trans a b c : key_order a b = Lt -> key_order b c = Lt -> key_order a c = Lt;
  order_eq_r a b c : key_order a b = Eq -> key_order c a = key_order c b
}.

Lemma find_app {A} (f : A -> bool) l1 l2 :
  find f (l1 ++ l2) = match find f l1 with Some x => Some x | None => find f l2 end.
Proof. induction l1 as [|x l1 IH]; simpl; [done|]. by destruct (f x). Qed.

Lemma find_split {A} (f : A -> bool) l :
  (exists l1 x l2, l = l1 ++ x :: l2 /\ find f l = Some x /\ f x = true /\ Forall (fun y => f y = false) l1) \/
  (find f l = None /\ Forall (fun y => f y = false) l).
Proof.
  induction l as [|x l [(l1 & y & l2 & -> & Hf & Hy & H1)|[Hf Hl]]]; simpl; [by right| |].
  - left. destruct (f x) eqn:Ex; [by exists [], x, (l1 ++ y :: l2)|]. exists (x :: l1), y, l2. split_and!; auto.
  - destruct (f x) eqn:Ex; [left; by exists [], x, l|right; auto].
Qed.

Lemma elem_of_middle {A} (x : A) l1 l2 : x ∈ l1 ++ x :: l2.
Proof. apply elem_of_app. right. constructor. Qed.

(** A node of [h :: b] other than [h] is in [b]. *)
Lemma elem_of_tail {A} (h x : A) b p m : h :: b = p ++ x :: m -> p <> [] -> x ∈ b.
Proof. destruct p as [|y p]; [done|]. intros [= -> ->] _. apply elem_of_middle. Qed.

Lemma fill_lookup {B} (v : B) (prev : list B) st n j :
  (st + n <= length prev)%nat ->
  foldl (fun prev i => <[i := v]> prev) prev (seq st n) !! j = if decide (st <= j < st + n)%nat then Some v else prev !! j.
Proof.
  revert prev st. induction n as [|n IH]; intros prev st Hl; cbn [seq foldl]; [by rewrite decide_False by lia|].
  rewrite IH by (rewrite length_insert; lia). destruct (decide (j = st)) as [->|Hne].
  - rewrite decide_False, decide_True, list_lookup_insert_eq by lia. done.
  - rewrite list_lookup_insert_ne by done. destruct (decide (S st <= j < S st + n)%nat); [by rewrite decide_True by lia|by rewrite decide_False by lia].
Qed.

Lemma find_ext {B} (f g : B -> bool) s : Forall (fun y => f y = g y) s -> find f s = find g s.
Proof. induction 1 as [|y s E H IH]; [done|]. cbn. by rewrite E, IH. Qed.

Lemma split_unique {B} (p p' m m' : list B) y : NoDup (p ++ y :: m) -> p ++ y :: m = p' ++ y :: m' -> m = m'.
Proof.
  revert p'. induction p as [|z p IH]; intros [|z' p'] Hn E; simplify_eq/=; try done.
  - exfalso. apply NoDup_cons in Hn as [Hn _]. apply Hn, elem_of_middle.
  - exfalso. apply NoDup_cons in Hn as [Hn _]. apply Hn, elem_of_middle.
  - apply NoDup_cons in Hn as [_ Hn]. by eapply IH.
Qed.

Lemma last_unique {B} (f : B -> bool) p p' m m' y y' :
  p ++ y :: m = p' ++ y' :: m' -> f y = true -> f y' = true ->
  Forall (fun z => f z = false) m -> Forall (fun z => f z = false) m' -> y = y'.
Proof.
  intros E Hy Hy' Hm Hm'.
  assert (forall q z r, f z = true -> Forall (fun w => f w = false) r -> find f (rev (q ++ z :: r)) = Some z) as H.
  { intros q z r Hz Hr. rewrite rev_app_distr. cbn [rev]. rewrite <- app_assoc, find_app.
    destruct (find_split f (rev r)) as [(l1 & w & l2 & Er & _ & Hw & _)|[-> _]]; [|cbn; by rewrite Hz].
    rewrite Forall_forall in Hr. rewrite (Hr w) in Hw; [done|]. apply list_elem_of_In, in_rev. rewrite Er. apply in_elt. }
  pose proof (H p y m Hy Hm) as H1. rewrite E, (H p' y' m' Hy' Hm') in H1. congruence.
Qed.

Section spec.
Context {A : Type} {KC : KeyCompare A} {KO : KeyOrder KC}.
Implicit Types (ns : list (Node A)) (l : SkipList A) (k t : A) (x y i : nat) (b a ids : list nat).

Definition hgt ns i : nat := match ns !! i with Some nd => length (nd_next nd) | None => O end.
Definition above ns (lev : nat) i : bool := (lev <? hgt ns i)%nat.
Definition has_key ns i k : Prop := exists nx, ns !! i = Some (mkNode (Some k) nx).

(** The links of the node [x], when [s] are the nodes after it. *)
Definition links ns x (s : list nat) : Prop :=
  forall lev nx ok, ns !! x = Some (mkNode ok nx) -> (lev < length nx)%nat -> nx !! lev = Some (find (above ns lev) s).

Fixpoint linked ns (xs : list nat) : Prop :=
  match xs with [] => True | x :: s => links ns x s /\ linked ns s end.

Record inv l ids ks : Prop := {
  inv_head : exists nx, nodes l !! head_ = Some (mkNode None nx) /\ length nx = kMaxHeight;
  inv_ids : NoDup (head_ :: ids) /\ forall i, i ∈ head_ :: ids <-> (i < length (nodes l))%nat;
  inv_keys : Forall2 (has_key (nodes l)) ids ks;
  inv_ok : Forall key_ok ks;
  inv_height : Forall (fun i => 1 <= hgt (nodes l) i <= max_height_ l)%nat ids;
  inv_max : (1 <= max_height_ l <= kMaxHeight)%nat;
  inv_sorted : StronglySorted (fun k k' => key_order k k' = Lt) ks;
  inv_linked : linked (nodes l) (head_ :: ids)
}.

(** The skip list holds these keys, in order. *)
Definition rep l ks : Prop := exists ids, inv l ids ks.

Lemma linked_app ns p x s : linked ns (p ++ x :: s) -> links ns x s.
Proof. induction p as [|y p IH]; simpl; [by intros [? _]|by intros [_ ?%IH]]. Qed.

Lemma Next_links ns x s lev : links ns x s -> above ns lev x = true -> Next ns x lev = Ret (find (above ns lev) s).
Proof.
  intros Hl Hx%Nat.ltb_lt. unfold Next. unfold hgt in Hx. destruct (ns !! x) as [[k nx]|] eqn:E; [|lia]. cbn [nd_next] in *.
  by rewrite (Hl lev nx k E Hx).
Qed.

Lemma node_key_has ns i k : has_key ns i k -> node_key ns i = Ret k.
Proof. intros [nx E]. unfold node_key. by rewrite E. Qed.

(** *** Searches *)

Section search.
Context l ids ks (I : inv l ids ks) t (Ht : key_ok t).
Abbreviation ns := (nodes l).

(** The nodes before and from the target on. *)
Context b a kb ka (Eids : ids = b ++ a) (Hb : Forall2 (has_key ns) b kb) (Ha : Forall2 (has_key ns) a ka)
  (Hokb : Forall key_ok kb) (Hoka : Forall key_ok ka)
  (Hlt : Forall (fun k => key_order k t = Lt) kb) (Hge : Forall (fun k => key_order k t <> Lt) ka).

Lemma before_b x : x ∈ b -> KeyIsAfterNode ns t (Some x) = Ret true.
Proof using Hb Hokb Hlt Ht.
  intros (j & Hj)%list_elem_of_lookup. destruct (Forall2_lookup_l _ _ _ _ _ Hb Hj) as (k & Hk & Hh).
  unfold KeyIsAfterNode. rewrite (node_key_has _ _ _ Hh). cbn [mbind result_bind].
  rewrite Forall_lookup in Hokb, Hlt. rewrite compare_order by eauto. cbn. by rewrite (Hlt _ _ Hk).
Qed.

Lemma before_a x : x ∈ a -> KeyIsAfterNode ns t (Some x) = Ret false.
Proof using Ha Hoka Hge Ht.
  intros (j & Hj)%list_elem_of_lookup. destruct (Forall2_lookup_l _ _ _ _ _ Ha Hj) as (k & Hk & Hh).
  unfold KeyIsAfterNode. rewrite (node_key_has _ _ _ Hh). cbn [mbind result_bind].
  rewrite Forall_lookup in Hoka, Hge. rewrite compare_order by eauto. cbn. specialize (Hge _ _ Hk). by destruct (key_order k t).
Qed.

Lemma before_find lev : KeyIsAfterNode ns t (find (above ns lev) a) = Ret false.
Proof using Ha Hoka Hge Ht.
  destruct (find_split (above ns lev) a) as [(l1 & x & l2 & E & -> & _)|[-> _]]; [|done]. apply before_a. rewrite E. apply elem_of_middle.
Qed.

(** The last node of [head_ :: b] that is higher than the level. *)
Definition last_above (lev : nat) x : Prop :=
  exists p m, head_ :: b = p ++ x :: m /\ above ns lev x = true /\ Forall (fun y => above ns lev y = false) m.

(** The link of a node before the target. *)
Lemma next_cases p x m lev :
  head_ :: b = p ++ x :: m -> above ns lev x = true ->
  (exists m1 y m2, m = m1 ++ y :: m2 /\ Next ns x lev = Ret (Some y) /\ y ∈ b /\ above ns lev y = true) \/
  (Next ns x lev = Ret (find (above ns lev) a) /\ last_above lev x).
Proof using I Eids.
  intros Ep Hx. assert (links ns x (m ++ a)) as Hl.
  { apply (linked_app ns p). pose proof (inv_linked _ _ _ I) as HL. rewrite Eids in HL.
    by change (head_ :: b ++ a) with ((head_ :: b) ++ a) in HL; rewrite Ep, <- app_assoc in HL. }
  rewrite (Next_links _ _ _ _ Hl Hx), find_app.
  destruct (find_split (above ns lev) m) as [(m1 & y & m2 & -> & -> & Hy & _)|[-> Hm]].
  - left. exists m1, y, m2. split_and!; try done. apply (elem_of_tail head_ y b (p ++ x :: m1) m2); [by rewrite <- app_assoc|by destruct p].
  - right. split; [done|]. by exists p, m.
Qed.

Lemma above_zero x : x ∈ ids -> above ns 0 x = true.
Proof using I. intros Hx. pose proof (inv_height _ _ _ I) as Hh. rewrite Forall_forall in Hh. apply Nat.ltb_lt. specialize (Hh x Hx). lia. Qed.

Lemma find_zero : find (above ns 0) a = head a.
Proof using All. destruct a as [|x a']; [done|]. cbn [find head]. rewrite above_zero; [done|]. rewrite Eids. apply elem_of_middle. Qed.

Lemma last_zero x : last_above 0 x -> exists p, head_ :: b = p ++ [x].
Proof using I Eids.
  intros (p & m & E & _ & Hm). exists p. destruct m as [|y m]; [done|]. apply Forall_cons_1 in Hm as [Hy _].
  rewrite above_zero in Hy; [done|]. rewrite Eids. apply elem_of_app. left.
  apply (elem_of_tail head_ y b (p ++ [x]) m); [by rewrite <- app_assoc|by destruct p].
Qed.

Lemma above_down lev x : above ns (S lev) x = true -> above ns lev x = true.
Proof. unfold above. rewrite !Nat.ltb_lt. lia. Qed.

Lemma find_greater_or_equal_ok fuel prev p x m lev :
  head_ :: b = p ++ x :: m -> above ns lev x = true -> (lev < length prev)%nat -> (length m + lev < fuel)%nat ->
  exists prev', find_greater_or_equal fuel ns t prev x lev = Ret (head a, prev') /\ length prev' = length prev /\
    (forall j, (j <= lev)%nat -> exists y, prev' !! j = Some (Some y) /\ last_above j y) /\
    (forall j, (lev < j)%nat -> prev' !! j = prev !! j).
Proof using All.
  revert prev p x m lev. induction fuel as [|f IH]; intros prev p x m lev Ep Hx Hlev Hf; [lia|]. cbn [find_greater_or_equal].
  destruct (next_cases p x m lev Ep Hx) as [(m1 & y & m2 & -> & -> & Hy & Hay)|[-> Hlast]]; cbn [mbind result_bind].
  - rewrite before_b by done. rewrite length_app in Hf. cbn [length] in Hf.
    apply (IH prev (p ++ x :: m1) y m2 lev); [by rewrite <- app_assoc|done|done|lia].
  - rewrite before_find. cbn [mbind result_bind]. destruct lev as [|lev].
    + rewrite find_zero. eexists. split; [done|]. rewrite length_insert. split; [done|]. split.
      * intros j Hj. replace j with O by lia. exists x. by rewrite list_lookup_insert_eq.
      * intros j Hj. by rewrite list_lookup_insert_ne by lia.
    + destruct (IH (<[S lev := Some x]> prev) p x m lev) as (prev' & -> & Hl & H1 & H2);
        [done|by apply above_down|rewrite length_insert; lia|lia|].
      rewrite length_insert in Hl. exists prev'. split; [done|]. split; [done|]. split.
      * intros j Hj. destruct (decide (j = S lev)) as [->|Hne]; [|apply H1; lia].
        exists x. by rewrite H2, list_lookup_insert_eq by lia.
      * intros j Hj. by rewrite H2, list_lookup_insert_ne by lia.
Qed.

Lemma find_less_than_ok fuel p x m lev :
  head_ :: b = p ++ x :: m -> above ns lev x = true -> (length m + lev < fuel)%nat ->
  exists y, find_less_than fuel ns t x lev = Ret y /\ last_above 0 y.
Proof using All.
  revert p x m lev. induction fuel as [|f IH]; intros p x m lev Ep Hx Hf; [lia|]. cbn [find_less_than].
  assert ((if (x =? head_)%nat then Ret true else KeyIsAfterNode ns t (Some x)) = Ret true) as ->.
  { destruct (Nat.eqb_spec x head_); [done|]. apply before_b. apply (elem_of_tail head_ x b p m Ep). intros ->. by injection Ep. }
  cbn [mbind result_bind negb].
  destruct (next_cases p x m lev Ep Hx) as [(m1 & y & m2 & -> & -> & Hy & Hay)|[-> Hlast]]; cbn [mbind result_bind].
  - rewrite before_b by done. rewrite length_app in Hf. cbn [length] in Hf.
    apply (IH (p ++ x :: m1) y m2 lev); [by rewrite <- app_assoc|done|lia].
  - rewrite before_find. cbn [mbind result_bind]. destruct lev as [|lev]; [by exists x|].
    apply (IH p x m); [done|by apply above_down|lia].
Qed.

Lemma start_ok lev : (lev < kMaxHeight)%nat -> above ns lev head_ = true.
Proof using I. intros Hl. destruct (inv_head _ _ _ I) as (nx & E & Hn). unfold above, hgt. rewrite E. cbn. rewrite Hn. by apply Nat.ltb_lt. Qed.

Lemma fuel_ok lev : (lev < kMaxHeight)%nat -> (length b + lev < search_fuel ns)%nat.
Proof using I Eids.
  intros Hl. destruct (inv_ids _ _ _ I) as [Hnd Hin]. unfold search_fuel.
  assert (length (head_ :: ids) <= length ns)%nat as Hle.
  { replace (length ns) with (length (seq 0 (length ns))) by apply length_seq. apply NoDup_incl_length; [by apply NoDup_ListNoDup|].
    intros y Hy%list_elem_of_In. apply in_seq. apply Hin in Hy. lia. }
  rewrite Eids in Hle. cbn [length] in Hle. rewrite length_app in Hle. lia.
Qed.

Lemma FindGreaterOrEqual_ok :
  exists prev, FindGreaterOrEqual l t = Ret (head a, prev) /\ length prev = kMaxHeight /\
    (forall j, (j < max_height_ l)%nat -> exists y, prev !! j = Some (Some y) /\ last_above j y).
Proof using All.
  pose proof (inv_max _ _ _ I). unfold FindGreaterOrEqual.
  destruct (find_greater_or_equal_ok (search_fuel ns) (replicate kMaxHeight None) [] head_ b (max_height_ l - 1)) as (prev & -> & Hl & H1 & _);
    [done|apply start_ok; lia|rewrite length_replicate; lia|apply fuel_ok; lia|].
  rewrite length_replicate in Hl. exists prev. split_and!; [done|done|]. intros j Hj. apply H1. lia.
Qed.

Lemma FindLessThan_ok : exists p y, FindLessThan l t = Ret y /\ head_ :: b = p ++ [y].
Proof using All.
  pose proof (inv_max _ _ _ I). unfold FindLessThan.
  destruct (find_less_than_ok (search_fuel ns) [] head_ b (max_height_ l - 1)) as (y & -> & Hy);
    [done|apply start_ok; lia|apply fuel_ok; lia|].
  destruct (last_zero y Hy) as [p E]. by exists p, y.
Qed.

End search.
(** *** The last node *)

Lemma find_last_ok l ids ks fuel p x m lev :
  inv l ids ks -> head_ :: ids = p ++ x :: m -> above (nodes l) lev x = true -> (length m + lev < fuel)%nat ->
  exists y, find_last fuel (nodes l) x lev = Ret y /\ exists p, head_ :: ids = p ++ [y].
Proof.
  intros I. revert p x m lev. induction fuel as [|f IH]; intros p x m lev Ep Hx Hf; [lia|]. cbn [find_last].
  destruct (next_cases l ids ks I ids [] (eq_sym (app_nil_r ids)) p x m lev Ep Hx) as [(m1 & y & m2 & -> & -> & Hy & Hay)|[-> Hlast]];
    cbn [mbind result_bind find].
  - rewrite length_app in Hf. cbn [length] in Hf. apply (IH (p ++ x :: m1) y m2 lev); [by rewrite <- app_assoc|done|lia].
  - destruct lev as [|lev].
    + exists x. split; [done|]. by apply (last_zero l ids ks I ids [] (eq_sym (app_nil_r ids))).
    + apply (IH p x m); [done|by apply above_down|lia].
Qed.

Lemma FindLast_ok l ids ks : inv l ids ks -> exists p y, FindLast l = Ret y /\ head_ :: ids = p ++ [y].
Proof.
  intros I. pose proof (inv_max _ _ _ I). unfold FindLast.
  destruct (find_last_ok l ids ks (search_fuel (nodes l)) [] head_ ids (max_height_ l - 1)) as (y & -> & p & E); [done|done| | |by exists p, y].
  - eapply start_ok; [done|lia].
  - eapply (fuel_ok l ids ks I ids [] (eq_sym (app_nil_r ids))). lia.
Qed.

(** *** Insertion *)

Lemma grow_bounds n h rnd : (h <= fst (grow n h rnd) <= h + n)%nat.
Proof.
  revert h rnd. induction n as [|n IH]; intros h rnd; cbn [grow]; [simpl; lia|].
  destruct (Random.OneIn rnd 4) as [[] r]; [|simpl; lia]. specialize (IH (S h) r). lia.
Qed.

Lemma RandomHeight_bounds rnd : (1 <= fst (RandomHeight rnd) <= kMaxHeight)%nat.
Proof. unfold RandomHeight. pose proof (grow_bounds (kMaxHeight - 1) 1 rnd). unfold kMaxHeight in *. lia. Qed.

Lemma linked_intro ns xs : (forall p y m, xs = p ++ y :: m -> links ns y m) -> linked ns xs.
Proof.
  induction xs as [|x xs IH]; intros H; [done|]. split; [by apply (H [])|]. apply IH. intros p y m ->. by apply (H (x :: p)).
Qed.

Lemma SetNext_ok ns x n (p : option nat) nd :
  ns !! x = Some nd -> (n < length (nd_next nd))%nat -> SetNext ns x n p = Ret (<[x := mkNode (nd_key nd) (<[n := p]> (nd_next nd))]> ns).
Proof. intros E Hn. unfold SetNext. by rewrite E, (proj2 (Nat.ltb_lt _ _) Hn). Qed.

Section insert.
Context l ids ks (I : inv l ids ks) b a (Eids : ids = b ++ a) (k : A) (h : nat).
Context (pv : nat -> nat) (prev : list (option nat))
  (Hprev : forall j, (j < h)%nat -> prev !! j = Some (Some (pv j)) /\ last_above l b j (pv j)).

Definition new_nodes : list (Node A) := nodes l ++ [mkNode (Some k) (replicate h None)].

(** The nodes after the links below level [i] are set. *)
Definition relinked (i : nat) (ns' : list (Node A)) : Prop :=
  length ns' = length new_nodes /\
  forall y nd, new_nodes !! y = Some nd -> exists nx, ns' !! y = Some (mkNode (nd_key nd) nx) /\ length nx = length (nd_next nd) /\
    forall lev, (lev < length nx)%nat -> nx !! lev =
      if (lev <? i)%nat then
        if (y =? length (nodes l))%nat then Some (find (above (nodes l) lev) a)
        else if (y =? pv lev)%nat then Some (Some (length (nodes l))) else nd_next nd !! lev
      else nd_next nd !! lev.

Lemma pv_old j : (j < h)%nat -> (pv j < length (nodes l))%nat.
Proof.
  intros Hj. destruct (Hprev j Hj) as (_ & p & m & E & _). destruct (inv_ids _ _ _ I) as [_ Hin]. apply Hin. rewrite Eids.
  change (head_ :: b ++ a) with ((head_ :: b) ++ a). rewrite E, <- app_assoc. apply elem_of_middle.
Qed.

Lemma pv_next j nd : (j < h)%nat -> nodes l !! pv j = Some nd -> (j < length (nd_next nd))%nat /\ nd_next nd !! j = Some (find (above (nodes l) j) a).
Proof.
  intros Hj Hnd. destruct (Hprev j Hj) as (_ & p & m & E & Hab & Hm). unfold above, hgt in Hab. rewrite Hnd in Hab. apply Nat.ltb_lt in Hab.
  split; [done|]. destruct nd as [ko nx]. cbn [nd_next] in *.
  pose proof (inv_linked _ _ _ I) as HL. rewrite Eids in HL. change (head_ :: b ++ a) with ((head_ :: b) ++ a) in HL. rewrite E, <- app_assoc in HL.
  apply (linked_app _ p (pv j) (m ++ a)) in HL. rewrite (HL j nx ko Hnd Hab), find_app.
  destruct (find_split (above (nodes l) j) m) as [(m1 & y & m2 & -> & _ & Hy & _)|[-> _]]; [|done].
  apply Forall_app in Hm as [_ [Hm _]%Forall_cons_1]. congruence.
Qed.

Lemma link_step i ns' : relinked i ns' -> (i < h)%nat -> exists ns'', link (length (nodes l)) prev ns' i = Ret ns'' /\ relinked (S i) ns''.
Proof.
  intros [Hlen Hr] Hi. destruct (Hprev i Hi) as [Hp _]. pose proof (pv_old i Hi) as Hold. unfold link. rewrite Hp.
  destruct (lookup_lt_is_Some_2 (nodes l) (pv i) Hold) as [nd Hnd]. destruct (pv_next i nd Hi Hnd) as [Hin Hnx].
  destruct (Hr (pv i) nd) as (nx & Hpx & Hlx & Hvx); [unfold new_nodes; by rewrite lookup_app_l|].
  destruct (Hr (length (nodes l)) (mkNode (Some k) (replicate h None))) as (nz & Hpz & Hlz & Hvz); [by apply list_lookup_middle|].
  cbn [nd_key nd_next] in Hpz, Hlz, Hvz. rewrite length_replicate in Hlz.
  unfold Next. rewrite Hpx. cbn [nd_next]. rewrite (Hvx i), Nat.ltb_irrefl, Hnx by lia. cbn [mbind result_bind].
  rewrite (SetNext_ok _ _ _ _ _ Hpz) by (cbn; lia). cbn [mbind result_bind nd_key nd_next].
  assert (length (nodes l) < length ns')%nat as Hx by (rewrite Hlen; unfold new_nodes; rewrite length_app; simpl; lia).
  erewrite SetNext_ok; [|by rewrite list_lookup_insert_ne, Hpx by lia|cbn; lia]. cbn [nd_key nd_next].
  eexists. split; [done|]. split; [by rewrite !length_insert|].
  intros y ndy Hy. destruct (decide (y = pv i)) as [->|Hne1].
  - rewrite list_lookup_insert_eq by (rewrite length_insert; lia). unfold new_nodes in Hy. rewrite lookup_app_l, Hnd in Hy by done. injection Hy as <-.
    eexists. split; [done|]. rewrite length_insert. split; [done|]. intros lev Hlev.
    destruct (Nat.eqb_spec (pv i) (length (nodes l))); [lia|]. specialize (Hvx lev Hlev).
    destruct (Nat.eqb_spec (pv i) (length (nodes l))) in Hvx; [lia|].
    destruct (decide (lev = i)) as [->|Hl].
    + rewrite list_lookup_insert_eq by lia. rewrite (proj2 (Nat.ltb_lt i (S i))), Nat.eqb_refl by lia. done.
    + rewrite list_lookup_insert_ne by done. rewrite Hvx. destruct (Nat.ltb_spec lev i), (Nat.ltb_spec lev (S i)); done || lia.
  - rewrite list_lookup_insert_ne by done. destruct (decide (y = length (nodes l))) as [->|Hne2].
    + rewrite list_lookup_insert_eq by done. unfold new_nodes in Hy. rewrite list_lookup_middle in Hy by done. injection Hy as <-.
      eexists. split; [done|]. cbn [nd_next]. rewrite length_insert, length_replicate. split; [done|]. intros lev Hlev.
      rewrite Nat.eqb_refl. specialize (Hvz lev Hlev). rewrite Nat.eqb_refl in Hvz. destruct (decide (lev = i)) as [->|Hl].
      * rewrite list_lookup_insert_eq by lia. by rewrite (proj2 (Nat.ltb_lt i (S i))) by lia.
      * rewrite list_lookup_insert_ne by done. rewrite Hvz. destruct (Nat.ltb_spec lev i), (Nat.ltb_spec lev (S i)); done || lia.
    + rewrite list_lookup_insert_ne by done. destruct (Hr y ndy Hy) as (ny & Hny & Hly & Hvy). exists ny. split; [done|]. split; [done|].
      intros lev Hlev. rewrite (Hvy lev Hlev). destruct (decide (lev = i)) as [->|Hl].
      * rewrite Nat.ltb_irrefl, (proj2 (Nat.ltb_lt i (S i))) by lia. destruct (Nat.eqb_spec y (length (nodes l))); [done|].
        by destruct (Nat.eqb_spec y (pv i)).
      * destruct (Nat.ltb_spec lev i), (Nat.ltb_spec lev (S i)); done || lia.
Qed.

Lemma link_all n : (n <= h)%nat -> exists ns', foldR (link (length (nodes l)) prev) new_nodes (seq 0 n) = Ret ns' /\ relinked n ns'.
Proof.
  induction n as [|n IH]; intros Hn.
  - exists new_nodes. split; [done|]. split; [done|]. intros y [ko nx] Hy. exists nx. by split_and!.
  - destruct IH as (ns1 & H1 & Hr); [lia|]. rewrite seq_S, foldR_app, H1, Nat.add_0_l. cbn [mbind result_bind foldR].
    destruct (link_step n ns1 Hr ltac:(lia)) as (ns2 & -> & Hr2). by exists ns2.
Qed.

Section relinked.
Context ns' (Hr : relinked h ns').

Lemma relinked_old y ndy : nodes l !! y = Some ndy -> exists nx, ns' !! y = Some (mkNode (nd_key ndy) nx) /\ length nx = length (nd_next ndy) /\
  forall lev, (lev < length nx)%nat -> nx !! lev =
    if (lev <? h)%nat then if (y =? pv lev)%nat then Some (Some (length (nodes l))) else nd_next ndy !! lev else nd_next ndy !! lev.
Proof.
  intros Hy. pose proof (lookup_lt_Some _ _ _ Hy) as Hlt. destruct Hr as [_ H].
  destruct (H y ndy) as (nx & E & Hl & Hv); [unfold new_nodes; by rewrite lookup_app_l|]. exists nx. split; [done|]. split; [done|].
  intros lev Hlev. rewrite (Hv lev Hlev). by destruct (Nat.eqb_spec y (length (nodes l))); [lia|].
Qed.

Lemma relinked_new : exists nx, ns' !! length (nodes l) = Some (mkNode (Some k) nx) /\ length nx = h /\
  forall lev, (lev < h)%nat -> nx !! lev = Some (find (above (nodes l) lev) a).
Proof.
  destruct Hr as [_ H]. destruct (H (length (nodes l)) (mkNode (Some k) (replicate h None))) as (nx & E & Hl & Hv); [by apply list_lookup_middle|].
  cbn [nd_next nd_key] in *. rewrite length_replicate in Hl. exists nx. split_and!; [done|done|]. intros lev Hlev.
  by rewrite (Hv lev), Nat.eqb_refl, (proj2 (Nat.ltb_lt lev h)) by lia.
Qed.

Lemma hgt_old y : (y < length (nodes l))%nat -> hgt ns' y = hgt (nodes l) y.
Proof.
  intros Hy. destruct (lookup_lt_is_Some_2 _ _ Hy) as [nd Hnd]. destruct (relinked_old y nd Hnd) as (nx & E & Hl & _).
  unfold hgt. by rewrite E, Hnd.
Qed.

Lemma above_old lev s : Forall (fun y => (y < length (nodes l))%nat) s -> find (above ns' lev) s = find (above (nodes l) lev) s.
Proof. intros Hs. apply find_ext. eapply Forall_impl; [exact Hs|]. intros y Hy. unfold above. by rewrite hgt_old. Qed.

Lemma above_new lev : above ns' lev (length (nodes l)) = (lev <? h)%nat.
Proof. destruct relinked_new as (nx & E & Hl & _). unfold above, hgt. by rewrite E, <- Hl. Qed.

Lemma old_ids : Forall (fun y => (y < length (nodes l))%nat) (head_ :: b ++ a).
Proof. apply Forall_forall. intros y Hy. destruct (inv_ids _ _ _ I) as [_ Hin]. apply Hin. by rewrite Eids. Qed.

(** A node before the new one. *)
Lemma links_before p y m : head_ :: b = p ++ y :: m -> links ns' y (m ++ length (nodes l) :: a).
Proof.
  intros E. pose proof old_ids as Hold. change (head_ :: b ++ a) with ((head_ :: b) ++ a) in Hold. rewrite E, <- app_assoc in Hold.
  apply Forall_app in Hold as [_ [Hy Hma]%Forall_cons_1]. pose proof Hma as [Hm Ha]%Forall_app.
  destruct (lookup_lt_is_Some_2 _ _ Hy) as [[ko nx] Hnd]. destruct (relinked_old y _ Hnd) as (nx' & E' & Hl & Hv). cbn [nd_key nd_next] in *.
  intros lev nx0 ok E0 Hlev. rewrite E' in E0. injection E0 as <- <-. rewrite (Hv lev Hlev).
  assert (nx !! lev = Some (find (above (nodes l) lev) (m ++ a))) as Hold.
  { pose proof (inv_linked _ _ _ I) as HL. rewrite Eids in HL. change (head_ :: b ++ a) with ((head_ :: b) ++ a) in HL. rewrite E, <- app_assoc in HL.
    apply (linked_app _ p y (m ++ a)) in HL. apply (HL lev nx ko Hnd). lia. }
  rewrite Hold, !find_app, (above_old lev m Hm). cbn [find]. rewrite above_new, (above_old lev a Ha).
  assert (above (nodes l) lev y = true) as Hay by (unfold above, hgt; rewrite Hnd; apply Nat.ltb_lt; cbn; lia).
  destruct (Nat.ltb_spec lev h) as [Hlh|Hlh]; [|done]. destruct (Hprev lev Hlh) as (_ & p' & m' & E1 & Hap & Hm').
  destruct (find_split (above (nodes l) lev) m) as [(m1 & z & m2 & -> & -> & Hz & _)|[-> Hmn]].
  - destruct (Nat.eqb_spec y (pv lev)) as [->|]; [|done]. exfalso. rewrite E in E1.
    assert (NoDup (p ++ pv lev :: m1 ++ z :: m2)) as Hnd'.
    { destruct (inv_ids _ _ _ I) as [Hn _]. rewrite Eids in Hn. change (head_ :: b ++ a) with ((head_ :: b) ++ a) in Hn. rewrite E in Hn.
      by apply NoDup_app in Hn as [? _]. }
    apply split_unique in E1 as <-; [|done]. apply Forall_app in Hm' as [_ [Hm' _]%Forall_cons_1]. congruence.
  - rewrite E in E1. rewrite (last_unique _ _ _ _ _ _ _ E1 Hay Hap Hmn Hm'), Nat.eqb_refl. done.
Qed.

(** A node after the new one. *)
Lemma links_after p y m : a = p ++ y :: m -> links ns' y m.
Proof.
  intros E lev nx0 ok E0 Hlev. pose proof old_ids as Hold. rewrite E in Hold. apply Forall_cons_1 in Hold as [_ Hold].
  apply Forall_app in Hold as [_ Hold]. apply Forall_app in Hold as [_ [Hy Hm]%Forall_cons_1].
  destruct (lookup_lt_is_Some_2 _ _ Hy) as [[ko nx] Hnd]. destruct (relinked_old y _ Hnd) as (nx' & E' & Hl & Hv). cbn [nd_key nd_next] in *.
  rewrite E' in E0. injection E0 as <- <-. rewrite (Hv lev Hlev), (above_old lev m Hm).
  pose proof (inv_linked _ _ _ I) as HL. rewrite Eids, E in HL. change (head_ :: b ++ p ++ y :: m) with ((head_ :: b) ++ p ++ y :: m) in HL.
  rewrite app_assoc in HL. apply linked_app in HL. rewrite (HL lev nx ko Hnd) by lia.
  destruct (Nat.ltb_spec lev h) as [Hlh|]; [|done]. destruct (Nat.eqb_spec y (pv lev)) as [->|]; [|done]. exfalso.
  destruct (Hprev lev Hlh) as (_ & p' & m' & E1 & _). destruct (inv_ids _ _ _ I) as [Hn _]. rewrite Eids in Hn.
  change (head_ :: b ++ a) with ((head_ :: b) ++ a) in Hn. apply NoDup_app in Hn as (_ & Hn & _). apply (Hn (pv lev)).
  - rewrite E1. apply elem_of_middle.
  - rewrite E. apply elem_of_middle.
Qed.

Lemma links_new : links ns' (length (nodes l)) a.
Proof.
  intros lev nx ok E0 Hlev. destruct relinked_new as (nx' & E' & Hl & Hv). rewrite E' in E0. injection E0 as <- <-.
  rewrite (Hv lev) by lia. f_equal. symmetry. apply above_old. pose proof old_ids as Hold.
  apply Forall_cons_1 in Hold as [_ Hold]. by apply Forall_app in Hold as [_ Hold].
Qed.

Lemma linked_new : linked ns' (head_ :: b ++ length (nodes l) :: a).
Proof.
  apply linked_intro. intros p y m E. change (head_ :: b ++ length (nodes l) :: a) with ((head_ :: b) ++ length (nodes l) :: a) in E.
  apply app_eq_app in E as (q & [[E1 E2]|[E1 E2]]).
  - destruct q as [|z q]; injection E2 as -> ->; [apply links_new|by apply (links_before p z q)].
  - destruct q as [|z q]; injection E2 as Ez E; [rewrite <- Ez, <- E; apply links_new|by apply (links_after q y m)].
Qed.

End relinked.
Lemma relinked_inv ns' kb ka mh rnd :
  relinked h ns' -> key_ok k -> ks = kb ++ ka -> Forall2 (has_key (nodes l)) b kb -> Forall2 (has_key (nodes l)) a ka ->
  Forall (fun k' => key_order k' k = Lt) kb -> Forall (fun k' => key_order k k' = Lt) ka ->
  (1 <= h <= kMaxHeight)%nat -> mh = Nat.max (max_height_ l) h ->
  inv (mkList ns' mh rnd) (b ++ length (nodes l) :: a) (kb ++ k :: ka).
Proof.
  intros Hr Hk Eks Hb Ha Hlt Hgt Hh ->. pose proof (inv_ids _ _ _ I) as [Hnd Hin].
  assert (length ns' = S (length (nodes l))) as Hlen by (destruct Hr as [-> _]; unfold new_nodes; rewrite length_app; simpl; lia).
  assert (forall i k', has_key (nodes l) i k' -> has_key ns' i k') as Hkeys.
  { intros i k' [nx E]. destruct (relinked_old ns' Hr i _ E) as (nx' & E' & _). by exists nx'. }
  split; cbn [nodes max_height_].
  - destruct (inv_head _ _ _ I) as (nx & E & Hn). destruct (relinked_old ns' Hr head_ _ E) as (nx' & E' & Hl & _). exists nx'. split; [done|]. by rewrite Hl.
  - assert (head_ :: b ++ length (nodes l) :: a ≡ₚ length (nodes l) :: head_ :: ids) as Hp.
    { rewrite Eids. symmetry. apply (Permutation_middle (head_ :: b) a). }
    rewrite Hp. split.
    + constructor; [|done]. intros Hx%Hin. lia.
    + intros i. rewrite Hp, elem_of_cons, Hin, Hlen. lia.
  - apply Forall2_app; [by eapply Forall2_impl|]. constructor; [|by eapply Forall2_impl].
    destruct (relinked_new ns' Hr) as (nx & E & _). by exists nx.
  - pose proof (inv_ok _ _ _ I) as Ho. rewrite Eks in Ho. apply Forall_app in Ho as [? ?]. apply Forall_app. split; [done|]. by constructor.
  - pose proof (inv_height _ _ _ I) as Hg. pose proof (old_ids) as Hold. apply Forall_cons_1 in Hold as [_ Hold]. rewrite Eids in Hg.
    assert (Forall (fun i => 1 <= hgt ns' i <= Nat.max (max_height_ l) h)%nat (b ++ a)) as Hall.
    { rewrite Forall_forall in *. intros i Hi. rewrite (hgt_old ns' Hr i) by auto. specialize (Hg i Hi). lia. }
    apply Forall_app in Hall as [H1 H2]. apply Forall_app. split; [done|]. constructor; [|done].
    destruct (relinked_new ns' Hr) as (nx & E & Hl & _). unfold hgt. rewrite E. cbn. lia.
  - pose proof (inv_max _ _ _ I). lia.
  - pose proof (inv_sorted _ _ _ I) as Hs. rewrite Eks in Hs. clear - Hs Hlt Hgt KO. induction kb as [|k0 kb IH]; cbn in *; [by constructor|].
    apply StronglySorted_inv in Hs as [Hs H0]. apply Forall_cons_1 in Hlt as [Hk0 Hlt]. constructor; [by apply IH|].
    apply Forall_app in H0 as [H0 H1]. apply Forall_app. split; [done|]. by constructor.
  - by apply linked_new.
Qed.

End insert.
(** The position of a target among the nodes. *)
Lemma position l ids ks t :
  inv l ids ks -> exists b a kb ka, ids = b ++ a /\ ks = kb ++ ka /\ Forall2 (has_key (nodes l)) b kb /\ Forall2 (has_key (nodes l)) a ka /\
    Forall key_ok kb /\ Forall key_ok ka /\ Forall (fun k => key_order k t = Lt) kb /\ Forall (fun k => key_order k t <> Lt) ka.
Proof.
  intros I. pose proof (inv_keys _ _ _ I) as Hk. pose proof (inv_sorted _ _ _ I) as Hs. pose proof (inv_ok _ _ _ I) as Ho. clear I.
  induction Hk as [|i k ids' ks' Hik Hk IH] in Hs, Ho |- *; [by exists [], [], [], []|].
  apply StronglySorted_inv in Hs as [Hs Hlt]. apply Forall_cons_1 in Ho as [Hok Ho].
  destruct (decide (key_order k t = Lt)) as [Hkt|Hkt].
  - destruct (IH Hs Ho) as (b & a & kb & ka & -> & -> & ?). exists (i :: b), a, (k :: kb), ka. naive_solver.
  - exists [], (i :: ids'), [], (k :: ks'). split_and!; auto. constructor; [done|]. eapply Forall_impl; [exact Hlt|].
    intros k' Hkk' Hk't. apply Hkt. exact (order_trans _ _ _ Hkk' Hk't).
Qed.

Lemma Insert_ok l ids ks k b a kb ka :
  inv l ids ks -> key_ok k -> ids = b ++ a -> ks = kb ++ ka ->
  Forall2 (has_key (nodes l)) b kb -> Forall2 (has_key (nodes l)) a ka ->
  Forall (fun k' => key_order k' k = Lt) kb -> Forall (fun k' => key_order k k' = Lt) ka ->
  exists l' x, Insert l k = Ret l' /\ inv l' (b ++ x :: a) (kb ++ k :: ka).
Proof.
  intros I Hk Eids Eks Hb Ha Hlt Hgt. pose proof (inv_ok _ _ _ I) as Ho. rewrite Eks in Ho. pose proof Ho as [Hokb Hoka]%Forall_app.
  assert (Forall (fun k' => key_order k' k <> Lt) ka) as Hge.
  { eapply Forall_impl; [exact Hgt|]. intros k' E. by rewrite (order_flip k k'), E. }
  destruct (FindGreaterOrEqual_ok l ids ks I k Hk b a kb ka Eids Hb Ha Hokb Hoka Hlt Hge) as (prev & Hf & Hlp & Hp).
  pose proof (RandomHeight_bounds (rnd_ l)) as Hh. pose proof (inv_max _ _ _ I) as Hmax.
  unfold Insert. rewrite Hf. cbn [mbind result_bind].
  assert ((match head a with
           | None => Ret false
           | Some x => k0 ← node_key (nodes l) x; c ← compare_ k k0; Ret (match c with Eq => true | _ => false end)
           end) = Ret false) as ->.
  { destruct Ha as [|x k0 a' ka' Hx Ha]; [done|]. cbn [head]. rewrite (node_key_has _ _ _ Hx). cbn [mbind result_bind].
    apply Forall_cons_1 in Hoka as [Hk0 _]. apply Forall_cons_1 in Hgt as [Hk1 _]. by rewrite compare_order, Hk1. }
  cbn [mbind result_bind]. destruct (RandomHeight (rnd_ l)) as [h rnd]. cbn [fst] in Hh.
  set (mh := Nat.max (max_height_ l) h).
  assert (exists prev', (if (max_height_ l <? h)%nat
      then (foldl (fun prev i => <[i := Some head_]> prev) prev (seq (max_height_ l) (h - max_height_ l)), h)
      else (prev, max_height_ l)) = (prev', mh) /\
    forall j, (j < h)%nat -> exists y, prev' !! j = Some (Some y) /\ last_above l b j y) as (prev' & -> & Hp').
  { destruct (Nat.ltb_spec (max_height_ l) h) as [Hm|Hm].
    - eexists. split; [f_equal; unfold mh; lia|]. intros j Hj. rewrite fill_lookup by lia. destruct (decide _) as [Hd|Hd]; [|apply Hp; lia].
      exists head_. split; [done|]. exists [], b. split; [done|]. split; [by eapply start_ok; [exact I|lia]|].
      pose proof (inv_height _ _ _ I) as Hg. rewrite Eids in Hg. apply Forall_app in Hg as [Hg _]. eapply Forall_impl; [exact Hg|].
      intros y [_ Hy]. apply Nat.ltb_ge. lia.
    - eexists. split; [f_equal; unfold mh; lia|]. intros j Hj. apply Hp. lia. }
  unfold NewNode. cbn [mbind result_bind].
  set (pv := fun j => match prev' !! j with Some (Some y) => y | _ => O end).
  assert (forall j, (j < h)%nat -> prev' !! j = Some (Some (pv j)) /\ last_above l b j (pv j)) as Hpv.
  { intros j Hj. unfold pv. destruct (Hp' j Hj) as (y & -> & Hy). done. }
  destruct (link_all l ids ks I b a Eids k h pv prev' Hpv h (le_n h)) as (ns' & Hl & Hr). unfold new_nodes in Hl. rewrite Hl. cbn [mbind result_bind].
  eexists _, (length (nodes l)). split; [done|]. by eapply relinked_inv.
Qed.

(** *** The operations on the sorted list of keys *)

Lemma make_rep : rep make [].
Proof.
  exists []. split; cbn [make nodes max_height_ head_]; try done.
  - by eexists.
  - split; [apply NoDup_singleton|]. intros i. rewrite list_elem_of_singleton. unfold head_. simpl. lia.
  - unfold kMaxHeight. lia.
  - constructor.
  - split; [|done]. intros lev nx ko [= <- <-] Hlev. cbn [find]. by apply (lookup_replicate_2 12).
Qed.

Lemma Insert_rep l kb ka k :
  rep l (kb ++ ka) -> key_ok k -> Forall (fun k' => key_order k' k = Lt) kb -> Forall (fun k' => key_order k k' = Lt) ka ->
  exists l', Insert l k = Ret l' /\ rep l' (kb ++ k :: ka).
Proof.
  intros [ids I] Hk Hlt Hgt. pose proof (inv_keys _ _ _ I) as Hkeys. apply Forall2_app_inv_r in Hkeys as (b & a & Hb & Ha & Eids).
  destruct (Insert_ok l ids _ k b a kb ka I Hk Eids eq_refl Hb Ha Hlt Hgt) as (l' & x & Hl & I'). exists l'. split; [done|]. by exists (b ++ x :: a).
Qed.

(** Whether a key that compares equal is there. *)
Lemma equal_first kb ka k :
  Forall (fun k' => key_order k' k = Lt) kb -> Forall (fun k' => key_order k' k <> Lt) ka ->
  StronglySorted (fun k k' => key_order k k' = Lt) (kb ++ ka) ->
  (match head ka with Some k0 => key_order k k0 = Eq | None => False end <-> exists k', k' ∈ kb ++ ka /\ key_order k k' = Eq).
Proof.
  intros Hlt Hge Hs. split.
  - destruct ka as [|k0 ka]; [done|]. intros E. exists k0. split; [apply elem_of_middle|done].
  - intros (k' & Hin & E). apply elem_of_app in Hin as [Hin|Hin].
    + rewrite Forall_forall in Hlt. specialize (Hlt k' Hin). rewrite (order_flip k k'), E in Hlt. done.
    + destruct ka as [|k0 ka]; [by apply elem_of_nil in Hin|]. cbn [head]. apply elem_of_cons in Hin as [->|Hin]; [done|].
      exfalso. apply Forall_cons_1 in Hge as [H0 _]. apply H0. clear - Hs Hin E KO.
      assert (key_order k0 k' = Lt) as H1.
      { induction kb as [|k1 kb IH]; cbn in Hs; apply StronglySorted_inv in Hs as [Hs Hf]; [|by apply IH].
        rewrite Forall_forall in Hf. by apply Hf. }
      by rewrite (order_eq_r k k' k0 E).
Qed.

Lemma Contains_rep l ks k : rep l ks -> key_ok k ->
  exists r, Contains l k = Ret r /\ (r = true <-> exists k', k' ∈ ks /\ key_order k k' = Eq).
Proof.
  intros [ids I] Hk. destruct (position l ids ks k I) as (b & a & kb & ka & Eids & Eks & Hb & Ha & Hokb & Hoka & Hlt & Hge).
  destruct (FindGreaterOrEqual_ok l ids ks I k Hk b a kb ka Eids Hb Ha Hokb Hoka Hlt Hge) as (prev & Hf & _).
  pose proof (inv_sorted _ _ _ I) as Hs. rewrite Eks in Hs. rewrite Eks. setoid_rewrite <- (equal_first kb ka k Hlt Hge Hs).
  unfold Contains. rewrite Hf. cbn [mbind result_bind fst]. destruct Ha as [|x k0 a' ka' Hx Ha]; cbn [head]; [by exists false|].
  rewrite (node_key_has _ _ _ Hx). cbn [mbind result_bind]. apply Forall_cons_1 in Hoka as [Hk0 _]. rewrite compare_order by done.
  cbn [mbind result_bind]. eexists. split; [done|]. by destruct (key_order k k0).
Qed.

(** Inserting a key that compares equal to one of the list fails the assertion. *)
Lemma Insert_equal l ks k k' : rep l ks -> key_ok k -> k' ∈ ks -> key_order k k' = Eq -> Insert l k = Crash AssertFailed.
Proof.
  intros [ids I] Hk Hin E. destruct (position l ids ks k I) as (b & a & kb & ka & Eids & Eks & Hb & Ha & Hokb & Hoka & Hlt & Hge).
  destruct (FindGreaterOrEqual_ok l ids ks I k Hk b a kb ka Eids Hb Ha Hokb Hoka Hlt Hge) as (prev & Hf & _).
  pose proof (inv_sorted _ _ _ I) as Hs. rewrite Eks in Hs, Hin.
  assert (match head ka with Some k0 => key_order k k0 = Eq | None => False end) as H0 by (apply (equal_first kb); eauto).
  unfold Insert. rewrite Hf. cbn [mbind result_bind]. destruct Ha as [|x k0 a' ka' Hx Ha]; cbn [head] in *; [done|].
  rewrite (node_key_has _ _ _ Hx). cbn [mbind result_bind]. apply Forall_cons_1 in Hoka as [Hk0 _]. rewrite compare_order, H0 by done. done.
Qed.

(** *** The iterator *)

(** The iterator ranges over these keys and stands at position [i]. *)
Definition stands_at (it : Iterator A) ks (i : nat) : Prop :=
  exists ids, inv (list_ it) ids ks /\ node_ it = ids !! i /\ (i <= length ks)%nat.

Lemma ids_length l ids ks : inv l ids ks -> length ids = length ks.
Proof. intros I. by eapply Forall2_length, inv_keys. Qed.

Lemma stands_new l ks : rep l ks -> stands_at (NewIterator l) ks (length ks).
Proof. intros [ids I]. exists ids. split; [done|]. split; [|done]. cbn. symmetry. apply lookup_ge_None_2. by rewrite (ids_length l ids ks I). Qed.

Lemma stands_valid it ks i : stands_at it ks i -> Valid it = (i <? length ks)%nat.
Proof.
  intros (ids & I & En & Hi). unfold Valid. rewrite En. rewrite <- (ids_length _ _ _ I) in *. destruct (Nat.ltb_spec i (length ids)) as [H|H].
  - by destruct (lookup_lt_is_Some_2 _ _ H) as [x ->].
  - by rewrite lookup_ge_None_2.
Qed.

Lemma stands_key it ks i k : stands_at it ks i -> ks !! i = Some k -> key it = Ret k.
Proof.
  intros (ids & I & En & Hi) Hk. unfold key. rewrite En. destruct (Forall2_lookup_r _ _ _ _ _ (inv_keys _ _ _ I) Hk) as (x & -> & Hx).
  by apply node_key_has.
Qed.

Lemma first_of_rest l ids ks n : inv l ids ks -> find (above (nodes l) 0) (drop n ids) = ids !! n.
Proof.
  intros I. destruct (ids !! n) as [x|] eqn:Hx.
  - rewrite (drop_S _ _ _ Hx). cbn [find]. rewrite (above_zero _ _ _ I); [done|]. by eapply list_elem_of_lookup_2.
  - apply lookup_ge_None in Hx. by rewrite drop_ge.
Qed.

Lemma stands_first it ks i : stands_at it ks i -> exists it', SeekToFirst it = Ret it' /\ stands_at it' ks 0.
Proof.
  intros (ids & I & En & Hi). unfold SeekToFirst. pose proof (inv_linked _ _ _ I) as [HL _].
  rewrite (Next_links _ _ _ 0 HL) by (eapply start_ok; [done|unfold kMaxHeight; lia]). cbn [mbind result_bind].
  eexists. split; [done|]. exists ids. split; [done|]. split; [|lia]. exact (first_of_rest _ _ _ 0 I).
Qed.

Lemma stands_next it ks i : stands_at it ks i -> (i < length ks)%nat -> exists it', IterNext it = Ret it' /\ stands_at it' ks (S i).
Proof.
  intros (ids & I & En & _) Hi. unfold IterNext. rewrite En. rewrite <- (ids_length _ _ _ I) in Hi.
  destruct (lookup_lt_is_Some_2 _ _ Hi) as [x Hx]. rewrite Hx. pose proof (take_drop_middle _ _ _ Hx) as Es.
  pose proof (inv_linked _ _ _ I) as HL. rewrite <- Es in HL. change (head_ :: take i ids ++ x :: drop (S i) ids) with ((head_ :: take i ids) ++ x :: drop (S i) ids) in HL.
  apply linked_app in HL. rewrite (Next_links _ _ _ 0 HL) by (eapply above_zero; [done|by eapply list_elem_of_lookup_2]). cbn [mbind result_bind].
  eexists. split; [done|]. exists ids. split; [done|]. split; [exact (first_of_rest _ _ _ (S i) I)|by rewrite <- (ids_length _ _ _ I)].
Qed.

(** The last node of a prefix of the list, or none when that is the head. *)
Lemma before_last l ids ks n p y : inv l ids ks -> (n <= length ids)%nat -> head_ :: take n ids = p ++ [y] ->
  not_head y = if decide (n = O) then None else ids !! (n - 1)%nat.
Proof.
  intros I Hn E. assert (y = default head_ (last (take n ids))) as ->.
  { assert (last (head_ :: take n ids) = Some y) as H by (by rewrite E, last_snoc). rewrite last_cons in H. by destruct (last (take n ids)); injection H as <-. }
  destruct (decide (n = O)) as [->|Hne]; [done|]. rewrite last_lookup, length_take, lookup_take_lt by lia.
  replace (Nat.pred (n `min` length ids)) with (n - 1)%nat by lia. destruct (lookup_lt_is_Some_2 ids (n - 1)) as [x Hx]; [lia|]. rewrite Hx. cbn.
  unfold not_head. destruct (Nat.eqb_spec x head_) as [->|]; [|done]. exfalso. destruct (inv_ids _ _ _ I) as [Hnd _].
  apply NoDup_cons in Hnd as [Hnd _]. apply Hnd. by eapply list_elem_of_lookup_2.
Qed.

Lemma stands_last it ks i : stands_at it ks i -> exists it', SeekToLast it = Ret it' /\ stands_at it' ks (length ks - 1).
Proof.
  intros (ids & I & En & Hi). unfold SeekToLast. destruct (FindLast_ok _ _ _ I) as (p & y & -> & E). cbn [mbind result_bind].
  eexists. split; [done|]. exists ids. split; [done|]. split; [|lia]. cbn [node_]. rewrite <- (ids_length _ _ _ I).
  rewrite <- (take_ge ids (length ids)) in E by done. rewrite (before_last _ _ _ _ _ _ I (le_n _) E). by destruct ids.
Qed.

Definition seek_count t ks : nat := length (List.filter (fun k => match key_order k t with Lt => true | _ => false end) ks).

Lemma seek_count_app t kb ka : Forall (fun k => key_order k t = Lt) kb -> Forall (fun k => key_order k t <> Lt) ka -> seek_count t (kb ++ ka) = length kb.
Proof.
  intros Hb Ha. unfold seek_count. rewrite List.filter_app, length_app. rewrite <- (Nat.add_0_r (length kb)). f_equal.
  - induction Hb as [|k kb H Hb IH]; cbn; [done|]. rewrite H. cbn. by f_equal.
  - induction Ha as [|k ka H Ha IH]; cbn; [done|]. by destruct (key_order k t).
Qed.

Lemma stands_seek it ks i t : stands_at it ks i -> key_ok t -> exists it', Seek it t = Ret it' /\ stands_at it' ks (seek_count t ks).
Proof.
  intros (ids & I & En & Hi) Ht. destruct (position _ ids ks t I) as (b & a & kb & ka & Eids & Eks & Hb & Ha & Hokb & Hoka & Hlt & Hge).
  destruct (FindGreaterOrEqual_ok _ ids ks I t Ht b a kb ka Eids Hb Ha Hokb Hoka Hlt Hge) as (prev & Hf & _).
  unfold Seek. rewrite Hf. cbn [mbind result_bind fst]. eexists. split; [done|]. exists ids. split; [done|]. cbn [node_].
  rewrite Eks, (seek_count_app t kb ka Hlt Hge), length_app. split; [|lia]. rewrite Eids, lookup_app_r by (by rewrite (Forall2_length _ _ _ Hb)).
  rewrite (Forall2_length _ _ _ Hb), Nat.sub_diag. by destruct a.
Qed.

Lemma sorted_around kb k ka :
  StronglySorted (fun k k' => key_order k k' = Lt) (kb ++ k :: ka) ->
  Forall (fun k' => key_order k' k = Lt) kb /\ Forall (fun k' => key_order k' k <> Lt) (k :: ka).
Proof.
  induction kb as [|k1 kb IH]; cbn; intros [Hs Hf]%StronglySorted_inv.
  - split; [constructor|]. constructor; [pose proof (order_flip k k); by destruct (key_order k k)|].
    eapply Forall_impl; [exact Hf|]. intros k' H'. cbn in H'. by rewrite (order_flip k k'), H'.
  - destruct (IH Hs) as [H1 H2]. split; [|done]. constructor; [|done]. rewrite Forall_forall in Hf. apply Hf, elem_of_middle.
Qed.

Lemma stands_prev it ks i : stands_at it ks i -> (i < length ks)%nat ->
  exists it', Prev it = Ret it' /\ stands_at it' ks (if decide (i = O) then length ks else (i - 1)%nat).
Proof.
  intros (ids & I & En & _) Hi. unfold Prev. rewrite En. destruct (lookup_lt_is_Some_2 _ _ Hi) as [k Hk].
  destruct (Forall2_lookup_r _ _ _ _ _ (inv_keys _ _ _ I) Hk) as (x & Hx & Hh). rewrite Hx, (node_key_has _ _ _ Hh). cbn [mbind result_bind].
  pose proof (take_drop_middle _ _ _ Hk) as Es. pose proof (inv_sorted _ _ _ I) as Hs. pose proof (inv_ok _ _ _ I) as Ho.
  pose proof (inv_keys _ _ _ I) as Hks. rewrite <- (take_drop i ids), <- (take_drop i ks) in Hks.
  apply Forall2_app_inv in Hks as [Hb Ha]; [|rewrite !length_take, (ids_length _ _ _ I); lia].
  rewrite <- (take_drop i ks) in Ho. apply Forall_app in Ho as [Hokb Hoka].
  rewrite (drop_S _ _ _ Hk) in Hoka, Ha. pose proof Hoka as [Hokk _]%Forall_cons_1.
  assert (Forall (fun k' => key_order k' k = Lt) (take i ks) /\ Forall (fun k' => key_order k' k <> Lt) (k :: drop (S i) ks)) as [Hlt Hge].
  { apply sorted_around. by rewrite Es. }
  destruct (FindLessThan_ok _ ids ks I k Hokk (take i ids) (drop i ids) (take i ks) (k :: drop (S i) ks)) as (p & y & -> & E);
    [by rewrite take_drop|done|done|done|done|done|done|]. cbn [mbind result_bind].
  eexists. split; [done|]. exists ids. split; [done|]. cbn [node_]. rewrite <- (ids_length _ _ _ I) in *.
  rewrite (before_last _ _ _ i p y I ltac:(lia) E). destruct (decide (i = O)); [|split; [done|lia]]. split; [by rewrite lookup_ge_None_2|lia].
Qed.

End spec.
