(* ===== verification/LogFile.v ===== *)
(** * leveldb: the log file

    [db/log_format.h], [db/log_writer.cc] and [db/log_reader.{h,cc}].  The writer
    cuts records into physical records that never cross a 32 KiB block; the reader
    joins them again.  [WritableFile] and [SequentialFile]
    ([include/leveldb/env.h]) are interfaces; a byte string is an instance of both.
    The checksum does not depend on where a buffer lies in memory
    ([Crc32c.Extend_spec]), so the model takes aligned buffers. *)

From Stdlib Require Import ZArith Lia.
From S2P Require Import Prelude CString Coding SliceStatus Crc32c.

(** ** Files *)

Class WritableFile (F : Type) := {
  wf_Append : F -> str -> F * Status.Status;
  wf_Flush : F -> F * Status.Status
}.

(** [Read(n)] gives at most [n] bytes; [Skip(n)] passes over [n] bytes. *)
Class SequentialFile (F : Type) := {
  sf_Read : F -> Z -> F * Status.Status * str;
  sf_Skip : F -> Z -> F * Status.Status
}.

#[export] Instance mem_writable : WritableFile str := {
  wf_Append f data := (f ++ data, Status.OK);
  wf_Flush f := (f, Status.OK)
}.

#[export] Instance mem_sequential : SequentialFile str := {
  sf_Read f n := (drop (Z.to_nat n) f, Status.OK, take (Z.to_nat n) f);
  sf_Skip f n := (drop (Z.to_nat n) f, Status.OK)
}.

(** ** db/log_format.h *)

Definition kZeroType : Z := 0.
Definition kFullType : Z := 1.
Definition kFirstType : Z := 2.
Definition kMiddleType : Z := 3.
Definition kLastType : Z := 4.
Definition kMaxRecordType : Z := kLastType.
Definition kBlockSize : Z := 32768.
Definition kHeaderSize : Z := 4 + 2 + 1.

(** ** db/log_writer.cc *)

Module Writer.
Section ops.
Context `{WF : !WritableFile F}.

Record Writer := mkWriter { dest_ : F; block_offset_ : Z }.

(** [type_crc_[t]] *)
Definition type_crc (t : Z) : Z := Value 0 [z2b t].

Definition make (dest : F) : Writer := mkWriter dest 0.
Definition make_at (dest : F) (dest_length : Z) : Writer := mkWriter dest (dest_length mod kBlockSize).

Definition record_header (t : Z) (data : str) : str :=
  let length := str_size data in
  EncodeFixed32 (Mask (Extend 0 (type_crc t) data))
  ++ [z2b (Z.land length 0xff); z2b (Z.shiftr length 8); z2b t].

Definition EmitPhysicalRecord (w : Writer) (t : Z) (data : str) : result (Writer * Status.Status) :=
  let length := str_size data in
  if 0xffff <? length then Crash AssertFailed
  else if kBlockSize <? block_offset_ w + kHeaderSize + length then Crash AssertFailed
  else
    let '(dest, s) := wf_Append (dest_ w) (record_header t data) in
    let '(dest, s) :=
      if Status.ok s then
        let '(dest, s) := wf_Append dest data in
        if Status.ok s then wf_Flush dest else (dest, s)
      else (dest, s) in
    Ret (mkWriter dest (block_offset_ w + kHeaderSize + length), s).

(** The [do ... while] loop of [AddRecord] on the bytes that are left; a turn
    either consumes a byte, ends the loop, or fills a block whose successor takes
    a byte, so twice the length and two more turns are enough. *)
Fixpoint add_loop (fuel : nat) (w : Writer) (begin : bool) (left : str) : result (Writer * Status.Status) :=
  match fuel with
  | O => Crash OutOfFuel
  | S fuel' =>
      let leftover := kBlockSize - block_offset_ w in
      if leftover <? 0 then Crash AssertFailed else
      let w :=
        if leftover <? kHeaderSize then
          let dest := if 0 <? leftover
                      then fst (wf_Append (dest_ w) (replicate (Z.to_nat leftover) Byte.x00))
                      else dest_ w in
          mkWriter dest 0
        else w in
      let avail := kBlockSize - block_offset_ w - kHeaderSize in
      if avail <? 0 then Crash AssertFailed else
      let fragment_length := if str_size left <? avail then str_size left else avail in
      let end_ := str_size left =? fragment_length in
      let type := if begin && end_ then kFullType else if begin then kFirstType
                  else if end_ then kLastType else kMiddleType in
      r ← EmitPhysicalRecord w type (take (Z.to_nat fragment_length) left);
      let '(w, s) := (r : Writer * Status.Status) in
      let left := drop (Z.to_nat fragment_length) left in
      if Status.ok s && (0 <? str_size left) then add_loop fuel' w false left else Ret (w, s)
  end.

Definition AddRecord (w : Writer) (slice : str) : result (Writer * Status.Status) :=
  add_loop (2 * length slice + 2) w true slice.

End ops.
Arguments Writer F : clear implicits.
End Writer.

(** ** db/log_reader.{h,cc} *)

Module Reader.
Section ops.
Context `{SF : !SequentialFile F}.

Definition kEof : Z := kMaxRecordType + 1.
Definition kBadRecord : Z := kMaxRecordType + 2.

Record Reader := mkReader {
  file_ : F;
  reporter_ : option (list (Z * Status.Status));   (* what [Corruption] was called with *)
  checksum_ : bool;
  buffer_ : str;
  eof_ : bool;
  last_record_offset_ : Z;
  end_of_buffer_offset_ : Z;
  initial_offset_ : Z;
  resyncing_ : bool
}.

Definition make (file : F) (reporter : bool) (checksum : bool) (initial_offset : Z) : Reader :=
  mkReader file (if reporter then Some [] else None) checksum [] false 0 0 initial_offset
    (0 <? initial_offset).

Definition set_buffer (b : str) (r : Reader) : Reader :=
  mkReader (file_ r) (reporter_ r) (checksum_ r) b (eof_ r) (last_record_offset_ r)
    (end_of_buffer_offset_ r) (initial_offset_ r) (resyncing_ r).
Definition set_eof (r : Reader) : Reader :=
  mkReader (file_ r) (reporter_ r) (checksum_ r) (buffer_ r) true (last_record_offset_ r)
    (end_of_buffer_offset_ r) (initial_offset_ r) (resyncing_ r).
Definition set_resyncing (b : bool) (r : Reader) : Reader :=
  mkReader (file_ r) (reporter_ r) (checksum_ r) (buffer_ r) (eof_ r) (last_record_offset_ r)
    (end_of_buffer_offset_ r) (initial_offset_ r) b.
Definition set_last_record_offset (o : Z) (r : Reader) : Reader :=
  mkReader (file_ r) (reporter_ r) (checksum_ r) (buffer_ r) (eof_ r) o
    (end_of_buffer_offset_ r) (initial_offset_ r) (resyncing_ r).

Definition ReportDrop (r : Reader) (bytes : Z) (reason : Status.Status) : Reader :=
  match reporter_ r with
  | Some reports =>
      if initial_offset_ r <=? u64 (end_of_buffer_offset_ r - str_size (buffer_ r) - bytes)
      then mkReader (file_ r) (Some (reports ++ [(bytes, reason)])) (checksum_ r) (buffer_ r)
             (eof_ r) (last_record_offset_ r) (end_of_buffer_offset_ r) (initial_offset_ r)
             (resyncing_ r)
      else r
  | None => r
  end.

Definition ReportCorruption (r : Reader) (bytes : Z) (reason : str) : Reader :=
  ReportDrop r bytes (Status.Corruption reason []).

Definition SkipToInitialBlock (r : Reader) : Reader * bool :=
  let offset_in_block := initial_offset_ r mod kBlockSize in
  let block_start_location := u64 (initial_offset_ r - offset_in_block) in
  let block_start_location :=
    if kBlockSize - 6 <? offset_in_block then u64 (block_start_location + kBlockSize)
    else block_start_location in
  let r := mkReader (file_ r) (reporter_ r) (checksum_ r) (buffer_ r) (eof_ r)
             (last_record_offset_ r) block_start_location (initial_offset_ r) (resyncing_ r) in
  if 0 <? block_start_location then
    let '(file, skip_status) := sf_Skip (file_ r) block_start_location in
    let r := mkReader file (reporter_ r) (checksum_ r) (buffer_ r) (eof_ r)
               (last_record_offset_ r) (end_of_buffer_offset_ r) (initial_offset_ r) (resyncing_ r) in
    if negb (Status.ok skip_status) then (ReportDrop r block_start_location skip_status, false)
    else (r, true)
  else (r, true).

(** [file_->Read] of one block into the cleared buffer. *)
Definition read_block (r : Reader) : Reader * Status.Status :=
  let '(file, status, data) := sf_Read (file_ r) kBlockSize in
  (mkReader file (reporter_ r) (checksum_ r) data (eof_ r) (last_record_offset_ r)
     (u64 (end_of_buffer_offset_ r + str_size data)) (initial_offset_ r) (resyncing_ r), status).

(** The part of the loop of [ReadPhysicalRecord] after the buffer holds a header;
    [result] is the caller's slice, kept when the callee does not assign it. *)
Definition parse_physical (r : Reader) (result : str) : Reader * Z * str :=
  let header := buffer_ r in
  let a := b2z (nth 4 header Byte.x00) in
  let b := b2z (nth 5 header Byte.x00) in
  let type := u32 (char_val (nth 6 header Byte.x00)) in
  let length := Z.lor a (Z.shiftl b 8) in
  if str_size (buffer_ r) <? kHeaderSize + length then
    let drop_size := str_size (buffer_ r) in
    let r := set_buffer [] r in
    if negb (eof_ r) then (ReportCorruption r drop_size ($"bad record length"), kBadRecord, result)
    else (r, kEof, result)
  else if (type =? kZeroType) && (length =? 0) then (set_buffer [] r, kBadRecord, result)
  else if checksum_ r &&
          negb (Value 0 (take (Z.to_nat (1 + length)) (drop 6 header)) =? Unmask (DecodeFixed32 header))
  then
    let drop_size := str_size (buffer_ r) in
    let r := set_buffer [] r in
    (ReportCorruption r drop_size ($"checksum mismatch"), kBadRecord, result)
  else
    let r := set_buffer (drop (Z.to_nat (kHeaderSize + length)) header) r in
    if u64 (end_of_buffer_offset_ r - str_size (buffer_ r) - kHeaderSize - length) <? initial_offset_ r
    then (r, kBadRecord, [])
    else (r, type, take (Z.to_nat length) (drop (Z.to_nat kHeaderSize) header)).

(** [ReadPhysicalRecord]: a full read leaves a header in the buffer and a short one
    sets [eof_], so the loop makes at most two turns. *)
Fixpoint physical_loop (fuel : nat) (r : Reader) (result : str) : Prelude.result (Reader * Z * str) :=
  match fuel with
  | O => Crash OutOfFuel
  | S fuel' =>
      if str_size (buffer_ r) <? kHeaderSize then
        if negb (eof_ r) then
          let '(r, status) := read_block r in
          if negb (Status.ok status) then
            let r := ReportDrop (set_buffer [] r) kBlockSize status in
            Ret (set_eof r, kEof, result)
          else
            let r := if str_size (buffer_ r) <? kBlockSize then set_eof r else r in
            physical_loop fuel' r result
        else Ret (set_buffer [] r, kEof, result)
      else Ret (parse_physical r result)
  end.

Definition ReadPhysicalRecord (r : Reader) (result : str) : Prelude.result (Reader * Z * str) :=
  physical_loop 2 r result.

(** The loop of [ReadRecord]; its locals are [in_fragmented_record],
    [prospective_record_offset], [fragment] and [scratch].  Every turn that does
    not return consumes input, so the fuel counts physical records. *)
Fixpoint record_loop (fuel : nat) (r : Reader) (in_frag : bool) (offset : Z) (fragment scratch : str)
    : result (Reader * option str) :=
  match fuel with
  | O => Crash OutOfFuel
  | S fuel' =>
      p ← ReadPhysicalRecord r fragment;
      let '(r, record_type, fragment) := (p : Reader * Z * str) in
      let physical_record_offset :=
        u64 (end_of_buffer_offset_ r - str_size (buffer_ r) - kHeaderSize - str_size fragment) in
      if resyncing_ r && (record_type =? kMiddleType) then
        record_loop fuel' r in_frag offset fragment scratch
      else if resyncing_ r && (record_type =? kLastType) then
        record_loop fuel' (set_resyncing false r) in_frag offset fragment scratch
      else
        let r := if resyncing_ r then set_resyncing false r else r in
        if record_type =? kFullType then
          let r := if in_frag && negb (bool_decide (scratch = []))
                   then ReportCorruption r (str_size scratch) ($"partial record without end(1)")
                   else r in
          Ret (set_last_record_offset physical_record_offset r, Some fragment)
        else if record_type =? kFirstType then
          let r := if in_frag && negb (bool_decide (scratch = []))
                   then ReportCorruption r (str_size scratch) ($"partial record without end(2)")
                   else r in
          record_loop fuel' r true physical_record_offset fragment fragment
        else if record_type =? kMiddleType then
          if negb in_frag then
            record_loop fuel' (ReportCorruption r (str_size fragment)
                                 ($"missing start of fragmented record(1)")) in_frag offset fragment scratch
          else record_loop fuel' r in_frag offset fragment (scratch ++ fragment)
        else if record_type =? kLastType then
          if negb in_frag then
            record_loop fuel' (ReportCorruption r (str_size fragment)
                                 ($"missing start of fragmented record(2)")) in_frag offset fragment scratch
          else Ret (set_last_record_offset offset r, Some (scratch ++ fragment))
        else if record_type =? kEof then Ret (r, None)
        else if record_type =? kBadRecord then
          if in_frag then
            record_loop fuel' (ReportCorruption r (str_size scratch) ($"error in middle of record"))
              false offset fragment []
          else record_loop fuel' r in_frag offset fragment scratch
        else
          record_loop fuel'
            (ReportCorruption r (u64 (str_size fragment + (if in_frag then str_size scratch else 0)))
               (take 39 ($"unknown record type " ++ dec record_type)))
            false offset fragment []
  end.

Definition ReadRecord (fuel : nat) (r : Reader) : result (Reader * option str) :=
  let '(r, ok) := if last_record_offset_ r <? initial_offset_ r then SkipToInitialBlock r
                  else (r, true) in
  if negb ok then Ret (r, None) else record_loop fuel r false 0 [] [].

Definition LastRecordOffset (r : Reader) : Z := last_record_offset_ r.

(** [while (reader.ReadRecord(&record, &scratch))], with the offset of each. *)
Fixpoint read_all (fuel : nat) (r : Reader) : result (Reader * list (Z * str)) :=
  match fuel with
  | O => Crash OutOfFuel
  | S fuel' =>
      x ← ReadRecord fuel r;
      match x : Reader * option str with
      | (r, None) => Ret (r, [])
      | (r, Some record) =>
          y ← read_all fuel' r;
          let '(r', rest) := (y : Reader * list (Z * str)) in
          Ret (r', (LastRecordOffset r, record) :: rest)
      end
  end.

End ops.
Arguments Reader F : clear implicits.
End Reader.

(** The reader with its reports taken out, and the reports. *)
Definition take_reports (r : Reader.Reader str) : Reader.Reader str * list (Z * Status.Status) :=
  (Reader.mkReader (Reader.file_ r) (Some []) (Reader.checksum_ r) (Reader.buffer_ r)
     (Reader.eof_ r) (Reader.last_record_offset_ r) (Reader.end_of_buffer_offset_ r)
     (Reader.initial_offset_ r) (Reader.resyncing_ r), default [] (Reader.reporter_ r)).

(** ** Lemmas *)

Lemma lor_byte a b : 0 <= a < 256 -> 0 <= b -> Z.lor a (Z.shiftl b 8) = a + 256 * b.
Proof.
  intros Ha Hb. rewrite Z.shiftl_mul_pow2 by lia. change (2 ^ 8) with 256.
  assert (Z.land a (b * 256) = 0) as Hl.
  { apply Z.bits_inj'. intros n Hn. rewrite Z.land_spec, Z.bits_0. change 256 with (2 ^ 8).
    destruct (decide (n < 8)).
    - rewrite (Z.mul_pow2_bits_low b 8 n) by lia. apply andb_false_r.
    - rewrite <- (Z.mod_small a (2 ^ 8)), Z.mod_pow2_bits_high by lia. done. }
  rewrite <- Z.lxor_lor, <- Z.add_nocarry_lxor by done. lia.
Qed.

Section log_lemmas.
Implicit Types (d rest : str) (t : Z).

Lemma record_header_length t d : length (Writer.record_header t d) = 7%nat.
Proof. reflexivity. Qed.

(** A physical record. *)
Definition phys t d : str := Writer.record_header t d ++ d.

Lemma phys_size t d : str_size (phys t d) = kHeaderSize + str_size d.
Proof. unfold phys. rewrite str_size_app. reflexivity. Qed.

Lemma header_length_field d :
  str_size d <= 65535 ->
  Z.lor (b2z (z2b (Z.land (str_size d) 255))) (Z.shiftl (b2z (z2b (Z.shiftr (str_size d) 8))) 8)
  = str_size d.
Proof.
  intros Hd. pose proof (str_size_nonneg d). rewrite lor_byte by (try apply b2z_range; by apply b2z_range).
  rewrite !b2z_z2b. change 255 with (Z.ones 8). rewrite Z.land_ones, Z.shiftr_div_pow2 by lia.
  change (2 ^ 8) with 256. lia_div.
Qed.

Lemma header_crc t d :
  Value 0 (z2b t :: d) = Unmask (DecodeFixed32 (EncodeFixed32 (Mask (Extend 0 (Writer.type_crc t) d)))).
Proof.
  unfold Writer.type_crc. change (z2b t :: d) with ([z2b t] ++ d).
  rewrite !Value_spec. rewrite Extend_spec by (by apply crc32c_range).
  rewrite <- crc32c_app. pose proof (crc32c_range 0 ([z2b t] ++ d) ltac:(lia)) as Hr.
  destruct (Unmask_Mask _ Hr) as [Hm Hu].
  rewrite <- (app_nil_r (EncodeFixed32 _)), DecodeFixed32_Encode, wrap_small by done. done.
Qed.

Context (F : Type) `{SF : !SequentialFile F}.
Implicit Types (r : Reader.Reader F).

(** A whole physical record at the front of the buffer is taken off it. *)
Lemma parse_phys r t d rest res :
  Reader.buffer_ r = phys t d ++ rest -> Reader.initial_offset_ r = 0 ->
  1 <= t <= 4 -> str_size d <= 65535 ->
  Reader.parse_physical r res = (Reader.set_buffer rest r, t, d).
Proof.
  intros Hb Hi Ht Hd. unfold Reader.parse_physical. rewrite Hb.
  change (nth 4 (phys t d ++ rest) Byte.x00) with (z2b (Z.land (str_size d) 255)).
  change (nth 5 (phys t d ++ rest) Byte.x00) with (z2b (Z.shiftr (str_size d) 8)).
  change (nth 6 (phys t d ++ rest) Byte.x00) with (z2b t).
  rewrite header_length_field by done.
  rewrite str_size_app, phys_size. pose proof (str_size_nonneg rest). pose proof (str_size_nonneg d).
  destruct (Z.ltb_spec (kHeaderSize + str_size d + str_size rest) (kHeaderSize + str_size d)); [lia|].
  assert (u32 (char_val (z2b t)) = t) as Htv.
  { unfold char_val. rewrite b2z_z2b, Z.mod_small by lia.
    destruct (Z.ltb_spec t 128); [|lia]. apply wrap_small. lia. }
  rewrite Htv. destruct (Z.eqb_spec t kZeroType) as [E|]; [unfold kZeroType in E; lia|]. cbn [andb].
  assert (take (Z.to_nat (1 + str_size d)) (drop 6 (phys t d ++ rest)) = z2b t :: d) as ->.
  { change (drop 6 (phys t d ++ rest)) with (z2b t :: d ++ rest).
    replace (Z.to_nat (1 + str_size d)) with (S (length d)) by (unfold str_size; lia).
    simpl. by rewrite take_app_length. }
  rewrite header_crc.
  change (DecodeFixed32 (phys t d ++ rest))
    with (DecodeFixed32 (EncodeFixed32 (Mask (Extend 0 (Writer.type_crc t) d)))).
  rewrite Z.eqb_refl, andb_false_r.
  assert (drop (Z.to_nat (kHeaderSize + str_size d)) (phys t d ++ rest) = rest) as ->.
  { rewrite <- (phys_size t d). unfold str_size. by rewrite Nat2Z.id, drop_app_length. }
  cbn [Reader.set_buffer Reader.initial_offset_ Reader.end_of_buffer_offset_ Reader.buffer_].
  rewrite Hi. destruct (Z.ltb_spec (u64 (Reader.end_of_buffer_offset_ r - str_size rest - kHeaderSize - str_size d)) 0)
    as [Hneg|]; [pose proof (wrap_range 64 (Reader.end_of_buffer_offset_ r - str_size rest - kHeaderSize - str_size d)); lia|].
  f_equal. change (drop (Z.to_nat kHeaderSize) (phys t d ++ rest)) with (d ++ rest).
  unfold str_size. by rewrite Nat2Z.id, take_app_length.
Qed.

End log_lemmas.

(** ** What the reader sees of a log in memory

    [view r o R]: the reader stands at offset [o] of its current block and [R] is
    everything that follows. *)
Record view (r : Reader.Reader str) (o : Z) (R : str) : Prop := {
  v_offset : 0 <= o <= kBlockSize;
  v_buffer : Reader.buffer_ r = take (Z.to_nat (kBlockSize - o)) R;
  v_file : Reader.file_ r = drop (Z.to_nat (kBlockSize - o)) R;
  v_eof : Reader.eof_ r = bool_decide (str_size R < kBlockSize - o);
  v_initial : Reader.initial_offset_ r = 0;
  v_sync : Reader.resyncing_ r = false;
  v_last : 0 <= Reader.last_record_offset_ r
}.

Ltac log_lia := unfold kBlockSize, kHeaderSize in *; lia.

(** Where a physical record goes after offset [o], and the trailer before it. *)
Definition next_offset (o : Z) : Z := if kBlockSize - o <? kHeaderSize then 0 else o.
Definition trailer (o : Z) : str :=
  if kBlockSize - o <? kHeaderSize then replicate (Z.to_nat (kBlockSize - o)) Byte.x00 else [].

Lemma str_size_take n s : 0 <= n -> str_size (take (Z.to_nat n) s) = Z.min n (str_size s).
Proof. intros. unfold str_size. rewrite length_take. lia. Qed.

Lemma str_size_drop n s : 0 <= n <= str_size s -> str_size (drop (Z.to_nat n) s) = str_size s - n.
Proof. intros. unfold str_size in *. rewrite length_drop. lia. Qed.

Lemma take_app_size a b n :
  str_size a <= n -> take (Z.to_nat n) (a ++ b) = a ++ take (Z.to_nat (n - str_size a)) b.
Proof.
  unfold str_size. intros. rewrite take_app_ge by lia. do 2 f_equal. lia.
Qed.

Lemma drop_app_size a b n :
  str_size a <= n -> drop (Z.to_nat n) (a ++ b) = drop (Z.to_nat (n - str_size a)) b.
Proof. unfold str_size. intros. rewrite drop_app_ge by lia. f_equal. lia. Qed.

(** With a header in the buffer. *)
Lemma view_parse r o t d R res :
  view r o (phys t d ++ R) -> 1 <= t <= 4 -> o + kHeaderSize + str_size d <= kBlockSize ->
  exists r', Reader.parse_physical r res = (r', t, d) /\
    view r' (o + kHeaderSize + str_size d) R /\ Reader.reporter_ r' = Reader.reporter_ r.
Proof.
  intros [Ho Hb Hf He Hi Hs Hlast] Ht Hd. pose proof (str_size_nonneg d) as Hd0.
  unfold kHeaderSize, kBlockSize in *.
  rewrite take_app_size in Hb by (rewrite phys_size; unfold kHeaderSize; lia).
  rewrite drop_app_size in Hf by (rewrite phys_size; unfold kHeaderSize; lia).
  rewrite phys_size in Hb, Hf. unfold kHeaderSize in Hb, Hf.
  erewrite parse_phys; [|exact Hb|done|done|lia].
  eexists. split; [done|]. split; [|done]. split; cbn; try done.
  - log_lia.
  - f_equal. unfold kBlockSize. lia.
  - rewrite Hf. f_equal. unfold kBlockSize. lia.
  - rewrite He, str_size_app, phys_size. apply bool_decide_ext. unfold kHeaderSize, kBlockSize. lia.
Qed.

(** A read at the end of a block. *)
Lemma view_refill r o R :
  view r o (trailer o ++ R) -> kBlockSize - o < kHeaderSize ->
  exists r', Reader.read_block r = (r', Status.OK) /\
    view (if str_size (Reader.buffer_ r') <? kBlockSize then Reader.set_eof r' else r') 0 R /\
    Reader.eof_ r = false /\ Reader.reporter_ r' = Reader.reporter_ r.
Proof.
  intros [Ho Hb Hf He Hi Hs Hlast] Hlt. unfold trailer in *. rewrite (proj2 (Z.ltb_lt _ _) Hlt) in *.
  set (pad := replicate _ _) in *.
  assert (str_size pad = kBlockSize - o) as Hp.
  { unfold pad, str_size. rewrite length_replicate. lia. }
  rewrite drop_app_size, Hp, Z.sub_diag in Hf by lia. change (Z.to_nat 0) with O in Hf. rewrite drop_0 in Hf.
  rewrite str_size_app, Hp, bool_decide_false in He by (pose proof (str_size_nonneg R); lia).
  eexists. split; [reflexivity|]. split; [|done]. cbn. rewrite Hf.
  rewrite str_size_take by (log_lia).
  destruct (Z.ltb_spec (Z.min kBlockSize (str_size R)) kBlockSize) as [Hm|Hm].
  all: split; cbn; rewrite ?Hf, ?Z.sub_0_r; try done; try (log_lia).
  - symmetry. apply bool_decide_eq_true. lia.
  - rewrite He. symmetry. apply bool_decide_eq_false. lia.
Qed.

Lemma view_phys r o t d R res :
  view r o (trailer o ++ phys t d ++ R) -> 1 <= t <= 4 ->
  next_offset o + kHeaderSize + str_size d <= kBlockSize ->
  exists r', Reader.ReadPhysicalRecord r res = Ret (r', t, d) /\
    view r' (next_offset o + kHeaderSize + str_size d) R /\ Reader.reporter_ r' = Reader.reporter_ r.
Proof.
  intros Hv Ht Hd. unfold Reader.ReadPhysicalRecord, next_offset in *.
  pose proof (str_size_nonneg d). pose proof (str_size_nonneg R).
  destruct (Z.ltb_spec (kBlockSize - o) kHeaderSize) as [Hlt|Hge].
  - destruct (view_refill _ _ _ Hv Hlt) as (r1 & Hrd & Hv1 & He & Hrep).
    cbn [Reader.physical_loop].
    assert ((str_size (Reader.buffer_ r) <? kHeaderSize) = true) as ->.
    { apply Z.ltb_lt. rewrite (v_buffer _ _ _ Hv), str_size_take by (destruct Hv; lia). lia. }
    rewrite He, Hrd. cbn [negb Status.ok Status.OK].
    set (r2 := if str_size (Reader.buffer_ r1) <? kBlockSize then Reader.set_eof r1 else r1) in *.
    assert ((str_size (Reader.buffer_ r2) <? kHeaderSize) = false) as ->.
    { apply Z.ltb_ge. rewrite (v_buffer _ _ _ Hv1), str_size_take, str_size_app, phys_size
        by (log_lia). unfold kHeaderSize, kBlockSize in *. lia. }
    destruct (view_parse r2 0 t d R res Hv1 Ht Hd) as (r3 & -> & Hv3 & Hr3).
    exists r3. split_and!; [done|done|]. rewrite Hr3, <- Hrep. unfold r2. by case_match.
  - assert (trailer o = []) as Et by (unfold trailer; by rewrite (proj2 (Z.ltb_ge _ _) Hge)).
    rewrite Et in Hv. cbn [Reader.physical_loop].
    assert ((str_size (Reader.buffer_ r) <? kHeaderSize) = false) as ->.
    { apply Z.ltb_ge. rewrite (v_buffer _ _ _ Hv), str_size_take by (destruct Hv; lia).
      rewrite app_nil_l, str_size_app, phys_size. unfold kHeaderSize in *. lia. }
    destruct (view_parse r o t d R res Hv Ht Hd) as (r3 & -> & Hv3 & Hr3). eauto.
Qed.

(** At the end of the log. *)
Lemma view_end r o res :
  view r o [] -> exists r', Reader.ReadPhysicalRecord r res = Ret (r', Reader.kEof, res) /\
    Reader.reporter_ r' = Reader.reporter_ r /\ Reader.resyncing_ r' = false.
Proof.
  intros [Ho Hb Hf He Hi Hs Hlast]. unfold Reader.ReadPhysicalRecord. cbn [Reader.physical_loop].
  rewrite take_nil in Hb. rewrite drop_nil in Hf. rewrite Hb. change (str_size [] <? kHeaderSize) with true. cbv iota.
  destruct (Reader.eof_ r) eqn:E; cbn [negb].
  - eexists. split; [done|]. done.
  - cbn. rewrite Hf. change (drop (Z.to_nat kBlockSize) []) with (@nil byte).
    rewrite take_nil. cbn. eexists. split; [done|]. done.
Qed.

(** ** One record: what the writer emits, the reader joins *)

(** The turn of the writer's loop, on a file in memory. *)
Definition frag_size (o : Z) (left : str) : Z :=
  Z.min (str_size left) (kBlockSize - next_offset o - kHeaderSize).

Definition frag_type (begin : bool) (o : Z) (left : str) : Z :=
  let end_ := str_size left =? frag_size o left in
  if begin && end_ then kFullType else if begin then kFirstType
  else if end_ then kLastType else kMiddleType.

Lemma next_offset_range o : 0 <= o <= kBlockSize -> 0 <= next_offset o <= kBlockSize - kHeaderSize.
Proof. unfold next_offset. intros. destruct (Z.ltb_spec (kBlockSize - o) kHeaderSize); log_lia. Qed.

Lemma frag_size_range o left : 0 <= o <= kBlockSize -> 0 <= frag_size o left <= str_size left.
Proof. intros Ho%next_offset_range. pose proof (str_size_nonneg left). unfold frag_size. lia. Qed.

Lemma frag_type_range b o left : 1 <= frag_type b o left <= 4.
Proof. unfold frag_type, kFullType, kFirstType, kLastType, kMiddleType. repeat case_match; lia. Qed.

Lemma add_turn fuel (w : Writer.Writer str) begin left :
  0 <= Writer.block_offset_ w <= kBlockSize ->
  let o := Writer.block_offset_ w in
  let n := frag_size o left in
  let w' := Writer.mkWriter
    (Writer.dest_ w ++ trailer o ++ phys (frag_type begin o left) (take (Z.to_nat n) left))
    (next_offset o + kHeaderSize + n) in
  Writer.add_loop (S fuel) w begin left =
  if 0 <? str_size (drop (Z.to_nat n) left) then Writer.add_loop fuel w' false (drop (Z.to_nat n) left)
  else Ret (w', Status.OK).
Proof.
  intros Ho o n w'. pose proof (next_offset_range o Ho) as Hn. pose proof (frag_size_range o left Ho) as Hf.
  cbn [Writer.add_loop]. fold o.
  destruct (Z.ltb_spec (kBlockSize - o) 0); [lia|].
  set (w1 := if kBlockSize - o <? kHeaderSize then _ else w).
  assert (w1 = Writer.mkWriter (Writer.dest_ w ++ trailer o) (next_offset o)) as ->.
  { unfold w1, trailer, next_offset. destruct (Z.ltb_spec (kBlockSize - o) kHeaderSize).
    - destruct (Z.ltb_spec 0 (kBlockSize - o)); [done|].
      replace (Z.to_nat (kBlockSize - o)) with O by lia. simpl. by rewrite app_nil_r.
    - rewrite app_nil_r. by destruct w. }
  cbn [Writer.block_offset_ Writer.dest_].
  destruct (Z.ltb_spec (kBlockSize - next_offset o - kHeaderSize) 0); [lia|].
  assert ((if str_size left <? kBlockSize - next_offset o - kHeaderSize then str_size left
           else kBlockSize - next_offset o - kHeaderSize) = n) as ->.
  { unfold n, frag_size. destruct (Z.ltb_spec (str_size left) (kBlockSize - next_offset o - kHeaderSize)); lia. }
  fold (frag_type begin o left).
  unfold Writer.EmitPhysicalRecord. cbn [Writer.block_offset_ Writer.dest_].
  rewrite str_size_take by lia. rewrite Z.min_l by lia.
  destruct (Z.ltb_spec 65535 n); [unfold n, frag_size in *; log_lia|].
  destruct (Z.ltb_spec kBlockSize (next_offset o + kHeaderSize + n)); [unfold n, frag_size in *; log_lia|].
  cbn. unfold w', phys. rewrite <- !app_assoc. done.
Qed.

(** The reader's loop on one physical record of an intact log. *)
Lemma record_turn fuel r o t d R frag_in offset scratch in_frag :
  view r o (trailer o ++ phys t d ++ R) -> 1 <= t <= 4 ->
  next_offset o + kHeaderSize + str_size d <= kBlockSize ->
  in_frag = negb ((t =? kFullType) || (t =? kFirstType)) -> 0 <= offset ->
  exists r' off, 0 <= off /\ view r' (next_offset o + kHeaderSize + str_size d) R /\
    Reader.reporter_ r' = Reader.reporter_ r /\
    Reader.record_loop (S fuel) r in_frag offset frag_in scratch =
    if (t =? kFullType) || (t =? kLastType)
    then Ret (Reader.set_last_record_offset off r', Some (if in_frag then scratch ++ d else d))
    else Reader.record_loop fuel r' true off d (if in_frag then scratch ++ d else d).
Proof.
  intros Hv Ht Hd -> Hoff. destruct (view_phys r o t d R frag_in Hv Ht Hd) as (r' & Hr & Hv' & Hrep).
  cbn [Reader.record_loop]. rewrite Hr. cbn [mbind result_bind].
  rewrite (v_sync _ _ _ Hv'). cbn [andb]. unfold kFullType, kFirstType, kMiddleType, kLastType.
  assert (t = 1 \/ t = 2 \/ t = 3 \/ t = 4) as [->|[->|[->| ->]]] by lia; cbn -[Reader.record_loop u64];
    eexists r', _; (split; [|split; [exact Hv'|split; [exact Hrep|reflexivity]]]);
    try done; by apply wrap_range.
Qed.

Lemma view_last_offset off r o R : 0 <= off -> view r o R -> view (Reader.set_last_record_offset off r) o R.
Proof. intros ? []. by split. Qed.

(** A block is full when a fragment is not the last one. *)
Lemma frag_full o left :
  0 <= o <= kBlockSize -> frag_size o left < str_size left ->
  next_offset o + kHeaderSize + frag_size o left = kBlockSize /\
  (frag_size o left = 0 -> o < kBlockSize).
Proof.
  intros Ho Hlt. unfold frag_size, next_offset in *.
  destruct (Z.ltb_spec (kBlockSize - o) kHeaderSize); log_lia.
Qed.

(** What reading the bytes [out], emitted from block offset [o] for the rest
    [left] of a record, gives. *)
Definition reads_back (begin : bool) (o : Z) (left out : str) (o' : Z) (n : nat) : Prop :=
  forall r R scratch offset frag fuel,
    view r o (out ++ R) -> (n <= fuel)%nat -> 0 <= offset ->
    exists r', Reader.record_loop fuel r (negb begin) offset frag scratch
               = Ret (r', Some (if begin then left else scratch ++ left)) /\
               view r' o' R /\ Reader.reporter_ r' = Reader.reporter_ r.

Lemma reads_back_last begin o left :
  0 <= o <= kBlockSize -> frag_size o left = str_size left ->
  reads_back begin o left (trailer o ++ phys (frag_type begin o left) left)
    (next_offset o + kHeaderSize + str_size left) 1.
Proof.
  intros Ho Hn r R scratch offset frag fuel Hv Hf Hoff. destruct fuel as [|fuel]; [lia|].
  rewrite <- !app_assoc in Hv. pose proof (next_offset_range o Ho).
  edestruct (record_turn fuel) as (r' & off & Ho' & Hv' & Hrep & ->);
    [exact Hv|apply frag_type_range|unfold frag_size in Hn; log_lia| |exact Hoff|].
  - unfold frag_type. rewrite Hn, Z.eqb_refl, andb_true_r. by destruct begin.
  - unfold frag_type. rewrite Hn, Z.eqb_refl, andb_true_r.
    exists (Reader.set_last_record_offset off r').
    destruct begin; cbn; auto using view_last_offset.
Qed.

Lemma reads_back_more begin o left out o' n :
  0 <= o <= kBlockSize -> frag_size o left < str_size left ->
  let d := take (Z.to_nat (frag_size o left)) left in
  reads_back false kBlockSize (drop (Z.to_nat (frag_size o left)) left) out o' n ->
  reads_back begin o left (trailer o ++ phys (frag_type begin o left) d ++ out) o' (S n).
Proof.
  intros Ho Hn d Hrest r R scratch offset frag fuel Hv Hf Hoff. destruct fuel as [|fuel]; [lia|].
  rewrite <- !app_assoc in Hv. destruct (frag_full o left Ho Hn) as [Hfull _].
  pose proof (frag_size_range o left Ho).
  assert (str_size d = frag_size o left) as Hd by (unfold d; rewrite str_size_take by lia; lia).
  assert ((str_size left =? frag_size o left) = false) as Hne by (apply Z.eqb_neq; lia).
  edestruct (record_turn fuel) as (r' & off & Ho' & Hv' & Hrep & ->);
    [exact Hv|apply frag_type_range|rewrite Hd; lia| |exact Hoff|].
  - unfold frag_type. rewrite Hne, andb_false_r. by destruct begin.
  - rewrite Hd, Hfull in Hv'. unfold frag_type. rewrite Hne, andb_false_r.
    destruct (Hrest r' R (if negb begin then scratch ++ d else d) off d fuel Hv' ltac:(lia) Ho')
      as (r2 & Hr2 & Hv2 & Hrep2).
    exists r2. rewrite Hrep2, Hrep. split; [|done].
    destruct begin; cbn in Hr2 |- *; rewrite Hr2; do 3 f_equal;
      rewrite <- ?app_assoc; unfold d; by rewrite take_drop.
Qed.

Lemma phys_nonempty t d : (1 <= length (phys t d))%nat.
Proof. unfold phys. simpl. lia. Qed.

(** The writer's loop ends within its fuel, and what it emits is read back. *)
Lemma add_read fuel (w : Writer.Writer str) begin left :
  0 <= Writer.block_offset_ w <= kBlockSize ->
  (2 * length left + 2 <= fuel + (if decide (Writer.block_offset_ w = kBlockSize) then 1 else 0))%nat ->
  exists w' out n,
    Writer.add_loop fuel w begin left = Ret (w', Status.OK) /\
    Writer.dest_ w' = Writer.dest_ w ++ out /\
    0 <= Writer.block_offset_ w' <= kBlockSize /\ (1 <= n <= length out)%nat /\
    reads_back begin (Writer.block_offset_ w) left out (Writer.block_offset_ w') n.
Proof.
  revert w begin left. induction fuel as [|fuel IH]; intros w begin left Ho Hf;
    [destruct (decide (Writer.block_offset_ w = kBlockSize)); lia|].
  rewrite add_turn by done. set (o := Writer.block_offset_ w) in *.
  pose proof (frag_size_range o left Ho) as Hn. pose proof (next_offset_range o Ho) as Hno.
  rewrite str_size_drop by lia.
  destruct (Z.ltb_spec 0 (str_size left - frag_size o left)) as [Hlt|Hge].
  - destruct (frag_full o left Ho ltac:(lia)) as [Hfull Hzero].
    set (w1 := Writer.mkWriter _ _). destruct (IH w1 false (drop (Z.to_nat (frag_size o left)) left))
      as (w' & out & n & -> & Hd & Hw & Hl & Hr).
    + cbn. lia.
    + cbn. rewrite Hfull, decide_True by done. rewrite length_drop. unfold str_size in *.
      case_decide; lia.
    + unfold w1 in Hd, Hr. cbn [Writer.dest_ Writer.block_offset_] in Hd, Hr. rewrite Hfull in Hr. eexists w', _, (S n).
      split_and!; [done|by rewrite Hd, <- !app_assoc|lia|lia|lia| |by apply reads_back_more; [|lia|]].
      pose proof (phys_nonempty (frag_type begin o left) (take (Z.to_nat (frag_size o left)) left)).
      rewrite !length_app. lia.
  - assert (frag_size o left = str_size left) as En by lia.
    assert (take (Z.to_nat (frag_size o left)) left = left) as -> by
      (rewrite En; apply take_ge; unfold str_size; lia).
    eexists _, _, 1%nat. split_and!; [done|done|cbn [Writer.block_offset_]; log_lia
      |cbn [Writer.block_offset_]; unfold frag_size in *; log_lia|lia| |].
    + pose proof (phys_nonempty (frag_type begin o left) left). rewrite length_app. lia.
    + cbn [Writer.block_offset_]. rewrite En. by apply reads_back_last.
Qed.

(** ** Whole logs *)

Fixpoint add_all (w : Writer.Writer str) (records : list str) : result (Writer.Writer str) :=
  match records with
  | [] => Ret w
  | rec :: records' => x ← Writer.AddRecord w rec; add_all (fst x) records'
  end.

(** The two outcomes of [ReadRecord] on an intact log. *)
Lemma ReadRecord_end fuel r o :
  view r o [] -> (0 < fuel)%nat ->
  exists r', Reader.ReadRecord fuel r = Ret (r', None) /\ Reader.reporter_ r' = Reader.reporter_ r.
Proof.
  intros Hv Hf. destruct fuel as [|fuel]; [lia|]. unfold Reader.ReadRecord.
  rewrite (v_initial _ _ _ Hv). rewrite (proj2 (Z.ltb_ge _ _) (v_last _ _ _ Hv)). cbn [negb].
  destruct (view_end r _ [] Hv) as (r' & Hr & Hrep & Hs). cbn [Reader.record_loop].
  rewrite Hr. cbn [mbind result_bind]. rewrite Hs. cbn. eauto.
Qed.

Lemma ReadRecord_next fuel r o left out R o' n :
  view r o (out ++ R) -> (n <= fuel)%nat -> reads_back true o left out o' n ->
  exists r', Reader.ReadRecord fuel r = Ret (r', Some left) /\ view r' o' R /\
             Reader.reporter_ r' = Reader.reporter_ r.
Proof.
  intros Hv Hf Hr. unfold Reader.ReadRecord.
  rewrite (v_initial _ _ _ Hv), (proj2 (Z.ltb_ge _ _) (v_last _ _ _ Hv)). cbn [negb].
  by apply (Hr r R [] 0 [] fuel Hv Hf).
Qed.

(** The calls of [ReadRecord] return the records and then nothing, and report no
    corruption. *)
Fixpoint reads_as (fuel : nat) (r : Reader.Reader str) (records : list str) : Prop :=
  match fuel with
  | O => False
  | S f =>
      match records with
      | [] => exists r', Reader.ReadRecord fuel r = Ret (r', None) /\ Reader.reporter_ r' = Reader.reporter_ r
      | rec :: records' =>
          exists r', Reader.ReadRecord fuel r = Ret (r', Some rec) /\ Reader.reporter_ r' = Reader.reporter_ r /\
                     reads_as f r' records'
      end
  end.

Lemma read_all_as fuel r records :
  reads_as fuel r records ->
  exists r' recs, Reader.read_all fuel r = Ret (r', recs) /\ recs.*2 = records /\ Reader.reporter_ r' = Reader.reporter_ r.
Proof.
  revert r records. induction fuel as [|f IH]; intros r [|rec records]; cbn [reads_as]; try done.
  - intros (r' & E & Hrep). cbn [Reader.read_all]. rewrite E. by exists r', [].
  - intros (r1 & E & Hrep & Hr). cbn [Reader.read_all]. rewrite E. cbn [mbind result_bind].
    destruct (IH r1 records Hr) as (r2 & recs & -> & <- & Hrep2). cbn. eexists r2, _. split; [done|]. by rewrite Hrep2.
Qed.

Lemma add_all_read records (w : Writer.Writer str) :
  0 <= Writer.block_offset_ w <= kBlockSize ->
  exists w' out, add_all w records = Ret w' /\ Writer.dest_ w' = Writer.dest_ w ++ out /\
    forall r fuel, view r (Writer.block_offset_ w) out -> (length out < fuel)%nat -> reads_as fuel r records.
Proof.
  revert w. induction records as [|rec records IH]; intros w Ho; cbn [add_all].
  - exists w, []. split_and!; [done|by rewrite app_nil_r|]. intros r fuel Hv Hf.
    destruct fuel as [|fuel]; [simpl in Hf; lia|]. cbn [reads_as]. apply (ReadRecord_end (S fuel) r _ Hv). lia.
  - unfold Writer.AddRecord. destruct (add_read (2 * length rec + 2) w true rec Ho ltac:(lia))
      as (w1 & out & n & -> & Hd & Ho1 & Hn & Hrb). cbn [mbind result_bind fst].
    destruct (IH w1 Ho1) as (w2 & outs & -> & Hd2 & Hrest).
    exists w2, (out ++ outs). split_and!; [done|by rewrite Hd2, Hd, app_assoc|].
    intros r fuel Hv Hf. rewrite length_app in Hf. destruct fuel as [|fuel]; [lia|]. cbn [reads_as].
    destruct (ReadRecord_next (S fuel) r _ rec out outs _ n Hv ltac:(lia) Hrb) as (r1 & E1 & Hv1 & Hrep1).
    exists r1. split; [done|]. split; [done|]. apply Hrest; [done|lia].
Qed.

(** A fresh writer and one at the end of a block emit the same bytes. *)
Lemma add_all_fresh records dest :
  exists w' out, add_all (Writer.make dest) records = Ret w' /\ Writer.dest_ w' = dest ++ out /\
    forall r fuel, view r kBlockSize out -> (length out < fuel)%nat -> reads_as fuel r records.
Proof.
  destruct records as [|rec records].
  - destruct (add_all_read [] (Writer.mkWriter dest kBlockSize)) as (w' & out & E & Hd & Hr);
      [cbn; log_lia|]. cbn in E. injection E as <-. cbn [Writer.dest_ Writer.block_offset_] in Hd, Hr.
    exists (Writer.make dest), out. done.
  - destruct (add_all_read (rec :: records) (Writer.mkWriter dest kBlockSize)) as (w' & out & E & Hd & Hr);
      [cbn; log_lia|]. exists w', out. split_and!; [|done|done].
    rewrite <- E. cbn [add_all]. unfold Writer.AddRecord.
    replace (2 * length rec + 2)%nat with (S (2 * length rec + 1)) by lia.
    rewrite !add_turn by (cbn; log_lia). cbn [Writer.block_offset_ Writer.dest_ Writer.make].
    done.
Qed.

(** A new log, read from the start with checksums on. *)
Lemma new_log_reads records :
  exists w, add_all (Writer.make []) records = Ret w /\
    reads_as (S (length (Writer.dest_ w))) (Reader.make (Writer.dest_ w) true true 0) records.
Proof.
  destruct (add_all_fresh records []) as (w & out & Hw & Hd & Hr). cbn in Hd. exists w. split; [done|]. rewrite Hd. apply Hr; [|lia].
  split; cbn; try done; rewrite ?Z.sub_diag; try log_lia.
  symmetry. apply bool_decide_eq_false. pose proof (str_size_nonneg out). lia.
Qed.

(** Where a new log's writer stands. *)
Lemma add_all_offset records (w w' : Writer.Writer str) :
  0 <= Writer.block_offset_ w <= kBlockSize -> add_all w records = Ret w' -> 0 <= Writer.block_offset_ w' <= kBlockSize.
Proof.
  revert w. induction records as [|rec records IH]; intros w Ho; cbn [add_all]; [by intros [= <-]|].
  unfold Writer.AddRecord. destruct (add_read (2 * length rec + 2) w true rec Ho ltac:(lia)) as (w1 & out & n & -> & _ & Ho1 & _).
  cbn [mbind result_bind fst]. by apply IH.
Qed.

Lemma log_offset records w : add_all (Writer.make []) records = Ret w -> 0 <= Writer.block_offset_ w <= kBlockSize.
Proof. apply add_all_offset. cbn. log_lia. Qed.

(** ** Properties *)

(** C27: whatever records are added to a new log, reading the file from the start
    with checksums on returns exactly those records in the order they were added,
    however they were cut into blocks, then reports the end of the file, and never
    reports a corruption; neither side trips an assertion. *)
Theorem log_roundtrip (records : list str) :
  exists w r recs, add_all (Writer.make []) records = Ret w /\
    Reader.read_all (S (length (Writer.dest_ w))) (Reader.make (Writer.dest_ w) true true 0)
    = Ret (r, recs) /\
    recs.*2 = records /\ Reader.reporter_ r = Some [].
Proof.
  destruct (new_log_reads records) as (w & Hw & Hr). destruct (read_all_as _ _ _ Hr) as (r & recs & Hra & Hrecs & Hrep).
  by exists w, r, recs.
Qed.

(** After 32762 bytes a header no longer fits the block: six bytes of trailer. *)
Example log_run :
  ((fun w => str_size (Writer.dest_ w))
     <$> add_all (Writer.make []) [replicate (Z.to_nat 32755) Byte.x61; $"tail"])
  = Ret (32762 + 6 + 7 + 4).
Proof. vm_compute. reflexivity. Qed.
