(* ===== verification/TableFormat.v ===== *)
(** * leveldb: the parts of a table file

    [table/format.{h,cc}]: block handles, the footer, and reading a block with its
    type and checksum.  The file read from is the interface [RandomAccessFile],
    with the two implementations of [util/env_posix.cc]; the compression of
    [port/port_stdcxx.h] is the interface [Port].  [include/leveldb/options.h]: the
    options of tables. *)

From Stdlib Require Import ZArith Lia.
From S2P Require Import Prelude CString Coding SliceStatus DbFormat Crc32c LogFile.

(** ** Options *)

Inductive CompressionType := kNoCompression | kSnappyCompression | kZstdCompression.

Definition compression_byte (t : CompressionType) : Z :=
  match t with kNoCompression => 0 | kSnappyCompression => 1 | kZstdCompression => 2 end.

Record ReadOptions := mkReadOptions { verify_checksums : bool; fill_cache : bool }.
Definition default_read_options : ReadOptions := mkReadOptions false true.

(** ** Interfaces *)

(** Reading [n] bytes at an offset: the status, the bytes, and whether they were
    put in the caller's buffer. *)
Class RandomAccessFile (F : Type) := { raf_Read : F -> Z -> Z -> result (Status.Status * str * bool) }.

(** A read inside the file gives its bytes. *)
Class RandomAccessFileLaws {F : Type} (RF : RandomAccessFile F) := {
  raf_contents : F -> str;
  raf_inside f off n :
    0 <= off -> 0 <= n -> off + n <= str_size (raf_contents f) -> str_size (raf_contents f) < 2 ^ 63 ->
    exists scratch, raf_Read f off n =
      Ret (Status.OK, take (Z.to_nat n) (drop (Z.to_nat off) (raf_contents f)), scratch)
}.

(** The functions of [port/port_stdcxx.h]; [None] where they return false. *)
Class Port := {
  port_Compress : CompressionType -> str -> option str;
  port_GetUncompressedLength : CompressionType -> str -> option Z;
  port_Uncompress : CompressionType -> str -> option str
}.

Class PortLaws (P : Port) := {
  port_roundtrip t raw c : port_Compress t raw = Some c ->
    port_GetUncompressedLength t c = Some (str_size raw) /\ port_Uncompress t c = Some raw
}.

(** A build without snappy and zstd. *)
Definition port_plain : Port := {|
  port_Compress _ _ := None;
  port_GetUncompressedLength _ _ := None;
  port_Uncompress _ _ := None
|}.

#[export] Instance port_plain_laws : PortLaws port_plain.
Proof. by constructor. Qed.

(** ** util/env_posix.cc: files for random access *)

Definition PosixError_ENOENT (context : str) : Status.Status :=
  Status.NotFound context ($"No such file or directory").
Definition PosixError_EINVAL (context : str) : Status.Status := Status.IOError context ($"Invalid argument").

Module PosixRandomAccessFile.
Record PosixRandomAccessFile := mkFile { filename_ : str; contents : str }.

(** [pread] takes a signed offset, and stops at the end of the file. *)
Definition Read (f : PosixRandomAccessFile) (offset n : Z) : result (Status.Status * str * bool) :=
  if 2 ^ 63 <=? offset then Ret (PosixError_EINVAL (filename_ f), [], true)
  else Ret (Status.OK, take (Z.to_nat n) (drop (Z.to_nat offset) (contents f)), true).
End PosixRandomAccessFile.

Module PosixMmapReadableFile.
Record PosixMmapReadableFile := mkFile { filename_ : str; contents : str }.

(** The sum of the check is a [uint64_t]. *)
Definition Read (f : PosixMmapReadableFile) (offset n : Z) : result (Status.Status * str * bool) :=
  if str_size (contents f) <? u64 (offset + n) then Ret (PosixError_EINVAL (filename_ f), [], false)
  else if str_size (contents f) <? offset + n then Crash OutOfBounds
  else Ret (Status.OK, take (Z.to_nat n) (drop (Z.to_nat offset) (contents f)), false).
End PosixMmapReadableFile.

#[export] Instance pread_file : RandomAccessFile PosixRandomAccessFile.PosixRandomAccessFile :=
  { raf_Read := PosixRandomAccessFile.Read }.
#[export] Instance mmap_file : RandomAccessFile PosixMmapReadableFile.PosixMmapReadableFile :=
  { raf_Read := PosixMmapReadableFile.Read }.

#[export] Program Instance pread_file_laws : RandomAccessFileLaws pread_file :=
  { raf_contents := PosixRandomAccessFile.contents }.
Next Obligation.
  intros f off n Ho Hn Hle Hsz. exists true. cbn. unfold PosixRandomAccessFile.Read.
  destruct (Z.leb_spec (2 ^ 63) off); [lia|done].
Qed.

#[export] Program Instance mmap_file_laws : RandomAccessFileLaws mmap_file :=
  { raf_contents := PosixMmapReadableFile.contents }.
Next Obligation.
  intros f off n Ho Hn Hle Hsz. exists false. cbn. unfold PosixMmapReadableFile.Read. rewrite wrap_small by lia.
  destruct (Z.ltb_spec (str_size (PosixMmapReadableFile.contents f)) (off + n)); [lia|done].
Qed.

(** ** Block handles and the footer *)

Module BlockHandle.
Record BlockHandle := mkHandle { offset_ : Z; size_ : Z }.

(** [~static_cast<uint64_t>(0)] *)
Definition unset : Z := 2 ^ 64 - 1.
Definition kMaxEncodedLength : Z := 20.

Definition make : BlockHandle := mkHandle unset unset.

Definition EncodeTo (h : BlockHandle) (dst : str) : result str :=
  if (offset_ h =? unset) || (size_ h =? unset) then Crash AssertFailed
  else Ret (PutVarint64 (PutVarint64 dst (offset_ h)) (size_ h)).

(** The handle, the status and the rest of the input; a failure may have set the
    offset and consumed its bytes. *)
Definition DecodeFrom (h : BlockHandle) (input : str) : BlockHandle * Status.Status * str :=
  match GetVarint64 input with
  | Some (offset, input) =>
      match GetVarint64 input with
      | Some (size, input) => (mkHandle offset size, Status.OK, input)
      | None => (mkHandle offset (size_ h), Status.Corruption ($"bad block handle") [], input)
      end
  | None => (h, Status.Corruption ($"bad block handle") [], input)
  end.
End BlockHandle.

Definition kTableMagicNumber : Z := 0xdb4775248b80fb57.
Definition kBlockTrailerSize : Z := 5.

Module Footer.
Record Footer := mkFooter { metaindex_handle_ : BlockHandle.BlockHandle; index_handle_ : BlockHandle.BlockHandle }.

Definition kEncodedLength : Z := 2 * BlockHandle.kMaxEncodedLength + 8.

Definition make : Footer := mkFooter BlockHandle.make BlockHandle.make.

(** [dst->resize(n)] *)
Definition resize (s : str) (n : nat) : str := take n s ++ replicate (n - length s) Byte.x00.

Definition EncodeTo (f : Footer) (dst : str) : result str :=
  let original_size := str_size dst in
  dst ← BlockHandle.EncodeTo (metaindex_handle_ f) dst;
  dst ← BlockHandle.EncodeTo (index_handle_ f) dst;
  let dst := resize dst (Z.to_nat (2 * BlockHandle.kMaxEncodedLength)) in
  let dst := PutFixed32 dst (Z.land kTableMagicNumber 0xffffffff) in
  let dst := PutFixed32 dst (Z.shiftr kTableMagicNumber 32) in
  if str_size dst =? original_size + kEncodedLength then Ret dst else Crash AssertFailed.

(** The footer, the status and the rest of the input. *)
Definition DecodeFrom (f : Footer) (input : str) : Footer * Status.Status * str :=
  if str_size input <? kEncodedLength
  then (f, Status.Corruption ($"not an sstable (footer too short)") [], input)
  else
    let magic_ptr := drop (Z.to_nat (kEncodedLength - 8)) input in
    let magic_lo := DecodeFixed32 magic_ptr in
    let magic_hi := DecodeFixed32 (drop 4 magic_ptr) in
    let magic := Z.lor (Z.shiftl magic_hi 32) magic_lo in
    if negb (magic =? kTableMagicNumber)
    then (f, Status.Corruption ($"not an sstable (bad magic number)") [], input)
    else
      let '(meta, result, rest) := BlockHandle.DecodeFrom (metaindex_handle_ f) input in
      let f := mkFooter meta (index_handle_ f) in
      if negb (Status.ok result) then (f, result, rest)
      else
        let '(index, result, rest) := BlockHandle.DecodeFrom (index_handle_ f) rest in
        let f := mkFooter meta index in
        if negb (Status.ok result) then (f, result, rest)
        else (f, result, drop 8 magic_ptr).
End Footer.

(** ** ReadBlock *)

Record BlockContents := mkContents { contents_data : str; cachable : bool; heap_allocated : bool }.

Section read_block.
Context {F : Type} `{RF : !RandomAccessFile F, PT : !Port}.

Definition no_contents : BlockContents := mkContents [] false false.

(** A block stored compressed. *)
Definition uncompress_block (t : CompressionType) (name data : str) : Status.Status * BlockContents :=
  match port_GetUncompressedLength t data with
  | None => (Status.Corruption ($"corrupted " ++ name ++ $" compressed block length") [], no_contents)
  | Some ulength =>
      match port_Uncompress t data with
      | None => (Status.Corruption ($"corrupted " ++ name ++ $" compressed block contents") [], no_contents)
      | Some ubuf => (Status.OK, mkContents ubuf true true)
      end
  end.

Definition ReadBlock (file : F) (options : ReadOptions) (handle : BlockHandle.BlockHandle) :
    result (Status.Status * BlockContents) :=
  let n := BlockHandle.size_ handle in
  let want := u64 (n + kBlockTrailerSize) in
  r ← raf_Read file (BlockHandle.offset_ handle) want;
  let '(s, contents, scratch) := (r : Status.Status * str * bool) in
  if negb (Status.ok s) then Ret (s, no_contents)
  else if negb (str_size contents =? want)
  then Ret (Status.Corruption ($"truncated block read") [], no_contents)
  else
    type ← vec_at contents n;
    let crc := Unmask (DecodeFixed32 (drop (Z.to_nat (n + 1)) contents)) in
    let actual := Value 0 (take (Z.to_nat (n + 1)) contents) in
    if verify_checksums options && negb (actual =? crc)
    then Ret (Status.Corruption ($"block checksum mismatch") [], no_contents)
    else
      let data := take (Z.to_nat n) contents in
      Ret (match b2z type with
           | 0 => (Status.OK, mkContents data scratch scratch)
           | 1 => uncompress_block kSnappyCompression ($"snappy") data
           | 2 => uncompress_block kZstdCompression ($"zstd") data
           | _ => (Status.Corruption ($"bad block type") [], no_contents)
           end).

End read_block.

(** ** Lemmas *)

Definition enc_handle (h : BlockHandle.BlockHandle) : str :=
  EncodeVarint64 (BlockHandle.offset_ h) ++ EncodeVarint64 (BlockHandle.size_ h).

(** The fields are set, and are [uint64_t]. *)
Definition handle_ok (h : BlockHandle.BlockHandle) : Prop :=
  0 <= BlockHandle.offset_ h < BlockHandle.unset /\ 0 <= BlockHandle.size_ h < BlockHandle.unset.

Lemma handle_encode h dst : handle_ok h -> BlockHandle.EncodeTo h dst = Ret (dst ++ enc_handle h).
Proof.
  intros [Ho Hs]. unfold BlockHandle.EncodeTo.
  destruct (Z.eqb_spec (BlockHandle.offset_ h) BlockHandle.unset), (Z.eqb_spec (BlockHandle.size_ h) BlockHandle.unset); try lia.
  unfold PutVarint64, enc_handle. by rewrite app_assoc.
Qed.

Lemma handle_decode h h0 rest : handle_ok h -> BlockHandle.DecodeFrom h0 (enc_handle h ++ rest) = (h, Status.OK, rest).
Proof.
  intros [Ho Hs]. unfold BlockHandle.unset in *. unfold BlockHandle.DecodeFrom, enc_handle.
  rewrite <- app_assoc, GetVarint64_Encode, GetVarint64_Encode by lia. by destruct h.
Qed.

Lemma varint_loop_length fuel v : (length (varint_loop fuel v) <= fuel)%nat.
Proof.
  revert v. induction fuel as [|f IH]; intros v; simpl; [lia|]. specialize (IH (Z.shiftr v 7)).
  destruct (128 <=? v); simpl; lia.
Qed.

Lemma enc_handle_length h : (length (enc_handle h) <= 20)%nat.
Proof.
  unfold enc_handle, EncodeVarint64. rewrite length_app.
  pose proof (varint_loop_length 10 (BlockHandle.offset_ h)). pose proof (varint_loop_length 10 (BlockHandle.size_ h)). lia.
Qed.

(** *** The footer *)

Definition enc_footer (f : Footer.Footer) : str :=
  let hs := enc_handle (Footer.metaindex_handle_ f) ++ enc_handle (Footer.index_handle_ f) in
  hs ++ replicate (40 - length hs) Byte.x00 ++ EncodeFixed32 (Z.land kTableMagicNumber 0xffffffff)
  ++ EncodeFixed32 (Z.shiftr kTableMagicNumber 32).

Definition footer_ok (f : Footer.Footer) : Prop :=
  handle_ok (Footer.metaindex_handle_ f) /\ handle_ok (Footer.index_handle_ f).

Lemma enc_footer_length f : length (enc_footer f) = 48%nat.
Proof.
  unfold enc_footer. rewrite !length_app, length_replicate.
  pose proof (enc_handle_length (Footer.metaindex_handle_ f)). pose proof (enc_handle_length (Footer.index_handle_ f)).
  simpl. lia.
Qed.

Lemma footer_encode f : footer_ok f -> Footer.EncodeTo f [] = Ret (enc_footer f).
Proof.
  intros [Hm Hi]. unfold Footer.EncodeTo. rewrite handle_encode by done. cbn [mbind result_bind app].
  rewrite handle_encode by done. cbn [mbind result_bind].
  assert (length (enc_handle (Footer.metaindex_handle_ f) ++ enc_handle (Footer.index_handle_ f)) <= 40)%nat as Hl.
  { rewrite length_app. pose proof (enc_handle_length (Footer.metaindex_handle_ f)). pose proof (enc_handle_length (Footer.index_handle_ f)). lia. }
  assert (PutFixed32 (PutFixed32 (Footer.resize (enc_handle (Footer.metaindex_handle_ f) ++ enc_handle (Footer.index_handle_ f))
    (Z.to_nat (2 * BlockHandle.kMaxEncodedLength))) (Z.land kTableMagicNumber 0xffffffff)) (Z.shiftr kTableMagicNumber 32) = enc_footer f) as ->.
  { unfold PutFixed32, Footer.resize, enc_footer. change (Z.to_nat (2 * BlockHandle.kMaxEncodedLength)) with 40%nat.
    rewrite take_ge by done. by rewrite <- !app_assoc. }
  unfold str_size at 1. by rewrite enc_footer_length.
Qed.

Lemma footer_decode f f0 rest : footer_ok f -> Footer.DecodeFrom f0 (enc_footer f ++ rest) = (f, Status.OK, rest).
Proof.
  intros [Hm Hi]. unfold Footer.DecodeFrom.
  assert ((str_size (enc_footer f ++ rest) <? Footer.kEncodedLength) = false) as ->.
  { apply Z.ltb_ge. unfold str_size. rewrite length_app, enc_footer_length. change Footer.kEncodedLength with 48. lia. }
  set (hs := enc_handle (Footer.metaindex_handle_ f) ++ enc_handle (Footer.index_handle_ f)).
  set (pad := replicate (40 - length hs) Byte.x00).
  assert (drop (Z.to_nat (Footer.kEncodedLength - 8)) (enc_footer f ++ rest) =
    EncodeFixed32 (Z.land kTableMagicNumber 0xffffffff) ++ EncodeFixed32 (Z.shiftr kTableMagicNumber 32) ++ rest) as ->.
  { unfold enc_footer. fold hs. fold pad. rewrite <- !app_assoc, app_assoc.
    change (Z.to_nat (Footer.kEncodedLength - 8)) with 40%nat.
    replace 40%nat with (length (hs ++ pad)); [by rewrite drop_app_length|]. unfold pad. rewrite length_app, length_replicate.
    unfold hs. rewrite length_app. pose proof (enc_handle_length (Footer.metaindex_handle_ f)).
    pose proof (enc_handle_length (Footer.index_handle_ f)). lia. }
  rewrite DecodeFixed32_Encode. change (drop 4 (EncodeFixed32 (Z.land kTableMagicNumber 0xffffffff) ++
    EncodeFixed32 (Z.shiftr kTableMagicNumber 32) ++ rest)) with (EncodeFixed32 (Z.shiftr kTableMagicNumber 32) ++ rest).
  rewrite DecodeFixed32_Encode. replace (Z.lor _ _ =? _) with true by (vm_compute; reflexivity). cbn [negb].
  unfold enc_footer. rewrite <- !app_assoc. rewrite handle_decode by done. cbn [negb Status.ok].
  rewrite handle_decode by done. cbn [negb Status.ok]. destruct f. done.
Qed.

Arguments enc_handle : simpl never.
Arguments enc_footer : simpl never.

(** *** Stored blocks *)

(** A block as it lies in the file: its bytes, its type, and the masked checksum. *)
Definition block_image (t : CompressionType) (stored : str) : str :=
  stored ++ [z2b (compression_byte t)]
  ++ EncodeFixed32 (Mask (Extend 0 (Value 0 stored) [z2b (compression_byte t)])).

Lemma block_image_length t stored : str_size (block_image t stored) = str_size stored + kBlockTrailerSize.
Proof. unfold block_image. rewrite !str_size_app. done. Qed.

Section stored.
Context {F : Type} {RF : RandomAccessFile F} {RL : RandomAccessFileLaws RF} {PT : Port} {PL : PortLaws PT}.

(** [stored], of the type [t], holds the block [raw]. *)
Definition stores (t : CompressionType) (stored raw : str) : Prop :=
  (t = kNoCompression /\ stored = raw) \/ (t <> kNoCompression /\ port_Compress t raw = Some stored).

Lemma uncompress_stores t name stored raw :
  port_Compress t raw = Some stored -> uncompress_block t name stored = (Status.OK, mkContents raw true true).
Proof. intros Hc. unfold uncompress_block. by destruct (port_roundtrip _ _ _ Hc) as [-> ->]. Qed.

Lemma image_crc t stored :
  Unmask (DecodeFixed32 (EncodeFixed32 (Mask (Extend 0 (Value 0 stored) [z2b (compression_byte t)])))) =
  Value 0 (stored ++ [z2b (compression_byte t)]).
Proof.
  rewrite !Value_spec. rewrite Extend_spec by (by apply crc32c_range).
  rewrite <- crc32c_app. pose proof (crc32c_range 0 (stored ++ [z2b (compression_byte t)]) ltac:(lia)) as Hr.
  destruct (Unmask_Mask _ Hr) as [Hm Hu].
  rewrite <- (app_nil_r (EncodeFixed32 _)), DecodeFixed32_Encode, wrap_small by done. done.
Qed.

(** A stored block is read back, with or without verifying its checksum. *)
Lemma ReadBlock_image f options pre t stored raw post :
  raf_contents f = pre ++ block_image t stored ++ post -> stores t stored raw -> str_size (raf_contents f) < 2 ^ 63 ->
  exists c h, ReadBlock f options (BlockHandle.mkHandle (str_size pre) (str_size stored)) = Ret (Status.OK, mkContents raw c h).
Proof.
  intros Hf Hst Hsz. pose proof (str_size_nonneg pre). pose proof (str_size_nonneg stored). pose proof (str_size_nonneg post).
  assert (str_size (raf_contents f) = str_size pre + (str_size stored + 5) + str_size post) as Hlen.
  { rewrite Hf, !str_size_app, block_image_length. unfold kBlockTrailerSize. lia. }
  unfold ReadBlock. cbn [BlockHandle.size_ BlockHandle.offset_]. unfold kBlockTrailerSize. rewrite (wrap_small 64) by lia.
  destruct (raf_inside f (str_size pre) (str_size stored + 5)) as [scratch Hr]; [lia..|]. rewrite Hr. cbn [mbind result_bind Status.ok negb].
  assert (take (Z.to_nat (str_size stored + 5)) (drop (Z.to_nat (str_size pre)) (raf_contents f)) = block_image t stored) as ->.
  { rewrite Hf. unfold str_size at 2. rewrite Nat2Z.id, drop_app_length.
    replace (Z.to_nat (str_size stored + 5)) with (length (block_image t stored)); [apply take_app_length|].
    pose proof (block_image_length t stored). unfold str_size, kBlockTrailerSize in *. lia. }
  rewrite block_image_length. unfold kBlockTrailerSize. rewrite Z.eqb_refl. cbn [negb].
  rewrite (vec_at_ok _ _ (z2b (compression_byte t))); [|done|].
  2:{ unfold block_image, str_size. rewrite Nat2Z.id. by apply list_lookup_middle. }
  cbn [mbind result_bind].
  assert (drop (Z.to_nat (str_size stored + 1)) (block_image t stored) =
    EncodeFixed32 (Mask (Extend 0 (Value 0 stored) [z2b (compression_byte t)]))) as ->.
  { unfold block_image. rewrite app_assoc. replace (Z.to_nat (str_size stored + 1)) with (length (stored ++ [z2b (compression_byte t)])).
    - by rewrite drop_app_length.
    - rewrite length_app. unfold str_size. simpl. lia. }
  assert (take (Z.to_nat (str_size stored + 1)) (block_image t stored) = stored ++ [z2b (compression_byte t)]) as ->.
  { unfold block_image. rewrite app_assoc. replace (Z.to_nat (str_size stored + 1)) with (length (stored ++ [z2b (compression_byte t)])).
    - by rewrite take_app_length.
    - rewrite length_app. unfold str_size. simpl. lia. }
  rewrite image_crc, Z.eqb_refl. cbn [negb]. rewrite andb_false_r.
  assert (take (Z.to_nat (str_size stored)) (block_image t stored) = stored) as ->.
  { unfold block_image, str_size. by rewrite Nat2Z.id, take_app_length. }
  destruct Hst as [[-> ->]|[Hne Hc]]; [by exists scratch, scratch|]. exists true, true.
  destruct t; [done|..]; cbn; by rewrite (uncompress_stores _ _ _ _ Hc).
Qed.

End stored.
