(* ===== verification/FilterBlock.v ===== *)
(** * leveldb: filter blocks

    [table/filter_block.{h,cc}]: the block of a table that holds a filter for every
    two kilobytes of data-block offsets.  The builder collects the keys of the
    blocks between [StartBlock] calls; the reader finds the filter of a block by its
    offset.  The filters are those of a [FilterPolicy] (the interface of
    [DbFormat.v]). *)

From Stdlib Require Import ZArith Lia.
From S2P Require Import Prelude CString Coding FilterPolicy DbFormat.

Definition kFilterBaseLg : Z := 11.
Definition kFilterBase : Z := Z.shiftl 1 kFilterBaseLg.

(** ** FilterBlockBuilder *)

Module FilterBlockBuilder.

(** [tmp_keys_] is the argument of [CreateFilter] and empty between calls. *)
Record FilterBlockBuilder := mkBuilder {
  keys_ : str;
  start_ : list Z;
  result_ : str;
  filter_offsets_ : list Z
}.

Definition make : FilterBlockBuilder := mkBuilder [] [] [] [].

(** The slices between consecutive starting points. *)
Fixpoint slices (keys : str) (start : list Z) : list str :=
  match start with
  | a :: ((b :: _) as rest) => take (Z.to_nat (b - a)) (drop (Z.to_nat a) keys) :: slices keys rest
  | _ => []
  end.

Section ops.
Context `{FP : !FilterPolicy}.

Definition GenerateFilter (b : FilterBlockBuilder) : FilterBlockBuilder :=
  let offsets := filter_offsets_ b ++ [u32 (str_size (result_ b))] in
  match start_ b with
  | [] => mkBuilder (keys_ b) (start_ b) (result_ b) offsets
  | _ =>
      let start := start_ b ++ [str_size (keys_ b)] in
      let tmp_keys := slices (keys_ b) start in
      mkBuilder [] [] (fp_CreateFilter tmp_keys (result_ b)) offsets
  end.

(** [while (filter_index > filter_offsets_.size()) GenerateFilter();] *)
Fixpoint generate_until (turns : nat) (b : FilterBlockBuilder) : FilterBlockBuilder :=
  match turns with O => b | S n => generate_until n (GenerateFilter b) end.

Definition StartBlock (b : FilterBlockBuilder) (block_offset : Z) : result FilterBlockBuilder :=
  let filter_index := block_offset / kFilterBase in
  let size := Z.of_nat (length (filter_offsets_ b)) in
  if filter_index <? size then Crash AssertFailed
  else Ret (generate_until (Z.to_nat (filter_index - size)) b).

Definition AddKey (b : FilterBlockBuilder) (key : str) : FilterBlockBuilder :=
  mkBuilder (keys_ b ++ key) (start_ b ++ [str_size (keys_ b)]) (result_ b) (filter_offsets_ b).

Definition Finish (b : FilterBlockBuilder) : FilterBlockBuilder * str :=
  let b := match start_ b with [] => b | _ => GenerateFilter b end in
  let array_offset := u32 (str_size (result_ b)) in
  let result := foldl PutFixed32 (result_ b) (filter_offsets_ b) in
  let result := PutFixed32 result array_offset ++ [z2b kFilterBaseLg] in
  (mkBuilder (keys_ b) (start_ b) result (filter_offsets_ b), result).

End ops.
End FilterBlockBuilder.

(** ** FilterBlockReader *)

Module FilterBlockReader.

(** [data_] is null unless the contents are well formed; [offset_] is the position
    of the array of offsets in it. *)
Record FilterBlockReader := mkReader {
  data_ : option str;
  offset_ : Z;
  num_ : Z;
  base_lg_ : Z
}.

Definition make (contents : str) : FilterBlockReader :=
  let n := str_size contents in
  if n <? 5 then mkReader None 0 0 0
  else
    let base_lg := u64 (char_val (nth (Z.to_nat (n - 1)) contents Byte.x00)) in
    let last_word := DecodeFixed32 (drop (Z.to_nat (n - 5)) contents) in
    if n - 5 <? last_word then mkReader None 0 0 base_lg
    else mkReader (Some contents) last_word ((n - 5 - last_word) / 4) base_lg.

Section ops.
Context `{FP : !FilterPolicy}.

(** A shift by 64 bits or more is undefined. *)
Definition KeyMayMatch (r : FilterBlockReader) (block_offset : Z) (key : str) : result bool :=
  if 64 <=? base_lg_ r then Crash IntOverflow
  else
    let index := Z.shiftr block_offset (base_lg_ r) in
    if index <? num_ r then
      match data_ r with
      | None => Crash NullDeref
      | Some data =>
          let start := DecodeFixed32 (drop (Z.to_nat (offset_ r + index * 4)) data) in
          let limit := DecodeFixed32 (drop (Z.to_nat (offset_ r + index * 4 + 4)) data) in
          if (start <=? limit) && (limit <=? offset_ r) then
            let filter := take (Z.to_nat (limit - start)) (drop (Z.to_nat start) data) in
            Ret (fp_KeyMayMatch key filter)
          else if start =? limit then Ret false
          else Ret true
      end
    else Ret true.

End ops.
End FilterBlockReader.

(** ** Lemmas *)

Section spec.
Context {FP : FilterPolicy} {FL : FilterPolicyLaws FP}.
Import FilterBlockBuilder.
Implicit Types (b : FilterBlockBuilder).

(** The starting points of keys laid out one after the other from [off]. *)
Fixpoint starts (off : Z) (ks : list str) : list Z :=
  match ks with [] => [] | k :: ks' => off :: starts (off + str_size k) ks' end.

Lemma starts_app off (a c : list str) : starts off (a ++ c) = starts off a ++ starts (off + str_size (concat a)) c.
Proof.
  revert off. induction a as [|k a IH]; intros off; cbn [app starts concat]; [by rewrite Z.add_0_r|].
  rewrite IH, str_size_app. do 3 f_equal. lia.
Qed.

Lemma slices_starts pre ks :
  slices (pre ++ concat ks) (starts (str_size pre) ks ++ [str_size (pre ++ concat ks)]) = ks.
Proof.
  revert pre. induction ks as [|k ks IH]; intros pre; [done|]. cbn [concat starts app].
  specialize (IH (pre ++ k)). rewrite <- app_assoc in IH. rewrite str_size_app in IH.
  assert (exists s rest, starts (str_size pre + str_size k) ks ++ [str_size (pre ++ k ++ concat ks)] = s :: rest /\ s = str_size pre + str_size k)
    as (s & rest & E & ->).
  { destruct ks as [|k' ks]; cbn [starts app concat]; [|by do 2 eexists].
    do 2 eexists. split; [done|]. rewrite app_nil_r. apply str_size_app. }
  cbn [slices]. rewrite E in *. cbn [slices]. f_equal; [|exact IH].
  replace (Z.to_nat (str_size pre + str_size k - str_size pre)) with (length k) by (unfold str_size; lia).
  unfold str_size. by rewrite Nat2Z.id, drop_app_length, take_app_length.
Qed.

(** A filter with the keys it was made of. *)
Local Abbreviation chunk := (list str * str)%type.
Definition chunk_ok (c : chunk) : Prop := forall k, k ∈ fst c -> fp_KeyMayMatch k (snd c) = true.
Definition chunks_bytes (cs : list chunk) : str := concat (map snd cs).
Definition chunk_offset (cs : list chunk) (i : nat) : Z := str_size (chunks_bytes (take i cs)).

(** [b] has made the filters [cs] and holds the keys [pend]. *)
Record fb_rep b (cs : list chunk) (pend : list str) : Prop := {
  fb_keys : keys_ b = concat pend;
  fb_start : start_ b = starts 0 pend;
  fb_result : result_ b = chunks_bytes cs;
  fb_offsets : filter_offsets_ b = map (fun i => u32 (chunk_offset cs i)) (seq 0 (length cs));
  fb_chunks : Forall chunk_ok cs
}.

Lemma fb_rep_make : fb_rep make [] [].
Proof. by split. Qed.

Lemma AddKey_rep b cs pend k : fb_rep b cs pend -> fb_rep (AddKey b k) cs (pend ++ [k]).
Proof.
  intros [Hk Hs Hr Ho Hc]. split; cbn; try done.
  - rewrite Hk, concat_app. simpl. by rewrite app_nil_r.
  - by rewrite Hs, Hk, starts_app.
Qed.

Lemma chunk_offset_snoc cs c i : (i <= length cs)%nat -> chunk_offset (cs ++ [c]) i = chunk_offset cs i.
Proof. intros Hi. unfold chunk_offset. by rewrite take_app_le. Qed.

Lemma offsets_snoc cs c :
  map (fun i => u32 (chunk_offset (cs ++ [c]) i)) (seq 0 (length (cs ++ [c]))) =
  map (fun i => u32 (chunk_offset cs i)) (seq 0 (length cs)) ++ [u32 (str_size (chunks_bytes cs))].
Proof.
  rewrite length_app, Nat.add_1_r, seq_S, map_app. simpl. rewrite chunk_offset_snoc by lia. f_equal.
  - apply map_ext_in. intros i Hi. apply in_seq in Hi. by rewrite chunk_offset_snoc by lia.
  - unfold chunk_offset. by rewrite take_ge.
Qed.

Lemma chunks_bytes_snoc cs c : chunks_bytes (cs ++ [c]) = chunks_bytes cs ++ snd c.
Proof. unfold chunks_bytes. rewrite map_app, concat_app. simpl. by rewrite app_nil_r. Qed.

Lemma GenerateFilter_rep b cs pend :
  fb_rep b cs pend -> Z.of_nat (length pend) <= fp_max_keys ->
  exists f, fb_rep (GenerateFilter b) (cs ++ [(pend, f)]) [].
Proof.
  intros [Hk Hs Hr Ho Hc] Hm. unfold GenerateFilter. destruct pend as [|k pend].
  - exists []. rewrite Hs. split; cbn; try done.
    + rewrite chunks_bytes_snoc. simpl. by rewrite app_nil_r.
    + by rewrite offsets_snoc, Ho, Hr.
    + apply Forall_app_2; [done|]. apply Forall_singleton. by intros x Hx%elem_of_nil.
  - pose proof (slices_starts [] (k :: pend)) as Hsl. change (str_size []) with 0 in Hsl. rewrite !app_nil_l, <- Hk, <- Hs in Hsl.
    rewrite Hsl. replace (match start_ b with [] => _ | _ => _ end) with
      (mkBuilder [] [] (fp_CreateFilter (k :: pend) (result_ b)) (filter_offsets_ b ++ [u32 (str_size (result_ b))]))
      by (by rewrite Hs).
    destruct (fp_no_false_negative (k :: pend) (result_ b) k Hm ltac:(left)) as (f & Hf & _).
    exists f. split; cbn [keys_ start_ result_ filter_offsets_]; try done.
    + rewrite Hf, chunks_bytes_snoc, Hr. done.
    + by rewrite offsets_snoc, Ho, Hr.
    + apply Forall_app_2; [done|]. apply Forall_singleton. intros k' Hk'. simpl in *.
      destruct (fp_no_false_negative (k :: pend) (result_ b) k' Hm Hk') as (f' & Hf' & Hmatch).
      rewrite Hf in Hf'. by apply app_inv_head in Hf' as <-.
Qed.
(** *** Which filter covers which block *)

(** The keys of every block processed so far are in the filter of its offset, or
    among the pending keys. *)
Definition covered (cs : list chunk) (pend : list str) (blocks : list (Z * list str)) : Prop :=
  forall off ks, (off, ks) ∈ blocks ->
    exists idx, off / kFilterBase = Z.of_nat idx /\
      ((exists c, cs !! idx = Some c /\ ks ⊆ fst c) \/ (idx = length cs /\ ks ⊆ pend)).

(** [b] after the blocks [blocks]. *)
Definition fb_state b (blocks : list (Z * list str)) : Prop :=
  exists cs pend, fb_rep b cs pend /\ covered cs pend blocks /\ pend ⊆ concat (map snd blocks) /\
    (length pend <= length (concat (map snd blocks)))%nat /\
    (forall off ks, last blocks = Some (off, ks) -> off / kFilterBase = Z.of_nat (length cs)).

Lemma generate_until_rep n b cs pend :
  fb_rep b cs pend -> Z.of_nat (length pend) <= fp_max_keys ->
  exists cs', fb_rep (generate_until n b) (cs ++ cs') (if n is O then pend else []) /\ length cs' = n /\
    (n <> O -> exists f, cs' !! O = Some (pend, f)).
Proof.
  destruct n as [|n]; intros Hrep Hm; [exists []; by rewrite app_nil_r|].
  destruct (GenerateFilter_rep b cs pend Hrep Hm) as [f Hrep1]. cbn [generate_until].
  assert (forall b cs, fb_rep b cs [] -> exists cs', fb_rep (generate_until n b) (cs ++ cs') [] /\ length cs' = n) as Hn.
  { clear -FL Hm. induction n as [|n IH]; intros b cs Hrep; [exists []; by rewrite app_nil_r|]. cbn [generate_until].
    destruct (GenerateFilter_rep b cs [] Hrep) as [f Hrep1]; [simpl in *; lia|].
    destruct (IH _ _ Hrep1) as (cs' & Hrep2 & Hl). exists ((([], f) : chunk) :: cs'). rewrite <- app_assoc in Hrep2.
    split; [done|]. simpl. lia. }
  destruct (Hn _ _ Hrep1) as (cs' & Hrep2 & Hl). exists ((pend, f) :: cs'). rewrite <- app_assoc in Hrep2.
  split; [done|]. split; [simpl; lia|]. intros _. by exists f.
Qed.

(** Starting a block at the offset of a filter not passed yet. *)
Lemma StartBlock_state b blocks off :
  fb_state b blocks -> 0 <= off ->
  (forall off' ks, last blocks = Some (off', ks) -> off' <= off) -> (blocks = [] -> filter_offsets_ b = []) ->
  Z.of_nat (length (concat (map snd blocks))) <= fp_max_keys ->
  exists b', StartBlock b off = Ret b' /\ fb_state b' (blocks ++ [(off, [])]).
Proof.
  intros (cs & pend & Hrep & Hcov & Hsub & Hlen & Hlast) Ho Hge Hempty Hm. unfold StartBlock.
  assert (length (filter_offsets_ b) = length cs) as Hl.
  { rewrite (fb_offsets _ _ _ Hrep), length_map. apply length_seq. }
  assert (Z.of_nat (length cs) <= off / kFilterBase) as Hidx.
  { destruct (last blocks) as [[off' ks']|] eqn:El.
    - rewrite <- (Hlast _ _ eq_refl). apply Z.div_le_mono; [done|by eapply Hge].
    - apply last_None in El. rewrite (Hempty El) in Hl. simpl in Hl. rewrite <- Hl. apply Z.div_pos; [done|done]. }
  rewrite Hl. destruct (Z.ltb_spec (off / kFilterBase) (Z.of_nat (length cs))); [lia|].
  set (n := Z.to_nat (off / kFilterBase - Z.of_nat (length cs))).
  destruct (generate_until_rep n b cs pend Hrep ltac:(lia)) as (cs' & Hrep' & Hn & Hfirst).
  eexists. split; [done|]. exists (cs ++ cs'), (if n is O then pend else []). split; [done|].
  assert (off / kFilterBase = Z.of_nat (length (cs ++ cs'))) as Ei by (rewrite length_app, Hn; lia).
  rewrite map_app, concat_app. simpl. rewrite app_nil_r. split; [|split; [|split]].
  - intros off1 ks1 [Hin|Hin]%elem_of_app.
    + destruct (Hcov _ _ Hin) as (idx & Hi & [(c & Hc & Hs)|[-> Hs]]); exists idx || exists (length cs); (split; [done|]).
      * left. exists c. split; [by apply lookup_app_l_Some|done].
      * destruct n as [|n']; [right; split; [rewrite length_app; lia|done]|left].
        destruct (Hfirst ltac:(done)) as [f Hf]. exists (pend, f). split; [|done].
        rewrite lookup_app_r by lia. by rewrite Nat.sub_diag.
    + apply list_elem_of_singleton in Hin as [= -> ->]. exists (length (cs ++ cs')). split; [done|]. right. split; [done|]. set_solver.
  - destruct n; [done|set_solver].
  - destruct n; [done|simpl; lia].
  - intros off1 ks1. rewrite last_snoc. by intros [= <- <-].
Qed.

(** Adding a key to the last block. *)
Lemma AddKey_state b blocks off ks k :
  fb_state b (blocks ++ [(off, ks)]) -> fb_state (AddKey b k) (blocks ++ [(off, ks ++ [k])]).
Proof.
  intros (cs & pend & Hrep & Hcov & Hsub & Hlen & Hlast). exists cs, (pend ++ [k]). split; [by apply AddKey_rep|].
  rewrite map_app, concat_app in *. simpl in *. rewrite app_nil_r in *.
  specialize (Hlast off ks). rewrite last_snoc in Hlast. specialize (Hlast eq_refl). split; [|split; [|split]].
  - intros off1 ks1 [Hin|Hin]%elem_of_app.
    + destruct (Hcov off1 ks1) as (idx & Hi & Hc); [set_solver|]. exists idx. split; [done|].
      destruct Hc as [?|[? ?]]; [by left|right]. split; [done|set_solver].
    + apply list_elem_of_singleton in Hin as [= -> ->]. exists (length cs). split; [done|]. right. split; [done|].
      destruct (Hcov off ks) as (idx & Hi & Hc); [set_solver|]. assert (idx = length cs) as -> by lia.
      destruct Hc as [(c & Hc & _)|[_ Hs]]; [rewrite lookup_ge_None_2 in Hc by lia; done|set_solver].
  - set_solver.
  - rewrite !length_app in *. simpl. lia.
  - intros off1 ks1. rewrite last_snoc. by intros [= <- <-].
Qed.

(** *** Reading a finished filter block *)

(** The contents of a finished block: the filters, their offsets with the end of
    the last one, and the encoding parameter. *)
Definition fb_contents (cs : list chunk) : str :=
  chunks_bytes cs ++ concat (map EncodeFixed32 (map (fun i => u32 (chunk_offset cs i)) (seq 0 (S (length cs)))))
  ++ [z2b kFilterBaseLg].

Lemma Finish_contents b blocks :
  fb_state b blocks -> Z.of_nat (length (concat (map snd blocks))) <= fp_max_keys ->
  exists cs, snd (Finish b) = fb_contents cs /\ Forall chunk_ok cs /\
    forall off ks k, (off, ks) ∈ blocks -> k ∈ ks ->
      exists idx c, off / kFilterBase = Z.of_nat idx /\ cs !! idx = Some c /\ k ∈ fst c.
Proof.
  intros (cs & pend & Hrep & Hcov & _ & Hlen & _) Hm.
  assert (forall b cs, fb_rep b cs [] -> snd (Finish b) = fb_contents cs) as Hdone.
  { intros b1 cs1 [_ Hs Hr Ho _]. unfold Finish, fb_contents. rewrite Hs. cbn [snd starts].
    rewrite foldl_PutFixed32, Ho, Hr, seq_S, !map_app, concat_app. cbn [map concat]. unfold PutFixed32.
    rewrite app_nil_r, <- !app_assoc. unfold chunk_offset at 3. by rewrite take_ge. }
  destruct pend as [|p pend].
  - exists cs. split; [by apply Hdone|]. split; [apply Hrep|]. intros off ks k Hin Hk.
    destruct (Hcov _ _ Hin) as (idx & Hi & [(c & Hc & Hs)|[_ Hs]]); [exists idx, c; set_solver|].
    specialize (Hs k Hk). by apply elem_of_nil in Hs.
  - destruct (GenerateFilter_rep b cs (p :: pend) Hrep ltac:(lia)) as [f Hrep1].
    exists (cs ++ [(p :: pend, f)]). split; [|split; [apply Hrep1|]].
    + rewrite <- (Hdone (GenerateFilter b)) by done. unfold Finish at 1. rewrite (fb_start _ _ _ Hrep). cbn [starts].
      unfold Finish. by rewrite (fb_start _ _ _ Hrep1).
    + intros off ks k Hin Hk. destruct (Hcov _ _ Hin) as (idx & Hi & [(c & Hc & Hs)|[-> Hs]]).
      * exists idx, c. split; [done|]. split; [by apply lookup_app_l_Some|set_solver].
      * exists (length cs), (p :: pend, f). split; [done|]. split; [by apply list_lookup_middle|set_solver].
Qed.

Lemma nth_last_byte (p : str) (x d : byte) : nth (Z.to_nat (str_size (p ++ [x]) - 1)) (p ++ [x]) d = x.
Proof.
  replace (Z.to_nat (str_size (p ++ [x]) - 1)) with (length p) by (rewrite str_size_app; unfold str_size; simpl; lia).
  apply nth_middle.
Qed.

Section contents.
Context (cs : list chunk) (Hsz : str_size (fb_contents cs) < 2 ^ 32).

Lemma fb_contents_size : str_size (fb_contents cs) = str_size (chunks_bytes cs) + 4 * Z.of_nat (length cs) + 5.
Proof.
  unfold fb_contents. rewrite !str_size_app. unfold str_size at 2. rewrite fixed32_array_length, length_map, length_seq.
  change (str_size [z2b kFilterBaseLg]) with 1. lia.
Qed.

Lemma chunk_offset_range i : 0 <= chunk_offset cs i <= str_size (chunks_bytes cs).
Proof.
  split; [apply str_size_nonneg|]. unfold chunk_offset, chunks_bytes. rewrite <- (take_drop i cs) at 2.
  rewrite map_app, concat_app, str_size_app. pose proof (str_size_nonneg (concat (map snd (drop i cs)))). lia.
Qed.

Lemma fb_word i :
  (i <= length cs)%nat ->
  DecodeFixed32 (drop (Z.to_nat (str_size (chunks_bytes cs) + Z.of_nat i * 4)) (fb_contents cs)) = chunk_offset cs i.
Proof.
  intros Hi. pose proof (chunk_offset_range i). pose proof fb_contents_size.
  replace (Z.to_nat (str_size (chunks_bytes cs) + Z.of_nat i * 4)) with (length (chunks_bytes cs) + 4 * i)%nat by (unfold str_size; lia).
  unfold fb_contents. rewrite <- drop_drop, drop_app_length. rewrite (fixed32_array_at _ i (u32 (chunk_offset cs i))).
  - rewrite wrap_wrap by lia. apply wrap_small. lia.
  - by rewrite list_lookup_fmap, lookup_seq_lt by lia.
Qed.

Lemma fb_reader :
  FilterBlockReader.make (fb_contents cs) =
  FilterBlockReader.mkReader (Some (fb_contents cs)) (str_size (chunks_bytes cs)) (Z.of_nat (length cs)) 11.
Proof.
  pose proof fb_contents_size as Hn. pose proof (str_size_nonneg (chunks_bytes cs)). unfold FilterBlockReader.make.
  destruct (Z.ltb_spec (str_size (fb_contents cs)) 5); [lia|].
  assert (nth (Z.to_nat (str_size (fb_contents cs) - 1)) (fb_contents cs) Byte.x00 = z2b kFilterBaseLg) as ->.
  { unfold fb_contents. rewrite app_assoc. apply nth_last_byte. }
  change (u64 (char_val (z2b kFilterBaseLg))) with 11.
  replace (str_size (fb_contents cs) - 5) with (str_size (chunks_bytes cs) + Z.of_nat (length cs) * 4) by lia.
  rewrite fb_word by lia. assert (chunk_offset cs (length cs) = str_size (chunks_bytes cs)) as -> by (unfold chunk_offset; by rewrite take_ge).
  destruct (Z.ltb_spec (str_size (chunks_bytes cs) + Z.of_nat (length cs) * 4) (str_size (chunks_bytes cs))); [lia|].
  f_equal. rewrite Z.add_simpl_l. by apply Z.div_mul.
Qed.

(** The filter of index [idx] is found again. *)
Lemma KeyMayMatch_contents off idx c k :
  0 <= off -> off / kFilterBase = Z.of_nat idx -> cs !! idx = Some c ->
  FilterBlockReader.KeyMayMatch (FilterBlockReader.make (fb_contents cs)) off k = Ret (fp_KeyMayMatch k (snd c)).
Proof.
  intros Ho Hidx Hc. pose proof (lookup_lt_Some _ _ _ Hc) as Hlt. rewrite fb_reader. unfold FilterBlockReader.KeyMayMatch.
  cbn [FilterBlockReader.base_lg_ FilterBlockReader.num_ FilterBlockReader.data_ FilterBlockReader.offset_].
  change (64 <=? 11) with false. cbv iota. rewrite Z.shiftr_div_pow2 by lia. change (2 ^ 11) with kFilterBase. rewrite Hidx.
  destruct (Z.ltb_spec (Z.of_nat idx) (Z.of_nat (length cs))); [|lia]. rewrite (fb_word idx) by lia.
  replace (str_size (chunks_bytes cs) + Z.of_nat idx * 4 + 4) with (str_size (chunks_bytes cs) + Z.of_nat (S idx) * 4) by lia.
  rewrite (fb_word (S idx)) by lia. pose proof (chunk_offset_range (S idx)).
  assert (chunk_offset cs (S idx) = chunk_offset cs idx + str_size (snd c)) as Hnext.
  { unfold chunk_offset. by rewrite (take_S_r _ _ _ Hc), chunks_bytes_snoc, str_size_app. }
  pose proof (str_size_nonneg (snd c)).
  destruct (Z.leb_spec (chunk_offset cs idx) (chunk_offset cs (S idx))); [|lia].
  destruct (Z.leb_spec (chunk_offset cs (S idx)) (str_size (chunks_bytes cs))); [|lia]. cbn [andb]. do 2 f_equal.
  assert (fb_contents cs = chunks_bytes (take idx cs) ++ snd c ++ (chunks_bytes (drop (S idx) cs) ++
    concat (map EncodeFixed32 (map (fun i => u32 (chunk_offset cs i)) (seq 0 (S (length cs))))) ++ [z2b kFilterBaseLg])) as ->.
  { unfold fb_contents, chunks_bytes. rewrite <- (take_drop_middle cs idx c Hc) at 1. rewrite map_app, concat_app.
    cbn [map concat]. by rewrite <- !app_assoc. }
  replace (Z.to_nat (chunk_offset cs (S idx) - chunk_offset cs idx)) with (length (snd c)) by (unfold str_size in *; lia).
  replace (Z.to_nat (chunk_offset cs idx)) with (length (chunks_bytes (take idx cs))) by (unfold chunk_offset, str_size; lia).
  rewrite drop_app_length. apply take_app_length.
Qed.

End contents.

(** A finished filter block admits every key of every block. *)
Lemma Finish_matches b blocks off ks k :
  fb_state b blocks -> Z.of_nat (length (concat (map snd blocks))) <= fp_max_keys ->
  str_size (snd (Finish b)) < 2 ^ 32 -> 0 <= off -> (off, ks) ∈ blocks -> k ∈ ks ->
  FilterBlockReader.KeyMayMatch (FilterBlockReader.make (snd (Finish b))) off k = Ret true.
Proof.
  intros Hst Hm Hsz Ho Hin Hk. destruct (Finish_contents b blocks Hst Hm) as (cs & E & Hok & Hcov). rewrite E in *.
  destruct (Hcov off ks k Hin Hk) as (idx & c & Hi & Hc & Hkc). rewrite (KeyMayMatch_contents cs Hsz off idx c k Ho Hi Hc).
  f_equal. rewrite Forall_lookup in Hok. by apply (Hok idx c).
Qed.

(** It answers for every block that has keys. *)
Lemma Finish_answers b blocks off ks k :
  fb_state b blocks -> Z.of_nat (length (concat (map snd blocks))) <= fp_max_keys ->
  str_size (snd (Finish b)) < 2 ^ 32 -> 0 <= off -> (off, ks) ∈ blocks -> ks <> [] ->
  exists r, FilterBlockReader.KeyMayMatch (FilterBlockReader.make (snd (Finish b))) off k = Ret r.
Proof.
  intros Hst Hm Hsz Ho Hin Hne. destruct (Finish_contents b blocks Hst Hm) as (cs & E & Hok & Hcov). rewrite E in *.
  destruct ks as [|k0 ks]; [done|]. destruct (Hcov off (k0 :: ks) k0 Hin ltac:(left)) as (idx & c & Hi & Hc & _).
  rewrite (KeyMayMatch_contents cs Hsz off idx c k Ho Hi Hc). by eexists.
Qed.

(** Building a filter block for data blocks at given offsets, the way
    [TableBuilder] does. *)
Definition build_filter_block (blocks : list (Z * list str)) : result FilterBlockBuilder :=
  foldR (fun b block => b ← StartBlock b (fst block); Ret (foldl AddKey b (snd block))) make blocks.

Lemma AddKeys_state b blocks off ks ks' :
  fb_state b (blocks ++ [(off, ks)]) -> fb_state (foldl AddKey b ks') (blocks ++ [(off, ks ++ ks')]).
Proof.
  revert b ks. induction ks' as [|k ks' IH]; intros b ks Hst; [by rewrite app_nil_r|]. cbn [foldl].
  replace (ks ++ k :: ks') with ((ks ++ [k]) ++ ks') by (by rewrite <- app_assoc). by apply IH, AddKey_state.
Qed.

Lemma fb_state_make : fb_state make [].
Proof. exists [], []. split; [apply fb_rep_make|]. split; [intros off ks Hin; by apply elem_of_nil in Hin|]. by split_and!. Qed.

Lemma build_filter_block_state blocks :
  StronglySorted (fun x y : Z * list str => fst x <= fst y) blocks -> Forall (fun block => 0 <= fst block) blocks ->
  Z.of_nat (length (concat (map snd blocks))) <= fp_max_keys ->
  exists b, build_filter_block blocks = Ret b /\ fb_state b blocks.
Proof.
  induction blocks as [|[off ks] blocks IH] using rev_ind; intros Hs Hpos Hm; [exists make; split; [done|apply fb_state_make]|].
  apply StronglySorted_app in Hs as (Hle & Hs & _). apply Forall_app in Hpos as [Hpos Hoff].
  rewrite map_app, concat_app, length_app in Hm. destruct (IH Hs Hpos ltac:(lia)) as (b & Hb & Hst).
  unfold build_filter_block in *. rewrite foldR_app, Hb. cbn [mbind result_bind foldR fst snd].
  destruct (StartBlock_state b blocks off Hst) as (b1 & -> & Hst1).
  - by inversion Hoff.
  - intros off' ks' Hlast. apply (Hle (off', ks') (off, ks)); [by apply last_Some_elem_of|by left].
  - intros ->. simpl in Hb. by injection Hb as <-.
  - lia.
  - cbn [mbind result_bind]. eexists. split; [done|]. by apply (AddKeys_state b1 blocks off []).
Qed.

End spec.

(** ** Theorem *)


(** *** Witness *)

(** Two blocks in the first filter, one in the third: the second is empty. *)
Definition demo_filter_blocks : list (Z * list str) := [(0, [$"a"; $"b"]); (100, [$"c"]); (5000, [$"d"])].

#[local] Instance demo_policy : FilterPolicy := bloom_policy (BloomFilterPolicy.mkPolicy 10 6).
#[local] Instance demo_policy_laws : FilterPolicyLaws demo_policy.
Proof. apply bloom_policy_laws; done. Qed.


(** The reader on the finished block of the example, a key of another block and
    the empty filter. *)
Example filter_block_run :
  (b ← build_filter_block demo_filter_blocks;
   let r := FilterBlockReader.make (snd (FilterBlockBuilder.Finish b)) in
   mapR (fun q : Z * str => FilterBlockReader.KeyMayMatch r (fst q) (snd q))
     [(0, $"a"); (100, $"c"); (5000, $"d"); (5000, $"a"); (2048, $"a"); (9000, $"zz")])
  = Ret [true; true; true; false; false; true].
Proof. vm_compute. reflexivity. Qed.
