(* ===== verification/TableBuilder.v ===== *)
(** * leveldb: building tables

    [table/table_builder.cc]: data blocks, a filter block, a metaindex block, an
    index block with a key between any two data blocks, and the footer.  The file
    written to is any [WritableFile], the filter policy and the comparator are the
    interfaces of [DbFormat.v]. *)

From Stdlib Require Import ZArith Lia.
From S2P Require Import Prelude CString Coding SliceStatus FilterPolicy DbFormat Crc32c Iterators TableBlock LogFile TableFormat FilterBlock.

(** The options tables use; the comparator is the instance of [Comparator] in
    scope, a filter policy comes with its name. *)
Record Options := mkOptions {
  paranoid_checks : bool;
  block_size : Z;
  block_restart_interval : Z;
  compression : CompressionType;
  filter_policy : option (str * FilterPolicy)
}.

(** [Options()] *)
Definition default_options : Options := mkOptions false 4096 16 kSnappyCompression None.

Module TableBuilder.

Section builder.
Context {F : Type} `{WF : !WritableFile F, C : !Comparator, PT : !Port}.

(** [index_block_options] differ from [options] in the restart interval, which is
    one; [compressed_output] is empty between calls. *)
Record Rep := mkRep {
  options : Options;
  file : F;
  offset : Z;
  status : Status.Status;
  data_block : BlockBuilder.BlockBuilder;
  index_block : BlockBuilder.BlockBuilder;
  last_key : str;
  num_entries : Z;
  closed : bool;
  filter_block : option FilterBlockBuilder.FilterBlockBuilder;
  pending_index_entry : bool;
  pending_handle : BlockHandle.BlockHandle
}.

Implicit Types (r : Rep).

Definition ok r : bool := Status.ok (status r).

(** A call on the filter block, if there is one. *)
Definition on_filter (opt : Options) (call : FilterPolicy -> FilterBlockBuilder.FilterBlockBuilder -> result FilterBlockBuilder.FilterBlockBuilder)
    (f : option FilterBlockBuilder.FilterBlockBuilder) : result (option FilterBlockBuilder.FilterBlockBuilder) :=
  match f, filter_policy opt with
  | Some b, Some (_, policy) => Some <$> call policy b
  | Some _, None => Crash NullDeref
  | None, _ => Ret None
  end.

Definition make (opt : Options) (f : F) : result Rep :=
  data ← BlockBuilder.make (block_restart_interval opt);
  index ← BlockBuilder.make 1;
  filter ← on_filter opt (fun policy b => @FilterBlockBuilder.StartBlock policy b 0)
             (match filter_policy opt with None => None | Some _ => Some FilterBlockBuilder.make end);
  Ret (mkRep opt f 0 Status.OK data index [] 0 false filter false BlockHandle.make).

(** [ChangeOptions]; [same_comparator] says whether the new options have the old
    comparator. *)
Definition ChangeOptions r (opt : Options) (same_comparator : bool) : Rep * Status.Status :=
  if negb same_comparator
  then (r, Status.InvalidArgument ($"changing comparator while building table") [])
  else (mkRep opt (file r) (offset r) (status r) (data_block r) (index_block r) (last_key r) (num_entries r)
          (closed r) (filter_block r) (pending_index_entry r) (pending_handle r), Status.OK).

(** The file, the offset and the status after writing. *)
Definition set_file r (f : F) (off : Z) (s : Status.Status) : Rep :=
  mkRep (options r) f off s (data_block r) (index_block r) (last_key r) (num_entries r) (closed r)
    (filter_block r) (pending_index_entry r) (pending_handle r).

Definition WriteRawBlock r (block_contents : str) (type : CompressionType) : Rep * BlockHandle.BlockHandle :=
  let handle := BlockHandle.mkHandle (offset r) (str_size block_contents) in
  let '(f, s) := wf_Append (file r) block_contents in
  if Status.ok s then
    let trailer := [z2b (compression_byte type)] in
    let crc := Value 0 block_contents in
    let crc := Extend 0 crc trailer in
    let trailer := trailer ++ EncodeFixed32 (Mask crc) in
    let '(f, s) := wf_Append f trailer in
    if Status.ok s
    then (set_file r f (u64 (offset r + u64 (str_size block_contents + kBlockTrailerSize))) s, handle)
    else (set_file r f (offset r) s, handle)
  else (set_file r f (offset r) s, handle).

(** What is stored of a block: its compressed form when that saves an eighth. *)
Definition block_to_store (type : CompressionType) (raw : str) : str * CompressionType :=
  match type with
  | kNoCompression => (raw, kNoCompression)
  | _ =>
      match port_Compress type raw with
      | Some compressed =>
          if str_size compressed <? str_size raw - str_size raw / 8 then (compressed, type)
          else (raw, kNoCompression)
      | None => (raw, kNoCompression)
      end
  end.

(** [WriteBlock(&block, &handle)], with the block after [Reset()]. *)
Definition WriteBlock r (block : BlockBuilder.BlockBuilder) :
    result (Rep * BlockBuilder.BlockBuilder * BlockHandle.BlockHandle) :=
  if ok r then
    let '(block, raw) := BlockBuilder.Finish block in
    let '(block_contents, type) := block_to_store (compression (options r)) raw in
    let '(r, handle) := WriteRawBlock r block_contents type in
    Ret (r, BlockBuilder.Reset block, handle)
  else Crash AssertFailed.

Definition Flush r : result Rep :=
  if closed r then Crash AssertFailed
  else if negb (ok r) then Ret r
  else if BlockBuilder.empty (data_block r) then Ret r
  else if pending_index_entry r then Crash AssertFailed
  else
    q ← WriteBlock r (data_block r);
    let '(r, data, handle) := (q : Rep * BlockBuilder.BlockBuilder * BlockHandle.BlockHandle) in
    let '(pending, f, s) :=
      if ok r then let '(f, s) := wf_Flush (file r) in (true, f, s)
      else (pending_index_entry r, file r, status r) in
    filter ← on_filter (options r) (fun policy b => @FilterBlockBuilder.StartBlock policy b (offset r)) (filter_block r);
    Ret (mkRep (options r) f (offset r) s data (index_block r) (last_key r) (num_entries r) (closed r)
           filter pending handle).

(** Adding the pending index entry under a key at or above [last_key]. *)
Definition add_index_entry r (key : str) : result BlockBuilder.BlockBuilder :=
  handle_encoding ← BlockHandle.EncodeTo (pending_handle r) [];
  BlockBuilder.Add 1 (index_block r) key handle_encoding.

Definition Add r (key value : str) : result Rep :=
  if closed r then Crash AssertFailed
  else if negb (ok r) then Ret r
  else if (0 <? num_entries r) && negb (match Compare key (last_key r) with Gt => true | _ => false end)
  then Crash AssertFailed
  else
    index ← (if pending_index_entry r then
               if BlockBuilder.empty (data_block r) then
                 separator ← FindShortestSeparator (last_key r) key;
                 add_index_entry r separator
               else Crash AssertFailed
             else Ret (index_block r));
    filter ← on_filter (options r) (fun policy b => Ret (FilterBlockBuilder.AddKey b key)) (filter_block r);
    data ← BlockBuilder.Add (block_restart_interval (options r)) (data_block r) key value;
    let r := mkRep (options r) (file r) (offset r) (status r) data index key (num_entries r + 1) (closed r)
               filter false (pending_handle r) in
    if block_size (options r) <=? BlockBuilder.CurrentSizeEstimate (data_block r) then Flush r else Ret r.

(** The filter block, when there is a policy. *)
Definition write_filter r : result (Rep * BlockHandle.BlockHandle) :=
  match filter_block r, filter_policy (options r) with
  | Some b, Some (_, policy) =>
      if ok r then Ret (WriteRawBlock r (snd (@FilterBlockBuilder.Finish policy b)) kNoCompression)
      else Ret (r, BlockHandle.make)
  | Some _, None => Crash NullDeref
  | None, _ => Ret (r, BlockHandle.make)
  end.

Definition write_metaindex r (filter_block_handle : BlockHandle.BlockHandle) : result (Rep * BlockHandle.BlockHandle) :=
  if ok r then
    meta ← BlockBuilder.make (block_restart_interval (options r));
    meta ← (match filter_block r, filter_policy (options r) with
            | Some _, Some (name, _) =>
                handle_encoding ← BlockHandle.EncodeTo filter_block_handle [];
                BlockBuilder.Add (block_restart_interval (options r)) meta ($"filter." ++ name) handle_encoding
            | Some _, None => Crash NullDeref
            | None, _ => Ret meta
            end);
    q ← WriteBlock r meta;
    let '(r, _, handle) := (q : Rep * BlockBuilder.BlockBuilder * BlockHandle.BlockHandle) in
    Ret (r, handle)
  else Ret (r, BlockHandle.make).

Definition write_index r : result (Rep * BlockHandle.BlockHandle) :=
  if ok r then
    q ← (if pending_index_entry r then
           successor ← FindShortSuccessor (last_key r);
           index ← add_index_entry r successor;
           Ret (index, successor)
         else Ret (index_block r, last_key r));
    let '(index, last) := (q : BlockBuilder.BlockBuilder * str) in
    q ← WriteBlock r index;
    let '(r, index, handle) := (q : Rep * BlockBuilder.BlockBuilder * BlockHandle.BlockHandle) in
    Ret (mkRep (options r) (file r) (offset r) (status r) (data_block r) index last (num_entries r) (closed r)
           (filter_block r) false (pending_handle r), handle)
  else Ret (r, BlockHandle.make).

Definition write_footer r (metaindex_handle index_handle : BlockHandle.BlockHandle) : result Rep :=
  if ok r then
    footer_encoding ← Footer.EncodeTo (Footer.mkFooter metaindex_handle index_handle) [];
    let '(f, s) := wf_Append (file r) footer_encoding in
    Ret (set_file r f (if Status.ok s then u64 (offset r + str_size footer_encoding) else offset r) s)
  else Ret r.

(** [closed = true] *)
Definition close r : Rep :=
  mkRep (options r) (file r) (offset r) (status r) (data_block r) (index_block r) (last_key r)
    (num_entries r) true (filter_block r) (pending_index_entry r) (pending_handle r).

(** What [Finish] writes after the data blocks. *)
Definition write_tail r : result Rep :=
  q ← write_filter r;
  let '(r, filter_block_handle) := (q : Rep * BlockHandle.BlockHandle) in
  q ← write_metaindex r filter_block_handle;
  let '(r, metaindex_block_handle) := (q : Rep * BlockHandle.BlockHandle) in
  q ← write_index r;
  let '(r, index_block_handle) := (q : Rep * BlockHandle.BlockHandle) in
  write_footer r metaindex_block_handle index_block_handle.

Definition Finish r : result (Rep * Status.Status) :=
  r ← Flush r;
  if closed r then Crash AssertFailed
  else
    r ← write_tail (close r);
    Ret (r, status r).

Definition Abandon r : result Rep :=
  if closed r then Crash AssertFailed else Ret (close r).

Definition NumEntries r : Z := u64 (num_entries r).
Definition FileSize r : Z := offset r.

(** [~TableBuilder()] *)
Definition destroy r : result unit := if closed r then Ret tt else Crash AssertFailed.

End builder.
Arguments Rep F : clear implicits.
End TableBuilder.

(** Building a table from its entries, as the users of [TableBuilder] do: the
    contents of the file and the status. *)
Definition build_table `{C : !Comparator, PT : !Port} (opt : Options) (es : list entry) : result (str * Status.Status) :=
  r ← TableBuilder.make opt ([] : str);
  r ← foldR (fun r e => TableBuilder.Add r (fst e) (snd e)) r es;
  q ← TableBuilder.Finish r;
  let '(r, s) := (q : TableBuilder.Rep str * Status.Status) in
  Ret (TableBuilder.file r, s).
