(* ===== verification/Table.v ===== *)
(** * leveldb: reading tables

    [table/table.cc]: opening a table file, its filter block, the block function of
    its iterators with the block cache, and lookups.  A block is immutable once it
    is read, so the cache holds blocks as values; the cache is the interface
    [Cache], its state is threaded through the calls. *)

From Stdlib Require Import ZArith Lia.
From S2P Require Import Prelude CString Coding SliceStatus FilterPolicy DbFormat Crc32c Iterators TableBlock TableBlockSpec.
From S2P Require Import TwoLevelIterator LogFile TableFormat FilterBlock TableBuilder.

(** [include/leveldb/cache.h], for values of type [V]: what the table code calls. *)
Class Cache (K V : Type) := {
  cache_NewId : K -> Z * K;
  cache_Lookup : K -> str -> option V * K;
  cache_Insert : K -> str -> V -> Z -> K
}.

Module Table.

Section table.
Context {F : Type} `{RF : !RandomAccessFile F, C : !Comparator, PT : !Port}.
Context {K : Type} `{CA : !Cache K Block.Block}.

Record Rep := mkRep {
  options : Options;
  file : F;
  cache_id : Z;
  filter : option FilterBlockReader.FilterBlockReader;
  metaindex_handle : BlockHandle.BlockHandle;
  index_block : Block.Block
}.

Implicit Types (t : Rep) (cache : option K).

(** The read options of the metadata. *)
Definition meta_options (opt : Options) : ReadOptions := mkReadOptions (paranoid_checks opt) true.

Definition set_filter t (f : option FilterBlockReader.FilterBlockReader) : Rep :=
  mkRep (options t) (file t) (cache_id t) f (metaindex_handle t) (index_block t).

Definition ReadFilter t (filter_handle_value : str) : result Rep :=
  let '(filter_handle, s, _) := BlockHandle.DecodeFrom BlockHandle.make filter_handle_value in
  if negb (Status.ok s) then Ret t
  else
    q ← ReadBlock (file t) (meta_options (options t)) filter_handle;
    let '(s, block) := (q : Status.Status * BlockContents) in
    if negb (Status.ok s) then Ret t
    else Ret (set_filter t (Some (FilterBlockReader.make (contents_data block)))).

(** Errors are not propagated: the metadata is not needed. *)
Definition ReadMeta t (footer : Footer.Footer) : result Rep :=
  match filter_policy (options t) with
  | None => Ret t
  | Some (name, _) =>
      q ← ReadBlock (file t) (meta_options (options t)) (Footer.metaindex_handle_ footer);
      let '(s, contents) := (q : Status.Status * BlockContents) in
      if negb (Status.ok s) then Ret t
      else
        iter ← @Block.NewIterator (Block.make (contents_data contents));
        let key := $"filter." ++ name in
        iter ← @it_Seek _ (BlockIterator_ops (C := BytewiseComparator)) iter key;
        if it_Valid iter then
          k ← it_key iter;
          if Slice.eqb k key then v ← it_value iter; ReadFilter t v else Ret t
        else Ret t
  end.

(** [Table::Open]: the status, the table if there is one, and the block cache. *)
Definition Open (opt : Options) (f : F) (size : Z) cache : result (Status.Status * option Rep * option K) :=
  if size <? Footer.kEncodedLength
  then Ret (Status.Corruption ($"file is too short to be an sstable") [], None, cache)
  else
    q ← raf_Read f (size - Footer.kEncodedLength) Footer.kEncodedLength;
    let '(s, footer_input, _) := (q : Status.Status * str * bool) in
    if negb (Status.ok s) then Ret (s, None, cache)
    else
      let '(footer, s, _) := Footer.DecodeFrom Footer.make footer_input in
      if negb (Status.ok s) then Ret (s, None, cache)
      else
        q ← ReadBlock f (meta_options opt) (Footer.index_handle_ footer);
        let '(s, contents) := (q : Status.Status * BlockContents) in
        if negb (Status.ok s) then Ret (s, None, cache)
        else
          let '(id, cache) :=
            match cache with
            | Some k => let '(id, k) := cache_NewId k in (id, Some k)
            | None => (0, None)
            end in
          t ← ReadMeta (mkRep opt f id None (Footer.metaindex_handle_ footer) (Block.make (contents_data contents))) footer;
          Ret (s, Some t, cache).

Definition cache_key (id offset : Z) : str := EncodeFixed64 id ++ EncodeFixed64 offset.

(** The block of a handle, from the cache or the file; the status when there is
    none. *)
Definition read_cached t cache (opt : ReadOptions) (handle : BlockHandle.BlockHandle) :
    result (Status.Status * option Block.Block * option K) :=
  match cache with
  | Some k =>
      let key := cache_key (cache_id t) (BlockHandle.offset_ handle) in
      let '(found, k) := cache_Lookup k key in
      match found with
      | Some block => Ret (Status.OK, Some block, Some k)
      | None =>
          q ← ReadBlock (file t) opt handle;
          let '(s, contents) := (q : Status.Status * BlockContents) in
          if Status.ok s then
            let block := Block.make (contents_data contents) in
            let k := if cachable contents && fill_cache opt
                     then cache_Insert k key block (Block.size_ block) else k in
            Ret (s, Some block, Some k)
          else Ret (s, None, Some k)
      end
  | None =>
      q ← ReadBlock (file t) opt handle;
      let '(s, contents) := (q : Status.Status * BlockContents) in
      if Status.ok s then Ret (s, Some (Block.make (contents_data contents)), None) else Ret (s, None, None)
  end.

Definition BlockReader t cache (opt : ReadOptions) (index_value : str) : result (Block.BlockIterator * option K) :=
  let '(handle, s, _) := BlockHandle.DecodeFrom BlockHandle.make index_value in
  q ← (if Status.ok s then read_cached t cache opt handle else Ret (s, None, cache));
  let '(s, block, cache) := (q : Status.Status * option Block.Block * option K) in
  match block with
  | Some b => iter ← Block.NewIterator b; Ret (iter, cache)
  | None => Ret (inl (EmptyIterator.NewErrorIterator s), cache)
  end.

(** The argument of the block function of an iterator: the table, the options of
    the read and the cache.  An index entry takes three bytes at least. *)
Record reader_arg := mkArg { arg_table : Rep; arg_cache : option K; arg_options : ReadOptions }.

#[global] Instance table_block_function : BlockFunction reader_arg Block.BlockIterator := {
  block_function a h :=
    q ← BlockReader (arg_table a) (arg_cache a) (arg_options a) h;
    let '(iter, cache) := (q : Block.BlockIterator * option K) in
    Ret (iter, mkArg (arg_table a) cache (arg_options a));
  block_fuel a := S (length (Block.data_ (index_block (arg_table a))))
}.

Definition TableIterator : Type := TwoLevelIterator.TwoLevelIterator Block.BlockIterator Block.BlockIterator reader_arg.

#[global] Instance TableIterator_ops : Iterator TableIterator := TwoLevelIterator.TwoLevelIterator_ops.

Definition NewIterator t cache (opt : ReadOptions) : result TableIterator :=
  index ← Block.NewIterator (index_block t);
  TwoLevelIterator.make index (mkArg t cache opt).

(** [InternalGet]: the status, the entry given to [handle_result] if it is called,
    and the cache. *)
Definition InternalGet t cache (opt : ReadOptions) (k : str) : result (Status.Status * option entry * option K) :=
  iiter ← Block.NewIterator (index_block t);
  iiter ← it_Seek iiter k;
  if it_Valid iiter then
    handle_value ← it_value iiter;
    let '(handle, hs, _) := BlockHandle.DecodeFrom BlockHandle.make handle_value in
    may ← (match filter t, filter_policy (options t) with
           | Some f, Some (_, policy) =>
               if Status.ok hs
               then @FilterBlockReader.KeyMayMatch policy f (BlockHandle.offset_ handle) k
               else Ret true
           | _, _ => Ret true
           end);
    if negb (may : bool) then Ret (it_status iiter, None, cache)
    else
      q ← BlockReader t cache opt handle_value;
      let '(block_iter, cache) := (q : Block.BlockIterator * option K) in
      block_iter ← it_Seek block_iter k;
      entry ← (if it_Valid block_iter then
                 key ← it_key block_iter; v ← it_value block_iter; Ret (Some (key, v))
               else Ret None);
      let s := it_status block_iter in
      Ret (if Status.ok s then it_status iiter else s, entry, cache)
  else Ret (it_status iiter, None, cache).

Definition ApproximateOffsetOf t (key : str) : result Z :=
  index_iter ← Block.NewIterator (index_block t);
  index_iter ← it_Seek index_iter key;
  if it_Valid index_iter then
    input ← it_value index_iter;
    let '(handle, s, _) := BlockHandle.DecodeFrom BlockHandle.make input in
    if Status.ok s then Ret (BlockHandle.offset_ handle)
    else Ret (BlockHandle.offset_ (metaindex_handle t))
  else Ret (BlockHandle.offset_ (metaindex_handle t)).

End table.
Arguments Rep F : clear implicits.
Arguments cache_key : simpl never.
Arguments reader_arg F K : clear implicits.
Arguments TableIterator F K : clear implicits.
End Table.
