(* ===== verification/TableSpec.v ===== *)
(** * What a table file means

    The layout of a table file ([table_layout]), that [TableBuilder] makes such
    files from entries in increasing key order, and that [Table] reads them back:
    the iterator of a table ranges over the entries of all its blocks, lookups find
    the entries, and the block cache does not change what is read. *)

From Stdlib Require Import ZArith Lia.
From S2P Require Import Prelude CString Coding SliceStatus FilterPolicy DbFormat Crc32c Iterators TableBlock TableBlockSpec.
From S2P Require Import TwoLevelIterator LogFile TableFormat FilterBlock TableBuilder Table.

(** Separators and successors are not longer than the key they replace ("a short
    string", [comparator.h]). *)
Class ShorteningLaws (C : Comparator) := {
  sep_length start limit k : FindShortestSeparator start limit = Ret k -> (length k <= length start)%nat;
  succ_length key k : FindShortSuccessor key = Ret k -> (length k <= length key)%nat
}.

(** ** Data blocks in a file *)

(** A block that was flushed: its entries, its contents, and how it is stored. *)
Record dblock := mkD { db_es : list entry; db_raw : str; db_type : CompressionType; db_stored : str }.

Section blocks.
Context {PT : Port}.

(** The stored bytes hold a block with these entries. *)
Definition holds (b : dblock) : Prop :=
  stores (db_type b) (db_stored b) (db_raw b) /\ exists ss rs, layout (db_raw b) ss rs /\ map snd ss = db_es b.

Definition dblock_ok (b : dblock) : Prop := db_es b <> [] /\ holds b.

Definition images (bs : list dblock) : str := concat (map (fun b => block_image (db_type b) (db_stored b)) bs).
Definition entries_of (bs : list dblock) : list entry := concat (map db_es bs).

(** The handle of the block [i]. *)
Definition dhandle (bs : list dblock) (i : nat) : BlockHandle.BlockHandle :=
  BlockHandle.mkHandle (str_size (images (take i bs)))
    (match bs !! i with Some b => str_size (db_stored b) | None => 0 end).

(** The index entries of the blocks that have a separator. *)
Definition index_entries (bs : list dblock) (seps : list str) : list entry :=
  imap (fun i s => (s, enc_handle (dhandle bs i))) seps.

(** The keys of the blocks by offset, and those of the block being built. *)
Definition filter_blocks (bs : list dblock) (cur : list entry) : list (Z * list str) :=
  imap (fun i b => (str_size (images (take i bs)), map fst (db_es b))) bs ++ [(str_size (images bs), map fst cur)].

(** The filter block as it lies in the file, and the entries of the metaindex. *)
Definition filter_image (fc : option (str * str)) : str :=
  match fc with Some (_, c) => block_image kNoCompression c | None => [] end.
Definition meta_entries (bs : list dblock) (fc : option (str * str)) : list entry :=
  match fc with
  | Some (name, c) => [($"filter." ++ name, enc_handle (BlockHandle.mkHandle (str_size (images bs)) (str_size c)))]
  | None => []
  end.

(** A whole table file: the data blocks [bs] with the index keys [seps], the filter
    block [fc], the metaindex block [mb], the index block [ib] and the footer. *)
Record table_layout (data : str) (bs : list dblock) (seps : list str) (fc : option (str * str)) (mb ib : dblock) : Prop := {
  tl_data : data = images bs ++ filter_image fc ++ images [mb] ++ images [ib] ++ enc_footer (Footer.mkFooter
    (BlockHandle.mkHandle (str_size (images bs ++ filter_image fc)) (str_size (db_stored mb)))
    (BlockHandle.mkHandle (str_size (images bs ++ filter_image fc ++ images [mb])) (str_size (db_stored ib))));
  tl_size : str_size data < 2 ^ 63;
  tl_blocks : Forall dblock_ok bs;
  tl_seps : length bs = length seps;
  tl_meta : holds mb /\ db_es mb = meta_entries bs fc;
  tl_index : holds ib /\ db_es ib = index_entries bs seps
}.

Lemma images_app a b : images (a ++ b) = images a ++ images b.
Proof. unfold images. by rewrite map_app, concat_app. Qed.

Lemma entries_of_app a b : entries_of (a ++ b) = entries_of a ++ entries_of b.
Proof. unfold entries_of. by rewrite map_app, concat_app. Qed.

(** Without compression an entry takes a byte at least. *)
Lemma length_entries_of bs :
  Forall dblock_ok bs -> (forall t raw, port_Compress t raw = None) -> (length (entries_of bs) <= length (images bs))%nat.
Proof.
  intros Hok Hc. induction Hok as [|b bs (_ & Hst & ss & rs & L & E) Hok IH]; [done|].
  unfold entries_of, images in *. cbn [map concat]. rewrite !length_app.
  pose proof (block_image_length (db_type b) (db_stored b)) as Hl. unfold str_size, kBlockTrailerSize in Hl.
  destruct Hst as [[_ Est]|[_ Hst]]; [|by rewrite Hc in Hst]. rewrite Est in *.
  pose proof (f_equal length (ly_data _ _ _ L)) as Hd. rewrite !length_app in Hd.
  pose proof (length_enc_slots ss). rewrite <- E, length_map. lia.
Qed.

Lemma dhandle_app bs bs' i : (i < length bs)%nat -> dhandle (bs ++ bs') i = dhandle bs i.
Proof. intros Hi. unfold dhandle. by rewrite take_app_le, lookup_app_l by lia. Qed.

Lemma images_split bs i b : bs !! i = Some b -> images bs = images (take i bs) ++ block_image (db_type b) (db_stored b) ++ images (drop (S i) bs).
Proof. intros Hb. rewrite <- (take_drop_middle bs i b Hb) at 1. rewrite images_app. done. Qed.

Lemma dhandle_ok bs i : (i < length bs)%nat -> str_size (images bs) < 2 ^ 63 -> handle_ok (dhandle bs i).
Proof.
  intros Hi Hs. destruct (lookup_lt_is_Some_2 bs i Hi) as [b Hb]. rewrite (images_split bs i b Hb), !str_size_app, block_image_length in Hs.
  unfold handle_ok, dhandle, BlockHandle.unset. rewrite Hb. cbn. pose proof (str_size_nonneg (images (take i bs))).
  pose proof (str_size_nonneg (db_stored b)). pose proof (str_size_nonneg (images (drop (S i) bs))). unfold kBlockTrailerSize in Hs. lia.
Qed.

Lemma index_entries_app bs bs' seps : (length seps <= length bs)%nat -> index_entries (bs ++ bs') seps = index_entries bs seps.
Proof.
  intros Hl. unfold index_entries. apply imap_ext. intros i s Hs. apply lookup_lt_Some in Hs. by rewrite dhandle_app by lia.
Qed.

Lemma index_entries_snoc bs seps s : index_entries bs (seps ++ [s]) = index_entries bs seps ++ [(s, enc_handle (dhandle bs (length seps)))].
Proof. unfold index_entries. rewrite imap_app. simpl. by rewrite Nat.add_0_r. Qed.

Lemma index_entries_lookup bs seps i e :
  index_entries bs seps !! i = Some e -> exists s, seps !! i = Some s /\ e = (s, enc_handle (dhandle bs i)).
Proof. unfold index_entries. rewrite list_lookup_imap. destruct (seps !! i) as [s|] eqn:Es; simpl; [|done]. intros [= <-]. by exists s. Qed.

Lemma filter_blocks_flush bs b cur :
  db_es b = cur -> filter_blocks (bs ++ [b]) [] = filter_blocks bs cur ++ [(str_size (images (bs ++ [b])), [])].
Proof.
  intros <-. unfold filter_blocks. rewrite imap_app. f_equal. f_equal.
  - apply imap_ext. intros i x Hx. apply lookup_lt_Some in Hx. by rewrite take_app_le by lia.
  - simpl. rewrite Nat.add_0_r. by rewrite take_app_le, take_ge by lia.
Qed.

Lemma filter_blocks_keys bs cur : concat (map snd (filter_blocks bs cur)) = map fst (entries_of bs ++ cur).
Proof.
  unfold filter_blocks, entries_of. rewrite map_app, concat_app. simpl. rewrite app_nil_r, map_app. f_equal.
  rewrite concat_map, map_map. f_equal. apply list_eq. intros i. rewrite !list_lookup_fmap, list_lookup_imap.
  by destruct (bs !! i).
Qed.

End blocks.

(** ** Building *)

Section build.
Context {C : Comparator} {HC : ComparatorLaws C} {SH : ShorteningLaws C} {PT : Port} {PL : PortLaws PT}.
Context (opt : Options).
Implicit Types (r : TableBuilder.Rep str).
Import TableBuilder.

Local Abbreviation interval := (block_restart_interval opt).
Local Abbreviation size_of := BlockBuilder.CurrentSizeEstimate.

(** The filter policy, if any, has no false negatives. *)
Definition policy_ok : Prop := match filter_policy opt with Some (_, p) => FilterPolicyLaws p | None => True end.
Definition policy_keys : Z := match filter_policy opt with Some (_, p) => @fp_max_keys p | None => 2 ^ 64 end.

(** The name of the policy is a key of the metaindex block. *)
Definition policy_name_ok : Prop := match filter_policy opt with Some (name, _) => str_size name < 2 ^ 31 | None => True end.

Context (Hinterval : 1 <= interval <= INT_MAX) (Hpolicy : policy_ok) (Hname : policy_name_ok).

Definition last_of (es : list entry) : str := match last es with Some (k, _) => k | None => [] end.

(** The filter block has the keys of the blocks. *)
Definition filter_inv (f : option FilterBlockBuilder.FilterBlockBuilder) (bs : list dblock) (cur : list entry) : Prop :=
  match filter_policy opt, f with
  | Some (_, p), Some fb => @fb_state p fb (filter_blocks bs cur)
  | None, None => True
  | _, _ => False
  end.

(** What the separators say about a list of entries that follow. *)
Definition seps_ok (bs : list dblock) (seps : list str) (cur : list entry) : Prop :=
  forall i s b, seps !! i = Some s -> bs !! i = Some b ->
    (forall x, x ∈ db_es b -> Compare (fst x) s <> Gt) /\
    (forall x, x ∈ entries_of (drop (S i) bs) ++ cur -> Compare s (fst x) = Lt) /\
    (forall x, head (entries_of (drop (S i) bs) ++ cur) = Some x -> FindShortestSeparator (last_of (db_es b)) (fst x) = Ret s).

(** [r] has flushed the blocks [bs], has index entries with the keys [seps], and
    holds the entries [cur] in its data block. *)
Record tb_inv r (bs : list dblock) (seps : list str) (cur : list entry) : Prop := {
  ti_options : options r = opt;
  ti_file : file r = images bs;
  ti_offset : offset r = str_size (images bs);
  ti_status : status r = Status.OK;
  ti_closed : closed r = false;
  ti_blocks : Forall dblock_ok bs;
  ti_data : exists ss rs, built interval (data_block r) ss rs /\ map snd ss = cur;
  ti_index : exists ss rs, built 1 (index_block r) ss rs /\ map snd ss = index_entries bs seps;
  ti_last : last_key r = last_of (entries_of bs ++ cur);
  ti_num : num_entries r = Z.of_nat (length (entries_of bs ++ cur));
  ti_pending : if pending_index_entry r
    then cur = [] /\ length bs = S (length seps) /\ pending_handle r = dhandle bs (length seps)
    else length bs = length seps /\ (bs = [] \/ cur <> []);
  ti_sorted : keys_sorted (entries_of bs ++ cur);
  ti_seps : seps_ok bs seps cur;
  ti_filter : filter_inv (filter_block r) bs cur
}.

(** The bytes written and held, with what the pending index entry will take. *)
Definition pot r : Z :=
  str_size (file r) + size_of (data_block r) + size_of (index_block r) +
  (if pending_index_entry r then 39 + str_size (last_key r) else 0).

(** What an entry can add to it: its own bytes, and those of closing a block. *)
Definition entry_cost (e : entry) : Z := 71 + 2 * str_size (fst e) + str_size (snd e).
Definition table_room (es : list entry) : Z := foldr (fun e room => entry_cost e + room) 16 es.

Lemma size_of_pos b : 0 <= size_of b.
Proof. unfold BlockBuilder.CurrentSizeEstimate. pose proof (str_size_nonneg (BlockBuilder.buffer_ b)). lia. Qed.

Lemma size_of_built n b ss rs : built n b ss rs -> size_of b = str_size (enc_slots ss) + Z.of_nat (length rs) * 4 + 4.
Proof. intros B. unfold BlockBuilder.CurrentSizeEstimate. by rewrite (bu_buffer _ _ _ _ B), (bu_restarts _ _ _ _ B), length_map. Qed.

Lemma WriteRawBlock_mem r c t :
  offset r = str_size (file r) -> str_size (file r) + str_size c + 5 < 2 ^ 64 ->
  WriteRawBlock r c t =
    (set_file r (file r ++ block_image t c) (str_size (file r ++ block_image t c)) Status.OK,
     BlockHandle.mkHandle (str_size (file r)) (str_size c)).
Proof.
  intros Hoff Hfits. pose proof (str_size_nonneg (file r)). pose proof (str_size_nonneg c).
  unfold WriteRawBlock. cbn [wf_Append mem_writable Status.ok]. cbv zeta. unfold kBlockTrailerSize.
  rewrite !wrap_small by (rewrite ?wrap_small by lia; lia). rewrite <- app_assoc, Hoff.
  assert (str_size (file r ++ block_image t c) = str_size (file r) + (str_size c + 5)) as ->.
  { rewrite str_size_app, block_image_length. unfold kBlockTrailerSize. lia. }
  done.
Qed.

(** Writing a block to the file in memory. *)
Lemma WriteBlock_mem n r b ss rs :
  status r = Status.OK -> built n b ss rs -> size_of b < 2 ^ 32 ->
  offset r = str_size (file r) -> str_size (file r) + size_of b + 5 < 2 ^ 64 ->
  exists raw t stored, layout raw ss rs /\ stores t stored raw /\ str_size stored <= size_of b /\
    WriteBlock r b = Ret (set_file r (file r ++ block_image t stored) (str_size (file r ++ block_image t stored)) Status.OK,
                          BlockBuilder.fresh, BlockHandle.mkHandle (str_size (file r)) (str_size stored)).
Proof.
  intros Hst B Hsz Hoff Hfits. unfold WriteBlock, ok. rewrite Hst. cbn [Status.ok].
  pose proof (Finish_layout n b ss rs B Hsz) as L. destruct (BlockBuilder.Finish b) as [b' raw] eqn:Ef. cbn [snd] in L.
  pose proof (data_size _ _ _ L) as [Hraw _]. pose proof (size_of_built _ _ _ _ B) as Hb.
  assert (exists stored t, block_to_store (compression (options r)) raw = (stored, t) /\ stores t stored raw /\ str_size stored <= str_size raw)
    as (stored & t & -> & Hs & Hle).
  { unfold block_to_store. assert (stores kNoCompression raw raw) as Hplain by (by left).
    destruct (compression (options r)) eqn:Et; [by exists raw, kNoCompression|..];
      (destruct (port_Compress _ raw) as [c|] eqn:Ec; [|by exists raw, kNoCompression]);
      (destruct (Z.ltb_spec (str_size c) (str_size raw - str_size raw / 8)); [|by exists raw, kNoCompression]);
      (eexists c, _; split; [done|]; split; [by right|]; pose proof (str_size_nonneg raw);
       assert (0 <= str_size raw / 8) by (apply Z.div_pos; lia); lia). }
  exists raw, t, stored. split; [done|]. split; [done|]. split; [lia|].
  rewrite WriteRawBlock_mem by (done || lia). done.
Qed.

(** *** The filter block *)

Lemma filter_start f bs cur b :
  filter_inv f bs cur -> db_es b = cur -> Z.of_nat (length (entries_of bs ++ cur)) <= policy_keys ->
  exists f', on_filter opt (fun policy fb => @FilterBlockBuilder.StartBlock policy fb (str_size (images (bs ++ [b])))) f = Ret f' /\
    filter_inv f' (bs ++ [b]) [].
Proof.
  unfold filter_inv, on_filter, policy_keys, policy_ok in *. intros Hf Hb Hn.
  destruct (filter_policy opt) as [[name p]|]; destruct f as [fb|]; try done; [|by exists None].
  destruct (@StartBlock_state p Hpolicy fb (filter_blocks bs cur) (str_size (images (bs ++ [b]))) Hf) as (fb' & -> & Hst).
  - apply str_size_nonneg.
  - intros off' ks Hl. unfold filter_blocks in Hl. rewrite last_snoc in Hl. injection Hl as <- <-.
    rewrite images_app, str_size_app. pose proof (str_size_nonneg (images [b])). lia.
  - intros E. unfold filter_blocks in E. apply app_eq_nil in E as [_ E]. done.
  - rewrite filter_blocks_keys, length_map. lia.
  - exists (Some fb'). split; [done|]. by rewrite (filter_blocks_flush _ _ _ Hb).
Qed.

Lemma filter_add f bs cur k v :
  filter_inv f bs cur ->
  exists f', on_filter opt (fun policy fb => Ret (FilterBlockBuilder.AddKey fb k)) f = Ret f' /\ filter_inv f' bs (cur ++ [(k, v)]).
Proof.
  unfold filter_inv, on_filter, policy_ok in *. intros Hf.
  destruct (filter_policy opt) as [[name p]|]; destruct f as [fb|]; try done; [|by exists None].
  eexists. split; [done|]. unfold filter_blocks in *. rewrite map_app. by apply AddKey_state.
Qed.

(** *** Flush *)

Lemma enc_slots_nonempty ss : ss <> [] -> str_size (enc_slots ss) <> 0.
Proof.
  destruct ss as [|s ss]; [done|]. intros _. unfold enc_slots, str_size. cbn [map concat]. rewrite length_app.
  pose proof (enc_slot_length s). lia.
Qed.

Lemma Flush_inv r bs seps cur :
  tb_inv r bs seps cur -> cur <> [] -> pending_index_entry r = false -> pot r + 60 < 2 ^ 32 ->
  Z.of_nat (length (entries_of bs ++ cur)) <= policy_keys ->
  exists r' b, Flush r = Ret r' /\ tb_inv r' (bs ++ [b]) seps [] /\ db_es b = cur /\
    pending_index_entry r' = true /\ pot r' <= pot r + 52 + str_size (last_key r).
Proof.
  intros T Hne Hp Hpot Hn. destruct (ti_data _ _ _ _ T) as (ss & rs & B & Hss).
  unfold pot in *. rewrite Hp in *. pose proof (size_of_pos (data_block r)). pose proof (size_of_pos (index_block r)).
  pose proof (str_size_nonneg (file r)). unfold Flush, ok. rewrite (ti_closed _ _ _ _ T), (ti_status _ _ _ _ T), Hp. cbn [Status.ok negb].
  assert (BlockBuilder.empty (data_block r) = false) as ->.
  { unfold BlockBuilder.empty. rewrite (bu_buffer _ _ _ _ B). apply Z.eqb_neq, enc_slots_nonempty. intros ->. by subst cur. }
  destruct (WriteBlock_mem interval r (data_block r) ss rs) as (raw & t & stored & L & Hs & Hle & ->);
    [apply T|done|lia|by rewrite (ti_offset _ _ _ _ T), (ti_file _ _ _ _ T)|lia|].
  set (b := mkD cur raw t stored). unfold set_file.
  cbn [mbind result_bind status Status.ok file offset options filter_block index_block last_key num_entries closed wf_Flush mem_writable].
  assert (file r ++ block_image t stored = images (bs ++ [b])) as Himg.
  { rewrite images_app, (ti_file _ _ _ _ T). unfold images at 3. simpl. by rewrite app_nil_r. }
  rewrite Himg, (ti_options _ _ _ _ T).
  destruct (filter_start (filter_block r) bs cur b (ti_filter _ _ _ _ T) eq_refl Hn) as (f' & -> & Hf'). cbn [mbind result_bind].
  pose proof (ti_pending _ _ _ _ T) as Hpend. rewrite Hp in Hpend. destruct Hpend as [Hpend _].
  assert (entries_of (bs ++ [b]) ++ [] = entries_of bs ++ cur) as He.
  { rewrite entries_of_app, app_nil_r. unfold entries_of at 2. simpl. by rewrite app_nil_r. }
  eexists _, b. split; [done|]. split; [|split; [done|split; [done|]]].
  - split; cbn; try done; try apply T.
    + apply Forall_app_2; [apply T|]. apply Forall_singleton. split; [done|]. split; [done|]. by exists ss, rs.
    + exists [], [O]. split; [by apply built_fresh|done].
    + destruct (ti_index _ _ _ _ T) as (iss & irs & IB & Hi). exists iss, irs. split; [done|]. rewrite index_entries_app by lia. done.
    + rewrite He. apply T.
    + rewrite He. apply T.
    + split; [done|]. rewrite length_app. simpl. split; [lia|]. unfold dhandle. rewrite <- Hpend.
      rewrite take_app_le, take_ge, list_lookup_middle by lia. by rewrite (ti_file _ _ _ _ T).
    + rewrite He. apply T.
    + intros i s b0 Hsi Hbi. pose proof (lookup_lt_Some _ _ _ Hsi). rewrite lookup_app_l in Hbi by lia.
      rewrite drop_app_le, entries_of_app, app_nil_r by lia. assert (entries_of [b] = cur) as -> by (unfold entries_of; cbn [map concat]; by rewrite app_nil_r). by apply (ti_seps _ _ _ _ T i s b0).
  - cbn. rewrite <- Himg, str_size_app, block_image_length. unfold kBlockTrailerSize.
    change (size_of BlockBuilder.fresh) with 8. lia.
Qed.

(** *** Index entries *)

Lemma last_slot_key_of ss : last_slot_key ss = last_of (map snd ss).
Proof.
  unfold last_slot_key, last_of. destruct ss as [|s ss _] using rev_ind; [done|]. rewrite map_app. cbn [map]. rewrite !last_snoc. by destruct s as [n [k v]].
Qed.

Lemma last_of_snoc es k v : last_of (es ++ [(k, v)]) = k.
Proof. unfold last_of. by rewrite last_snoc. Qed.

Lemma last_of_elem es : es <> [] -> exists v, (last_of es, v) ∈ es.
Proof. intros Hne. destruct (exists_last Hne) as (l & [k v] & ->). rewrite last_of_snoc. exists v. set_solver. Qed.

Lemma sorted_last es x : keys_sorted es -> x ∈ es -> Compare (fst x) (last_of es) <> Gt.
Proof.
  intros Hs Hx. destruct es as [|[k v] es _] using rev_ind; [by apply elem_of_nil in Hx|]. rewrite last_of_snoc.
  apply elem_of_app in Hx as [Hx|Hx].
  - pose proof (StronglySorted_app_1_elem_of _ _ _ x (k, v) Hs Hx ltac:(left)) as Hlt. simpl in Hlt. by rewrite Hlt.
  - apply list_elem_of_singleton in Hx as ->. by rewrite cmp_refl.
Qed.

Lemma cmp_lt_le a b c : Compare a b = Lt -> Compare b c <> Gt -> Compare a c = Lt.
Proof.
  intros Hab Hbc. destruct (Compare b c) eqn:E; [by rewrite <- (cmp_eq_r _ _ _ E)|by eapply cmp_trans|done].
Qed.

(** The last block of a builder with a pending index entry. *)
Lemma pending_block r bs seps cur :
  tb_inv r bs seps cur -> pending_index_entry r = true ->
  exists bs0 b, bs = bs0 ++ [b] /\ length bs0 = length seps /\ db_es b <> [] /\ last_key r = last_of (db_es b) /\ cur = [].
Proof.
  intros T Hp. pose proof (ti_pending _ _ _ _ T) as Hpend. rewrite Hp in Hpend. destruct Hpend as (Hcur & Hlen & _).
  destruct bs as [|b bs0 _] using rev_ind; [done|]. exists bs0, b. rewrite length_app in Hlen. simpl in Hlen.
  pose proof (ti_blocks _ _ _ _ T) as Hok. apply Forall_app in Hok as [_ Hok]. apply Forall_inv in Hok as [Hne _].
  split; [done|]. split; [lia|]. split; [done|]. split; [|done].
  rewrite (ti_last _ _ _ _ T), Hcur, app_nil_r, entries_of_app. unfold entries_of at 2. simpl. rewrite app_nil_r.
  destruct (exists_last Hne) as (l & [k v] & ->). by rewrite app_assoc, !last_of_snoc.
Qed.

(** Adding the pending index entry under a key at or above the last one. *)
Lemma add_index_entry_inv r bs seps cur s :
  tb_inv r bs seps cur -> pending_index_entry r = true -> pot r < 2 ^ 32 ->
  Compare (last_key r) s <> Gt -> (length s <= length (last_key r))%nat ->
  exists index', add_index_entry r s = Ret index' /\
    (exists ss rs, built 1 index' ss rs /\ map snd ss = index_entries bs (seps ++ [s])) /\
    size_of index' <= size_of (index_block r) + 39 + str_size (last_key r).
Proof.
  intros T Hp Hpot Hle Hlen. destruct (pending_block r bs seps cur T Hp) as (bs0 & b & -> & Hl0 & Hne & Hlast & ->).
  pose proof (ti_pending _ _ _ _ T) as Hpend. rewrite Hp in Hpend. destruct Hpend as (_ & _ & Hhandle).
  destruct (ti_index _ _ _ _ T) as (ss & rs & B & Hss). unfold pot in Hpot. rewrite Hp in Hpot.
  pose proof (size_of_pos (data_block r)). pose proof (str_size_nonneg (file r)). pose proof (str_size_nonneg (last_key r)).
  pose proof (size_of_built _ _ _ _ B) as Hsz. pose proof (str_size_nonneg (enc_slots ss)). pose proof (size_of_pos (index_block r)).
  set (h := dhandle (bs0 ++ [b]) (length seps)) in *.
  assert (handle_ok h) as Hh.
  { apply dhandle_ok; [rewrite length_app; simpl; lia|]. rewrite <- (ti_file _ _ _ _ T). lia. }
  assert (str_size s <= str_size (last_key r)) as Hs by (unfold str_size; lia).
  pose proof (enc_handle_length h) as Hhl.
  unfold add_index_entry. rewrite Hhandle, handle_encode by done. cbn [mbind result_bind app].
  destruct (Add_built 1 ltac:(unfold INT_MAX; lia) (index_block r) ss rs s (enc_handle h) B) as (index' & sh & rs' & -> & B' & Hrs);
    [|lia|lia|unfold str_size; lia|].
  { destruct (decide (ss = [])) as [|Hsne]; [by left|right]. rewrite last_slot_key_of, Hss. apply (cmp_flip _ s Lt).
    destruct seps as [|s0 seps _] using rev_ind; [unfold index_entries in Hss; simpl in Hss; by destruct ss|].
    rewrite index_entries_snoc, last_of_snoc. rewrite length_app in Hl0. simpl in Hl0.
    assert (exists b0, bs0 !! length seps = Some b0) as [b0 Hb0] by (apply lookup_lt_is_Some_2; lia).
    destruct (ti_seps _ _ _ _ T (length seps) s0 b0) as (_ & Hgt & _);
      [by apply list_lookup_middle|by apply lookup_app_l_Some|].
    apply (cmp_lt_le _ (last_key r)); [|done]. rewrite Hlast. destruct (last_of_elem (db_es b) Hne) as [v Hv].
    apply (Hgt (last_of (db_es b), v)). rewrite drop_app_le by lia. rewrite entries_of_app, app_nil_r.
    unfold entries_of at 2. simpl. rewrite app_nil_r. set_solver. }
  exists index'. split; [done|]. split.
  - eexists _, _. split; [exact B'|]. rewrite map_app, Hss. cbn [map snd]. unfold h. by rewrite index_entries_snoc.
  - rewrite (size_of_built _ _ _ _ B'), Hsz, enc_slots_app, str_size_app. unfold enc_slots at 2. cbn [map concat].
    rewrite app_nil_r. pose proof (enc_slot_size sh s (enc_handle h)). unfold str_size in *. lia.
Qed.

(** *** Add *)

Lemma sorted_snoc_last es k v : keys_sorted (es ++ [(k, v)]) -> es <> [] -> Compare (last_of es) k = Lt.
Proof.
  intros Hs Hne. destruct (last_of_elem es Hne) as [w Hw].
  apply (StronglySorted_app_1_elem_of _ _ _ (last_of es, w) (k, v) Hs Hw). left.
Qed.

(** The separators with the key of the pending block. *)
Lemma seps_ok_pending r bs seps s cur :
  tb_inv r bs seps [] -> pending_index_entry r = true -> Compare (last_key r) s <> Gt ->
  (forall x, x ∈ cur -> Compare s (fst x) = Lt /\ Compare (last_key r) (fst x) = Lt) ->
  (forall x, head cur = Some x -> FindShortestSeparator (last_key r) (fst x) = Ret s) -> seps_ok bs (seps ++ [s]) cur.
Proof.
  intros T Hp Hge Hcur Hhd. destruct (pending_block r bs seps [] T Hp) as (bs0 & b & -> & Hl0 & Hne & Hlast & _).
  intros i s0 b0 Hsi Hbi. apply lookup_app_Some in Hsi as [Hsi|[Hge' Hsi]].
  - pose proof (lookup_lt_Some _ _ _ Hsi). destruct (ti_seps _ _ _ _ T i s0 b0 Hsi Hbi) as (Ha & Hb & Hc). split; [done|].
    assert (exists e es, entries_of (drop (S i) (bs0 ++ [b])) = e :: es) as (e & es & Ees).
    { rewrite drop_app_le, entries_of_app by lia. unfold entries_of at 2. cbn [map concat]. rewrite app_nil_r. destruct (entries_of (drop (S i) bs0)), (db_es b); eauto; done. }
    rewrite app_nil_r in Hb, Hc. split; [|by rewrite Ees in *]. intros x [Hx|Hx]%elem_of_app; [by apply Hb|].
    eapply cmp_trans; [|by apply Hcur]. rewrite Hlast. destruct (last_of_elem _ Hne) as [w Hw]. apply (Hb (last_of (db_es b), w)).
    rewrite drop_app_le, entries_of_app by lia. unfold entries_of at 2. simpl. rewrite app_nil_r. set_solver.
  - destruct (i - length seps)%nat eqn:Ei; [|by destruct n]. injection Hsi as <-. assert (i = length bs0) as -> by lia.
    rewrite list_lookup_middle in Hbi by done. injection Hbi as <-. rewrite drop_ge by (rewrite length_app; simpl; lia). split; [|split; [|by rewrite <- Hlast]].
    + intros x Hx. rewrite Hlast in Hge. intros Hgt. apply (sorted_last (db_es b) x); [|done|].
      { pose proof (ti_sorted _ _ _ _ T) as Hst. rewrite app_nil_r, entries_of_app in Hst. unfold entries_of at 2 in Hst.
        simpl in Hst. rewrite app_nil_r in Hst. by apply StronglySorted_app_1_r in Hst. }
      apply (cmp_flip _ _ Gt) in Hgt. simpl in Hgt. apply (cmp_flip (last_of (db_es b)) (fst x) Lt). by eapply cmp_le_lt.
    + intros x Hx. by apply Hcur.
Qed.

(** The index entry of the previous block, when it is pending. *)
Lemma index_stage r bs seps cur k v :
  tb_inv r bs seps cur -> keys_sorted ((entries_of bs ++ cur) ++ [(k, v)]) -> pot r < 2 ^ 32 ->
  exists index' seps',
    (if pending_index_entry r then
       if BlockBuilder.empty (data_block r) then
         separator ← FindShortestSeparator (last_key r) k; add_index_entry r separator
       else Crash AssertFailed
     else Ret (index_block r)) = Ret index' /\
    (exists ss rs, built 1 index' ss rs /\ map snd ss = index_entries bs seps') /\ length bs = length seps' /\
    seps_ok bs seps' (cur ++ [(k, v)]) /\
    size_of index' <= size_of (index_block r) + (if pending_index_entry r then 39 + str_size (last_key r) else 0).
Proof.
  intros T Hs Hpot. pose proof (ti_pending _ _ _ _ T) as Hpend. destruct (pending_index_entry r) eqn:Hp.
  - destruct (pending_block r bs seps cur T Hp) as (bs0 & b & -> & Hl0 & Hne & Hlast & ->). rewrite app_nil_r in Hs.
    destruct (ti_data _ _ _ _ T) as (ss & rs & B & Hss). apply map_eq_nil in Hss as ->.
    assert (BlockBuilder.empty (data_block r) = true) as -> by (unfold BlockBuilder.empty; by rewrite (bu_buffer _ _ _ _ B)).
    assert (Compare (last_key r) k = Lt) as Hlt.
    { rewrite (ti_last _ _ _ _ T), app_nil_r. apply (sorted_snoc_last _ _ v); [done|].
      rewrite entries_of_app. unfold entries_of at 2. simpl. rewrite app_nil_r. intros [_ E]%app_eq_nil. done. }
    destruct (sep_between (last_key r) k Hlt) as (sep & Hsep & Hge & Hltk). rewrite Hsep. cbn [mbind result_bind].
    destruct (add_index_entry_inv r _ seps [] sep T Hp Hpot Hge (sep_length _ _ _ Hsep)) as (index' & -> & HB & Hsz).
    exists index', (seps ++ [sep]). split; [done|]. split; [done|]. split; [rewrite !length_app; simpl; lia|]. split; [|lia].
    apply (seps_ok_pending r _ _ _ _ T Hp Hge); [intros x Hx; by apply list_elem_of_singleton in Hx as ->|by intros x [= <-]].
  - destruct Hpend as [Hlen Hor]. exists (index_block r), seps. split; [done|]. split; [apply T|]. split; [done|]. split; [|lia].
    intros i s b Hsi Hbi. destruct (ti_seps _ _ _ _ T i s b Hsi Hbi) as (Ha & Hb & Hc). split; [done|]. rewrite app_assoc. split.
    2:{ destruct Hor as [->|Hne]; [done|]. destruct (entries_of (drop (S i) bs)), cur; done. }
    intros x. intros [Hx|Hx]%elem_of_app; [by apply Hb|]. apply list_elem_of_singleton in Hx as ->. simpl.
    destruct Hor as [->|Hne]; [done|]. destruct (last_of_elem _ Hne) as [w Hw].
    eapply cmp_trans; [apply (Hb (last_of cur, w)); set_solver|].
    apply (StronglySorted_app_1_elem_of _ _ _ (last_of cur, w) (k, v) Hs); [set_solver|left].
Qed.

(** Adding to the data block. *)
Lemma data_stage r bs seps cur k v :
  tb_inv r bs seps cur -> keys_sorted ((entries_of bs ++ cur) ++ [(k, v)]) -> pot r + 19 + str_size k + str_size v < 2 ^ 32 ->
  exists data', BlockBuilder.Add interval (data_block r) k v = Ret data' /\
    (exists ss rs, built interval data' ss rs /\ map snd ss = cur ++ [(k, v)]) /\
    size_of data' <= size_of (data_block r) + 19 + str_size k + str_size v.
Proof.
  intros T Hs Hpot. destruct (ti_data _ _ _ _ T) as (ss & rs & B & Hss). unfold pot in Hpot.
  pose proof (size_of_built _ _ _ _ B) as Hsz. pose proof (str_size_nonneg (enc_slots ss)). pose proof (size_of_pos (index_block r)).
  pose proof (str_size_nonneg (file r)). pose proof (str_size_nonneg (last_key r)). pose proof (str_size_nonneg k). pose proof (str_size_nonneg v).
  assert (0 <= (if pending_index_entry r then 39 + str_size (last_key r) else 0)) by (destruct (pending_index_entry r); lia).
  destruct (Add_built interval Hinterval (data_block r) ss rs k v B) as (data' & sh & rs' & -> & B' & Hrs); [|lia..|].
  { apply (last_slot_lt ss k v []). rewrite Hss. rewrite <- app_assoc in Hs. by apply StronglySorted_app_1_r in Hs. }
  exists data'. split; [done|]. split; [eexists _, _; split; [exact B'|]; by rewrite map_app, Hss|].
  rewrite (size_of_built _ _ _ _ B'), Hsz, enc_slots_app, str_size_app. unfold enc_slots at 2. cbn [map concat].
  rewrite app_nil_r. pose proof (enc_slot_size sh k v). lia.
Qed.

(** One entry, in key order, with room for it. *)
Lemma Add_inv r bs seps cur k v :
  tb_inv r bs seps cur -> keys_sorted ((entries_of bs ++ cur) ++ [(k, v)]) -> pot r + entry_cost (k, v) + 60 < 2 ^ 32 ->
  Z.of_nat (length ((entries_of bs ++ cur) ++ [(k, v)])) <= policy_keys ->
  exists r' bs' seps' cur', Add r k v = Ret r' /\ tb_inv r' bs' seps' cur' /\
    entries_of bs' ++ cur' = (entries_of bs ++ cur) ++ [(k, v)] /\ pot r' <= pot r + entry_cost (k, v).
Proof.
  intros T Hs Hpot Hn. unfold entry_cost in *. cbn [fst snd] in *. pose proof (str_size_nonneg k). pose proof (str_size_nonneg v).
  destruct (index_stage r bs seps cur k v T Hs ltac:(lia)) as (index' & seps' & Hidx & HIB & Hlen & Hseps & Hisz).
  destruct (data_stage r bs seps cur k v T Hs ltac:(lia)) as (data' & Hdata & HDB & Hdsz).
  destruct (filter_add (filter_block r) bs cur k v (ti_filter _ _ _ _ T)) as (f' & Hf & Hfi).
  unfold Add, ok. rewrite (ti_closed _ _ _ _ T), (ti_status _ _ _ _ T), (ti_options _ _ _ _ T). change (negb (Status.ok Status.OK)) with false. cbv iota.
  assert ((0 <? num_entries r) && negb (match Compare k (last_key r) with Gt => true | _ => false end) = false) as ->.
  { destruct (Z.ltb_spec 0 (num_entries r)) as [Hpos|]; [|done]. rewrite (ti_num _ _ _ _ T) in Hpos.
    rewrite (ti_last _ _ _ _ T), (cmp_flip (last_of (entries_of bs ++ cur)) k Lt); [done|].
    apply (sorted_snoc_last _ _ v Hs). intros E. rewrite E in Hpos. simpl in Hpos. lia. }
  rewrite Hidx. cbn [mbind result_bind]. rewrite Hf. cbn [mbind result_bind]. rewrite Hdata. cbn [mbind result_bind]. cbv zeta.
  set (r1 := mkRep _ _ _ _ _ _ _ _ _ _ _ _).
  assert (tb_inv r1 bs seps' (cur ++ [(k, v)])) as T1.
  { assert (entries_of bs ++ cur ++ [(k, v)] = (entries_of bs ++ cur) ++ [(k, v)]) as E by (by rewrite app_assoc).
    split; cbn; try done; try apply T.
    - by rewrite E, last_of_snoc.
    - rewrite E, length_app, (ti_num _ _ _ _ T). simpl. lia.
    - split; [done|]. right. intros E'. by apply app_eq_nil in E' as [_ ?].
    - by rewrite E. }
  assert (pot r1 <= pot r + 19 + str_size k + str_size v) as Hpot1 by (unfold pot; cbn; lia).
  change (options r1) with opt. destruct (block_size opt <=? size_of (data_block r1)).
  - destruct (Flush_inv r1 bs seps' (cur ++ [(k, v)]) T1) as (r2 & b & -> & T2 & Hb & _ & Hpot2);
      [intros E; by apply app_eq_nil in E as [_ ?]|done|lia|by rewrite app_assoc|].
    exists r2, (bs ++ [b]), seps', []. split; [done|]. split; [done|]. split; [|cbn in Hpot2; lia].
    rewrite app_nil_r, entries_of_app, <- app_assoc, <- Hb. unfold entries_of at 2. simpl. by rewrite app_nil_r.
  - exists r1, bs, seps', (cur ++ [(k, v)]). split; [done|]. split; [done|]. split; [by rewrite app_assoc|lia].
Qed.

Lemma make_inv : 0 <= policy_keys -> exists r, make opt ([] : str) = Ret r /\ tb_inv r [] [] [] /\ pot r = 16.
Proof.
  intros Hkeys. unfold make, BlockBuilder.make. destruct (Z.leb_spec 1 interval); [|lia]. cbn [mbind result_bind]. cbn [Z.leb Z.compare].
  assert (exists f', on_filter opt (fun policy fb => @FilterBlockBuilder.StartBlock policy fb 0)
    (match filter_policy opt with None => None | Some _ => Some FilterBlockBuilder.make end) = Ret f' /\ filter_inv f' [] []) as (f' & -> & Hf).
  { unfold on_filter, filter_inv, policy_ok, policy_keys in *. destruct (filter_policy opt) as [[name p]|]; [|by exists None].
    destruct (@StartBlock_state p Hpolicy FilterBlockBuilder.make [] 0 fb_state_make) as (b' & -> & Hst); try done.
    by exists (Some b'). }
  cbn [mbind result_bind]. eexists. split; [done|]. split; [|done].
  split; cbn; try done; [by exists [], [O]; split; [apply built_fresh|]|by exists [], [O]; split; [apply built_fresh|]| |constructor].
  by split; [|left].
Qed.

Lemma table_room_ge es : 16 <= table_room es.
Proof.
  induction es as [|[k v] es IH]; simpl; [lia|]. unfold entry_cost. cbn [fst snd].
  pose proof (str_size_nonneg k). pose proof (str_size_nonneg v). lia.
Qed.

Lemma last_of_room es : str_size (last_of es) <= table_room es.
Proof.
  induction es as [|[k v] es IH]; [done|]. pose proof (table_room_ge es). pose proof (str_size_nonneg k). pose proof (str_size_nonneg v).
  cbn [table_room foldr]. fold (table_room es). unfold entry_cost. cbn [fst snd]. destruct es as [|e es]; [unfold last_of; simpl; lia|].
  change (last_of ((k, v) :: e :: es)) with (last_of (e :: es)). lia.
Qed.

(** All the entries. *)
Lemma Adds_inv es r bs seps cur :
  tb_inv r bs seps cur -> keys_sorted ((entries_of bs ++ cur) ++ es) -> pot r + (table_room es - 16) + 60 < 2 ^ 32 ->
  Z.of_nat (length ((entries_of bs ++ cur) ++ es)) <= policy_keys ->
  exists r' bs' seps' cur', foldR (fun r e => Add r (fst e) (snd e)) r es = Ret r' /\ tb_inv r' bs' seps' cur' /\
    entries_of bs' ++ cur' = (entries_of bs ++ cur) ++ es /\ pot r' <= pot r + (table_room es - 16).
Proof.
  revert r bs seps cur. induction es as [|[k v] es IH]; intros r bs seps cur T Hs Hpot Hn.
  - exists r, bs, seps, cur. rewrite app_nil_r. simpl. split; [done|]. split; [done|]. split; [done|]. lia.
  - cbn [table_room foldr] in *. fold (table_room es) in *.
    pose proof (table_room_ge es) as Hroom.
    assert ((entries_of bs ++ cur) ++ (k, v) :: es = ((entries_of bs ++ cur) ++ [(k, v)]) ++ es) as E
      by (by rewrite <- (app_assoc (entries_of bs ++ cur))).
    rewrite E in Hs, Hn.
    destruct (Add_inv r bs seps cur k v T) as (r1 & bs1 & seps1 & cur1 & Ha & T1 & He & Hp1);
      [by apply StronglySorted_app_1_l in Hs|lia|rewrite length_app in Hn; lia|].
    rewrite <- He in Hs, Hn. destruct (IH r1 bs1 seps1 cur1 T1 Hs ltac:(lia) Hn) as (r2 & bs2 & seps2 & cur2 & Hf & T2 & He2 & Hp2).
    exists r2, bs2, seps2, cur2. cbn [foldR fst snd]. rewrite Ha. cbn [mbind result_bind]. rewrite E, <- He. split; [done|]. split; [done|].
    split; [done|]. lia.
Qed.

(** *** Finish *)

(** [make], [Add] for every entry, and the [Flush] that [Finish] starts with. *)
Definition fill_table (es : list entry) : result (Rep str) :=
  r ← make opt ([] : str); r ← foldR (fun r e => Add r (fst e) (snd e)) r es; Flush r.

(** The filter block a builder will write. *)
Definition filter_contents r : option (str * str) :=
  match filter_block r, filter_policy opt with
  | Some b, Some (name, policy) => Some (name, snd (@FilterBlockBuilder.Finish policy b))
  | _, _ => None
  end.

(** The filter block of a table stays below the range of its offsets. *)
Definition filter_fits (es : list entry) : bool :=
  match fill_table es with
  | Ret r => match filter_contents r with Some (_, c) => str_size c <? 2 ^ 32 | None => true end
  | _ => true
  end.

(** The builder before [Finish] writes anything else: all entries in blocks. *)
Lemma fill_table_inv es :
  keys_sorted es -> 2 * table_room es + 200 < 2 ^ 32 -> Z.of_nat (length es) <= policy_keys ->
  exists r bs seps, fill_table es = Ret r /\ tb_inv r bs seps [] /\ entries_of bs = es /\
    pot r <= 2 * table_room es + 52 /\ (bs = [] \/ pending_index_entry r = true).
Proof.
  intros Hs Hroom Hn. pose proof (table_room_ge es). destruct make_inv as (r0 & Hm & T0 & Hp0); [lia|]. unfold fill_table. rewrite Hm. cbn [mbind result_bind].
  destruct (Adds_inv es r0 [] [] [] T0) as (r1 & bs & seps & cur & -> & T1 & He & Hp1); [done|lia|done|]. cbn [mbind result_bind].
  simpl in He. destruct (decide (cur = [])) as [->|Hne].
  - rewrite app_nil_r in He. exists r1, bs, seps. split.
    { unfold Flush, ok. rewrite (ti_closed _ _ _ _ T1), (ti_status _ _ _ _ T1). destruct (ti_data _ _ _ _ T1) as (ss & rs & B & Hss).
      apply map_eq_nil in Hss as ->. unfold BlockBuilder.empty. by rewrite (bu_buffer _ _ _ _ B). }
    split; [done|]. split; [done|]. split; [pose proof (table_room_ge es); lia|].
    pose proof (ti_pending _ _ _ _ T1) as Hp. destruct (pending_index_entry r1); [by right|left]. by destruct Hp as [_ [|]].
  - assert (pending_index_entry r1 = false) as Hp.
    { pose proof (ti_pending _ _ _ _ T1) as Hp. destruct (pending_index_entry r1); [by destruct Hp|done]. }
    destruct (Flush_inv r1 bs seps cur T1 Hne Hp) as (r2 & b & -> & T2 & Hb & Hp2 & Hpot2); [lia|by rewrite He|].
    exists r2, (bs ++ [b]), seps. split; [done|]. split; [done|].
    assert (entries_of (bs ++ [b]) = es) as He2.
    { rewrite entries_of_app, <- He. unfold entries_of at 2. simpl. by rewrite app_nil_r, Hb. }
    split; [done|]. split; [|by right].
    assert (last_key r2 = last_of es) as El by (by rewrite (ti_last _ _ _ _ T2), app_nil_r, He2).
    rewrite (ti_last _ _ _ _ T1), He in Hpot2. pose proof (last_of_room es). lia.
Qed.

(** Where a builder stands while [Finish] writes. *)
Record writing r (f : str) : Prop := {
  wr_file : file r = f;
  wr_offset : offset r = str_size f;
  wr_status : status r = Status.OK;
  wr_options : options r = opt
}.

Lemma write_filter_mem r bs :
  writing r (images bs) -> str_size (images bs) < 2 ^ 33 ->
  (match filter_policy opt, filter_block r with Some _, Some _ | None, None => True | _, _ => False end) ->
  (forall name c, filter_contents r = Some (name, c) -> str_size c < 2 ^ 32) ->
  exists f off h, write_filter r = Ret (set_file r f off Status.OK, h) /\ writing (set_file r f off Status.OK) (images bs ++ filter_image (filter_contents r)) /\
    (forall name c, filter_contents r = Some (name, c) -> h = BlockHandle.mkHandle (str_size (images bs)) (str_size c)).
Proof.
  intros [Hf Ho Hs Hopt] Hsz Hmatch Hfits. unfold write_filter, filter_contents in *. rewrite Hopt.
  destruct (filter_policy opt) as [[name p]|]; destruct (filter_block r) as [b|]; try done.
  - unfold ok. rewrite Hs. cbn [Status.ok]. pose proof (Hfits _ _ eq_refl). rewrite WriteRawBlock_mem by (rewrite ?Hf; lia || congruence).
    do 3 eexists. split; [reflexivity|]. split; [|by intros ? ? [= <- <-]; rewrite Hf].
    split; cbn; [by rewrite Hf|by rewrite Hf|done|done].
  - exists (file r), (offset r), BlockHandle.make. split; [|split; [|done]].
    + f_equal. f_equal. destruct r. cbn in *. by subst.
    + split; cbn; [|rewrite Ho|done|done]; by rewrite app_nil_r.
Qed.

Lemma write_metaindex_mem r bs h f :
  writing r f -> str_size f < 2 ^ 34 ->
  (match filter_policy opt, filter_block r with Some _, Some _ | None, None => True | _, _ => False end) ->
  (forall name c, filter_contents r = Some (name, c) -> h = BlockHandle.mkHandle (str_size (images bs)) (str_size c) /\ handle_ok h) ->
  exists mb off, write_metaindex r h = Ret (set_file r (f ++ images [mb]) off Status.OK, BlockHandle.mkHandle (str_size f) (str_size (db_stored mb))) /\
    writing (set_file r (f ++ images [mb]) off Status.OK) (f ++ images [mb]) /\
    holds mb /\ db_es mb = meta_entries bs (filter_contents r) /\ str_size (db_stored mb) < 2 ^ 32.
Proof.
  intros [Hf Ho Hs Hopt] Hsz Hmatch Hh. unfold write_metaindex, ok. rewrite Hs. cbn [Status.ok].
  unfold BlockBuilder.make. rewrite Hopt. destruct (Z.leb_spec 1 interval); [|lia]. cbn [mbind result_bind].
  assert (exists meta ss rs, (match filter_block r, filter_policy opt with
    | Some _, Some (name, _) => handle_encoding ← BlockHandle.EncodeTo h []; BlockBuilder.Add interval BlockBuilder.fresh ($"filter." ++ name) handle_encoding
    | Some _, None => Crash NullDeref
    | None, _ => Ret BlockBuilder.fresh end) = Ret meta /\ built interval meta ss rs /\
    map snd ss = meta_entries bs (filter_contents r) /\ size_of meta < 2 ^ 32) as (meta & ss & rs & -> & B & Hss & Hmsz).
  { unfold filter_contents, policy_name_ok in *. destruct (filter_policy opt) as [[name p]|]; destruct (filter_block r) as [b|]; try done.
    - destruct (Hh _ _ eq_refl) as [Eh Hok]. rewrite handle_encode by done. cbn [mbind result_bind app].
      pose proof (enc_handle_length h) as Hl. assert (str_size ($"filter." ++ name) = 7 + str_size name) as En by (by rewrite str_size_app).
      pose proof (str_size_nonneg name). change (str_size (enc_slots [])) with 0.
      destruct (Add_built interval Hinterval BlockBuilder.fresh [] [O] ($"filter." ++ name) (enc_handle h) (built_fresh interval Hinterval)) as (b' & sh & rs' & Ha & B' & Hrs);
        [by left|done|lia|unfold str_size; lia|]. rewrite Ha. eexists _, _, _. split; [done|]. split; [exact B'|]. split; [by rewrite Eh|].
      rewrite (size_of_built _ _ _ _ B'). pose proof (enc_slot_size sh ($"filter." ++ name) (enc_handle h)).
      unfold enc_slots. cbn [map concat app]. rewrite app_nil_r. simpl length in Hrs. unfold str_size in *. lia.
    - exists BlockBuilder.fresh, [], [O]. split; [done|]. split; [by apply built_fresh|]. split; [done|]. done. }
  cbn [mbind result_bind]. destruct (WriteBlock_mem interval r meta ss rs) as (raw & t & stored & L & Hst & Hle & ->); [done|done|done|congruence|rewrite Hf; lia|].
  cbn [mbind result_bind]. set (mb := mkD (map snd ss) raw t stored).
  assert (file r ++ block_image t stored = f ++ images [mb]) as E by (rewrite Hf; unfold images; simpl; by rewrite app_nil_r).
  rewrite E, Hf. exists mb. eexists. split; [done|]. split; [by split; cbn|].
  split; [split; [done|]; by exists ss, rs|]. split; [by rewrite <- Hss|]. cbn. lia.
Qed.

(** The index block at the end: with the key of the last block when it is
    pending. *)
Lemma index_finish r bs seps :
  tb_inv r bs seps [] -> (bs = [] \/ pending_index_entry r = true) -> pot r < 2 ^ 32 ->
  exists index' seps' last',
    (if pending_index_entry r then successor ← FindShortSuccessor (last_key r); index ← add_index_entry r successor; Ret (index, successor)
     else Ret (index_block r, last_key r)) = Ret (index', last') /\
    (exists ss rs, built 1 index' ss rs /\ map snd ss = index_entries bs seps') /\ length bs = length seps' /\
    seps_ok bs seps' [] /\ size_of index' < 2 ^ 32.
Proof.
  intros T Hor Hpot. pose proof (ti_pending _ _ _ _ T) as Hpend. pose proof Hpot as Hpot'. unfold pot in Hpot'.
  pose proof (size_of_pos (data_block r)). pose proof (str_size_nonneg (file r)). destruct (pending_index_entry r) eqn:Hp.
  - destruct (succ_above (last_key r)) as (s & Hs & Hge). rewrite Hs. cbn [mbind result_bind].
    destruct (add_index_entry_inv r bs seps [] s T Hp Hpot Hge (succ_length _ _ Hs)) as (index' & -> & HB & Hsz). cbn [mbind result_bind].
    exists index', (seps ++ [s]), s. split; [done|]. split; [done|]. destruct Hpend as (_ & Hlen & _).
    split; [rewrite length_app; simpl; lia|]. split; [|lia].
    apply (seps_ok_pending r _ _ _ _ T Hp Hge); [intros x Hx; by apply elem_of_nil in Hx|done].
  - destruct Hor as [->|]; [|done]. destruct Hpend as [Hlen _]. exists (index_block r), seps, (last_key r). split; [done|].
    split; [apply T|]. split; [done|]. split; [by intros i s b _ Hb|lia].
Qed.

Lemma write_index_mem r r0 bs seps f :
  tb_inv r0 bs seps [] -> (bs = [] \/ pending_index_entry r0 = true) -> pot r0 < 2 ^ 32 ->
  pending_index_entry r = pending_index_entry r0 -> last_key r = last_key r0 -> index_block r = index_block r0 ->
  pending_handle r = pending_handle r0 -> writing r f -> str_size f < 2 ^ 35 ->
  exists r' ib seps', write_index r = Ret (r', BlockHandle.mkHandle (str_size f) (str_size (db_stored ib))) /\
    writing r' (f ++ images [ib]) /\ holds ib /\ db_es ib = index_entries bs seps' /\ length bs = length seps' /\
    seps_ok bs seps' [] /\ str_size (db_stored ib) < 2 ^ 32.
Proof.
  intros T Hor Hpot E1 E2 E3 E4 [Hf Ho Hs Hopt] Hsz. unfold write_index, ok. rewrite Hs. cbn [Status.ok].
  destruct (index_finish r0 bs seps T Hor Hpot) as (index' & seps' & last' & Hq & (ss & rs & B & Hss) & Hlen & Hseps & Hisz).
  rewrite E1, E2, E3. replace (add_index_entry r) with (add_index_entry r0) by (unfold add_index_entry; by rewrite E3, E4).
  rewrite Hq. cbn [mbind result_bind].
  destruct (WriteBlock_mem 1 r index' ss rs) as (raw & t & stored & L & Hst & Hle & ->); [done|done|done|congruence|rewrite Hf; lia|].
  cbn [mbind result_bind]. set (ib := mkD (map snd ss) raw t stored).
  assert (file r ++ block_image t stored = f ++ images [ib]) as E by (rewrite Hf; unfold images; simpl; by rewrite app_nil_r).
  rewrite E, Hf. eexists _, ib, seps'. split; [done|]. split; [by split; cbn|]. split; [split; [done|]; by exists ss, rs|].
  split; [done|]. split; [done|]. split; [done|]. cbn. lia.
Qed.

Lemma write_footer_mem r f mh ih :
  writing r f -> str_size f < 2 ^ 36 -> handle_ok mh -> handle_ok ih ->
  exists r', write_footer r mh ih = Ret r' /\ writing r' (f ++ enc_footer (Footer.mkFooter mh ih)).
Proof.
  intros [Hf Ho Hs Hopt] Hsz Hm Hi. unfold write_footer, ok. rewrite Hs. cbn [Status.ok]. rewrite footer_encode by done.
  cbn [mbind result_bind]. cbn [wf_Append mem_writable Status.ok]. eexists. split; [done|]. pose proof (str_size_nonneg f).
  assert (str_size (enc_footer (Footer.mkFooter mh ih)) = 48) as E by (unfold str_size; by rewrite enc_footer_length).
  split; cbn [file offset status options set_file]; [by rewrite Hf| |done|done].
  rewrite Ho, str_size_app, E. apply wrap_small. lia.
Qed.

Lemma images_single b : str_size (images [b]) = str_size (db_stored b) + 5.
Proof. unfold images. cbn [map concat]. by rewrite app_nil_r, block_image_length. Qed.

Lemma handle_small off size : 0 <= off < 2 ^ 36 -> 0 <= size < 2 ^ 36 -> handle_ok (BlockHandle.mkHandle off size).
Proof. intros Ho Hs. unfold handle_ok, BlockHandle.unset. cbn [BlockHandle.offset_ BlockHandle.size_]. lia. Qed.

Lemma filter_inv_match f bs cur :
  filter_inv f bs cur -> match filter_policy opt, f with Some _, Some _ | None, None => True | _, _ => False end.
Proof. unfold filter_inv. by destruct (filter_policy opt) as [[? ?]|], f. Qed.

(** The rest of [Finish] after the data blocks. *)
Lemma write_tail_layout r bs seps :
  tb_inv r bs seps [] -> (bs = [] \/ pending_index_entry r = true) -> pot r < 2 ^ 32 ->
  (forall name c, filter_contents r = Some (name, c) -> str_size c < 2 ^ 32) ->
  exists r' seps' mb ib, write_tail (close r) = Ret r' /\ status r' = Status.OK /\ offset r' = str_size (file r') /\
    table_layout (file r') bs seps' (filter_contents r) mb ib /\ seps_ok bs seps' [].
Proof.
  intros T Hor Hpot Hfc. assert (writing (close r) (images bs)) as W0 by (split; apply T). pose proof (str_size_nonneg (images bs)).
  assert (str_size (images bs) < 2 ^ 32) as Hsz0.
  { rewrite <- (ti_file _ _ _ _ T). unfold pot in Hpot. pose proof (size_of_pos (data_block r)). pose proof (size_of_pos (index_block r)).
    pose proof (str_size_nonneg (last_key r)). destruct (pending_index_entry r); lia. }
  pose proof (filter_inv_match _ _ _ (ti_filter _ _ _ _ T)) as Hmatch. unfold write_tail.
  destruct (write_filter_mem (close r) bs W0 ltac:(lia) Hmatch Hfc) as (f1 & off1 & h & -> & W1 & Hh). cbn [mbind result_bind].
  change (filter_contents (close r)) with (filter_contents r) in *. set (fc := filter_contents r) in *. pose proof (str_size_nonneg (filter_image fc)).
  assert (str_size (filter_image fc) < 2 ^ 32 + 5) as Hfsz.
  { unfold filter_image. destruct fc as [[name c]|]; [|done]. rewrite block_image_length. specialize (Hfc _ _ eq_refl). unfold kBlockTrailerSize. lia. }
  destruct (write_metaindex_mem (set_file (close r) f1 off1 Status.OK) bs h (images bs ++ filter_image fc) W1) as (mb & off2 & -> & W2 & Hmb & Hme & Hmsz);
    [rewrite str_size_app; lia|exact Hmatch| |].
  { intros name c E. split; [by eapply Hh|]. rewrite (Hh _ _ E). specialize (Hfc _ _ E). pose proof (str_size_nonneg c). apply handle_small; lia. }
  cbn [mbind result_bind]. pose proof (images_single mb) as Emb. set (f2 := (images bs ++ filter_image fc) ++ images [mb]) in *.
  assert (0 <= str_size f2 < 2 ^ 35) as Hf2 by (split; [apply str_size_nonneg|]; unfold f2; rewrite !str_size_app; lia).
  destruct (write_index_mem (set_file (set_file (close r) f1 off1 Status.OK) f2 off2 Status.OK) r bs seps f2 T Hor Hpot eq_refl eq_refl eq_refl eq_refl W2 ltac:(lia))
    as (r3 & ib & seps' & -> & W3 & Hib & Hie & Hlen & Hseps & Hisz). cbn [mbind result_bind]. pose proof (images_single ib) as Eib.
  pose proof (str_size_nonneg (db_stored mb)). pose proof (str_size_nonneg (db_stored ib)).
  destruct (write_footer_mem r3 (f2 ++ images [ib])
    (BlockHandle.mkHandle (str_size (images bs ++ filter_image fc)) (str_size (db_stored mb)))
    (BlockHandle.mkHandle (str_size f2) (str_size (db_stored ib))) W3) as (r4 & -> & W4);
    [rewrite str_size_app; lia|apply handle_small; rewrite ?str_size_app; lia|apply handle_small; lia|].
  exists r4, seps', mb, ib. split; [done|]. split; [apply W4|]. split; [by rewrite (wr_offset _ _ W4), (wr_file _ _ W4)|]. split; [|done]. rewrite (wr_file _ _ W4).
  split; [| |apply T|done|done|done].
  - unfold f2. by rewrite <- !app_assoc.
  - rewrite !str_size_app. unfold str_size at 3. rewrite enc_footer_length. lia.
Qed.

(** A table from its entries. *)
Lemma build_table_layout es :
  keys_sorted es -> 2 * table_room es + 200 < 2 ^ 32 -> Z.of_nat (length es) <= policy_keys -> filter_fits es = true ->
  exists data bs seps fc mb ib, build_table opt es = Ret (data, Status.OK) /\ table_layout data bs seps fc mb ib /\
    entries_of bs = es /\ seps_ok bs seps [] /\
    match filter_policy opt, fc with
    | Some (name, p), Some (name', c) => name' = name /\ str_size c < 2 ^ 32 /\
        exists fb, c = snd (@FilterBlockBuilder.Finish p fb) /\ @fb_state p fb (filter_blocks bs [])
    | None, None => True
    | _, _ => False
    end.
Proof.
  intros Hs Hroom Hn Hfits. destruct (fill_table_inv es Hs Hroom Hn) as (r & bs & seps & Hfill & T & He & Hpot & Hor).
  unfold filter_fits in Hfits. rewrite Hfill in Hfits. unfold build_table. unfold fill_table in Hfill.
  destruct (make opt ([] : str)) as [rm| |]; [|done|done]. cbn [mbind result_bind] in *.
  destruct (foldR _ rm es) as [ra| |]; [|done|done]. cbn [mbind result_bind] in *. unfold Finish. rewrite Hfill. cbn [mbind result_bind].
  rewrite (ti_closed _ _ _ _ T).
  assert (forall name c, filter_contents r = Some (name, c) -> str_size c < 2 ^ 32) as Hfc
    by (intros name c E; rewrite E in Hfits; by apply Z.ltb_lt).
  destruct (write_tail_layout r bs seps T Hor ltac:(lia) Hfc) as (r' & seps' & mb & ib & -> & Hst & _ & L & Hseps).
  cbn [mbind result_bind]. rewrite Hst. exists (file r'), bs, seps', (filter_contents r), mb, ib.
  split; [done|]. split; [done|]. split; [done|]. split; [done|].
  pose proof (ti_filter _ _ _ _ T) as Hfi. unfold filter_inv, filter_contents in *.
  destruct (filter_policy opt) as [[name p]|], (filter_block r) as [fb|]; try done.
  split; [done|]. split; [by eapply Hfc|]. by exists fb.
Qed.

(** *** A builder in use *)

Lemma WriteRawBlock_closed r c t : closed (fst (WriteRawBlock r c t)) = closed r.
Proof. done. Qed.

Lemma WriteBlock_closed r b r' b' h : WriteBlock r b = Ret (r', b', h) -> closed r' = closed r.
Proof.
  unfold WriteBlock. destruct (ok r); [|done]. destruct (BlockBuilder.Finish b) as [b1 raw]. destruct (block_to_store _ raw) as [c t].
  pose proof (WriteRawBlock_closed r c t). destruct (WriteRawBlock r c t) as [r1 h1]. by intros [= <- _ _].
Qed.

Lemma write_tail_closed r r' : write_tail r = Ret r' -> closed r' = closed r.
Proof.
  unfold write_tail. destruct (write_filter r) as [[r1 h1]| |] eqn:E1; [|done..]. cbn [mbind result_bind].
  destruct (write_metaindex r1 h1) as [[r2 h2]| |] eqn:E2; [|done..]. cbn [mbind result_bind].
  destruct (write_index r2) as [[r3 h3]| |] eqn:E3; [|done..]. cbn [mbind result_bind]. intros E4.
  assert (closed r1 = closed r) as <-.
  { unfold write_filter in E1. destruct (filter_block r), (filter_policy (options r)) as [[? ?]|]; try (destruct (ok r)); try done; injection E1 as <- _; done. }
  assert (closed r2 = closed r1) as <-.
  { unfold write_metaindex in E2. destruct (ok r1); [|by injection E2 as <- _]. destruct (BlockBuilder.make _) as [m| |]; [|done..]. cbn [mbind result_bind] in E2.
    destruct (match filter_block r1 with Some _ => _ | None => _ end) as [m'| |]; [|done..]. cbn [mbind result_bind] in E2.
    destruct (WriteBlock r1 m') as [[[r1' ?] ?]| |] eqn:Ew; [|done..]. cbn [mbind result_bind] in E2. injection E2 as <- _. by eapply WriteBlock_closed. }
  assert (closed r3 = closed r2) as <-.
  { unfold write_index in E3. destruct (ok r2); [|by injection E3 as <- _]. destruct (if pending_index_entry r2 then _ else _) as [[i l]| |]; [|done..]. cbn [mbind result_bind] in E3.
    destruct (WriteBlock r2 i) as [[[r2' ?] ?]| |] eqn:Ew; [|done..]. cbn [mbind result_bind] in E3. injection E3 as <- _. exact (WriteBlock_closed _ _ _ _ _ Ew). }
  unfold write_footer in E4. destruct (ok r3); [|by injection E4 as <-]. destruct (Footer.EncodeTo _ []) as [f| |]; [|done..]. cbn [mbind result_bind] in E4.
  destruct (wf_Append _ _) as [g s]. by injection E4 as <-.
Qed.

(** The entries a builder has been given. *)
Definition filled r (es : list entry) : Prop :=
  (r ← make opt ([] : str); foldR (fun r e => Add r (fst e) (snd e)) r es) = Ret r.

Lemma filled_make : 0 <= policy_keys -> exists r, make opt ([] : str) = Ret r /\ filled r [].
Proof. intros H. destruct (make_inv H) as (r & Hr & _). exists r. split; [done|]. unfold filled. by rewrite Hr. Qed.

Lemma filled_inv r es : filled r es -> keys_sorted es -> 2 * table_room es + 200 < 2 ^ 32 -> Z.of_nat (length es) <= policy_keys ->
  exists bs seps cur, tb_inv r bs seps cur /\ entries_of bs ++ cur = es /\ pot r <= table_room es.
Proof.
  intros Hf Hs Hroom Hn. pose proof (table_room_ge es). destruct make_inv as (r0 & Hm & T0 & Hp0); [lia|]. unfold filled in Hf. rewrite Hm in Hf. cbn [mbind result_bind] in Hf.
  destruct (Adds_inv es r0 [] [] [] T0) as (r1 & bs & seps & cur & Ha & T1 & He & Hp1); [done|lia|done|]. rewrite Ha in Hf. injection Hf as <-.
  exists bs, seps, cur. split; [done|]. split; [done|]. lia.
Qed.

Lemma filled_num r es : filled r es -> keys_sorted es -> 2 * table_room es + 200 < 2 ^ 32 -> Z.of_nat (length es) <= policy_keys ->
  NumEntries r = Z.of_nat (length es).
Proof.
  intros Hf Hs Hroom Hn. destruct (filled_inv r es Hf Hs Hroom Hn) as (bs & seps & cur & T & He & _). unfold NumEntries. rewrite (ti_num _ _ _ _ T), He.
  apply wrap_small. clear - Hroom. assert (Z.of_nat (length es) <= table_room es); [|lia]. clear Hroom. induction es as [|[k v] es IH]; cbn [length table_room foldr]; [lia|].
  fold (table_room es). unfold entry_cost. pose proof (str_size_nonneg k). pose proof (str_size_nonneg v). cbn [fst snd]. lia.
Qed.

Lemma filled_add r es k v : filled r es -> keys_sorted (es ++ [(k, v)]) -> 2 * table_room (es ++ [(k, v)]) + 200 < 2 ^ 32 ->
  Z.of_nat (length (es ++ [(k, v)])) <= policy_keys -> exists r', Add r k v = Ret r' /\ filled r' (es ++ [(k, v)]).
Proof.
  intros Hf Hs Hroom Hn. pose proof (table_room_ge (es ++ [(k, v)])). destruct make_inv as (r0 & Hm & T0 & Hp0); [lia|]. unfold filled in *. rewrite Hm in *. cbn [mbind result_bind] in *.
  destruct (Adds_inv (es ++ [(k, v)]) r0 [] [] [] T0) as (r1 & bs & seps & cur & Ha & _); [done|lia|done|]. exists r1. split; [|done].
  rewrite foldR_app, Hf in Ha. cbn [mbind result_bind foldR fst snd] in Ha. by destruct (Add r k v).
Qed.

Lemma filled_finish r es : filled r es -> keys_sorted es -> 2 * table_room es + 200 < 2 ^ 32 -> Z.of_nat (length es) <= policy_keys -> filter_fits es = true ->
  exists r', Finish r = Ret (r', Status.OK) /\ build_table opt es = Ret (file r', Status.OK) /\ FileSize r' = str_size (file r') /\ closed r' = true.
Proof.
  intros Hf Hs Hroom Hn Hfits. destruct (fill_table_inv es Hs Hroom Hn) as (r1 & bs & seps & Hfill & T & He & Hpot & Hor).
  unfold filter_fits in Hfits. rewrite Hfill in Hfits. unfold build_table, FileSize. unfold fill_table in Hfill. unfold filled in Hf.
  destruct (make opt ([] : str)) as [rm| |]; [|done|done]. cbn [mbind result_bind] in *. rewrite Hf in Hfill |- *. cbn [mbind result_bind] in *. unfold Finish. rewrite Hfill.
  cbn [mbind result_bind]. rewrite (ti_closed _ _ _ _ T).
  destruct (write_tail_layout r1 bs seps T Hor ltac:(lia)) as (r' & seps' & mb & ib & Ht & Hst & Hoff & _).
  { intros name c E. rewrite E in Hfits. by apply Z.ltb_lt. }
  rewrite Ht. cbn [mbind result_bind]. rewrite Hst. exists r'. split; [done|]. split; [done|]. split; [done|]. by rewrite (write_tail_closed _ _ Ht).
Qed.

End build.
