(* ===== verification/TableRead.v ===== *)
(** * Reading tables back

    On a file with the layout of [TableSpec.v], [Table::Open] succeeds, the iterator
    of the table ranges over the entries of all its blocks, [InternalGet] finds the
    entries, and the block cache only ever returns what the file holds. *)

From Stdlib Require Import ZArith Lia.
From S2P Require Import Prelude CString Coding SliceStatus FilterPolicy DbFormat Crc32c Iterators TableBlock TableBlockSpec.
From S2P Require Import TwoLevelIterator LogFile TableFormat FilterBlock TableBuilder Table TableSpec.

(** What a cache promises: a lookup gives what was inserted under that key, or
    nothing. *)
Class CacheLaws {K V : Type} (CA : Cache K V) := {
  cache_get : K -> str -> option V;
  cache_lookup k key : exists k', cache_Lookup k key = (cache_get k key, k') /\
    forall key' v, cache_get k' key' = Some v -> cache_get k key' = Some v;
  cache_insert k key v charge key' v' :
    cache_get (cache_Insert k key v charge) key' = Some v' -> (key' = key /\ v' = v) \/ cache_get k key' = Some v';
  cache_newid k key v : cache_get (snd (cache_NewId k)) key = Some v -> cache_get k key = Some v
}.

Lemma StronglySorted_lookup {A} (R : A -> A -> Prop) l :
  (forall i j a b, (i < j)%nat -> l !! i = Some a -> l !! j = Some b -> R a b) -> StronglySorted R l.
Proof.
  induction l as [|x l IH]; intros H; constructor.
  - apply IH. intros i j a b Hij Ha Hb. apply (H (S i) (S j) a b); [lia|done|done].
  - apply Forall_lookup. intros j b Hb. apply (H O (S j) x b); [lia|done|done].
Qed.

Lemma elem_entries_of bs j d x : bs !! j = Some d -> x ∈ db_es d -> x ∈ entries_of bs.
Proof.
  intros Hd Hx. rewrite <- (take_drop_middle bs j d Hd), entries_of_app. apply elem_of_app. right.
  unfold entries_of. cbn [map concat]. apply elem_of_app. by left.
Qed.

Section read.
Context {F : Type} {RF : RandomAccessFile F} {RL : RandomAccessFileLaws RF} {PT : Port} {PL : PortLaws PT}.
Context {C : Comparator} {K : Type} {CA : Cache K Block.Block} {CL : CacheLaws CA}.
Implicit Types (t : Table.Rep F) (cache : option K).

(** ** Blocks by their handles *)

Lemma images_lt bs i j b : bs !! i = Some b -> (i < j)%nat -> str_size (images (take i bs)) < str_size (images (take j bs)).
Proof.
  intros Hb Hij. replace (take j bs) with (take i bs ++ b :: take (j - S i) (drop (S i) bs)).
  - rewrite images_app, str_size_app. change (images (b :: ?l)) with (block_image (db_type b) (db_stored b) ++ images l).
    rewrite str_size_app, block_image_length. pose proof (str_size_nonneg (db_stored b)).
    pose proof (str_size_nonneg (images (take (j - S i) (drop (S i) bs)))). unfold kBlockTrailerSize. lia.
  - rewrite <- (take_drop i bs) at 3. rewrite take_app_ge by (rewrite length_take; lia). f_equal.
    pose proof (lookup_lt_Some _ _ _ Hb). rewrite length_take, Nat.min_l by lia. rewrite (drop_S _ _ _ Hb).
    replace (j - i)%nat with (S (j - S i)) by lia. done.
Qed.

Lemma offset_unique bs i j b d : bs !! i = Some b -> bs !! j = Some d ->
  str_size (images (take i bs)) = str_size (images (take j bs)) -> i = j.
Proof.
  intros Hi Hj E. destruct (Nat.lt_trichotomy i j) as [Hlt|[|Hlt]]; [|done|].
  - pose proof (images_lt bs i j b Hi Hlt). lia.
  - pose proof (images_lt bs j i d Hj Hlt). lia.
Qed.

Lemma fixed64_inj a b : 0 <= a < 2 ^ 64 -> 0 <= b < 2 ^ 64 -> EncodeFixed64 a = EncodeFixed64 b -> a = b.
Proof.
  intros Ha Hb E. apply (f_equal (fun x => DecodeFixed64 (x ++ []))) in E. rewrite !DecodeFixed64_Encode in E.
  by rewrite !wrap_small in E by done.
Qed.

Lemma cache_key_inj id a b : 0 <= a < 2 ^ 64 -> 0 <= b < 2 ^ 64 -> Table.cache_key id a = Table.cache_key id b -> a = b.
Proof. intros Ha Hb E. unfold Table.cache_key in E. apply app_inv_head in E. by apply fixed64_inj. Qed.

(** ** The block function *)

(** What reading the blocks of a table does to the cache: lookups, and insertions under
    the id of the table. *)
Inductive cache_steps (id : Z) : K -> K -> Prop :=
| steps_refl k : cache_steps id k k
| steps_lookup k key k' : cache_steps id (snd (cache_Lookup k key)) k' -> cache_steps id k k'
| steps_insert k off b charge k' : cache_steps id (cache_Insert k (Table.cache_key id off) b charge) k' -> cache_steps id k k'.

Definition reads (id : Z) cache cache' : Prop :=
  match cache, cache' with Some k, Some k' => cache_steps id k k' | None, None => True | _, _ => False end.

Lemma reads_refl id cache : reads id cache cache.
Proof. destruct cache; [constructor|done]. Qed.

Section served.
Context (bs : list dblock).

(** What the cache holds under the id of the table are its blocks. *)
Definition coherent t cache : Prop :=
  forall k off b, cache = Some k -> 0 <= off < 2 ^ 64 -> cache_get k (Table.cache_key (Table.cache_id t) off) = Some b ->
    exists i d, bs !! i = Some d /\ off = str_size (images (take i bs)) /\ b = Block.make (db_raw d).

(** The file of the table starts with the blocks [bs]. *)
Record serves t cache : Prop := {
  sv_file : exists post, raf_contents (Table.file t) = images bs ++ post;
  sv_size : str_size (raf_contents (Table.file t)) < 2 ^ 63;
  sv_blocks : Forall dblock_ok bs;
  sv_cache : coherent t cache
}.

(** Reading the block [i] from the file. *)
Lemma ReadBlock_served t cache opt i d :
  serves t cache -> bs !! i = Some d ->
  exists c h, ReadBlock (Table.file t) opt (dhandle bs i) = Ret (Status.OK, mkContents (db_raw d) c h).
Proof.
  intros [(post & Hf) Hsz Hok _] Hd. unfold dhandle. rewrite Hd. rewrite Forall_lookup in Hok. destruct (Hok i d Hd) as (_ & Hst & _).
  apply (ReadBlock_image _ opt (images (take i bs)) (db_type d) (db_stored d) (db_raw d) (images (drop (S i) bs) ++ post)); [|done|done].
  rewrite Hf, (images_split bs i d Hd). by rewrite <- !app_assoc.
Qed.

Lemma served_offset t cache i d : serves t cache -> bs !! i = Some d -> 0 <= str_size (images (take i bs)) < 2 ^ 64.
Proof.
  intros [(post & Hf) Hsz _ _] Hd. rewrite Hf, (images_split bs i d Hd), !str_size_app in Hsz.
  pose proof (str_size_nonneg (images (take i bs))). pose proof (str_size_nonneg (block_image (db_type d) (db_stored d))).
  pose proof (str_size_nonneg (images (drop (S i) bs))). pose proof (str_size_nonneg post). lia.
Qed.

(** With or without the cache, the block [i] is what is read, and the cache stays
    coherent. *)
Lemma read_cached_served t cache opt i d :
  serves t cache -> bs !! i = Some d ->
  exists cache', Table.read_cached t cache opt (dhandle bs i) = Ret (Status.OK, Some (Block.make (db_raw d)), cache') /\ serves t cache' /\
    reads (Table.cache_id t) cache cache'.
Proof.
  intros S Hd. destruct (ReadBlock_served t cache opt i d S Hd) as (c & h & Hr). pose proof (served_offset t cache i d S Hd) as Hoff.
  unfold Table.read_cached. destruct cache as [k|].
  2:{ rewrite Hr. cbn. exists None. done. }
  change (BlockHandle.offset_ (dhandle bs i)) with (str_size (images (take i bs))).
  set (key := Table.cache_key (Table.cache_id t) (str_size (images (take i bs)))).
  destruct (cache_lookup k key) as (k' & Hlk & Hkeep). rewrite Hlk.
  assert (serves t (Some k')) as S'.
  { destruct S as [? ? ? Hc]. split; try done. intros k1 off b [= <-] Ho Hg. apply (Hc k off b eq_refl Ho). by apply Hkeep. }
  destruct (cache_get k key) as [b|] eqn:Hg.
  - destruct (sv_cache _ _ S k _ b eq_refl Hoff Hg) as (j & d' & Hj & Eo & ->).
    replace j with i in Hj by (by eapply offset_unique). exists (Some k'). split; [congruence|]. split; [done|]. apply (steps_lookup _ _ key). rewrite Hlk. constructor.
  - rewrite Hr. cbn [mbind result_bind Status.ok contents_data cachable]. eexists. split; [done|].
    destruct (c && fill_cache opt); (split; [|apply (steps_lookup _ _ key); rewrite Hlk; first [apply steps_refl|eapply steps_insert, steps_refl]]); [|done]. destruct S' as [? ? ? Hc]. split; try done. intros k1 off b [= <-] Ho Hg1.
    apply cache_insert in Hg1 as [[Ek ->]|Hg1]; [|by apply (Hc k' off b)].
    exists i, d. split; [done|]. split; [|done]. by apply (cache_key_inj (Table.cache_id t)).
Qed.

Lemma BlockReader_served t cache opt i d :
  serves t cache -> bs !! i = Some d ->
  exists iter cache', Table.BlockReader t cache opt (enc_handle (dhandle bs i)) = Ret (iter, cache') /\
    it_at (IteratorLaws := BlockIterator_laws C) iter (db_es d) (length (db_es d)) /\ serves t cache' /\ reads (Table.cache_id t) cache cache'.
Proof.
  intros S Hd. pose proof (served_offset t cache i d S Hd) as Hoff. unfold Table.BlockReader.
  assert (handle_ok (dhandle bs i)) as Hh.
  { apply dhandle_ok; [by eapply lookup_lt_Some|]. destruct S as [(post & Hf) Hsz _ _]. rewrite Hf, str_size_app in Hsz.
    pose proof (str_size_nonneg post). lia. }
  rewrite <- (app_nil_r (enc_handle _)), handle_decode by done. change (Status.ok Status.OK) with true. cbv iota.
  destruct (read_cached_served t cache opt i d S Hd) as (cache' & -> & S' & Hrd). cbn [mbind result_bind].
  pose proof (sv_blocks _ _ S) as Hok. rewrite Forall_lookup in Hok. destruct (Hok i d Hd) as (_ & _ & ss & rs & L & Hss).
  destruct (NewIterator_layout C _ ss rs L) as (it & -> & Hat). cbn [mbind result_bind]. exists it, cache'.
  split; [done|]. split; [|done]. rewrite <- Hss, length_map. done.
Qed.

#[export] Program Instance table_block_laws : BlockFunctionLaws (BlockIterator_laws C) (Table.table_block_function (F := F) (K := K)) := {
  denotes a h es := serves (Table.arg_table a) (Table.arg_cache a) /\
    exists i d, bs !! i = Some d /\ h = enc_handle (dhandle bs i) /\ es = db_es d
}.
Next Obligation.
  intros [t cache opt] h es (S & i & d & Hd & -> & ->). cbn in S.
  destruct (BlockReader_served t cache opt i d S Hd) as (iter & cache' & Hr & Hat & S' & _).
  exists iter, (Table.mkArg t cache' opt), (length (db_es d)).
  cbn [block_function Table.table_block_function Table.arg_table Table.arg_cache Table.arg_options]. rewrite Hr.
  split; [done|]. split; [done|]. split; [done|].
  intros h' es' (_ & H). by split.
Qed.

End served.
(** ** Opening *)

Lemma set_filter_none t : Table.filter t = None -> Table.set_filter t None = t.
Proof. intros E. destruct t. cbn in *. by subst. Qed.

Section opened.
Context (data : str) (bs : list dblock) (seps : list str) (fc : option (str * str)) (mb ib : dblock).
Context (L : table_layout data bs seps fc mb ib) (f : F) (Hf : raf_contents f = data).

Local Abbreviation meta_handle := (BlockHandle.mkHandle (str_size (images bs ++ filter_image fc)) (str_size (db_stored mb))).
Local Abbreviation index_handle := (BlockHandle.mkHandle (str_size (images bs ++ filter_image fc ++ images [mb])) (str_size (db_stored ib))).

Lemma layout_sizes :
  str_size data = str_size (images bs) + str_size (filter_image fc) + (str_size (db_stored mb) + 5) + (str_size (db_stored ib) + 5) + 48 /\
  str_size data < 2 ^ 63 /\ 0 <= str_size (images bs) /\ 0 <= str_size (filter_image fc) /\
  0 <= str_size (db_stored mb) /\ 0 <= str_size (db_stored ib).
Proof.
  split_and!; [|apply L|apply str_size_nonneg..]. rewrite (tl_data _ _ _ _ _ _ L), !str_size_app, !images_single.
  unfold str_size at 5. rewrite enc_footer_length. lia.
Qed.

Lemma layout_handles : handle_ok meta_handle /\ handle_ok index_handle.
Proof.
  pose proof layout_sizes. unfold handle_ok, BlockHandle.unset. cbn [BlockHandle.offset_ BlockHandle.size_].
  rewrite !str_size_app, images_single. lia.
Qed.

Lemma read_footer : exists scratch,
  raf_Read f (str_size data - Footer.kEncodedLength) Footer.kEncodedLength =
    Ret (Status.OK, enc_footer (Footer.mkFooter meta_handle index_handle), scratch).
Proof.
  pose proof layout_sizes. change Footer.kEncodedLength with 48.
  destruct (raf_inside f (str_size data - 48) 48) as [scratch Hr]; [lia|lia|rewrite Hf; lia|rewrite Hf; lia|]. exists scratch. rewrite Hr.
  do 3 f_equal. rewrite Hf, (tl_data _ _ _ _ _ _ L). set (ft := enc_footer _).
  replace (Z.to_nat (_ - 48)) with (length (images bs ++ filter_image fc ++ images [mb] ++ images [ib])).
  - rewrite !app_assoc, drop_app_length. apply take_ge. unfold ft. by rewrite enc_footer_length.
  - rewrite !length_app. unfold str_size. rewrite !length_app. unfold ft. rewrite enc_footer_length. lia.
Qed.

Lemma read_meta_block opt : exists c h, ReadBlock f opt meta_handle = Ret (Status.OK, mkContents (db_raw mb) c h).
Proof.
  destruct (tl_meta _ _ _ _ _ _ L) as [[Hst _] _]. pose proof layout_sizes.
  eapply (ReadBlock_image f opt (images bs ++ filter_image fc) (db_type mb) (db_stored mb) (db_raw mb)); [|done|rewrite Hf; lia].
  rewrite Hf, (tl_data _ _ _ _ _ _ L). unfold images at 2. cbn [map concat]. rewrite app_nil_r, <- app_assoc. done.
Qed.

Lemma read_index_block opt : exists c h, ReadBlock f opt index_handle = Ret (Status.OK, mkContents (db_raw ib) c h).
Proof.
  destruct (tl_index _ _ _ _ _ _ L) as [[Hst _] _]. pose proof layout_sizes.
  eapply (ReadBlock_image f opt (images bs ++ filter_image fc ++ images [mb]) (db_type ib) (db_stored ib) (db_raw ib)); [|done|rewrite Hf; lia].
  rewrite Hf, (tl_data _ _ _ _ _ _ L). unfold images at 3. cbn [map concat]. rewrite app_nil_r, <- !app_assoc. done.
Qed.

Lemma read_filter_block opt name c0 : fc = Some (name, c0) ->
  exists c h, ReadBlock f opt (BlockHandle.mkHandle (str_size (images bs)) (str_size c0)) = Ret (Status.OK, mkContents c0 c h).
Proof.
  intros E. pose proof layout_sizes. eapply (ReadBlock_image f opt (images bs) kNoCompression c0 c0); [|by left|rewrite Hf; lia].
  rewrite Hf, (tl_data _ _ _ _ _ _ L), E. done.
Qed.

(** The filter that is found: that of the policy of the options, if the table has
    one with its name. *)
Definition found_filter (opt : Options) : option FilterBlockReader.FilterBlockReader :=
  match filter_policy opt, fc with
  | Some (name, _), Some (name', c) => if decide (name = name') then Some (FilterBlockReader.make c) else None
  | _, _ => None
  end.

Lemma ReadFilter_found t name c0 :
  Table.file t = f -> fc = Some (name, c0) ->
  Table.ReadFilter t (enc_handle (BlockHandle.mkHandle (str_size (images bs)) (str_size c0))) =
    Ret (Table.set_filter t (Some (FilterBlockReader.make c0))).
Proof.
  intros Ht E. pose proof layout_sizes as (Hsz & Hlt & H1 & H2 & H3 & H4). unfold Table.ReadFilter.
  assert (str_size c0 + 5 = str_size (filter_image fc)) as Ec by (rewrite E; cbn [filter_image]; by rewrite block_image_length).
  rewrite <- (app_nil_r (enc_handle _)), handle_decode.
  2:{ unfold handle_ok, BlockHandle.unset. cbn [BlockHandle.offset_ BlockHandle.size_]. pose proof (str_size_nonneg c0). lia. }
  change (negb (Status.ok Status.OK)) with false. cbv iota. rewrite Ht.
  destruct (read_filter_block (Table.meta_options (Table.options t)) name c0 E) as (c & h & ->). done.
Qed.

(** The iterator of the metaindex block after the search for a filter. *)
Lemma meta_seek key : exists it0 it,
  Block.NewIterator (Block.make (db_raw mb)) = Ret it0 /\
  it_Seek (Iterator := BlockIterator_ops (C := BytewiseComparator)) it0 key = Ret it /\
  it_at (IteratorLaws := BlockIterator_laws C) it (meta_entries bs fc) (seek_pos (C := BytewiseComparator) key (meta_entries bs fc)).
Proof.
  destruct (tl_meta _ _ _ _ _ _ L) as [(_ & ss & rs & Lm & Hss) He]. rewrite He in Hss.
  destruct (NewIterator_layout BytewiseComparator _ ss rs Lm) as (it0 & Hn & Hat). rewrite Hss in Hat.
  destruct (at_seek (C := BytewiseComparator) it0 _ _ key Hat) as (it & Hs & Hat').
  - unfold meta_entries. destruct fc as [[name c]|]; repeat constructor.
  - by exists it0, it.
Qed.

Lemma ReadMeta_found t :
  Table.file t = f -> Table.filter t = None ->
  Table.ReadMeta t (Footer.mkFooter meta_handle index_handle) = Ret (Table.set_filter t (found_filter (Table.options t))).
Proof.
  intros Ht Hnone. unfold Table.ReadMeta, found_filter. destruct (filter_policy (Table.options t)) as [[name p]|]; [|by rewrite set_filter_none].
  rewrite Ht. cbn [Footer.metaindex_handle_]. destruct (read_meta_block (Table.meta_options (Table.options t))) as (c & h & ->).
  cbn [mbind result_bind]. change (negb (Status.ok Status.OK)) with false. cbv iota. cbn [contents_data].
  destruct (meta_seek ($"filter." ++ name)) as (it0 & it & -> & Hs & Hat). cbn [mbind result_bind]. rewrite Hs. cbn [mbind result_bind].
  rewrite (at_valid _ _ _ Hat). unfold meta_entries in *.
  assert (fc = None \/ exists name' c0, fc = Some (name', c0)) as [Efc|(name' & c0 & Efc)] by (destruct fc as [[? ?]|]; [right; eauto|by left]);
    rewrite Efc in Hat |- *; [cbn; by rewrite set_filter_none|].
  set (e := ($"filter." ++ name', _)) in *. destruct (seek_pos (C := BytewiseComparator) ($"filter." ++ name) [e]) as [|i] eqn:Esp.
  - change ((0 <? length [e])%nat) with true. cbv iota.
    destruct (at_entry (IteratorLaws := BlockIterator_laws C) it [e] 0 ($"filter." ++ name') (snd e) Hat eq_refl) as [Hk Hv]. rewrite Hk. cbn [mbind result_bind].
    destruct (Slice.eqb ($"filter." ++ name') ($"filter." ++ name)) eqn:Eq.
    + apply slice_eqb_eq in Eq. apply app_inv_head in Eq as <-. rewrite decide_True by done. rewrite Hv. cbn [mbind result_bind].
      by apply (ReadFilter_found t name' c0).
    + rewrite decide_False; [by rewrite set_filter_none|]. intros ->. by rewrite (proj2 (slice_eqb_eq _ _) eq_refl) in Eq.
  - pose proof (at_le _ _ _ Hat) as Hle. cbn in Hle. assert (i = O) as -> by lia. change ((1 <? length [e])%nat) with false. cbv iota.
    rewrite decide_False; [by rewrite set_filter_none|]. intros ->. cbn [seek_pos] in Esp.
    change (fst e) with ($"filter." ++ name') in Esp. by rewrite cmp_refl in Esp.
Qed.

(** A new table file opens. *)
Lemma Open_layout opt cache :
  (forall k off, cache = Some k -> cache_get k (Table.cache_key (fst (cache_NewId k)) off) = None) ->
  exists t cache', Table.Open opt f (str_size data) cache = Ret (Status.OK, Some t, cache') /\
    Table.options t = opt /\ Table.file t = f /\ Table.filter t = found_filter opt /\
    Table.metaindex_handle t = meta_handle /\ Table.index_block t = Block.make (db_raw ib) /\ serves bs t cache' /\
    match cache with Some k => (Table.cache_id t, cache') = (fst (cache_NewId k), Some (snd (cache_NewId k))) | None => cache' = None end.
Proof.
  intros Hfresh. pose proof layout_sizes. pose proof layout_handles as [Hmh Hih]. unfold Table.Open.
  change Footer.kEncodedLength with 48. destruct (Z.ltb_spec (str_size data) 48); [lia|].
  destruct read_footer as [scratch Hr]. change Footer.kEncodedLength with 48 in Hr. rewrite Hr. cbn [mbind result_bind].
  change (negb (Status.ok Status.OK)) with false. cbv iota. rewrite <- (app_nil_r (enc_footer _)), footer_decode by done.
  change (negb (Status.ok Status.OK)) with false. cbv iota. cbn [Footer.index_handle_ Footer.metaindex_handle_].
  destruct (read_index_block (Table.meta_options opt)) as (c & h & ->). cbn [mbind result_bind].
  change (negb (Status.ok Status.OK)) with false. cbv iota. cbn [contents_data].
  set (q := match cache with Some k => _ | None => _ end). destruct q as [id cache'] eqn:Eq.
  rewrite ReadMeta_found by done. cbn [mbind result_bind]. eexists _, cache'. split; [done|]. split_and!; try done.
  2:{ unfold q in Eq. destruct cache as [k|]; [|by injection Eq as <- <-]. destruct (cache_NewId k) as [id0 k1]. by injection Eq as <- <-. }
  split; cbn.
  - rewrite Hf, (tl_data _ _ _ _ _ _ L). by eexists.
  - rewrite Hf. lia.
  - apply L.
  - intros k off b -> Ho Hg. unfold q in Eq. destruct cache as [k0|]; [|done]. destruct (cache_NewId k0) as [id0 k1] eqn:En.
    injection Eq as -> ->. pose proof (cache_newid k0 (Table.cache_key id off) b) as Hn. rewrite En in Hn. specialize (Hn Hg).
    specialize (Hfresh k0 off eq_refl). rewrite En in Hfresh. cbn [fst] in Hfresh. congruence.
Qed.

(** ** The iterator of a table *)

(** The entries of the block a handle stands for. *)
Definition block_at_handle (h : str) : list entry :=
  match list_find (fun i => enc_handle (dhandle bs i) = h) (seq 0 (length bs)) with
  | Some (_, i) => match bs !! i with Some d => db_es d | None => [] end
  | None => []
  end.

Lemma images_bound : str_size (images bs) < 2 ^ 63.
Proof. pose proof layout_sizes. lia. Qed.

Lemma enc_dhandle_inj i j d d' : bs !! i = Some d -> bs !! j = Some d' -> enc_handle (dhandle bs i) = enc_handle (dhandle bs j) -> i = j.
Proof.
  intros Hi Hj E. pose proof images_bound. apply (f_equal (fun x => BlockHandle.DecodeFrom BlockHandle.make (x ++ []))) in E.
  rewrite !handle_decode in E by (apply dhandle_ok; [by eapply lookup_lt_Some|done]).
  injection E as Eo _. by eapply offset_unique.
Qed.

Lemma block_at_handle_of i d : bs !! i = Some d -> block_at_handle (enc_handle (dhandle bs i)) = db_es d.
Proof.
  intros Hd. unfold block_at_handle. pose proof (lookup_lt_Some _ _ _ Hd) as Hlt.
  destruct (list_find _ (seq 0 (length bs))) as [[x j]|] eqn:Ef.
  - apply list_find_Some in Ef as (Hx & Ej & _). rewrite lookup_seq in Hx. destruct Hx as [-> Hx].
    destruct (lookup_lt_is_Some_2 bs (0 + x)%nat) as [d' Hd']; [simpl; lia|]. simpl in *.
    replace i with x in Hd by (by eapply enc_dhandle_inj). by rewrite Hd.
  - exfalso. apply list_find_None in Ef. rewrite Forall_forall in Ef. apply (Ef i); [|done]. apply elem_of_seq. lia.
Qed.

Lemma index_entry_block i e : index_entries bs seps !! i = Some e -> exists d, bs !! i = Some d /\ snd e = enc_handle (dhandle bs i) /\ block_of block_at_handle e = db_es d.
Proof.
  intros He. apply index_entries_lookup in He as (s & Hs & ->). apply lookup_lt_Some in Hs. rewrite <- (tl_seps _ _ _ _ _ _ L) in Hs.
  destruct (lookup_lt_is_Some_2 bs i Hs) as [d Hd]. exists d. split; [done|]. split; [done|]. unfold block_of. cbn [snd]. by apply block_at_handle_of.
Qed.

Lemma length_index_entries : length (index_entries bs seps) = length bs.
Proof. unfold index_entries. rewrite length_imap. symmetry. apply L. Qed.

Lemma all_of_index : all_of block_at_handle (index_entries bs seps) = entries_of bs.
Proof.
  unfold all_of, entries_of. f_equal. apply list_eq. intros i. rewrite !list_lookup_fmap.
  destruct (index_entries bs seps !! i) as [e|] eqn:He; cbn [fmap option_fmap option_map].
  - destruct (index_entry_block i e He) as (d & -> & _ & E). cbn. by rewrite E.
  - apply lookup_ge_None in He. rewrite length_index_entries in He. by rewrite lookup_ge_None_2.
Qed.

(** The iterator of the index block. *)
Lemma index_iterator t : Table.index_block t = Block.make (db_raw ib) ->
  exists it, Block.NewIterator (Table.index_block t) = Ret it /\
    it_at (IteratorLaws := BlockIterator_laws C) it (index_entries bs seps) (length (index_entries bs seps)) /\
    (length (index_entries bs seps) < S (length (Block.data_ (Table.index_block t))))%nat.
Proof.
  intros Ht. destruct (tl_index _ _ _ _ _ _ L) as [(_ & ss & rs & Li & Hss) He]. rewrite He in Hss.
  destruct (NewIterator_layout C _ ss rs Li) as (it & Hn & Hat). rewrite Ht. exists it. split; [done|].
  rewrite <- Hss, length_map. split; [done|].
  assert (Block.data_ (Block.make (db_raw ib)) = db_raw ib) as -> by (unfold Block.make; repeat case_match; done).
  pose proof (scan_fuel_enough _ ss rs Li (Block.mkIter (db_raw ib) (str_size (enc_slots ss)) (Z.of_nat (length rs)) 0 0 [] None Status.OK)) as Hfu.
  apply Hfu. by split.
Qed.

Lemma NewIterator_at t cache opt :
  serves bs t cache -> Table.index_block t = Block.make (db_raw ib) ->
  exists it, Table.NewIterator t cache opt = Ret it /\
    at2 (BL := table_block_laws bs) block_at_handle (index_entries bs seps) it (length (entries_of bs)).
Proof.
  intros S Ht. destruct (index_iterator t Ht) as (index & Hn & Hat & Hfu). unfold Table.NewIterator. rewrite Hn. cbn [mbind result_bind].
  apply (make_at (BL := table_block_laws bs)); [done|by rewrite all_of_index| |done].
  intros e He. apply list_elem_of_lookup in He as [i He]. destruct (index_entry_block i e He) as (d & Hd & Eh & Eb).
  split; [done|]. exists i, d. by rewrite Eb.
Qed.

(** *** Searching *)

Section search.
Context {HC : ComparatorLaws C} (Hsorted : keys_sorted (entries_of bs)) (Hseps : seps_ok bs seps []).

Lemma index_separated : separated block_at_handle (index_entries bs seps).
Proof.
  intros j e He. destruct (index_entry_block j e He) as (d & Hd & _ & ->).
  apply index_entries_lookup in He as (s & Hs & ->). destruct (Hseps j s d Hs Hd) as (Ha & Hb & _). split; [done|].
  intros j' e' x Hlt He' Hx. destruct (index_entry_block j' e' He') as (d' & Hd' & _ & E). rewrite E in Hx. apply Hb.
  rewrite app_nil_r. apply (elem_entries_of _ (j' - S j) d'); [|done]. rewrite lookup_drop.
  by replace (S j + (j' - S j))%nat with j' by lia.
Qed.

Lemma index_sorted : keys_sorted (index_entries bs seps).
Proof.
  apply StronglySorted_lookup. intros i j a b Hij Ha Hb. destruct (index_separated i a Ha) as [_ Hgt].
  destruct (index_separated j b Hb) as [Hle _]. destruct (index_entry_block j b Hb) as (d & Hd & _ & E).
  pose proof (tl_blocks _ _ _ _ _ _ L) as Hok. rewrite Forall_lookup in Hok. destruct (Hok j d Hd) as [Hne _].
  destruct (db_es d) as [|x l] eqn:Ed; [done|]. rewrite E in Hle.
  apply (cmp_lt_le _ (fst x)); [apply (Hgt j b x Hij Hb); rewrite E; left|]. apply Hle. left.
Qed.

(** An entry lies in the block of the first index key not before it. *)
Lemma target_block k v : (k, v) ∈ entries_of bs ->
  exists d, bs !! seek_pos k (index_entries bs seps) = Some d /\ (k, v) ∈ db_es d.
Proof.
  intros Hin. rewrite <- all_of_index in Hin. apply elem_all_of in Hin as (i & e & He & Hx).
  destruct (index_entry_block i e He) as (d & Hd & _ & E). rewrite E in Hx. destruct (index_separated i e He) as [Hle _].
  rewrite E in Hle. specialize (Hle _ Hx). cbn [fst] in Hle. set (j := seek_pos k (index_entries bs seps)).
  assert (i = j) as <-; [|by exists d]. destruct (Nat.lt_trichotomy i j) as [Hij|[|Hij]]; [|done|].
  - pose proof (seek_pos_before k _ i e He Hij) as Hlt. apply (cmp_flip _ _ Lt) in Hlt. done.
  - destruct (lookup_lt_is_Some_2 (index_entries bs seps) j) as [e' He']; [apply lookup_lt_Some in He; lia|].
    destruct (index_separated j e' He') as [_ Hgt]. specialize (Hgt i e (k, v) Hij He). rewrite E in Hgt. specialize (Hgt Hx).
    by apply (seek_pos_at k _ e' He') in Hgt.
Qed.

Lemma blocks_sorted j d : bs !! j = Some d -> keys_sorted (db_es d).
Proof.
  intros Hd. pose proof (lookup_lt_Some _ _ _ Hd) as Hj. rewrite <- length_index_entries in Hj. destruct (lookup_lt_is_Some_2 _ _ Hj) as [x He].
  destruct (index_entry_block j _ He) as (d' & Hd' & _ & Eb). rewrite Hd in Hd'. injection Hd' as <-. rewrite <- Eb.
  apply (block_sorted block_at_handle (index_entries bs seps) j _); [by rewrite all_of_index|done].
Qed.

(** The filter of the table, if any, answers for every block and admits its keys. *)
Definition filter_sound t : Prop :=
  forall flt name p, Table.filter t = Some flt -> filter_policy (Table.options t) = Some (name, p) ->
    forall i d, bs !! i = Some d ->
      (forall k, exists b, @FilterBlockReader.KeyMayMatch p flt (str_size (images (take i bs))) k = Ret b) /\
      (forall k v, (k, v) ∈ db_es d -> @FilterBlockReader.KeyMayMatch p flt (str_size (images (take i bs))) k = Ret true).

Definition may_match t (i : nat) (k : str) : result bool :=
  match Table.filter t, filter_policy (Table.options t) with
  | Some flt, Some (_, p) => @FilterBlockReader.KeyMayMatch p flt (str_size (images (take i bs))) k
  | _, _ => Ret true
  end.

Lemma may_match_sound t i d k :
  filter_sound t -> bs !! i = Some d -> exists b, may_match t i k = Ret b /\ (forall v, (k, v) ∈ db_es d -> b = true).
Proof.
  intros Hs Hd. unfold may_match, filter_sound in *. destruct (Table.filter t) as [flt|]; [|by exists true].
  destruct (filter_policy (Table.options t)) as [[name p]|]; [|by exists true].
  destruct (Hs flt name p eq_refl eq_refl i d Hd) as [Htot Hin]. destruct (Htot k) as [b Hb]. exists b. split; [done|].
  intros v Hv. specialize (Hin k v Hv). congruence.
Qed.

(** A lookup reads the block of the first index key not before the target, if the
    filter admits the key there. *)
Lemma InternalGet_block t cache opt k :
  serves bs t cache -> Table.index_block t = Block.make (db_raw ib) -> filter_sound t ->
  exists r cache', Table.InternalGet t cache opt k = Ret (Status.OK, r, cache') /\ serves bs t cache' /\ reads (Table.cache_id t) cache cache' /\
    match bs !! seek_pos k (index_entries bs seps) with
    | Some d => exists b, may_match t (seek_pos k (index_entries bs seps)) k = Ret b /\ r = (if b then db_es d !! seek_pos k (db_es d) else None)
    | None => r = None
    end.
Proof.
  intros S Ht Hfilter. destruct (index_iterator t Ht) as (index & Hn & Hat & _). unfold Table.InternalGet. rewrite Hn. cbn [mbind result_bind].
  destruct (at_seek (C := C) index _ _ k Hat index_sorted) as (index' & Hs & Hat'). rewrite Hs. cbn [mbind result_bind].
  rewrite (at_valid _ _ _ Hat'), (at_status _ _ _ Hat'). set (j := seek_pos k (index_entries bs seps)) in *.
  destruct (Nat.ltb_spec j (length (index_entries bs seps))) as [Hj|Hj].
  2:{ exists None, cache. split; [done|]. split; [done|]. split; [apply reads_refl|]. rewrite length_index_entries in Hj. by rewrite lookup_ge_None_2. }
  destruct (lookup_lt_is_Some_2 _ _ Hj) as [[s hv] He]. destruct (index_entry_block j _ He) as (d & Hd & Eh & Eb). cbn [snd] in Eh. subst hv.
  destruct (at_entry _ _ _ _ _ Hat' He) as [_ Hv]. rewrite Hv, Hd. cbn [mbind result_bind].
  rewrite <- (app_nil_r (enc_handle _)), handle_decode, app_nil_r by (apply dhandle_ok; [by eapply lookup_lt_Some|apply images_bound]).
  destruct (may_match_sound t j d k Hfilter Hd) as (b & Hb & _).
  assert ((match Table.filter t, filter_policy (Table.options t) with
    | Some f0, Some (_, p) => if Status.ok Status.OK then @FilterBlockReader.KeyMayMatch p f0 (BlockHandle.offset_ (dhandle bs j)) k else Ret true
    | _, _ => Ret true end) = Ret b) as ->.
  { rewrite <- Hb. unfold may_match. by destruct (Table.filter t), (filter_policy (Table.options t)) as [[? ?]|]. }
  cbn [mbind result_bind]. destruct b; cbn [negb].
  2:{ exists None, cache. split; [done|]. split; [done|]. split; [apply reads_refl|]. by exists false. }
  destruct (BlockReader_served bs t cache opt j d S Hd) as (iter & cache' & -> & Hati & S' & Hrd). cbn [mbind result_bind].
  destruct (at_seek (C := C) iter _ _ k Hati (blocks_sorted j d Hd)) as (iter' & Hs' & Hati'). rewrite Hs'. cbn [mbind result_bind].
  exists (db_es d !! seek_pos k (db_es d)), cache'. split; [|split; [done|split; [done|by exists true]]].
  rewrite (at_valid _ _ _ Hati'), (at_status _ _ _ Hati'). destruct (db_es d !! seek_pos k (db_es d)) as [[k1 v1]|] eqn:Ee.
  - destruct (at_entry _ _ _ _ _ Hati' Ee) as [-> ->]. apply lookup_lt_Some, Nat.ltb_lt in Ee. by rewrite Ee.
  - apply lookup_ge_None, Nat.ltb_ge in Ee. by rewrite Ee.
Qed.

(** What a block has at the target is the entry of the table there. *)
Lemma block_entry_seek k d e : bs !! seek_pos k (index_entries bs seps) = Some d -> db_es d !! seek_pos k (db_es d) = Some e ->
  entries_of bs !! seek_pos k (entries_of bs) = Some e.
Proof.
  intros Hd Ee. set (j := seek_pos k (index_entries bs seps)) in *. pose proof (lookup_lt_Some _ _ _ Hd) as Hj. rewrite <- length_index_entries in Hj.
  destruct (lookup_lt_is_Some_2 _ _ Hj) as [x He]. destruct (index_entry_block j _ He) as (d' & Hd' & _ & Eb). rewrite Hd in Hd'. injection Hd' as <-.
  rewrite <- all_of_index, (seek_pos_blocks block_at_handle (index_entries bs seps) k index_separated). fold j. rewrite He, Eb.
  pose proof (lookup_lt_Some _ _ _ Ee). rewrite (all_of_lookup block_at_handle (index_entries bs seps) j _ _ He); rewrite Eb; done.
Qed.

(** The entries of the blocks before that of a target. *)
Lemma blocks_before k : Forall (fun e => Compare (fst e) k = Lt) (entries_of (take (seek_pos k (index_entries bs seps)) bs)).
Proof.
  apply Forall_forall. intros x Hx. unfold entries_of in Hx. apply list_elem_of_In, in_concat in Hx as (es & Hes & Hx). rewrite <- !list_elem_of_In in *.
  apply list_elem_of_fmap in Hes as (d & -> & Hd). apply list_elem_of_lookup in Hd as [i Hd]. apply lookup_take_Some in Hd as [Hd Hi].
  destruct (lookup_lt_is_Some_2 (index_entries bs seps) i) as [y Hy]; [rewrite length_index_entries; by eapply lookup_lt_Some|].
  pose proof (seek_pos_before k _ i y Hy Hi) as Hlt. apply index_entries_lookup in Hy as (s & Hs & ->). destruct (Hseps i s d Hs Hd) as (Hle & _).
  eapply cmp_le_lt; [by apply Hle|exact Hlt].
Qed.

Lemma no_block_seek k : bs !! seek_pos k (index_entries bs seps) = None -> entries_of bs !! seek_pos k (entries_of bs) = None.
Proof.
  intros Hd%lookup_ge_None. pose proof (blocks_before k) as H. rewrite take_ge in H by lia.
  apply (seek_pos_app k _ []) in H. rewrite app_nil_r in H. apply lookup_ge_None_2. lia.
Qed.

(** When the block of the target has only smaller keys, the next entry is the first of
    the next block, beyond the index key. *)
Lemma next_block_seek k d e : bs !! seek_pos k (index_entries bs seps) = Some d -> db_es d !! seek_pos k (db_es d) = None ->
  entries_of bs !! seek_pos k (entries_of bs) = Some e ->
  exists s, FindShortestSeparator (last_of (db_es d)) (fst e) = Ret s /\ Compare s k <> Lt /\ Compare (last_of (db_es d)) k = Lt /\ Compare (last_of (db_es d)) (fst e) = Lt /\
    (exists v, (last_of (db_es d), v) ∈ db_es d) /\ e ∈ entries_of bs.
Proof.
  intros Hd Hnone He. set (j := seek_pos k (index_entries bs seps)) in *. pose proof (lookup_lt_Some _ _ _ Hd) as Hj. rewrite <- length_index_entries in Hj.
  destruct (lookup_lt_is_Some_2 _ _ Hj) as [y Hy]. pose proof (seek_pos_at k _ y Hy) as Hge. apply index_entries_lookup in Hy as (s & Hs & ->). destruct (Hseps j s d Hs Hd) as (Hle & Hgt & Hsep).
  pose proof (tl_blocks _ _ _ _ _ _ L) as Hok. rewrite Forall_lookup in Hok. destruct (Hok j d Hd) as [Hne _]. rewrite app_nil_r in Hgt, Hsep.
  assert (Forall (fun x => Compare (fst x) k = Lt) (db_es d)) as Hlt.
  { apply Forall_forall. intros x [i Hx]%list_elem_of_lookup. apply (seek_pos_before k (db_es d) i x Hx). apply lookup_ge_None in Hnone. apply lookup_lt_Some in Hx. lia. }
  assert (entries_of bs = (entries_of (take j bs) ++ db_es d) ++ entries_of (drop (S j) bs)) as Eall.
  { rewrite <- (take_drop_middle bs j d Hd) at 1. rewrite entries_of_app, <- app_assoc. done. }
  assert (Forall (fun x => Compare (fst x) k <> Lt) (entries_of (drop (S j) bs))) as Hafter.
  { apply Forall_forall. intros x Hx. specialize (Hgt x Hx). intros Hx'. apply Hge. by eapply cmp_trans. }
  pose proof He as Hpos. rewrite Eall, seek_pos_app in Hpos by (apply Forall_app_2; [apply blocks_before|done]).
  rewrite lookup_app_r in Hpos by lia. replace (_ - _)%nat with (seek_pos k (entries_of (drop (S j) bs))) in Hpos by lia.
  destruct (entries_of (drop (S j) bs)) as [|e' l]; [done|]. apply Forall_cons_1 in Hafter as [He' _]. cbn [seek_pos] in Hpos.
  assert (e' = e) as -> by (destruct (Compare (fst e') k); try done; by injection Hpos). assert (exists v, (last_of (db_es d), v) ∈ db_es d) as [v Hv]
    by (destruct (exists_last Hne) as (l0 & [k0 v] & ->); exists v; unfold last_of; rewrite last_snoc; set_solver).
  exists s. split; [by apply Hsep|]. split; [done|]. split; [by apply (proj1 (Forall_forall _ _) Hlt (_, v))|]. split; [|split; [by exists v|by eapply list_elem_of_lookup_2]].
  apply (cmp_le_lt _ s); [by apply (Hle (_, v))|apply Hgt; by left].
Qed.

(** A lookup: the entry at or after the key in its block, nothing else, and surely
    the entry of the key. *)
Lemma InternalGet_found t cache opt k :
  serves bs t cache -> Table.index_block t = Block.make (db_raw ib) -> filter_sound t ->
  exists r cache', Table.InternalGet t cache opt k = Ret (Status.OK, r, cache') /\ serves bs t cache' /\
    (r = None \/ r = entries_of bs !! seek_pos k (entries_of bs)) /\
    (forall v, (k, v) ∈ entries_of bs -> r = Some (k, v)).
Proof.
  intros S Ht Hfilter. destruct (InternalGet_block t cache opt k S Ht Hfilter) as (r & cache' & Hg & S' & _ & Hr). exists r, cache'. split; [done|]. split; [done|]. split.
  - destruct (bs !! seek_pos k (index_entries bs seps)) as [d|] eqn:Hd; [|by left]. destruct Hr as ([] & _ & ->); [|by left].
    destruct (db_es d !! seek_pos k (db_es d)) as [e|] eqn:Ee; [right|by left]. symmetry. by eapply block_entry_seek.
  - intros v Hv. destruct (target_block k v Hv) as (d & Hd & Hx). rewrite Hd in Hr. destruct (may_match_sound t _ d k Hfilter Hd) as (b & Hb & Hbt).
    destruct Hr as (b' & Hb' & ->). rewrite Hb in Hb'. injection Hb' as <-. rewrite (Hbt v Hx). apply list_elem_of_lookup in Hx as [m Hm].
    by rewrite (seek_pos_key _ _ _ _ (blocks_sorted _ d Hd) Hm).
Qed.

End search.
End opened.
End read.

(** ** Theorems *)

(** What a table is built from: options and entries. *)
Record buildable {C : Comparator} {PT : Port} (opt : Options) (es : list entry) : Prop := {
  bd_interval : 1 <= block_restart_interval opt <= INT_MAX;
  bd_policy : policy_ok opt;
  bd_name : policy_name_ok opt;
  bd_sorted : keys_sorted es;
  bd_room : 2 * table_room es + 200 < 2 ^ 32;
  bd_keys : Z.of_nat (length es) <= policy_keys opt;
  bd_filter : filter_fits opt es = true
}.

(** A cache without blocks under the next id. *)
Definition cache_fresh {K} {CA : Cache K Block.Block} {CL : CacheLaws CA} (cache : option K) : Prop :=
  forall k off, cache = Some k -> cache_get k (Table.cache_key (fst (cache_NewId k)) off) = None.

Section theorems.
Context {PT : Port} {PL : PortLaws PT} {F : Type} {RF : RandomAccessFile F} {RL : RandomAccessFileLaws RF}.
Context {K : Type} {CA : Cache K Block.Block} {CL : CacheLaws CA}.

(** A scan of a file laid out as a table, with any comparator. *)
Lemma scan_layout {CR : Comparator} data bs seps fc mb ib ropt rd (f : F) (cache : option K) fuel :
  table_layout data bs seps fc mb ib -> raf_contents f = data -> cache_fresh cache ->
  (length (entries_of bs) <= fuel)%nat ->
  exists t cache' it it' last,
    Table.Open ropt f (str_size data) cache = Ret (Status.OK, Some t, cache') /\
    Table.NewIterator t cache' rd = Ret it /\
    scan_all fuel it = Ret (entries_of bs, it') /\ it_status it' = Status.OK /\
    it_SeekToLast it' = Ret last /\ scan_back fuel last = Ret (rev (entries_of bs)).
Proof.
  intros L Ed Hfresh Hfu.
  destruct (Open_layout data bs seps fc mb ib L f Ed ropt cache Hfresh) as (t & cache' & Ho & _ & _ & _ & _ & Hib & S & _).
  destruct (NewIterator_at data bs seps fc mb ib L t cache' rd S Hib) as (it & Hn' & Hat).
  set (IL := TwoLevelIterator_laws (BL := table_block_laws bs)).
  assert (it_at (IteratorLaws := IL) it (entries_of bs) (length (entries_of bs))) as Hat'.
  { exists (block_at_handle bs), (index_entries bs seps). split; [|done]. symmetry. by eapply all_of_index. }
  destruct (scan_all_at (IL := IL) fuel it _ _ Hat' Hfu) as (it' & Hsc & Hat1).
  destruct (at_last _ _ _ Hat1) as (last & Hl & Hatl). exists t, cache', it, it', last. split; [done|]. split; [done|]. split; [done|].
  split; [exact (at_status _ _ _ Hat1)|]. split; [done|]. by apply (scan_back_at (IL := IL)).
Qed.

(** C21: A table written by [TableBuilder] from entries in increasing key order is
    read back by [Table]: building succeeds, the file opens, a scan of the table's
    iterator gives exactly the entries added and ends with the status OK, and so
    does a scan backwards from the last entry; whatever the block size, the restart
    interval, the compression and the filter policy of the builder, for every
    random-access file with these contents, every block cache that keeps its
    contract, and also when the reader has another comparator or filter policy. *)
Theorem table_roundtrip (CB : Comparator) {HB : ComparatorLaws CB} {SB : ShorteningLaws CB} opt es
    (CR : Comparator) ropt rd (f : F) (cache : option K) :
  buildable (C := CB) opt es -> cache_fresh cache ->
  (exists data, build_table (C := CB) opt es = Ret (data, Status.OK)) /\
  (build_table (C := CB) opt es = Ret (raf_contents f, Status.OK) ->
   exists t cache' it it' last,
     Table.Open (C := CR) ropt f (str_size (raf_contents f)) cache = Ret (Status.OK, Some t, cache') /\
     Table.NewIterator (C := CR) t cache' rd = Ret it /\
     scan_all (length es) it = Ret (es, it') /\ it_status it' = Status.OK /\
     it_SeekToLast it' = Ret last /\ scan_back (length es) last = Ret (rev es)).
Proof.
  intros [Hi Hp Hn Hs Hr Hk Hf] Hfresh.
  destruct (build_table_layout opt Hi Hp Hn es Hs Hr Hk Hf) as (data & bs & seps & fc & mb & ib & Hb & L & He & Hseps & _).
  split; [by exists data|]. intros Hb'. rewrite Hb in Hb'. injection Hb' as Ed. symmetry in Ed.
  rewrite Ed, <- He. by eapply (scan_layout (CR := CR)).
Qed.

(** The filter block of a built table is sound for its blocks. *)
Lemma built_filter_sound {C : Comparator} opt es bs fc (t : Table.Rep F) :
  policy_ok opt -> Z.of_nat (length es) <= policy_keys opt -> entries_of bs = es -> Forall dblock_ok bs ->
  Table.options t = opt -> Table.filter t = found_filter fc opt ->
  match filter_policy opt, fc with
  | Some (name, p), Some (name', c) => name' = name /\ str_size c < 2 ^ 32 /\
      exists fb, c = snd (@FilterBlockBuilder.Finish p fb) /\ @fb_state p fb (filter_blocks bs [])
  | None, None => True
  | _, _ => False
  end -> filter_sound bs t.
Proof.
  intros Hp Hk He Hok Ho Hf Hfc flt name p Hflt Hpol i d Hd. rewrite Ho in Hpol. unfold found_filter, policy_ok, policy_keys in *.
  rewrite Hpol in *. destruct fc as [[name' c]|]; [|done]. destruct Hfc as (-> & Hsz & fb & -> & Hst).
  rewrite decide_True in Hf by done. rewrite Hf in Hflt. injection Hflt as <-.
  assert (Z.of_nat (length (concat (map snd (filter_blocks bs [])))) <= @fp_max_keys p) as Hcount
    by (rewrite filter_blocks_keys, length_map, app_nil_r, He; lia).
  assert ((str_size (images (take i bs)), map fst (db_es d)) ∈ filter_blocks bs []) as Hin.
  { apply elem_of_app. left. apply (list_elem_of_lookup_2 _ i). by rewrite list_lookup_imap, Hd. }
  rewrite Forall_lookup in Hok. destruct (Hok i d Hd) as [Hne _]. pose proof (str_size_nonneg (images (take i bs))). split.
  - intros k. eapply (@Finish_answers p Hp); [exact Hst|done|done|done|exact Hin|]. intros E. by apply map_eq_nil in E.
  - intros k v Hx. eapply (@Finish_matches p Hp); [exact Hst|done|done|done|exact Hin|]. by apply (list_elem_of_fmap_2 fst) in Hx.
Qed.

(** C22: Searching a table written by [TableBuilder]: [Seek] of its iterator stops at
    the first entry whose key is not before the target, and a lookup with
    [InternalGet] ends without an error, finds the entry of every key in the table
    (the filter has no false negatives), and otherwise finds nothing or the first
    entry after the target. *)
Theorem table_search {C : Comparator} {HC : ComparatorLaws C} {SC : ShorteningLaws C} opt es rd (f : F) (cache : option K) target :
  buildable opt es -> cache_fresh cache -> build_table opt es = Ret (raf_contents f, Status.OK) ->
  exists t cache' it it' r cache'',
    Table.Open opt f (str_size (raf_contents f)) cache = Ret (Status.OK, Some t, cache') /\
    Table.NewIterator t cache' rd = Ret it /\ it_Seek it target = Ret it' /\
    match es !! seek_pos target es with
    | Some (k, v) => it_Valid it' = true /\ it_key it' = Ret k /\ it_value it' = Ret v
    | None => it_Valid it' = false
    end /\
    Table.InternalGet t cache' rd target = Ret (Status.OK, r, cache'') /\
    (r = None \/ r = es !! seek_pos target es) /\ (forall v, (target, v) ∈ es -> r = Some (target, v)).
Proof.
  intros [Hi Hp Hn Hs Hr Hk Hf] Hfresh Hb'.
  destruct (build_table_layout opt Hi Hp Hn es Hs Hr Hk Hf) as (data & bs & seps & fc & mb & ib & Hb & L & He & Hseps & Hfc).
  rewrite Hb in Hb'. injection Hb' as Ed. symmetry in Ed. rewrite Ed.
  destruct (Open_layout data bs seps fc mb ib L f Ed opt cache Hfresh) as (t & cache' & Ho & Hopt & _ & Hflt & _ & Hib & S & _).
  destruct (NewIterator_at data bs seps fc mb ib L t cache' rd S Hib) as (it & Hn' & Hat).
  assert (keys_sorted (entries_of bs)) as Hsb by (by rewrite He).
  destruct (at2_seek (BL := table_block_laws bs) _ _ it _ target Hat) as (it' & Hsk & Hat');
    [by eapply index_sorted|by erewrite all_of_index|by eapply index_separated|].
  erewrite all_of_index in Hat' by exact L. rewrite He in Hat'.
  destruct (InternalGet_found data bs seps fc mb ib L Hsb Hseps t cache' rd target S Hib) as (r & cache'' & Hg & _ & Hr1 & Hr2).
  { eapply built_filter_sound; [exact Hp|exact Hk|done|apply L|done|done|done]. }
  rewrite He in Hr1, Hr2. exists t, cache', it, it', r, cache''. split; [done|]. split; [done|]. split; [done|]. split; [|done].
  assert (it_at (IteratorLaws := TwoLevelIterator_laws (BL := table_block_laws bs)) it' es (seek_pos target es)) as Hat2.
  { exists (block_at_handle bs), (index_entries bs seps). split; [|done]. erewrite all_of_index by exact L. done. }
  destruct (es !! seek_pos target es) as [[k v]|] eqn:Ee.
  - destruct (at_entry _ _ _ _ _ Hat2 Ee) as [Hkey Hval]. split; [|done]. etransitivity; [exact (at_valid _ _ _ Hat2)|].
    apply lookup_lt_Some in Ee. by apply Nat.ltb_lt.
  - etransitivity; [exact (at_valid _ _ _ Hat2)|]. apply lookup_ge_None in Ee. by apply Nat.ltb_ge.
Qed.

End theorems.
