(* ===== verification/DbTable.v ===== *)
(** * The tables of a database

    The tables of a database are keyed by internal keys: [InternalKeyComparator] and
    [InternalFilterPolicy] ([db/dbformat.cc]) as instances of the interfaces that the
    table code uses.  The two assert that keys have a tag; the instances extend them
    to all byte strings, and agree with them on keys that have one. *)

From Stdlib Require Import ZArith Lia.
From S2P Require Import Prelude CString Coding SliceStatus FilterPolicy DbFormat Crc32c Iterators TableBlock TableBlockSpec.
From S2P Require Import TwoLevelIterator LogFile TableFormat FilterBlock TableBuilder Table TableSpec TableRead.

(** ** The bytewise comparator shortens *)

Lemma short_successor_length key n i : (length (Bytewise.short_successor key n i) <= length key)%nat.
Proof.
  revert i. induction n as [|n IH]; intros i; cbn [Bytewise.short_successor]; [done|].
  destruct (b2z (nth i key Byte.x00) =? 255); [apply IH|]. rewrite length_take, length_insert. lia.
Qed.

#[export] Instance BytewiseComparator_shortening : ShorteningLaws BytewiseComparator.
Proof.
  split.
  - intros start limit k. cbn. unfold Bytewise.FindShortestSeparator.
    repeat case_match; intros Hk; simplify_eq; try done. rewrite length_take, length_insert. lia.
  - intros key k. cbn. intros [= <-]. apply short_successor_length.
Qed.

(** ** The order of internal keys *)

(** The user key and the tag of a byte string. *)
Definition user_part (k : str) : str := take (length k - 8) k.

Lemma parts u n : 0 <= n < 2 ^ 64 -> user_part (u ++ EncodeFixed64 n) = u /\ key_tag (u ++ EncodeFixed64 n) = n.
Proof. apply key_split. Qed.

Section internal.
Context (C : Comparator) {HC : ComparatorLaws C}.

Definition tagged (k : str) : bool := 8 <=? str_size k.

Definition internal_comparator : Comparator := {|
  Compare a b := ikey_order (user_part a) (key_tag a) (user_part b) (key_tag b);
  FindShortestSeparator start limit :=
    if tagged start && tagged limit then InternalKeyComparator.FindShortestSeparator start limit else Ret start;
  FindShortSuccessor key := if tagged key then InternalKeyComparator.FindShortSuccessor key else Ret key
|}.

(** On keys with a tag it is the comparator of the source. *)
Lemma internal_comparator_agrees a b :
  8 <= str_size a -> 8 <= str_size b ->
  InternalKeyComparator.Compare a b = Ret (Compare (Comparator := internal_comparator) a b).
Proof.
  intros (u & n & -> & Hn)%key_shape (v & m & -> & Hm)%key_shape. rewrite ikey_compare by done. cbn.
  destruct (parts u n Hn) as [-> ->]. by destruct (parts v m Hm) as [-> ->].
Qed.

Lemma internal_compare_parts u n v m : 0 <= n < 2 ^ 64 -> 0 <= m < 2 ^ 64 ->
  Compare (Comparator := internal_comparator) (u ++ EncodeFixed64 n) (v ++ EncodeFixed64 m) = ikey_order u n v m.
Proof. intros Hn Hm. cbn. destruct (parts u n Hn) as [-> ->]. by destruct (parts v m Hm) as [-> ->]. Qed.

Lemma ikey_order_refl u n : ikey_order u n u n = Eq.
Proof. unfold ikey_order. by rewrite cmp_refl, Z.compare_refl. Qed.

Lemma ikey_order_flip u n v m : ikey_order v m u n = CompOpp (ikey_order u n v m).
Proof. unfold ikey_order. rewrite (cmp_antisym u v). destruct (Compare u v); cbn; try done. by rewrite Z.compare_antisym. Qed.

Lemma ikey_order_trans u n v m w l : ikey_order u n v m = Lt -> ikey_order v m w l = Lt -> ikey_order u n w l = Lt.
Proof.
  unfold ikey_order. destruct (Compare u v) eqn:Euv; [| |done].
  - intros H1. rewrite (cmp_eq_l _ _ _ Euv). destruct (Compare v w); [|done|done]. rewrite !Z.compare_lt_iff in *. lia.
  - intros _. destruct (Compare v w) eqn:Evw; [| |done].
    + intros _. by rewrite <- (cmp_eq_r _ _ _ Evw), Euv.
    + intros _. by rewrite (cmp_trans _ _ _ Euv Evw).
Qed.

Lemma ikey_order_eq_l u n v m w l : ikey_order u n v m = Eq -> ikey_order u n w l = ikey_order v m w l.
Proof.
  unfold ikey_order. destruct (Compare u v) eqn:Euv; [|done|done]. intros E%Z.compare_eq_iff. subst. by rewrite (cmp_eq_l _ _ _ Euv).
Qed.

(** A shortened key in terms of user keys and tags. *)
Lemma shortened tmp : user_part (tmp ++ EncodeFixed64 (packed kMaxSequenceNumber kTypeValue)) = tmp.
Proof. destruct seek_tag as [_ Ht]. apply (parts tmp _ Ht). Qed.

#[export] Instance internal_comparator_laws : ComparatorLaws internal_comparator.
Proof.
  split; cbn.
  - intros a. apply ikey_order_refl.
  - intros a b. apply ikey_order_flip.
  - intros a b c. apply ikey_order_trans.
  - intros a b c. apply ikey_order_eq_l.
  - intros start limit Hlt. destruct (tagged start) eqn:Es, (tagged limit) eqn:El; cbn [andb];
      try (exists start; split; [done|]; split; [by rewrite ikey_order_refl|done]).
    apply Z.leb_le, key_shape in Es as (u & n & -> & Hn). apply Z.leb_le, key_shape in El as (v & m & -> & Hm).
    destruct (parts u n Hn) as [Eu En], (parts v m Hm) as [Ev Em]. rewrite Eu, En, Ev, Em in *.
    destruct (internal_sep_cases u n v m Hn Hm) as (k & -> & Hk); [congruence|]. exists k. split; [done|].
    destruct Hk as [->|(tmp & -> & Hut & Htv & _)].
    + by rewrite Eu, En, ikey_order_refl.
    + rewrite (shortened tmp). unfold ikey_order. by rewrite Hut, Htv.
  - intros start limit Heq. destruct (tagged start) eqn:Es, (tagged limit) eqn:El; cbn [andb];
      try (exists start; split; [done|by rewrite ikey_order_refl]).
    apply Z.leb_le, key_shape in Es as (u & n & -> & Hn). apply Z.leb_le, key_shape in El as (v & m & -> & Hm).
    destruct (parts u n Hn) as [Eu En], (parts v m Hm) as [Ev Em]. rewrite Eu, En, Ev, Em in *.
    destruct (internal_sep_cases u n v m Hn Hm) as (k & -> & Hk); [congruence|]. exists k. split; [done|].
    destruct Hk as [->|(tmp & -> & Hut & Htv & _)]; [by rewrite Eu, En, ikey_order_refl|].
    unfold ikey_order in Heq. by rewrite (cmp_trans _ _ _ Hut Htv) in Heq.
  - intros key. destruct (tagged key) eqn:Ek; [|exists key; split; [done|by rewrite ikey_order_refl]].
    apply Z.leb_le, key_shape in Ek as (u & n & -> & Hn). destruct (parts u n Hn) as [Eu En].
    destruct (internal_succ_cases u n Hn) as (k & -> & Hk). exists k. split; [done|]. rewrite Eu, En.
    destruct Hk as [->|(tmp & -> & Hut & _)]; [by rewrite Eu, En, ikey_order_refl|].
    rewrite (shortened tmp). unfold ikey_order. by rewrite Hut.
Qed.

Lemma put_tag_length tmp num key :
  8 <= str_size key -> str_size tmp < str_size (user_part key) -> (length (PutFixed64 tmp num) <= length key)%nat.
Proof.
  unfold PutFixed64, user_part, str_size. rewrite length_app, length_take. change (length (EncodeFixed64 num)) with 8%nat. lia.
Qed.

(** A shortened internal key is shorter, whatever the user comparator does. *)
#[export] Instance internal_comparator_shortening : ShorteningLaws internal_comparator.
Proof.
  split.
  - intros start limit k. cbn. unfold InternalKeyComparator.FindShortestSeparator, ExtractUserKey, tagged.
    destruct (Z.leb_spec 8 (str_size start)) as [Hs|], (Z.leb_spec 8 (str_size limit)); cbn [andb]; try (by intros [= <-]).
    cbn [mbind result_bind]. intros (tmp & _ & Hk)%result_bind_Ret_inv.
    destruct (Z.ltb_spec (str_size tmp) (str_size (take (length start - 8) start))) as [Hl|]; [|cbn in Hk; by simplify_eq].
    destruct (Compare _ tmp) in Hk; cbn [andb] in Hk; [by simplify_eq| |by simplify_eq].
    apply result_bind_Ret_inv in Hk as (num & _ & Hk). apply result_bind_Ret_inv in Hk as (_ & _ & Hk).
    apply result_bind_Ret_inv in Hk as (_ & _ & [= <-]). by apply put_tag_length.
  - intros key k. cbn. unfold InternalKeyComparator.FindShortSuccessor, ExtractUserKey, tagged.
    destruct (Z.leb_spec 8 (str_size key)) as [Hs|]; [|by intros [= <-]].
    cbn [mbind result_bind]. intros (tmp & _ & Hk)%result_bind_Ret_inv.
    destruct (Z.ltb_spec (str_size tmp) (str_size (take (length key - 8) key))) as [Hl|]; [|cbn in Hk; by simplify_eq].
    destruct (Compare _ tmp) in Hk; cbn [andb] in Hk; [by simplify_eq| |by simplify_eq].
    apply result_bind_Ret_inv in Hk as (num & _ & Hk). apply result_bind_Ret_inv in Hk as (_ & _ & [= <-]). by apply put_tag_length.
Qed.

End internal.

(** ** Filters of internal keys *)

Definition internal_policy (P : FilterPolicy) : FilterPolicy := {|
  fp_CreateFilter keys dst := fp_CreateFilter (map user_part keys) dst;
  fp_KeyMayMatch key f := fp_KeyMayMatch (user_part key) f;
  fp_max_keys := fp_max_keys
|}.

(** On keys with a tag it is the policy of the source. *)
Lemma internal_policy_agrees (P : FilterPolicy) keys dst key f :
  Forall (fun k => 8 <= str_size k) (key :: keys) ->
  InternalFilterPolicy.CreateFilter keys dst = Ret (fp_CreateFilter (FilterPolicy := internal_policy P) keys dst) /\
  InternalFilterPolicy.KeyMayMatch key f = Ret (fp_KeyMayMatch (FilterPolicy := internal_policy P) key f).
Proof.
  intros Hs. inversion Hs as [|? ? Hk Hks]; subst. unfold InternalFilterPolicy.CreateFilter, InternalFilterPolicy.KeyMayMatch. split.
  - rewrite (mapR_Ret _ user_part); [done|]. intros k Hin. rewrite Forall_forall in Hks. unfold ExtractUserKey, user_part.
    by rewrite (proj2 (Z.leb_le _ _) (Hks k Hin)).
  - unfold ExtractUserKey. by rewrite (proj2 (Z.leb_le _ _) Hk).
Qed.

Lemma internal_policy_laws (P : FilterPolicy) : FilterPolicyLaws P -> FilterPolicyLaws (internal_policy P).
Proof.
  intros HP. split. intros keys dst key Hn Hin. cbn in *. destruct (fp_no_false_negative (map user_part keys) dst (user_part key)) as (f & Hf & Hm).
  - by rewrite length_map.
  - by apply (list_elem_of_fmap_2 user_part) in Hin.
  - by exists f.
Qed.

(** ** Concrete tables *)

(** A cache that keeps nothing, for runs without a block cache. *)
#[export] Instance null_cache : Cache unit Block.Block :=
  {| cache_NewId u := (0, u); cache_Lookup u _ := (None, u); cache_Insert u _ _ _ := u |}.
#[export] Program Instance null_cache_laws : CacheLaws null_cache := {| cache_get _ _ := None |}.
Next Obligation. intros k key. exists k. by split. Qed.
Next Obligation. done. Qed.
Next Obligation. done. Qed.

Lemma no_cache_fresh : cache_fresh (None : option unit).
Proof. by intros k off [=]. Qed.

#[local] Existing Instance port_plain.

Definition demo_policy_named : str * FilterPolicy := ($"leveldb.BuiltinBloomFilter2", bloom_policy (BloomFilterPolicy.mkPolicy 10 6)).
Definition demo_opt : Options := mkOptions true 30 2 kSnappyCompression (Some demo_policy_named).

Lemma demo_opt_policy : policy_ok demo_opt.
Proof. apply bloom_policy_laws; done. Qed.

(** Three data blocks, with a Bloom filter. *)
Definition demo_table : str := match build_table demo_opt demo_entries with Ret (d, _) => d | _ => [] end.

Lemma demo_buildable : buildable demo_opt demo_entries.
Proof.
  split; [split; vm_compute; discriminate|apply demo_opt_policy|vm_compute; done|apply demo_sorted|vm_compute; done|vm_compute; discriminate|vm_compute; done].
Qed.

Definition demo_file : PosixRandomAccessFile.PosixRandomAccessFile := PosixRandomAccessFile.mkFile ($"000005.ldb") demo_table.

Lemma demo_built : build_table demo_opt demo_entries = Ret (raf_contents demo_file, Status.OK).
Proof. vm_compute. reflexivity. Qed.

Lemma table_search_witness :
  exists t cache' it it' r cache'',
    Table.Open demo_opt demo_file (str_size (raf_contents demo_file)) (None : option unit)
      = Ret (Status.OK, Some t, cache') /\
    Table.NewIterator t cache' default_read_options = Ret it /\ it_Seek it ($"banana") = Ret it' /\
    match demo_entries !! seek_pos ($"banana") demo_entries with
    | Some (k, v) => it_Valid it' = true /\ it_key it' = Ret k /\ it_value it' = Ret v
    | None => it_Valid it' = false
    end /\
    Table.InternalGet t cache' default_read_options ($"banana") = Ret (Status.OK, r, cache'') /\
    (r = None \/ r = demo_entries !! seek_pos ($"banana") demo_entries) /\
    (forall v, ($"banana", v) ∈ demo_entries -> r = Some ($"banana", v)).
Proof.
  exact (table_search demo_opt demo_entries default_read_options demo_file (None : option unit) ($"banana")
    demo_buildable no_cache_fresh demo_built).
Defined.

(** A table of a database, two versions of a key among its entries, read with the
    bytewise comparator. *)
Definition demo_versions : list entry :=
  [ ($"apple" ++ EncodeFixed64 (packed 7 kTypeValue), $"red"); ($"apple" ++ EncodeFixed64 (packed 3 kTypeDeletion), []);
    ($"pear" ++ EncodeFixed64 (packed 5 kTypeValue), $"green") ].

Definition demo_version_table : str :=
  match build_table (C := internal_comparator BytewiseComparator) demo_opt demo_versions with Ret (d, _) => d | _ => [] end.

Definition demo_mapped : PosixMmapReadableFile.PosixMmapReadableFile :=
  PosixMmapReadableFile.mkFile ($"000006.ldb") demo_version_table.

Lemma demo_versions_buildable : buildable (C := internal_comparator BytewiseComparator) demo_opt demo_versions.
Proof.
  split; [split; vm_compute; discriminate|apply demo_opt_policy|vm_compute; done|repeat constructor|vm_compute; done|vm_compute; discriminate|vm_compute; done].
Qed.

Lemma demo_versions_built :
  build_table (C := internal_comparator BytewiseComparator) demo_opt demo_versions = Ret (raf_contents demo_mapped, Status.OK).
Proof. vm_compute. reflexivity. Qed.

Lemma table_roundtrip_witness :
  exists t cache' it it' last,
    Table.Open (C := BytewiseComparator) default_options demo_mapped (str_size (raf_contents demo_mapped)) (None : option unit)
      = Ret (Status.OK, Some t, cache') /\
    Table.NewIterator (C := BytewiseComparator) t cache' default_read_options = Ret it /\
    scan_all (length demo_versions) it = Ret (demo_versions, it') /\ it_status it' = Status.OK /\
    it_SeekToLast it' = Ret last /\ scan_back (length demo_versions) last = Ret (rev demo_versions).
Proof.
  exact (proj2 (table_roundtrip (internal_comparator BytewiseComparator) demo_opt demo_versions BytewiseComparator
    default_options default_read_options demo_mapped (None : option unit) demo_versions_buildable no_cache_fresh) demo_versions_built).
Defined.
