(* ===== verification/MemTable.v ===== *)
(** * leveldb: the memtable

    [db/memtable.{h,cc}]: entries are encoded as one byte string in the arena and
    kept in a skip list; a pointer into the arena is the bytes from there to the end
    of the entry.  The reference count and the arena's memory usage are not part of
    the model. *)

From Stdlib Require Import ZArith Lia.
From S2P Require Import Prelude CString Coding SliceStatus FilterPolicy DbFormat Iterators SkipList SkipListSpec.
From S2P Require Import TableFormat TableSpec DbTable.

Module MemTable.

Definition MemTable : Type := SkipList.SkipList str.

(** The static [GetLengthPrefixedSlice] of a pointer: the string, and the bytes
    behind it.  The pointer is not null; a length past the end of the entry would
    read other memory. *)
Definition GetLengthPrefixedSlice (data : str) : result (str * str) :=
  match Coding.GetLengthPrefixedSlice data with Some r => Ret r | None => Crash OutOfBounds end.

Section ops.
Context `{C : !Comparator}.

(** [KeyComparator::operator()] *)
#[global] Instance KeyComparator : KeyCompare str := {
  compare_ aptr bptr :=
    a ← GetLengthPrefixedSlice aptr;
    b ← GetLengthPrefixedSlice bptr;
    InternalKeyComparator.Compare (fst a) (fst b)
}.

Definition make : MemTable := SkipList.make.

Definition EncodeKey (target : str) : str := PutVarint32 [] (u32 (str_size target)) ++ target.

(** The bytes of an entry, and the length computed for them. *)
Definition encoded_entry (s : Z) (type : ValueType) (key value : str) : str :=
  EncodeVarint32 (u32 (u64 (str_size key + 8))) ++ key ++
  EncodeFixed64 (Z.lor (u64 (Z.shiftl s 8)) (type_value type)) ++ EncodeVarint32 (u32 (str_size value)) ++ value.

Definition encoded_len (key value : str) : Z :=
  let internal_key_size := u64 (str_size key + 8) in
  u64 (VarintLength internal_key_size + internal_key_size + VarintLength (str_size value) + str_size value).

Definition Add (m : MemTable) (s : Z) (type : ValueType) (key value : str) : result MemTable :=
  let buf := encoded_entry s type key value in
  if str_size buf =? encoded_len key value then SkipList.Insert m buf else Crash AssertFailed.

(** [None] is the result false; otherwise the value, or the status. *)
Definition Get (m : MemTable) (key : LookupKey) : result (option (str + Status.Status)) :=
  iter ← SkipList.Seek (SkipList.NewIterator m) (memtable_key key);
  if SkipList.Valid iter then
    entry ← SkipList.key iter;
    q ← GetLengthPrefixedSlice entry;
    let '(ikey, rest) := (q : str * str) in
    uk ← ExtractUserKey ikey;
    match Compare uk (lookup_user_key key) with
    | Eq =>
        let tag := Z.land (key_tag ikey) 0xff in
        if tag =? type_value kTypeValue then v ← GetLengthPrefixedSlice rest; Ret (Some (inl (fst v)))
        else if tag =? type_value kTypeDeletion then Ret (Some (inr (Status.NotFound [] [])))
        else Ret None
    | _ => Ret None
    end
  else Ret None.

(** *** MemTableIterator *)

Definition MemTableIterator : Type := SkipList.Iterator str.

Definition NewIterator (m : MemTable) : MemTableIterator := SkipList.NewIterator m.

#[global] Instance MemTableIterator_ops : Iterator MemTableIterator := {
  it_Valid it := SkipList.Valid it;
  it_key it := e ← SkipList.key it; q ← GetLengthPrefixedSlice e; Ret (fst q);
  it_value it := e ← SkipList.key it; q ← GetLengthPrefixedSlice e; r ← GetLengthPrefixedSlice (snd q); Ret (fst r);
  it_status it := Status.OK;
  it_SeekToFirst it := SkipList.SeekToFirst it;
  it_SeekToLast it := SkipList.SeekToLast it;
  it_Seek it k := SkipList.Seek it (EncodeKey k);
  it_Next it := SkipList.IterNext it;
  it_Prev it := SkipList.Prev it
}.

End ops.
End MemTable.

(** ** The entries of a memtable *)

(** An entry as [Add] encodes it. *)
Definition enc_entry (e : entry) : str := PutLengthPrefixedSlice [] (fst e) ++ PutLengthPrefixedSlice [] (snd e).

Definition entry_ok (e : entry) : Prop := 8 <= str_size (fst e) < 2 ^ 32 /\ str_size (snd e) < 2 ^ 32.

(** The internal key at the front of an encoded entry. *)
Definition front (a : str) : str := match Coding.GetLengthPrefixedSlice a with Some (k, _) => k | None => [] end.

Lemma front_enc e : entry_ok e -> Coding.GetLengthPrefixedSlice (enc_entry e) = Some (fst e, PutLengthPrefixedSlice [] (snd e)).
Proof. intros [? _]. unfold enc_entry. apply GetLengthPrefixedSlice_Put. lia. Qed.

Lemma sorted_lookup_lt {A} (R : A -> A -> Prop) l : StronglySorted R l ->
  forall i j x y, (i < j)%nat -> l !! i = Some x -> l !! j = Some y -> R x y.
Proof.
  induction 1 as [|z l Hs IH Hf]; intros i j x y Hij Hx Hy; [done|]. destruct j as [|j]; [lia|]. destruct i as [|i]; cbn in Hx, Hy.
  - injection Hx as <-. rewrite Forall_lookup in Hf. by eapply Hf.
  - eapply IH; [|done|done]. lia.
Qed.

Section spec.
Context (C : Comparator) {HC : ComparatorLaws C}.

#[export] Program Instance MemTable_order : KeyOrder (@MemTable.KeyComparator C) := {
  key_ok a := exists k rest, Coding.GetLengthPrefixedSlice a = Some (k, rest) /\ 8 <= str_size k;
  key_order a b := Compare (Comparator := internal_comparator C) (front a) (front b)
}.
Next Obligation.
  intros a b (ka & ra & Ea & Ha) (kb & rb & Eb & Hb). cbn. unfold MemTable.GetLengthPrefixedSlice, front. rewrite Ea, Eb. cbn [mbind result_bind fst].
  by apply internal_comparator_agrees.
Qed.
Next Obligation. intros a b. cbn. apply ikey_order_flip. done. Qed.
Next Obligation. intros a b c. cbn. apply ikey_order_trans. done. Qed.
Next Obligation. intros a b c H. apply (cmp_eq_r (C := internal_comparator C)). exact H. Qed.

Lemma enc_ok e : entry_ok e -> key_ok (enc_entry e).
Proof. intros He. exists (fst e), (PutLengthPrefixedSlice [] (snd e)). split; [by apply front_enc|by destruct He as [[? _] _]]. Qed.

Lemma front_entry e : entry_ok e -> front (enc_entry e) = fst e.
Proof. intros He. unfold front. by rewrite front_enc. Qed.

Lemma key_order_enc e e' : entry_ok e -> entry_ok e' ->
  key_order (enc_entry e) (enc_entry e') = Compare (Comparator := internal_comparator C) (fst e) (fst e').
Proof. intros He He'. unfold key_order, MemTable_order. by rewrite !front_entry. Qed.

(** The memtable holds these entries, in the order of the internal keys. *)
Definition mem_rep (m : MemTable.MemTable) (es : list entry) : Prop :=
  Forall entry_ok es /\ rep m (map enc_entry es).

Lemma mem_sorted m es : mem_rep m es -> keys_sorted (C := internal_comparator C) es.
Proof.
  intros [Hok [ids I]]. pose proof (inv_sorted _ _ _ I) as Hs. clear I. induction Hok as [|e es He Hok IH]; cbn [map] in Hs; [constructor|].
  apply StronglySorted_inv in Hs as [Hs Hf]. constructor; [by apply IH|]. rewrite Forall_map in Hf. rewrite Forall_forall in *.
  intros e' He'. rewrite <- key_order_enc by auto. by apply Hf.
Qed.

Lemma mem_make : mem_rep MemTable.make [].
Proof. split; [constructor|]. apply make_rep. Qed.

(** The entry of an update. *)
Definition update : Type := Z * ValueType * str * str.
Definition update_entry (a : update) : entry := let '(s, t, k, v) := a in (k ++ EncodeFixed64 (packed s t), v).
Definition update_ok (a : update) : Prop :=
  let '(s, t, k, v) := a in 0 <= s <= kMaxSequenceNumber /\ str_size k + 8 < 2 ^ 32 /\ str_size v < 2 ^ 32.

Lemma update_entry_ok a : update_ok a -> entry_ok (update_entry a).
Proof. destruct a as [[[s t] k] v]. intros (Hs & Hk & Hv). unfold entry_ok. cbn. rewrite key_size. pose proof (str_size_nonneg k). lia. Qed.

Lemma tag_packed s t : 0 <= s <= kMaxSequenceNumber -> Z.lor (u64 (Z.shiftl s 8)) (type_value t) = packed s t.
Proof.
  intros Hs. pose proof (Pack_ok s t Hs) as H. unfold PackSequenceAndType in H.
  destruct (Z.ltb_spec kMaxSequenceNumber s); [lia|]. by destruct t; injection H.
Qed.

Lemma VarintLength_32 v : 0 <= v < 2 ^ 32 -> VarintLength v = str_size (EncodeVarint32 v).
Proof.
  intros Hv. rewrite EncodeVarint32_loop by done. pose proof (varint_length_loop_spec 10 v 1) as H.
  rewrite (varint_loop_more 5 11) in H by lia. unfold VarintLength, str_size. lia.
Qed.

Lemma encoded_update s t k v : update_ok (s, t, k, v) ->
  MemTable.encoded_entry s t k v = enc_entry (update_entry (s, t, k, v)) /\
  str_size (enc_entry (update_entry (s, t, k, v))) = MemTable.encoded_len k v.
Proof.
  intros (Hs & Hk & Hv). pose proof (str_size_nonneg k). pose proof (str_size_nonneg v).
  assert (MemTable.encoded_entry s t k v = enc_entry (update_entry (s, t, k, v))) as E.
  { unfold MemTable.encoded_entry, enc_entry, PutLengthPrefixedSlice, PutVarint32. cbn [update_entry fst snd app].
    rewrite key_size, tag_packed, (wrap_small 64) by done || lia. by rewrite <- !app_assoc. }
  split; [done|]. rewrite <- E. unfold MemTable.encoded_entry, MemTable.encoded_len. rewrite !str_size_app.
  rewrite !(wrap_small 64 (str_size k + 8)), !(wrap_small 32) by lia. rewrite !VarintLength_32 by lia.
  assert (forall x, 0 <= x < 2 ^ 32 -> str_size (EncodeVarint32 x) <= 5) as H5.
  { intros x Hx. rewrite EncodeVarint32_loop by done. unfold str_size. pose proof (varint_loop_length 5 x). lia. }
  pose proof (H5 (str_size k + 8) ltac:(lia)). pose proof (H5 (str_size v) ltac:(lia)).
  pose proof (str_size_nonneg (EncodeVarint32 (str_size k + 8))). pose proof (str_size_nonneg (EncodeVarint32 (str_size v))).
  assert (forall n, str_size (EncodeFixed64 n) = 8) as -> by (intros n; unfold str_size; by rewrite EncodeFixed64_length).
  rewrite wrap_small by lia. lia.
Qed.

(** *** Adding updates *)

(** The sequence number and the type of an update. *)
Definition update_seq (a : update) : Z := let '(s, _, _, _) := a in s.
Definition update_type (a : update) : ValueType := let '(_, t, _, _) := a in t.
Definition update_key (a : update) : str := let '(_, _, k, _) := a in k.

Lemma entry_compare a k s t : update_ok a -> 0 <= s <= kMaxSequenceNumber ->
  Compare (Comparator := internal_comparator C) (fst (update_entry a)) (k ++ EncodeFixed64 (packed s t)) =
  ikey_order (update_key a) (packed (update_seq a) (update_type a)) k (packed s t).
Proof. destruct a as [[[sa ta] ka] va]. intros (Hs & _ & _) Hsq. apply internal_compare_parts; by apply packed_range. Qed.

Lemma update_compare a b : update_ok a -> update_ok b ->
  Compare (Comparator := internal_comparator C) (fst (update_entry a)) (fst (update_entry b)) =
  ikey_order (update_key a) (packed (update_seq a) (update_type a)) (update_key b) (packed (update_seq b) (update_type b)).
Proof. destruct b as [[[sb tb] kb] vb]. intros Ha (Hs & _ & _). by apply entry_compare. Qed.

Lemma update_entry_inj a b : update_ok a -> update_ok b -> update_entry a = update_entry b -> a = b.
Proof.
  destruct a as [[[sa ta] ka] va], b as [[[sb tb] kb] vb]. intros (Ha & _ & _) (Hb & _ & _) [= E ->].
  pose proof (parts ka (packed sa ta) (packed_range _ _ Ha)) as [E1 E2]. rewrite E in E1, E2.
  pose proof (parts kb (packed sb tb) (packed_range _ _ Hb)) as [E3 E4]. rewrite E1 in E3. rewrite E2 in E4. clear E E1 E2.
  subst kb. unfold packed in E4. assert (ta = tb) as -> by (destruct ta, tb; cbn in E4; done || lia). by replace sb with sa by lia.
Qed.

(** Updates of user keys that compare equal have different sequence numbers. *)
Definition distinct (a b : update) : Prop := Compare (update_key a) (update_key b) = Eq -> update_seq a <> update_seq b.

Lemma distinct_entries a b : update_ok a -> update_ok b -> distinct a b ->
  Compare (Comparator := internal_comparator C) (fst (update_entry a)) (fst (update_entry b)) <> Eq.
Proof.
  intros Ha Hb Hd. rewrite update_compare by done. unfold ikey_order. destruct (Compare (update_key a) (update_key b)) eqn:E; [|done..].
  specialize (Hd E). rewrite Z.compare_eq_iff. unfold packed. intros H. apply Hd. destruct (update_type a), (update_type b); cbn in H; lia.
Qed.

Lemma sorted_split (es : list entry) k :
  keys_sorted (C := internal_comparator C) es ->
  Forall (fun e => Compare (Comparator := internal_comparator C) (fst e) k <> Eq) es ->
  exists e1 e2, es = e1 ++ e2 /\ Forall (fun e => Compare (Comparator := internal_comparator C) (fst e) k = Lt) e1 /\
    Forall (fun e => Compare (Comparator := internal_comparator C) k (fst e) = Lt) e2.
Proof.
  intros Hs Hne. induction Hs as [|e es Hs IH Hf]; [by exists [], []|]. apply Forall_cons_1 in Hne as [He Hne].
  destruct (Compare (Comparator := internal_comparator C) (fst e) k) eqn:Ek; [done| |].
  - destruct (IH Hne) as (e1 & e2 & -> & H1 & H2). exists (e :: e1), e2. split_and!; auto.
  - exists [], (e :: es). split_and!; auto. pose proof (cmp_flip (C := internal_comparator C) _ _ _ Ek) as Hke. cbn in Hke.
    constructor; [done|]. eapply Forall_impl; [exact Hf|]. intros e' He'. exact (cmp_trans (C := internal_comparator C) _ _ _ Hke He').
Qed.

Lemma Add_rep m es s t k v :
  mem_rep m es -> update_ok (s, t, k, v) ->
  Forall (fun e => Compare (Comparator := internal_comparator C) (fst e) (fst (update_entry (s, t, k, v))) <> Eq) es ->
  exists m' es', MemTable.Add m s t k v = Ret m' /\ mem_rep m' es' /\ es' ≡ₚ update_entry (s, t, k, v) :: es.
Proof.
  intros Hm Hu Hne. pose proof (mem_sorted m es Hm) as Hs. destruct Hm as [Hok Hr].
  destruct (sorted_split es _ Hs Hne) as (e1 & e2 & -> & H1 & H2). rewrite map_app in Hr. pose proof Hok as [Hok1 Hok2]%Forall_app.
  pose proof (update_entry_ok _ Hu) as Hue. destruct (encoded_update s t k v Hu) as [E El].
  unfold MemTable.Add. rewrite E, El, Z.eqb_refl. set (u := update_entry (s, t, k, v)) in *.
  destruct (Insert_rep m (map enc_entry e1) (map enc_entry e2) (enc_entry u) Hr) as (m' & -> & Hr').
  - by apply enc_ok.
  - rewrite Forall_map, Forall_forall in *. intros e He. rewrite key_order_enc by auto. by apply H1.
  - rewrite Forall_map, Forall_forall in *. intros e He. rewrite key_order_enc by auto. by apply H2.
  - exists m', (e1 ++ u :: e2). split; [done|]. split; [|by rewrite Permutation_middle]. split; [apply Forall_app; auto|].
    by rewrite map_app.
Qed.

Definition add_update (m : MemTable.MemTable) (a : update) : result MemTable.MemTable :=
  let '(s, t, k, v) := a in MemTable.Add m s t k v.

Lemma adds_rep us : forall m es, mem_rep m es -> Forall update_ok us ->
  Forall (fun a => Forall (fun e => Compare (Comparator := internal_comparator C) (fst e) (fst (update_entry a)) <> Eq) es) us ->
  ForallOrdPairs distinct us ->
  exists m' es', foldR add_update m us = Ret m' /\ mem_rep m' es' /\ es' ≡ₚ map update_entry us ++ es.
Proof.
  induction us as [|[[[s t] k] v] us IH]; intros m es Hm Hok Hne Hd; cbn [foldR map app]; [by exists m, es|].
  apply Forall_cons_1 in Hok as [Ha Hok]. apply Forall_cons_1 in Hne as [Hna Hne]. inversion Hd as [|? ? Hda Hd']; subst.
  destruct (Add_rep m es s t k v Hm Ha Hna) as (m1 & es1 & Hadd & Hm1 & Hp1).
  cbn [add_update]. rewrite Hadd. cbn [mbind result_bind].
  destruct (IH m1 es1 Hm1 Hok) as (m' & es' & -> & Hm' & Hp'); [|done|].
  - rewrite Forall_forall in *. intros b Hb. specialize (Hne b Hb). rewrite Hp1. constructor; [|done]. apply distinct_entries; auto.
  - exists m', es'. split; [done|]. split; [done|]. rewrite Hp', Hp1. symmetry. apply Permutation_middle.
Qed.

(** *** Iterating *)

#[export] Program Instance MemTableIterator_laws : IteratorLaws (MemTable.MemTableIterator_ops (C := C)) := {
  it_at it es i := Forall entry_ok es /\ stands_at it (map enc_entry es) i
}.
Next Obligation. intros it es i [_ (ids & _ & _ & H)]. by rewrite length_map in H. Qed.
Next Obligation. intros it es i [_ H]. cbn [it_Valid MemTable.MemTableIterator_ops]. by rewrite (stands_valid _ _ _ H), length_map. Qed.
Next Obligation.
  intros it es i k v [Hok H] He. rewrite Forall_lookup in Hok. specialize (Hok _ _ He).
  cbn [it_key it_value MemTable.MemTableIterator_ops]. rewrite (stands_key it _ i (enc_entry (k, v)) H) by (by rewrite list_lookup_fmap, He).
  cbn [mbind result_bind]. unfold MemTable.GetLengthPrefixedSlice. rewrite front_enc by done. cbn [mbind result_bind fst snd].
  split; [done|]. rewrite <- (app_nil_r (PutLengthPrefixedSlice [] v)), GetLengthPrefixedSlice_Put; [done|]. by destruct Hok.
Qed.
Next Obligation. done. Qed.
Next Obligation. intros it es i [Hok H]. destruct (stands_first _ _ _ H) as (it' & Hr & H'). by exists it'. Qed.
Next Obligation. intros it es i [Hok H]. destruct (stands_last _ _ _ H) as (it' & Hr & H'). exists it'. by rewrite length_map in H'. Qed.
Next Obligation.
  intros it es i [Hok H] Hi. destruct (stands_next _ _ _ H) as (it' & Hr & H'); [by rewrite length_map|]. by exists it'.
Qed.
Next Obligation.
  intros it es i [Hok H] Hi. destruct (stands_prev _ _ _ H) as (it' & Hr & H'); [by rewrite length_map|]. exists it'.
  split; [done|]. split; [done|]. destruct i; cbn in H'; [by rewrite length_map in H'|]. by rewrite Nat.sub_0_r in H'.
Qed.

Lemma NewIterator_mem m es : mem_rep m es -> it_at (IteratorLaws := MemTableIterator_laws) (MemTable.NewIterator m) es (length es).
Proof. intros [Hok Hr]. split; [done|]. rewrite <- (length_map enc_entry es). by apply stands_new. Qed.

Lemma seek_enc es t k : Forall entry_ok es -> keys_sorted (C := internal_comparator C) es -> front t = k ->
  seek_count t (map enc_entry es) = seek_pos (C := internal_comparator C) k es.
Proof.
  intros Hok Hs <-. induction Hok as [|e es He Hok IH]; [done|]. apply StronglySorted_inv in Hs as [Hs Hf]. specialize (IH Hs).
  unfold seek_count in *. cbn [map List.filter seek_pos]. unfold key_order at 1, MemTable_order at 1. rewrite front_entry by done.
  destruct (Compare (Comparator := internal_comparator C) (fst e) (front t)) eqn:E.
  2: { cbn [length]. by rewrite IH. }
  all: rewrite IH; destruct es as [|e' es]; [done|]; cbn [seek_pos]; apply Forall_cons_1 in Hf as [Hf _].
  - pose proof (cmp_flip (C := internal_comparator C) _ _ _ Hf) as Hf'. cbn [CompOpp] in Hf'.
    rewrite <- (cmp_eq_r (C := internal_comparator C) _ _ _ E). by rewrite Hf'.
  - destruct (Compare (Comparator := internal_comparator C) (fst e') (front t)) eqn:E'; try done.
    by rewrite (cmp_trans (C := internal_comparator C) _ _ _ Hf E') in E.
Qed.

(** [Seek] of the iterator, and of a lookup. *)
Lemma Seek_mem it es i t k : it_at (IteratorLaws := MemTableIterator_laws) it es i -> keys_sorted (C := internal_comparator C) es ->
  Coding.GetLengthPrefixedSlice t = Some (k, []) -> 8 <= str_size k ->
  exists it', SkipList.Seek it t = Ret it' /\ it_at (IteratorLaws := MemTableIterator_laws) it' es (seek_pos (C := internal_comparator C) k es).
Proof.
  intros [Hok H] Hs Ht Hk. destruct (stands_seek it _ i t H) as (it' & Hr & H'); [by exists k, []|].
  exists it'. split; [done|]. split; [done|]. rewrite (seek_enc es t k Hok Hs) in H'; [done|]. unfold front. by rewrite Ht.
Qed.

(** *** Lookups *)

(** The update is one of the user key, at or before the sequence number. *)
Definition visible (k : str) (s : Z) (a : update) : bool :=
  match Compare (update_key a) k with Eq => update_seq a <=? s | _ => false end.

(** The visible update with the largest sequence number. *)
Definition newest (k : str) (s : Z) (us : list update) : option update :=
  foldr (fun a best =>
    if visible k s a then
      match best with Some b => if update_seq a <? update_seq b then best else Some a | None => Some a end
    else best) None us.

Definition answer (a : update) : str + Status.Status :=
  match a with (_, kTypeValue, _, v) => inl v | (_, kTypeDeletion, _, _) => inr (Status.NotFound [] []) end.

Lemma newest_spec k s us :
  match newest k s us with
  | Some a => a ∈ us /\ visible k s a = true /\ forall b, b ∈ us -> visible k s b = true -> update_seq b <= update_seq a
  | None => forall b, b ∈ us -> visible k s b = false
  end.
Proof.
  induction us as [|a us IH]; cbn [newest foldr]; [by intros b Hb%elem_of_nil|]. fold (newest k s us).
  destruct (visible k s a) eqn:Ea, (newest k s us) as [b|].
  - destruct IH as (Hb & Hv & Hm). destruct (Z.ltb_spec (update_seq a) (update_seq b)).
    + split; [by right|]. split; [done|]. intros c [->|Hc]%elem_of_cons Hvc; [lia|by apply Hm].
    + split; [by left|]. split; [done|]. intros c [->|Hc]%elem_of_cons Hvc; [lia|]. specialize (Hm c Hc Hvc). lia.
  - split; [by left|]. split; [done|]. intros c [->|Hc]%elem_of_cons Hvc; [lia|]. by rewrite (IH c Hc) in Hvc.
  - destruct IH as (Hb & Hv & Hm). split; [by right|]. split; [done|]. intros c [->|Hc]%elem_of_cons Hvc; [congruence|by apply Hm].
  - intros c [->|Hc]%elem_of_cons; [done|by apply IH].
Qed.

Lemma visible_compare a k s : update_ok a -> 0 <= s <= kMaxSequenceNumber ->
  visible k s a = true <-> Compare (update_key a) k = Eq /\
    Compare (Comparator := internal_comparator C) (fst (update_entry a)) (k ++ EncodeFixed64 (packed s kTypeValue)) <> Lt.
Proof.
  intros Ha Hs. rewrite entry_compare by done. unfold visible, ikey_order. destruct (Compare (update_key a) k); [|naive_solver..].
  rewrite Z.leb_le, Z.compare_lt_iff. unfold packed. destruct (update_type a); cbn [type_value]; (split; [split; [done|lia]|intros [_ ?]; lia]).
Qed.

Lemma distinct_pair us a b : ForallOrdPairs distinct us -> a ∈ us -> b ∈ us -> Compare (update_key a) (update_key b) = Eq ->
  a = b \/ update_seq a <> update_seq b.
Proof.
  intros Hd Ha Hb E. rewrite list_elem_of_In in Ha, Hb. destruct (ForallOrdPairs_In Hd _ _ Ha Hb) as [->|[H|H]]; [by left|right; by apply H|].
  right. intros Hs. apply (H (cmp_flip _ _ _ E)). done.
Qed.

(** The entry a lookup stops at. *)
Lemma seek_newest us es k s :
  es ≡ₚ map update_entry us -> keys_sorted (C := internal_comparator C) es -> Forall update_ok us -> 0 <= s <= kMaxSequenceNumber ->
  ForallOrdPairs distinct us ->
  match es !! seek_pos (C := internal_comparator C) (k ++ EncodeFixed64 (packed s kTypeValue)) es with
  | Some e => exists a, a ∈ us /\ e = update_entry a /\
      newest k s us = match Compare (update_key a) k with Eq => Some a | _ => None end
  | None => newest k s us = None
  end.
Proof.
  intros Hp Hs Hok Hsq Hd. set (T := k ++ EncodeFixed64 (packed s kTypeValue)). rewrite Forall_forall in Hok.
  assert (forall e, e ∈ es -> exists a, a ∈ us /\ e = update_entry a) as Hin.
  { intros e He. rewrite Hp in He. apply list_elem_of_fmap in He as (a & -> & Ha). by exists a. }
  assert (forall b, b ∈ us -> visible k s b = true -> exists j, es !! j = Some (update_entry b) /\ (seek_pos (C := internal_comparator C) T es <= j)%nat) as Hvis.
  { intros b Hb Hv. assert (update_entry b ∈ es) as He by (rewrite Hp; by apply list_elem_of_fmap_2).
    apply list_elem_of_lookup in He as [j Hj]. exists j. split; [done|]. destruct (Nat.le_gt_cases (seek_pos (C := internal_comparator C) T es) j) as [|Hlt]; [done|].
    pose proof (seek_pos_before (C := internal_comparator C) T es j _ Hj Hlt) as Hb'. apply visible_compare in Hv as [_ Hv]; [done|auto|done]. }
  pose proof (newest_spec k s us) as Hn. destruct (es !! _) as [e|] eqn:Ee.
  - destruct (Hin e) as (a & Ha & ->); [by eapply list_elem_of_lookup_2|]. exists a. split; [done|]. split; [done|].
    pose proof (seek_pos_at (C := internal_comparator C) T es _ Ee) as Hnl.
    assert (forall b, b ∈ us -> visible k s b = true -> b = a \/ Compare (Comparator := internal_comparator C) (fst (update_entry a)) (fst (update_entry b)) = Lt) as Hafter.
    { intros b Hb Hv. destruct (Hvis b Hb Hv) as (j & Hj & Hle). apply Nat.lt_eq_cases in Hle as [Hlt| <-].
      - right. by apply (sorted_lookup_lt _ _ Hs _ _ _ _ Hlt).
      - left. rewrite Ee in Hj. injection Hj as E. symmetry. apply update_entry_inj; auto. }
    unfold T in Hnl. rewrite entry_compare in Hnl by auto. destruct (Compare (update_key a) k) eqn:Ek.
    + assert (visible k s a = true) as Hva by (apply visible_compare; [by auto..|]; split; [done|by rewrite entry_compare by auto]).
      destruct (newest k s us) as [b|]; [|by rewrite (Hn a Ha) in Hva]. destruct Hn as (Hb & Hvb & Hmax). f_equal.
      destruct (Hafter b Hb Hvb) as [->|Hlt]; [done|]. specialize (Hmax a Ha Hva). exfalso.
      apply visible_compare in Hvb as [Ekb _]; [|auto|done]. assert (Compare (update_key a) (update_key b) = Eq) as Eab.
      { by rewrite (cmp_eq_r _ _ _ Ekb). }
      rewrite update_compare in Hlt by auto. unfold ikey_order in Hlt. rewrite Eab, Z.compare_lt_iff in Hlt.
      destruct (distinct_pair us a b Hd Ha Hb Eab) as [->|Hne]; [lia|]. unfold packed in Hlt.
      destruct (update_type a), (update_type b); cbn in Hlt; lia.
    + unfold ikey_order in Hnl. by rewrite Ek in Hnl.
    + destruct (newest k s us) as [b|]; [|done]. exfalso. destruct Hn as (Hb & Hvb & _).
      apply visible_compare in Hvb as Hvb'; [|auto|done]. destruct Hvb' as [Ekb _].
      destruct (Hafter b Hb Hvb) as [->|Hlt]; [congruence|]. rewrite update_compare in Hlt by auto. unfold ikey_order in Hlt.
      by rewrite (cmp_eq_r _ _ _ Ekb), Ek in Hlt.
  - destruct (newest k s us) as [b|]; [|done]. destruct Hn as (Hb & Hvb & _). destruct (Hvis b Hb Hvb) as (j & Hj & Hle).
    apply lookup_ge_None in Ee. apply lookup_lt_Some in Hj. lia.
Qed.

(** What a lookup key holds. *)
Lemma LookupKey_ok k s : str_size k + 13 < 2 ^ 32 -> 0 <= s <= kMaxSequenceNumber ->
  exists lk, LookupKey_make k s = Ret lk /\ lookup_user_key lk = k /\
    Coding.GetLengthPrefixedSlice (memtable_key lk) = Some (k ++ EncodeFixed64 (packed s kTypeValue), []).
Proof.
  intros Hk Hs. pose proof (str_size_nonneg k). unfold LookupKey_make. rewrite Pack_ok by done. cbn [mbind result_bind]. eexists. split; [done|].
  rewrite (wrap_small 32) by lia. set (tag := EncodeFixed64 (packed s kValueTypeForSeek)).
  assert (length tag = 8%nat) as Ht by apply EncodeFixed64_length. split.
  - unfold lookup_user_key. cbn [lk_bytes lk_kstart]. rewrite drop_app_length, !length_app.
    replace (length (EncodeVarint32 (str_size k + 8)) + (length k + length tag) - length (EncodeVarint32 (str_size k + 8)) - 8)%nat with (length k) by lia.
    apply take_app_length.
  - unfold memtable_key. cbn [lk_bytes]. rewrite <- (GetLengthPrefixedSlice_Put _ []) by (rewrite key_size; lia). f_equal.
    unfold PutLengthPrefixedSlice, PutVarint32. rewrite key_size, wrap_small, app_nil_r by lia. done.
Qed.

Lemma Get_newest m es us k s lk :
  mem_rep m es -> es ≡ₚ map update_entry us -> Forall update_ok us -> ForallOrdPairs distinct us ->
  str_size k + 13 < 2 ^ 32 -> 0 <= s <= kMaxSequenceNumber -> LookupKey_make k s = Ret lk ->
  MemTable.Get m lk = Ret (answer <$> newest k s us).
Proof.
  intros Hm Hp Hok Hd Hk Hs Elk. destruct (LookupKey_ok k s Hk Hs) as (lk' & E' & Euk & Emk). rewrite Elk in E'. injection E' as <-.
  pose proof (mem_sorted m es Hm) as Hsorted. pose proof (NewIterator_mem m es Hm) as Hat. unfold MemTable.Get.
  destruct (Seek_mem _ es _ _ _ Hat Hsorted Emk) as (it' & Hsk & Hat'); [rewrite key_size; pose proof (str_size_nonneg k); lia|].
  change (SkipList.NewIterator m) with (MemTable.NewIterator m). rewrite Hsk. cbn [mbind result_bind].
  pose proof (at_valid _ _ _ Hat') as Hv. cbn [it_Valid MemTable.MemTableIterator_ops] in Hv. rewrite Hv.
  pose proof (seek_newest us es k s Hp Hsorted Hok Hs Hd) as Hn. set (i := seek_pos _ es) in *.
  destruct (es !! i) as [e|] eqn:Ee; [|apply lookup_ge_None in Ee; by rewrite (proj2 (Nat.ltb_ge _ _) Ee), Hn].
  destruct Hn as (a & Ha & -> & Hn). rewrite (proj2 (Nat.ltb_lt _ _) (lookup_lt_Some _ _ _ Ee)).
  destruct Hat' as [Hoke Hst]. rewrite (stands_key _ _ i (enc_entry (update_entry a)) Hst) by (by rewrite list_lookup_fmap, Ee). cbn [mbind result_bind].
  rewrite Forall_lookup in Hoke. specialize (Hoke _ _ Ee). unfold MemTable.GetLengthPrefixedSlice. rewrite front_enc by done. cbn [mbind result_bind].
  rewrite Forall_forall in Hok. specialize (Hok a Ha). destruct a as [[[sa t] ka] va]. cbn [update_entry fst snd update_key] in *.
  destruct Hok as (Hsa & _ & Hva). rewrite ExtractUserKey_app by (by apply packed_range). cbn [mbind result_bind]. rewrite Euk.
  rewrite (proj2 (key_split ka _ (packed_range sa t Hsa))). rewrite Hn. destruct (Compare ka k); [|done..].
  change 255 with (Z.ones 8). rewrite Z.land_ones by lia. assert (packed sa t mod 2 ^ 8 = type_value t) as ->.
  { unfold packed. change (2 ^ 8) with 256. rewrite Z.add_comm, Z_mod_plus_full. destruct t; done. }
  destruct t; [done|]. cbn [type_value Z.eqb Pos.eqb]. rewrite <- (app_nil_r (PutLengthPrefixedSlice [] va)), GetLengthPrefixedSlice_Put by done. done.
Qed.

End spec.

(** ** Properties *)

(** C26: The memtable is a versioned map: after any sequence of [Add] calls with
    different sequence numbers for the same user key, in whatever order they come,
    every call has succeeded, the iterator gives the entries in the order of the
    internal keys, and [Get] at a snapshot answers with the newest update of the key
    that the snapshot sees: its value, a deletion, or nothing; the skip list's links,
    heights and searches included. *)
Theorem memtable_get_newest (C : Comparator) {HC : ComparatorLaws C} us k s lk :
  Forall update_ok us -> ForallOrdPairs (distinct C) us -> str_size k + 13 < 2 ^ 32 -> 0 <= s <= kMaxSequenceNumber ->
  LookupKey_make k s = Ret lk ->
  exists m es it, foldR (add_update C) MemTable.make us = Ret m /\
    MemTable.Get (C := C) m lk = Ret (answer <$> newest C k s us) /\
    es ≡ₚ map update_entry us /\ keys_sorted (C := internal_comparator C) es /\
    scan_all (IT := MemTable.MemTableIterator_ops (C := C)) (length us) (MemTable.NewIterator m) = Ret (es, it).
Proof.
  intros Hok Hd Hk Hs Elk. destruct (adds_rep C us MemTable.make [] (mem_make C) Hok) as (m & es & Ha & Hm & Hp); [|done|].
  { apply Forall_forall. intros a _. constructor. }
  rewrite app_nil_r in Hp. assert (length es = length us) as El by (by rewrite Hp, length_map).
  destruct (scan_all_at (IL := MemTableIterator_laws C) (length us) _ es _ (NewIterator_mem C m es Hm)) as (it & Hsc & _); [lia|].
  exists m, es, it. split; [done|]. split; [by eapply Get_newest|]. split; [done|]. split; [by eapply mem_sorted|done].
Qed.

(** ** A concrete run *)

(** Two versions and a deletion of a key, out of order. *)
Definition demo_updates : list update :=
  [ (5, kTypeValue, $"apple", $"red"); (2, kTypeValue, $"pear", $"green"); (7, kTypeDeletion, $"apple", []);
    (3, kTypeValue, $"apple", $"sour") ].

Lemma memtable_get_newest_witness :
  match LookupKey_make ($"apple") 6 with
  | Ret lk => exists m es it, foldR (add_update BytewiseComparator) MemTable.make demo_updates = Ret m /\
      MemTable.Get (C := BytewiseComparator) m lk = Ret (answer <$> newest BytewiseComparator ($"apple") 6 demo_updates) /\
      es ≡ₚ map update_entry demo_updates /\ keys_sorted (C := internal_comparator BytewiseComparator) es /\
      scan_all (IT := MemTable.MemTableIterator_ops (C := BytewiseComparator)) (length demo_updates) (MemTable.NewIterator m) = Ret (es, it)
  | _ => False
  end.
Proof.
  destruct (LookupKey_make ($"apple") 6) as [lk|e|f] eqn:E; [|discriminate E..].
  apply (memtable_get_newest BytewiseComparator demo_updates ($"apple") 6 lk).
  - repeat constructor; vm_compute; discriminate || done.
  - repeat constructor; vm_compute; discriminate.
  - vm_compute. reflexivity.
  - split; vm_compute; discriminate.
  - exact E.
Defined.

(** At 6 the value of 5 is seen, at 7 the deletion, at 1 nothing. *)
Example demo_lookups :
  (fun s => answer <$> newest BytewiseComparator ($"apple") s demo_updates) <$> [6; 7; 1] =
  [Some (inl ($"red")); Some (inr (Status.NotFound [] [])); None].
Proof. vm_compute. reflexivity. Qed.

Example demo_memtable :
  match foldR (add_update BytewiseComparator) MemTable.make demo_updates, LookupKey_make ($"apple") 4 with
  | Ret m, Ret lk => MemTable.Get (C := BytewiseComparator) m lk
  | _, _ => Crash OutOfFuel
  end = Ret (Some (inl ($"sour"))).
Proof. vm_compute. reflexivity. Qed.
