(* ===== verification/DbIter.v ===== *)
(** * leveldb: the iterator of a database

    [db/db_iter.cc]: over an iterator of internal keys, [DBIter] yields for every user
    key the value that is current at a sequence number.  Reading is sampled: after a
    random number of bytes the database is told of a key
    ([DBImpl::RecordReadSample], the interface [ReadSampler]). *)

From Stdlib Require Import ZArith Lia Permutation.
From S2P Require Import Prelude CString Coding SliceStatus FilterPolicy DbFormat Iterators SkipList SkipListSpec.
From S2P Require Import TableFormat TableSpec DbTable MemTable Merger.

(** [DBImpl::RecordReadSample], which may start a compaction. *)
Class ReadSampler (D : Type) := { RecordReadSample : D -> str -> D }.

Module DBIter.

(** [config::kReadBytesPeriod] *)
Definition kReadBytesPeriod : Z := 1048576.

Inductive Direction := kForward | kReverse.

Section ops.
Context {I D : Type} `{IT : !Iterator I, RS : !ReadSampler D, C : !Comparator}.

Record DBIter := mkDBIter {
  db_ : D;
  iter_ : I;
  sequence_ : Z;
  status_ : Status.Status;
  saved_key_ : str;
  saved_value_ : str;
  direction_ : Direction;
  valid_ : bool;
  rnd_ : Z;
  bytes_until_read_sampling_ : Z
}.

Definition set_iter (it : DBIter) (i : I) : DBIter :=
  mkDBIter (db_ it) i (sequence_ it) (status_ it) (saved_key_ it) (saved_value_ it) (direction_ it) (valid_ it) (rnd_ it) (bytes_until_read_sampling_ it).
Definition set_saved (it : DBIter) (k v : str) : DBIter :=
  mkDBIter (db_ it) (iter_ it) (sequence_ it) (status_ it) k v (direction_ it) (valid_ it) (rnd_ it) (bytes_until_read_sampling_ it).
Definition set_state (it : DBIter) (d : Direction) (valid : bool) : DBIter :=
  mkDBIter (db_ it) (iter_ it) (sequence_ it) (status_ it) (saved_key_ it) (saved_value_ it) d valid (rnd_ it) (bytes_until_read_sampling_ it).
Definition set_status (it : DBIter) (s : Status.Status) : DBIter :=
  mkDBIter (db_ it) (iter_ it) (sequence_ it) s (saved_key_ it) (saved_value_ it) (direction_ it) (valid_ it) (rnd_ it) (bytes_until_read_sampling_ it).

(** The number of bytes until the next sample, and the new seed. *)
Definition RandomCompactionPeriod (rnd : Z) : Z * Z := Random.Uniform rnd (2 * kReadBytesPeriod).

(** [NewDBIterator] *)
Definition make (db : D) (iter : I) (s seed : Z) : DBIter :=
  let '(period, rnd) := RandomCompactionPeriod (Random.make seed) in
  mkDBIter db iter s Status.OK [] [] kForward false rnd period.

Definition Valid (it : DBIter) : bool := valid_ it.

Definition key (it : DBIter) : result str :=
  if valid_ it then
    match direction_ it with kForward => k ← it_key (iter_ it); ExtractUserKey k | kReverse => Ret (saved_key_ it) end
  else Crash AssertFailed.

Definition value (it : DBIter) : result str :=
  if valid_ it then match direction_ it with kForward => it_value (iter_ it) | kReverse => Ret (saved_value_ it) end
  else Crash AssertFailed.

Definition status (it : DBIter) : Status.Status :=
  if Status.ok (status_ it) then it_status (iter_ it) else status_ it.

(** [while (bytes_until_read_sampling_ < bytes_read)]: the database, the seed and the
    bytes left; of two draws in a row one is not zero. *)
Fixpoint sample (fuel : nat) (k : str) (bytes_read : Z) (db : D) (rnd bytes_left : Z) : result (D * Z * Z) :=
  if bytes_left <? bytes_read then
    match fuel with
    | O => Crash OutOfFuel
    | S f =>
        let '(period, rnd) := RandomCompactionPeriod rnd in
        sample f k bytes_read (RecordReadSample db k) rnd (u64 (bytes_left + period))
    end
  else Ret (db, rnd, bytes_left).

Definition ParseKey (it : DBIter) : result (DBIter * option ParsedInternalKey) :=
  k ← it_key (iter_ it);
  v ← it_value (iter_ it);
  let bytes_read := u64 (str_size k + str_size v) in
  q ← sample (2 * Z.to_nat bytes_read) k bytes_read (db_ it) (rnd_ it) (bytes_until_read_sampling_ it);
  let '(db, rnd, bytes_left) := (q : D * Z * Z) in
  let it := mkDBIter db (iter_ it) (sequence_ it) (status_ it) (saved_key_ it) (saved_value_ it) (direction_ it) (valid_ it) rnd
              (u64 (bytes_left - bytes_read)) in
  match ParseInternalKey k with
  | None => Ret (set_status it (Status.Corruption ($"corrupted internal key in DBIter") []), None)
  | Some ikey => Ret (it, Some ikey)
  end.

Definition is_le (c : comparison) : bool := match c with Gt => false | _ => true end.
Definition is_lt (c : comparison) : bool := match c with Lt => true | _ => false end.

(** [FindNextUserEntry]; [skip] is always [&saved_key_]. *)
Fixpoint find_next (fuel : nat) (it : DBIter) (skipping : bool) : result DBIter :=
  match fuel with
  | O => Crash OutOfFuel
  | S f =>
      q ← ParseKey it;
      let '(it, parsed) := (q : DBIter * option ParsedInternalKey) in
      let '(it, skipping, found) :=
        match parsed with
        | Some ikey =>
            if sequence ikey <=? sequence_ it then
              match type ikey with
              | kTypeDeletion => (set_saved it (user_key ikey) (saved_value_ it), true, false)
              | kTypeValue =>
                  if skipping && is_le (Compare (user_key ikey) (saved_key_ it)) then (it, skipping, false)
                  else (set_saved (set_state it (direction_ it) true) [] (saved_value_ it), skipping, true)
              end
            else (it, skipping, false)
        | None => (it, skipping, false)
        end in
      if (found : bool) then Ret it
      else
        i ← it_Next (iter_ it);
        let it := set_iter it i in
        if it_Valid i then find_next f it skipping
        else Ret (set_state (set_saved it [] (saved_value_ it)) (direction_ it) false)
  end.

Definition FindNextUserEntry (fuel : nat) (it : DBIter) (skipping : bool) : result DBIter :=
  match it_Valid (iter_ it), direction_ it with
  | true, kForward => find_next fuel it skipping
  | _, _ => Crash AssertFailed
  end.

(** The loop of [FindPrevUserEntry], with the local [value_type]. *)
Fixpoint find_prev (fuel : nat) (it : DBIter) (value_type : ValueType) : result (DBIter * ValueType) :=
  if negb (it_Valid (iter_ it)) then Ret (it, value_type)
  else
    match fuel with
    | O => Crash OutOfFuel
    | S f =>
        q ← ParseKey it;
        let '(it, parsed) := (q : DBIter * option ParsedInternalKey) in
        match parsed with
        | Some ikey =>
            if sequence ikey <=? sequence_ it then
              if negb (bool_decide (value_type = kTypeDeletion)) && is_lt (Compare (user_key ikey) (saved_key_ it))
              then Ret (it, value_type)
              else
                it ← (match type ikey with
                      | kTypeDeletion => Ret (set_saved it [] [])
                      | kTypeValue =>
                          raw ← it_value (iter_ it); k ← it_key (iter_ it); u ← ExtractUserKey k;
                          Ret (set_saved it u raw)
                      end);
                i ← it_Prev (iter_ it); find_prev f (set_iter it i) (type ikey)
            else i ← it_Prev (iter_ it); find_prev f (set_iter it i) value_type
        | None => i ← it_Prev (iter_ it); find_prev f (set_iter it i) value_type
        end
    end.

Definition FindPrevUserEntry (fuel : nat) (it : DBIter) : result DBIter :=
  match direction_ it with
  | kForward => Crash AssertFailed
  | kReverse =>
      q ← find_prev fuel it kTypeDeletion;
      let '(it, value_type) := (q : DBIter * ValueType) in
      match value_type with
      | kTypeDeletion => Ret (set_state (set_saved it [] []) kForward false)
      | kTypeValue => Ret (set_state it kReverse true)
      end
  end.

(** [turns] bounds the number of entries a loop passes. *)
Context (turns : nat).

Definition Next (it : DBIter) : result DBIter :=
  if negb (valid_ it) then Crash AssertFailed
  else
    it ← (match direction_ it with
          | kReverse =>
              i ← (if it_Valid (iter_ it) then it_Next (iter_ it) else it_SeekToFirst (iter_ it));
              Ret (set_iter (set_state it kForward (valid_ it)) i)
          | kForward =>
              k ← it_key (iter_ it); u ← ExtractUserKey k;
              i ← it_Next (iter_ it);
              Ret (set_iter (set_saved it u (saved_value_ it)) i)
          end);
    if it_Valid (iter_ it) then FindNextUserEntry turns it true
    else Ret (set_saved (set_state it (direction_ it) false) [] (saved_value_ it)).

(** [while (true)] of [Prev]: back to the entries of the user key before; none when
    there is no such entry. *)
Fixpoint back_up (fuel : nat) (saved : str) (i : I) : result (option I * I) :=
  match fuel with
  | O => Crash OutOfFuel
  | S f =>
      i ← it_Prev i;
      if it_Valid i then
        k ← it_key i; u ← ExtractUserKey k;
        if is_lt (Compare u saved) then Ret (Some i, i) else back_up f saved i
      else Ret (None, i)
  end.

Definition Prev (it : DBIter) : result DBIter :=
  if negb (valid_ it) then Crash AssertFailed
  else
    match direction_ it with
    | kReverse => FindPrevUserEntry turns it
    | kForward =>
        if negb (it_Valid (iter_ it)) then Crash AssertFailed
        else
          k ← it_key (iter_ it); u ← ExtractUserKey k;
          q ← back_up turns u (iter_ it);
          let '(found, i) := (q : option I * I) in
          match found with
          | None => Ret (set_state (set_saved (set_iter it i) [] []) kForward false)
          | Some _ => FindPrevUserEntry turns (set_state (set_saved (set_iter it i) u (saved_value_ it)) kReverse (valid_ it))
          end
    end.

Definition Seek (it : DBIter) (target : str) : result DBIter :=
  saved ← AppendInternalKey [] (mkParsed target (sequence_ it) kValueTypeForSeek);
  i ← it_Seek (iter_ it) saved;
  let it := set_iter (set_saved (set_state it kForward (valid_ it)) saved []) i in
  if it_Valid i then FindNextUserEntry turns it false else Ret (set_state it kForward false).

Definition SeekToFirst (it : DBIter) : result DBIter :=
  i ← it_SeekToFirst (iter_ it);
  let it := set_iter (set_saved (set_state it kForward (valid_ it)) (saved_key_ it) []) i in
  if it_Valid i then FindNextUserEntry turns it false else Ret (set_state it kForward false).

Definition SeekToLast (it : DBIter) : result DBIter :=
  i ← it_SeekToLast (iter_ it);
  FindPrevUserEntry turns (set_iter (set_saved (set_state it kReverse (valid_ it)) (saved_key_ it) []) i).

End ops.
Arguments DBIter I D : clear implicits.

Definition DBIter_ops {I D} `{IT : !Iterator I, RS : !ReadSampler D, C : !Comparator} (turns : nat) : Iterator (DBIter I D) := {|
  it_Valid := Valid;
  it_key := key;
  it_value := value;
  it_status := status;
  it_SeekToFirst := SeekToFirst turns;
  it_SeekToLast := SeekToLast turns;
  it_Seek := Seek turns;
  it_Next := Next turns;
  it_Prev := Prev turns
|}.

End DBIter.

(** ** Sampling ends *)

(** Of two draws in a row one is not zero: a multiple of the range is followed by a
    seed that is none. *)
Lemma draws_not_zero rnd : 1 <= rnd < Random.M ->
  let '(p1, r1) := DBIter.RandomCompactionPeriod rnd in let '(p2, r2) := DBIter.RandomCompactionPeriod r1 in
  1 <= r2 < Random.M /\ 1 <= r1 < Random.M /\ 0 <= p1 < 2097152 /\ 0 <= p2 < 2097152 /\ 1 <= p1 + p2.
Proof.
  intros Hr. unfold DBIter.RandomCompactionPeriod, Random.Uniform, DBIter.kReadBytesPeriod. change (2 * 1048576) with 2097152.
  destruct (Random.Next_mod rnd Hr) as [_ H1]. set (s := Random.Next rnd) in *. destruct (Random.Next_mod s H1) as [_ H2].
  pose proof (Z.mod_pos_bound s 2097152 ltac:(lia)). pose proof (Z.mod_pos_bound (Random.Next s) 2097152 ltac:(lia)).
  split_and!; try lia. destruct (decide (s mod 2097152 = 0)) as [E|]; [|lia].
  assert (s = Z.of_nat (Z.to_nat (s / 2097152)) * 2097152) as Es.
  { clear -E H1. unfold Random.M in *. lia_div. }
  assert (In (Z.to_nat (s / 2097152)) (seq 1 1023)) as Hin.
  { apply in_seq. clear -E H1. unfold Random.M in *. lia_div. }
  assert (forallb (fun m => negb (Random.Next (Z.of_nat m * 2097152) mod 2097152 =? 0)) (seq 1 1023) = true) as Hall by (vm_compute; reflexivity).
  rewrite forallb_forall in Hall. specialize (Hall _ Hin). rewrite <- Es in Hall.
  destruct (Z.eqb_spec (Random.Next s mod 2097152) 0); [discriminate Hall|lia].
Qed.

Lemma sample_ends {D} `{RS : !ReadSampler D} k bytes_read n : forall fuel db rnd bytes_left,
  0 <= bytes_left -> bytes_read < 2 ^ 63 -> bytes_read - bytes_left <= Z.of_nat n -> (2 * n <= fuel)%nat -> 1 <= rnd < Random.M ->
  exists db' rnd' bytes_left', DBIter.sample fuel k bytes_read db rnd bytes_left = Ret (db', rnd', bytes_left') /\
    bytes_read <= bytes_left' /\ bytes_left' <= Z.max bytes_left (bytes_read + 2097152) /\ 1 <= rnd' < Random.M.
Proof.
  induction n as [|n IH]; intros fuel db rnd bl Hl Hb Hn Hf Hr.
  - exists db, rnd, bl. destruct fuel; cbn [DBIter.sample]; (destruct (Z.ltb_spec bl bytes_read); [lia|split_and!; done || lia]).
  - destruct fuel as [|[|fuel]]; [lia..|]. cbn [DBIter.sample]. destruct (Z.ltb_spec bl bytes_read); [|exists db, rnd, bl; split_and!; done || lia].
    pose proof (draws_not_zero rnd Hr) as Hd. destruct (DBIter.RandomCompactionPeriod rnd) as [p1 r1]. destruct (DBIter.RandomCompactionPeriod r1) as [p2 r2].
    destruct Hd as (Hr2 & Hr1 & Hp1 & Hp2 & Hs). rewrite wrap_small by lia. destruct (Z.ltb_spec (bl + p1) bytes_read).
    + rewrite wrap_small by lia.
      destruct (IH fuel (RecordReadSample (RecordReadSample db k) k) r2 (bl + p1 + p2)) as (db' & rnd' & bl' & -> & Hle & Hup & Hr'); try lia.
      exists db', rnd', bl'. split_and!; done || lia.
    + eexists _, _, _. split; [done|]. lia.
Qed.

(** ** What the iterator shows *)

Definition update_value (a : update) : str := let '(_, _, _, v) := a in v.
Definition update_kv (a : update) : entry := (update_key a, update_value a).

Section view.
Context (C : Comparator) {HC : ComparatorLaws C}.
Implicit Types (Q : Z) (us : list update).

Definition seen Q (a : update) : bool := update_seq a <=? Q.
Definition same_key (a b : update) : bool := match Compare (update_key a) (update_key b) with Eq => true | _ => false end.

(** Position [i] holds the current value of its user key: no entry before it, which
    would be newer, is of the same user key and visible. *)
Definition shown Q us (i : nat) : bool :=
  match us !! i with
  | Some a =>
      seen Q a && bool_decide (update_type a = kTypeValue) &&
      negb (existsb (fun b => seen Q b && same_key b a) (take i us))
  | None => false
  end.

Definition pick Q us (i : nat) : option entry := if shown Q us i then update_kv <$> us !! i else None.

(** The keys and values that are current at [Q], and how many of them come from the
    first [i] entries. *)
Definition view Q us : list entry := omap (pick Q us) (seq 0 (length us)).
Definition shown_before Q us (i : nat) : list entry := omap (pick Q us) (seq 0 i).
Definition cnt Q us (i : nat) : nat := length (shown_before Q us i).

Lemma shown_spec Q us i : shown Q us i = true <->
  exists a, us !! i = Some a /\ seen Q a = true /\ update_type a = kTypeValue /\
    forall j b, (j < i)%nat -> us !! j = Some b -> seen Q b = true -> Compare (update_key b) (update_key a) <> Eq.
Proof.
  unfold shown. split.
  - destruct (us !! i) as [a|] eqn:Ea; [|done]. intros [[Hs Ht%bool_decide_eq_true]%andb_true_iff Hn]%andb_true_iff. exists a. split_and!; try done.
    intros j b Hj Hb Hsb E. apply negb_true_iff in Hn. rewrite <- not_true_iff_false in Hn. apply Hn. apply existsb_exists. exists b. split.
    + apply list_elem_of_In, list_elem_of_lookup. exists j. rewrite lookup_take_lt by done. done.
    + unfold same_key. by rewrite Hsb, E.
  - intros (a & -> & -> & Ht & Hb). rewrite bool_decide_true by done. cbn. apply negb_true_iff, not_true_iff_false. intros (b & Hin & Hx)%existsb_exists.
    apply andb_true_iff in Hx as [Hs Hk]. apply list_elem_of_In, list_elem_of_lookup in Hin as [j Hj]. apply lookup_take_Some in Hj as [Hj Hlt].
    apply (Hb j b Hlt Hj Hs). unfold same_key in Hk. by destruct (Compare (update_key b) (update_key a)).
Qed.

Lemma shown_lt Q us i : shown Q us i = true -> (i < length us)%nat.
Proof. intros (a & Ha & _)%shown_spec. by eapply lookup_lt_Some. Qed.

Lemma shown_before_S Q us i : shown_before Q us (S i) = shown_before Q us i ++ option_list (pick Q us i).
Proof. unfold shown_before. rewrite seq_S, omap_app. cbn. by destruct (pick Q us i). Qed.

Lemma cnt_hidden Q us i : shown Q us i = false -> cnt Q us (S i) = cnt Q us i.
Proof. intros H. unfold cnt. rewrite shown_before_S, length_app. unfold pick. rewrite H. cbn. lia. Qed.

Lemma cnt_shown Q us i : shown Q us i = true -> cnt Q us (S i) = S (cnt Q us i).
Proof.
  intros H. unfold cnt. rewrite shown_before_S, length_app. unfold pick. rewrite H. apply shown_lt in H.
  destruct (lookup_lt_is_Some_2 us i H) as [a ->]. cbn. lia.
Qed.

Lemma cnt_hidden_range Q us i j : (i <= j)%nat -> (forall s, (i <= s < j)%nat -> shown Q us s = false) -> cnt Q us j = cnt Q us i.
Proof.
  induction 1 as [|j Hij IH]; intros Hh; [done|]. rewrite cnt_hidden by (apply Hh; lia). apply IH. intros s Hs. apply Hh. lia.
Qed.

Lemma view_all Q us : shown_before Q us (length us) = view Q us.
Proof. done. Qed.

Lemma view_split Q us i : (i <= length us)%nat -> view Q us = shown_before Q us i ++ omap (pick Q us) (seq i (length us - i)).
Proof.
  intros Hi. unfold view, shown_before. rewrite <- omap_app. f_equal. replace (length us) with (i + (length us - i))%nat at 1 by lia. by rewrite seq_app.
Qed.

Lemma view_lookup Q us i a : shown Q us i = true -> us !! i = Some a -> view Q us !! cnt Q us i = Some (update_kv a).
Proof.
  intros Hs Ha. pose proof (shown_lt _ _ _ Hs). rewrite (view_split Q us (S i)) by lia. rewrite lookup_app_l by (pose proof (cnt_shown Q us i Hs); unfold cnt in *; lia).
  rewrite shown_before_S, lookup_app_r by done. unfold cnt. rewrite Nat.sub_diag. unfold pick. by rewrite Hs, Ha.
Qed.

Lemma cnt_bound Q us i : (cnt Q us i <= i)%nat.
Proof.
  induction i as [|i IH]; [done|]. unfold cnt in *. rewrite shown_before_S, length_app. destruct (pick Q us i); cbn; lia.
Qed.

Lemma cnt_le Q us i : (i <= length us)%nat -> (cnt Q us i <= length (view Q us))%nat.
Proof. intros Hi. rewrite (view_split Q us i Hi), length_app. unfold cnt. lia. Qed.

(** The entries are in the order of the internal keys. *)
Record ordered us : Prop := {
  or_ok : Forall update_ok us;
  or_sorted : keys_sorted (C := internal_comparator C) (map update_entry us)
}.

Section order.
Context (us : list update) (Ho : ordered us).

Lemma ok_at i a : us !! i = Some a -> update_ok a.
Proof. intros Ha. pose proof (or_ok _ Ho) as H. rewrite Forall_lookup in H. by eapply H. Qed.

Lemma key_order_at i j a b : (i <= j)%nat -> us !! i = Some a -> us !! j = Some b -> Compare (update_key a) (update_key b) <> Gt.
Proof.
  intros Hij Ha Hb. destruct (decide (i = j)) as [->|Hne].
  - rewrite Ha in Hb. injection Hb as <-. by rewrite cmp_refl.
  - assert (Compare (Comparator := internal_comparator C) (fst (update_entry a)) (fst (update_entry b)) = Lt) as E.
    { apply (sorted_lt (C := internal_comparator C) (map update_entry us) i j); [apply or_sorted, Ho|by rewrite list_lookup_fmap, Ha|by rewrite list_lookup_fmap, Hb|lia]. }
    rewrite update_compare in E by (by eapply ok_at). unfold ikey_order in E. by destruct (Compare (update_key a) (update_key b)).
Qed.

(** A key between two equal ones is equal. *)
Lemma key_le_eq i j a b : (i <= j)%nat -> us !! i = Some a -> us !! j = Some b -> Compare (update_key b) (update_key a) <> Gt ->
  Compare (update_key a) (update_key b) = Eq.
Proof.
  intros Hij Ha Hb Hle. pose proof (key_order_at i j a b Hij Ha Hb) as H. rewrite cmp_antisym in Hle.
  by destruct (Compare (update_key a) (update_key b)).
Qed.

End order.

Lemma shown_before_elem Q us n e : e ∈ shown_before Q us n -> exists j b, (j < n)%nat /\ shown Q us j = true /\ us !! j = Some b /\ e = update_kv b.
Proof.
  unfold shown_before. rewrite list_elem_of_omap. intros (j & Hj%elem_of_seq & Hp). unfold pick in Hp. destruct (shown Q us j) eqn:Hs; [|done].
  apply fmap_Some in Hp as (b & Hb & ->). exists j, b. split_and!; done || lia.
Qed.

(** The key shown at a position is below those at later positions. *)
Lemma view_sorted Q us : ordered us -> keys_sorted (view Q us).
Proof.
  intros Ho. rewrite <- view_all. generalize (length us) as n. induction n as [|n IH]; [constructor|].
  rewrite shown_before_S. unfold pick. destruct (shown Q us n) eqn:Hs; [|cbn; by rewrite app_nil_r].
  pose proof Hs as (a & Ha & _ & _ & Hfirst)%shown_spec. rewrite Ha. apply StronglySorted_app_2; [|done|repeat constructor].
  intros x1 x2 (j & b & Hj & (b' & Hb' & Hseen & _)%shown_spec & Hb & ->)%shown_before_elem ->%list_elem_of_singleton. cbn.
  rewrite Hb in Hb'. injection Hb' as <-. pose proof (Hfirst j b Hj Hb Hseen). pose proof (key_order_at us Ho j n b a ltac:(lia) Hb Ha).
  by destruct (Compare (update_key b) (update_key a)).
Qed.

End view.

(** ** The loops *)

Section iter.
Context {I D : Type} {IT : Iterator I} {IL : IteratorLaws IT} {RS : ReadSampler D} (C : Comparator) {HC : ComparatorLaws C}.
Context (us : list update) (Ho : ordered C us).
Import DBIter.
Implicit Types (it : DBIter I D) (Q : Z) (q n m : nat).
Abbreviation es := (map update_entry us).

(** The internal iterator stands at [q] and nothing went wrong. *)
Record core it (Q : Z) (q : nat) : Prop := {
  co_at : it_at (iter_ it) es q;
  co_seq : sequence_ it = Q;
  co_range : 0 <= Q <= kMaxSequenceNumber;
  co_ok : status_ it = Status.OK;
  co_rnd : 1 <= rnd_ it < Random.M;
  co_left : 0 <= bytes_until_read_sampling_ it < 2 ^ 40
}.

Lemma core_iter it Q q i q' : core it Q q -> it_at i es q' -> core (set_iter it i) Q q'.
Proof. intros [? ? ? ? ? ?] Hi. by split. Qed.
Lemma core_saved it Q q k v : core it Q q -> core (set_saved it k v) Q q.
Proof. intros [? ? ? ? ? ?]. by split. Qed.
Lemma core_state it Q q d v : core it Q q -> core (set_state it d v) Q q.
Proof. intros [? ? ? ? ? ?]. by split. Qed.

Lemma es_lookup q a : us !! q = Some a -> es !! q = Some (fst (update_entry a), snd (update_entry a)).
Proof. intros Ha. rewrite list_lookup_fmap, Ha. cbn. by destruct (update_entry a). Qed.

Lemma update_parts a : update_ok a ->
  ParseInternalKey (fst (update_entry a)) = Some (mkParsed (update_key a) (update_seq a) (update_type a)) /\
  ExtractUserKey (fst (update_entry a)) = Ret (update_key a) /\ snd (update_entry a) = update_value a /\
  str_size (fst (update_entry a)) + str_size (snd (update_entry a)) < 2 ^ 34.
Proof.
  destruct a as [[[s t] k] v]. intros (Hs & Hk & Hv). cbn. split; [exact (Parse_Append (mkParsed k s t) Hs)|].
  split; [apply ExtractUserKey_app; by apply packed_range|]. split; [done|]. rewrite key_size. lia.
Qed.

(** [ParseKey] reads the entry; of the state only the sampling changes. *)
Lemma ParseKey_ok it Q q a : core it Q q -> us !! q = Some a ->
  exists it', ParseKey it = Ret (it', Some (mkParsed (update_key a) (update_seq a) (update_type a))) /\ core it' Q q /\
    iter_ it' = iter_ it /\ saved_key_ it' = saved_key_ it /\ saved_value_ it' = saved_value_ it /\
    direction_ it' = direction_ it /\ valid_ it' = valid_ it.
Proof.
  intros [Hat Hs Hr Hok Hrnd Hl] Ha. pose proof (ok_at C us Ho q a Ha) as Hu. destruct (update_parts a Hu) as (Hp & _ & _ & Hsz).
  unfold ParseKey. destruct (at_entry _ _ _ _ _ Hat (es_lookup q a Ha)) as [-> ->]. cbn [mbind result_bind].
  pose proof (str_size_nonneg (fst (update_entry a))). pose proof (str_size_nonneg (snd (update_entry a))). rewrite wrap_small by lia.
  set (b := str_size _ + str_size _) in *.
  destruct (sample_ends (fst (update_entry a)) b (Z.to_nat b) (2 * Z.to_nat b) (db_ it) (rnd_ it) (bytes_until_read_sampling_ it)) as (db & rnd & bl & -> & Hge & Hle & Hr'); [lia..|].
  cbn [mbind result_bind]. rewrite Hp. eexists. split; [done|]. split; [|done]. split; cbn; try done. rewrite wrap_small by lia. lia.
Qed.

(** The entries the forward loop must not show any more: those before [lo], and those
    of a user key that was seen. *)
Definition consistent Q q (skipping : bool) (skip : str) (lo : nat) : Prop :=
  forall j a, (q <= j)%nat -> us !! j = Some a -> seen Q a = true ->
    (skipping = true /\ Compare (update_key a) skip <> Gt) <->
    ((j < lo)%nat \/ exists j' b, (j' < Nat.max q lo)%nat /\ us !! j' = Some b /\ seen Q b = true /\ Compare (update_key b) (update_key a) = Eq).

Definition quiet Q q lo : Prop := forall j a, (q <= j < lo)%nat -> us !! j = Some a -> seen Q a = true -> update_type a = kTypeValue.

Lemma consistent_step Q q b skip lo a : consistent Q q b skip lo -> us !! q = Some a ->
  (seen Q a = true -> b = true /\ Compare (update_key a) skip <> Gt) -> consistent Q (S q) b skip lo.
Proof.
  intros Hc Ha Hh j x Hj Hx Hs. rewrite (Hc j x ltac:(lia) Hx Hs). split; (intros [?|(j' & y & Hj' & Hy & Hsy & E)]; [by left|]).
  - right. exists j', y. split; [lia|done].
  - destruct (decide (j' = q)) as [->|]; [|right; exists j', y; split; [lia|done]]. rewrite Ha in Hy. injection Hy as <-.
    destruct (Hh Hsy) as [Hb Hle]. apply (Hc j x ltac:(lia) Hx Hs). split; [done|]. by rewrite <- (cmp_eq_l _ _ _ E).
Qed.

(** Behind a visible entry, its own key is the one to skip. *)
Lemma consistent_behind Q q a lo : us !! q = Some a -> seen Q a = true -> (lo <= S q)%nat -> consistent Q (S q) true (update_key a) lo.
Proof.
  intros Ha Hs Hlo j x Hj Hx Hsx. split.
  - intros [_ Hle]. right. exists q, a. split_and!; [lia|done|done|]. apply (key_le_eq C us Ho q j a x); [lia|done..].
  - intros [?|(j' & y & Hj' & Hy & Hsy & E)]; [lia|]. split; [done|]. rewrite <- (cmp_eq_l _ _ _ E).
    apply (key_order_at C us Ho j' q y a); [lia|done..].
Qed.

(** Going forward again from an entry that was found backwards. *)
Lemma consistent_again Q n m a : (n <= m)%nat -> us !! m = Some a -> seen Q a = true -> consistent Q n true (update_key a) (S m).
Proof.
  intros Hn Ha Hs j x Hj Hx Hsx. split.
  - intros [_ Hle]. destruct (decide (j <= m)%nat); [left; lia|]. right. exists m, a. split_and!; [lia|done|done|].
    apply (key_le_eq C us Ho m j a x); [lia|done..].
  - intros Hor. split; [done|]. destruct Hor as [Hlt|(j' & y & Hj' & Hy & Hsy & E)].
    + apply (key_order_at C us Ho j m x a); [lia|done..].
    + rewrite <- (cmp_eq_l _ _ _ E). apply (key_order_at C us Ho j' m y a); [lia|done..].
Qed.

(** Where the iterator stands, as a position in the view. *)
Definition stands it (Q : Z) (p : nat) : Prop :=
  exists q, core it Q q /\
  match valid_ it with
  | false => p = length (view C Q us)
  | true => exists m a, us !! m = Some a /\ shown C Q us m = true /\ p = cnt C Q us m /\
      match direction_ it with
      | kForward => q = m
      | kReverse => saved_key_ it = update_key a /\ saved_value_ it = update_value a /\
          exists n, (n <= m)%nat /\ q = pred_pos es n /\ forall j b, (n <= j < m)%nat -> us !! j = Some b -> seen Q b = false
      end
  end.

Lemma find_next_ok Q lo : forall fuel it q skipping, core it Q q -> direction_ it = kForward -> (q < length us)%nat -> (length us - q <= fuel)%nat ->
  consistent Q q skipping (saved_key_ it) lo -> quiet Q q lo -> (lo <= length us)%nat ->
  exists it', find_next fuel it skipping = Ret it' /\ stands it' Q (cnt C Q us (Nat.max q lo)).
Proof.
  induction fuel as [|fuel IH]; intros it q sk Hco Hdir Hq Hf Hcons Hquiet Hlo; [lia|]. cbn [find_next].
  destruct (lookup_lt_is_Some_2 us q Hq) as [a Ha]. destruct (ParseKey_ok it Q q a Hco Ha) as (it1 & -> & Hco1 & Ei & Ek & Ev & Ed & Eva).
  cbn [mbind result_bind user_key sequence type]. rewrite (co_seq _ _ _ Hco1). fold (seen Q a).
  (* what happens when the entry is passed by *)
  assert (forall it2 sk2, core it2 Q q -> direction_ it2 = kForward -> consistent Q (S q) sk2 (saved_key_ it2) lo ->
    ((q < lo)%nat \/ shown C Q us q = false) ->
    exists it', (i ← it_Next (iter_ it2); let it := set_iter it2 i in if it_Valid i then find_next fuel it sk2
        else Ret (set_state (set_saved it [] (saved_value_ it)) (direction_ it) false)) = Ret it' /\ stands it' Q (cnt C Q us (Nat.max q lo))) as Hpass.
  { intros it2 sk2 Hco2 Hd2 Hc2 Hh. destruct (at_next _ _ _ (co_at _ _ _ Hco2)) as (i & -> & Hi); [by rewrite length_map|]. cbn [mbind result_bind].
    rewrite (at_valid _ _ _ Hi), length_map. assert (cnt C Q us (Nat.max q lo) = cnt C Q us (Nat.max (S q) lo)) as Ecnt.
    { destruct (decide (q < lo)%nat); [f_equal; lia|]. destruct Hh as [|Hh]; [lia|]. replace (Nat.max q lo) with q by lia. replace (Nat.max (S q) lo) with (S q) by lia.
      by rewrite cnt_hidden. }
    rewrite Ecnt. destruct (Nat.ltb_spec (S q) (length us)) as [Hlt|Hge].
    - apply (IH (set_iter it2 i) (S q) sk2); [by eapply core_iter|done|done|lia|done| |done]. intros j x Hj. apply Hquiet. lia.
    - eexists. split; [done|]. exists (S q). split; [apply core_state, core_saved; by eapply core_iter|]. cbn. rewrite <- (view_all C Q us). unfold cnt. do 2 f_equal. lia. }
  assert (shown C Q us q = true -> exists b, us !! q = Some b /\ seen Q b = true /\ update_type b = kTypeValue /\
    forall j x, (j < q)%nat -> us !! j = Some x -> seen Q x = true -> Compare (update_key x) (update_key b) <> Eq) as Hsh by (apply shown_spec).
  destruct (seen Q a) eqn:Hs.
  - destruct (update_type a) eqn:Ht.
    + (* a deletion hides the entries behind it *)
      cbv iota beta. apply Hpass; [by apply core_saved|cbn; congruence| |].
      * cbn [set_saved saved_key_]. apply consistent_behind; [done|done|]. destruct (decide (lo <= S q)%nat); [done|]. exfalso.
        pose proof (Hquiet q a ltac:(lia) Ha Hs). congruence.
      * right. destruct (shown C Q us q); [|done]. destruct (Hsh eq_refl) as (b & Hb & _ & Htb & _). rewrite Ha in Hb. injection Hb as <-. congruence.
    + destruct (sk && is_le (Compare (update_key a) (saved_key_ it1))) eqn:Hhid.
      * (* hidden *)
        apply andb_true_iff in Hhid as [-> Hle]. assert (Compare (update_key a) (saved_key_ it) <> Gt) as Hle'.
        { rewrite <- Ek. by destruct (Compare (update_key a) (saved_key_ it1)). }
        cbv iota beta. apply Hpass; [done|congruence| |].
        -- rewrite Ek. apply (consistent_step Q q true _ lo a Hcons Ha). done.
        -- destruct (proj1 (Hcons q a ltac:(lia) Ha Hs) (conj eq_refl Hle')) as [?|(j' & x & Hj' & Hx & Hsx & E)]; [by left|].
           destruct (decide (q < lo)%nat); [by left|]. right. destruct (shown C Q us q); [|done]. destruct (Hsh eq_refl) as (b & Hb & _ & _ & Hfirst).
           rewrite Ha in Hb. injection Hb as <-. destruct (Hfirst j' x ltac:(lia) Hx Hsx E).
      * (* shown *)
        eexists. split; [done|]. assert (~ (sk = true /\ Compare (update_key a) (saved_key_ it) <> Gt)) as Hnot.
        { rewrite <- Ek. intros [-> Hle]. by destruct (Compare (update_key a) (saved_key_ it1)). }
        rewrite (Hcons q a ltac:(lia) Ha Hs) in Hnot. exists q. split; [by apply core_saved, core_state|]. cbn. exists q, a. split; [done|].
        assert (lo <= q)%nat as Hlq by (destruct (decide (lo <= q)%nat); [done|]; exfalso; apply Hnot; left; lia).
        replace (Nat.max q lo) with q in * by lia. split; [|split; [done|by rewrite Ed, Hdir]].
        apply shown_spec. exists a. split_and!; try done. intros j x Hj Hx Hsx E. apply Hnot. right. by exists j, x.
  - cbv iota beta. apply Hpass; [done|congruence| |].
    + rewrite Ek. apply (consistent_step Q q sk _ lo a Hcons Ha). congruence.
    + right. destruct (shown C Q us q); [|done]. destruct (Hsh eq_refl) as (b & Hb & Hsb & _). rewrite Ha in Hb. injection Hb as <-. congruence.
Qed.


(** The state of the backward loop: entries [n..hi) have been passed, and [vt] says
    whether the saved entry may be the one to show. *)
Definition pending Q n hi (vt : ValueType) (k v : str) : Prop :=
  match vt with
  | kTypeDeletion => forall s, (n <= s < hi)%nat -> shown C Q us s = false
  | kTypeValue => exists m a, (n <= m < hi)%nat /\ us !! m = Some a /\ seen Q a = true /\ update_type a = kTypeValue /\
      k = update_key a /\ v = update_value a /\ (forall j b, (n <= j < m)%nat -> us !! j = Some b -> seen Q b = false) /\
      (forall s, (n <= s < hi)%nat -> shown C Q us s = true -> s = m)
  end.

(** What the loop ends with. *)
Definition found_prev it Q hi n (vt : ValueType) : Prop :=
  match vt with
  | kTypeDeletion => forall s, (s < hi)%nat -> shown C Q us s = false
  | kTypeValue => exists m a, (n <= m < hi)%nat /\ us !! m = Some a /\ shown C Q us m = true /\
      saved_key_ it = update_key a /\ saved_value_ it = update_value a /\ (forall j b, (n <= j < m)%nat -> us !! j = Some b -> seen Q b = false) /\
      (forall s, (m < s < hi)%nat -> shown C Q us s = false)
  end.

Lemma shown_seen Q m a : us !! m = Some a -> seen Q a = false -> shown C Q us m = false.
Proof. intros Ha Hs. unfold shown. by rewrite Ha, Hs. Qed.

(** A pending entry with only smaller keys before it is shown. *)
Lemma pending_found it Q n hi : pending Q n hi kTypeValue (saved_key_ it) (saved_value_ it) ->
  (forall j b, (j < n)%nat -> us !! j = Some b -> seen Q b = true -> Compare (update_key b) (saved_key_ it) <> Eq) ->
  found_prev it Q hi n kTypeValue.
Proof.
  intros (m & a & Hm & Ha & Hs & Ht & Ek & Ev & Hgap & Huniq) Hbefore. exists m, a. split_and!; try (done || lia); [|].
  - apply shown_spec. exists a. split_and!; try done. intros j b Hj Hb Hsb. destruct (decide (j < n)%nat); [rewrite <- Ek; by eapply Hbefore|].
    exfalso. rewrite (Hgap j b ltac:(lia) Hb) in Hsb. done.
  - intros s Hs'. destruct (shown C Q us s) eqn:E; [|done]. pose proof (Huniq s ltac:(lia) E). lia.
Qed.

Lemma find_prev_ok Q hi : forall n fuel it vt, core it Q (pred_pos es n) -> (n <= hi)%nat -> (hi <= length us)%nat -> (n <= fuel)%nat ->
  pending Q n hi vt (saved_key_ it) (saved_value_ it) ->
  exists it' vt' n', find_prev fuel it vt = Ret (it', vt') /\ core it' Q (pred_pos es n') /\ found_prev it' Q hi n' vt' /\ direction_ it' = direction_ it.
Proof.
  induction n as [|n IH]; intros fuel it vt Hco Hn Hhi Hf Hp.
  - assert (it_Valid (iter_ it) = false) as Hv by (rewrite (at_valid _ _ _ (co_at _ _ _ Hco)); apply Nat.ltb_irrefl).
    exists it, vt, O. split; [destruct fuel; cbn [find_prev]; by rewrite Hv|]. split; [done|]. split; [|done]. destruct vt.
    + intros s Hs. apply Hp. lia.
    + apply pending_found; [done|]. intros j b Hj. lia.
  - destruct fuel as [|fuel]; [lia|]. cbn [find_prev pred_pos] in *. destruct (lookup_lt_is_Some_2 us n) as [a Ha]; [lia|].
    assert (it_Valid (iter_ it) = true) as -> by (rewrite (at_valid _ _ _ (co_at _ _ _ Hco)), length_map; apply Nat.ltb_lt; lia).
    cbn [negb]. destruct (ParseKey_ok it Q n a Hco Ha) as (it1 & -> & Hco1 & Ei & Ek & Ev & Ed & Eva). cbn [mbind result_bind user_key sequence type].
    rewrite (co_seq _ _ _ Hco1). fold (seen Q a).
    assert (forall it2 vt2, core it2 Q n -> direction_ it2 = direction_ it -> pending Q n hi vt2 (saved_key_ it2) (saved_value_ it2) ->
      exists it' vt' n', (i ← it_Prev (iter_ it2); find_prev fuel (set_iter it2 i) vt2) = Ret (it', vt') /\ core it' Q (pred_pos es n') /\
        found_prev it' Q hi n' vt' /\ direction_ it' = direction_ it) as Hgo.
    { intros it2 vt2 Hco2 Hd2 Hp2. destruct (at_prev _ _ _ (co_at _ _ _ Hco2)) as (i & -> & Hi); [rewrite length_map; lia|]. cbn [mbind result_bind].
      rewrite <- Hd2. apply (IH fuel (set_iter it2 i) vt2); [by eapply core_iter|lia|done|lia|done]. }
    destruct (seen Q a) eqn:Hs.
    + destruct (negb (bool_decide (vt = kTypeDeletion)) && is_lt (Compare (update_key a) (saved_key_ it1))) eqn:Hbreak.
      * apply andb_true_iff in Hbreak as [Hvt Hlt]. destruct vt; [by rewrite bool_decide_true in Hvt|].
        exists it1, kTypeValue, (S n). split; [done|]. split; [done|]. split; [|done]. apply pending_found; [by rewrite Ek, Ev|].
        intros j b Hj Hb _ E. pose proof (key_order_at C us Ho j n b a ltac:(lia) Hb Ha) as Hle.
        rewrite (cmp_eq_l _ _ _ E) in Hle. rewrite cmp_antisym in Hle. by destruct (Compare (update_key a) (saved_key_ it1)).
      * assert (forall s, (S n <= s < hi)%nat -> shown C Q us s = false) as Hnone.
        { intros s Hsr. destruct (shown C Q us s) eqn:Es; [|done]. destruct vt; [by rewrite (Hp s Hsr) in Es|].
          destruct Hp as (m & b & Hm & Hb & Hsb & _ & Ekm & _ & _ & Huniq). pose proof (Huniq s Hsr Es) as ->. rewrite bool_decide_false in Hbreak by done. cbn in Hbreak.
          rewrite Ek, Ekm in Hbreak. pose proof (key_order_at C us Ho n m a b ltac:(lia) Ha Hb) as Hle.
          apply shown_spec in Es as (b' & Hb' & _ & _ & Hfirst). rewrite Hb in Hb'. injection Hb' as <-. specialize (Hfirst n a ltac:(lia) Ha Hs).
          by destruct (Compare (update_key a) (update_key b)). }
        destruct (update_type a) eqn:Ht; cbn [mbind result_bind].
        -- apply Hgo; [by apply core_saved|cbn; congruence|]. intros s Hsr. destruct (decide (s = n)) as [->|]; [|apply Hnone; lia].
           unfold shown. by rewrite Ha, Ht, andb_false_r.
        -- destruct (update_parts a (ok_at C us Ho n a Ha)) as (_ & Hu & Hval & _). destruct (at_entry _ _ _ _ _ (co_at _ _ _ Hco1) (es_lookup n a Ha)) as [-> ->].
           cbn [mbind result_bind]. rewrite Hu. cbn [mbind result_bind]. apply Hgo; [by apply core_saved|cbn; congruence|].
           exists n, a. split_and!; [lia|lia|done|done|done|done|cbn; by rewrite Hval|intros; lia|].
           intros s Hsr Es. destruct (decide (s = n)); [done|]. rewrite Hnone in Es by lia. done.
    + apply Hgo; [done|congruence|]. rewrite Ek, Ev. destruct vt.
      * intros s Hsr. destruct (decide (s = n)) as [->|]; [by eapply shown_seen|apply Hp; lia].
      * destruct Hp as (m & b & Hm & Hb & Hsb & Ht & E1 & E2 & Hgap & Huniq). exists m, b. split_and!; try done; [lia|lia| |].
        -- intros j x Hj Hx. destruct (decide (j = n)) as [->|]; [congruence|apply (Hgap j x); [lia|done]].
        -- intros s Hsr Es. destruct (decide (s = n)) as [->|]; [by rewrite (shown_seen Q n a Ha Hs) in Es|apply Huniq; [lia|done]].
Qed.

(** [FindPrevUserEntry] from the entries before [hi]. *)
Lemma FindPrev_ok turns it Q hi : core it Q (pred_pos es hi) -> direction_ it = kReverse -> (hi <= length us)%nat -> (hi <= turns)%nat ->
  exists it', FindPrevUserEntry turns it = Ret it' /\
    stands it' Q (match cnt C Q us hi with O => length (view C Q us) | S p => p end).
Proof.
  intros Hco Hd Hhi Hf. unfold FindPrevUserEntry. rewrite Hd.
  destruct (find_prev_ok Q hi hi turns it kTypeDeletion Hco) as (it' & vt & n & -> & Hco' & Hfound & Hd'); [done|done|done|intros s Hs; lia|].
  cbn [mbind result_bind]. destruct vt; (eexists; split; [done|]).
  - assert (cnt C Q us hi = O) as ->; [|exists (pred_pos es n); split; [by apply core_state, core_saved|done]].
    rewrite (cnt_hidden_range C Q us 0 hi); [done|lia|]. intros s Hs. apply Hfound. lia.
  - destruct Hfound as (m & a & Hm & Ha & Hsh & Ek & Ev & Hgap & Hnone). exists (pred_pos es n). split; [by apply core_state|]. cbn.
    exists m, a. split_and!; try (done || lia); [|exists n; split_and!; done || lia].
    rewrite (cnt_hidden_range C Q us (S m) hi), cnt_shown; [done|done|lia|]. intros s Hs. apply Hnone. lia.
Qed.

(** [Prev] backs up to the entries of smaller keys. *)
Lemma back_up_ok m a : us !! m = Some a -> forall n fuel i, it_at i es n -> (n <= m)%nat -> (n < fuel)%nat ->
  (forall j b, (n <= j < m)%nat -> us !! j = Some b -> Compare (update_key b) (update_key a) = Eq) ->
  exists n' found i', back_up fuel (update_key a) i = Ret (found, i') /\ (n' <= m)%nat /\ it_at i' es (pred_pos es n') /\
    (match found with None => n' = O | Some _ => True end) /\
    (forall j b, (n' <= j < m)%nat -> us !! j = Some b -> Compare (update_key b) (update_key a) = Eq).
Proof.
  intros Ha. induction n as [|n IH]; intros fuel i Hat Hn Hf Heq; (destruct fuel as [|fuel]; [lia|]); cbn [back_up];
    pose proof (lookup_lt_Some _ _ _ Ha); (destruct (at_prev _ _ _ Hat) as (i1 & -> & Hi1); [rewrite length_map; lia|]); cbn [mbind result_bind];
    rewrite (at_valid _ _ _ Hi1).
  - rewrite Nat.ltb_irrefl. exists O, None, i1. by split_and!; [|lia|..].
  - rewrite length_map. destruct (Nat.ltb_spec n (length us)); [|lia]. destruct (lookup_lt_is_Some_2 us n) as [b Hb]; [lia|].
    destruct (at_entry _ _ _ _ _ Hi1 (es_lookup n b Hb)) as [-> _]. cbn [mbind result_bind].
    destruct (update_parts b (ok_at C us Ho n b Hb)) as (_ & -> & _). cbn [mbind result_bind].
    pose proof (key_order_at C us Ho n m b a ltac:(lia) Hb Ha) as Hle. destruct (Compare (update_key b) (update_key a)) eqn:E; cbn [is_lt]; [|by exists (S n), (Some i1), i1; split_and!|done].
    destruct (IH fuel i1 Hi1 ltac:(lia) ltac:(lia)) as (n' & found & i' & Hr & Hres); [|by exists n', found, i'].
    intros j x Hj Hx. destruct (decide (j = n)) as [->|]; [congruence|apply (Heq j x); [lia|done]].
Qed.


(** *** The operations *)

(** The first entry at or behind a target has only smaller or invisible keys before it. *)
Lemma seek_before Q target j b : 0 <= Q <= kMaxSequenceNumber -> us !! j = Some b -> seen Q b = true ->
  (j < seek_pos (C := internal_comparator C) (target ++ EncodeFixed64 (packed Q kTypeValue)) es)%nat <-> Compare (update_key b) target = Lt.
Proof.
  intros HQ Hb Hs. pose proof (ok_at C us Ho j b Hb) as Hu. set (T := target ++ _).
  assert (Compare (Comparator := internal_comparator C) (fst (update_entry b)) T = Lt <-> Compare (update_key b) target = Lt) as Hc.
  { unfold T. rewrite entry_compare by done. unfold ikey_order. destruct (Compare (update_key b) target); [|done..]. rewrite Z.compare_lt_iff.
    unfold seen in Hs. apply Z.leb_le in Hs. unfold packed. destruct (update_type b); cbn; split; [lia|done|lia|done]. }
  rewrite <- Hc. pose proof (es_lookup j b Hb) as He. split.
  - intros Hlt. exact (seek_pos_before (C := internal_comparator C) T es j _ He Hlt).
  - intros Hlt. exact (seek_pos_gt (C := internal_comparator C) T es j _ (or_sorted _ _ Ho) He Hlt).
Qed.

Section moves.
Context (turns : nat) (Hturns : (length us < turns)%nat).

Lemma FindNext_ok it Q q skipping lo : core it Q q -> direction_ it = kForward -> (q < length us)%nat ->
  consistent Q q skipping (saved_key_ it) lo -> quiet Q q lo -> (lo <= length us)%nat ->
  exists it', FindNextUserEntry turns it skipping = Ret it' /\ stands it' Q (cnt C Q us (Nat.max q lo)).
Proof.
  intros Hco Hd Hq Hc Hqu Hlo. unfold FindNextUserEntry. rewrite (at_valid _ _ _ (co_at _ _ _ Hco)), length_map, (proj2 (Nat.ltb_lt _ _) Hq), Hd.
  by apply find_next_ok; [..|lia| | |].
Qed.

(** [FindNextUserEntry(false, ...)] or the end. *)
Lemma first_from it Q q : core it Q q -> direction_ it = kForward -> consistent Q q false (saved_key_ it) 0 -> (q <= length us)%nat ->
  exists it', (if it_Valid (iter_ it) then FindNextUserEntry turns it false else Ret (set_state it kForward false)) = Ret it' /\
    stands it' Q (cnt C Q us q).
Proof.
  intros Hco Hd Hc Hq. rewrite (at_valid _ _ _ (co_at _ _ _ Hco)), length_map. destruct (Nat.ltb_spec q (length us)) as [Hlt|Hge].
  - rewrite <- (Nat.max_0_r q). apply FindNext_ok; try done; [|lia]. intros j a Hj. lia.
  - eexists. split; [done|]. exists q. split; [by apply core_state|]. cbn. unfold cnt. rewrite <- (view_all C Q us). do 2 f_equal. lia.
Qed.

Lemma it_stands_first it Q p : stands it Q p -> exists it', SeekToFirst turns it = Ret it' /\ stands it' Q 0.
Proof.
  intros (q & Hco & _). unfold SeekToFirst. destruct (at_first _ _ _ (co_at _ _ _ Hco)) as (i & -> & Hi). cbn [mbind result_bind].
  apply (first_from (set_iter (set_saved (set_state it kForward (valid_ it)) (saved_key_ it) []) i) Q 0); [|done| |lia].
  - eapply core_iter; [apply core_saved, core_state|]; done.
  - intros j a Hj Ha Hs. split; [by intros [? _]|]. intros [?|(j' & b & ? & _)]; lia.
Qed.

Lemma it_stands_last it Q p : stands it Q p -> exists it', SeekToLast turns it = Ret it' /\ stands it' Q (length (view C Q us) - 1).
Proof.
  intros (q & Hco & _). unfold SeekToLast. destruct (at_last _ _ _ (co_at _ _ _ Hco)) as (i & -> & Hi). cbn [mbind result_bind].
  destruct (FindPrev_ok turns (set_iter (set_saved (set_state it kReverse (valid_ it)) (saved_key_ it) []) i) Q (length us)) as (it' & Hr & Hst); [|done|lia|lia|].
  - eapply core_iter; [apply core_saved, core_state; done|]. rewrite length_map in Hi. destruct us as [|a us']; [done|]. cbn [length pred_pos] in *. by replace (S (length us') - 1)%nat with (length us') in Hi by lia.
  - exists it'. split; [done|]. unfold cnt in Hst. rewrite view_all in Hst. destruct (view C Q us) as [|e l]; cbn [length] in *; [done|]. by replace (S (length l) - 1)%nat with (length l) by lia.
Qed.

Lemma it_stands_seek it Q p target (ok : str -> Prop) {SO : SeekOn ok (internal_comparator C) IL} :
  ok (target ++ EncodeFixed64 (packed Q kTypeValue)) -> stands it Q p ->
  exists it', Seek turns it target = Ret it' /\ stands it' Q (seek_pos target (view C Q us)).
Proof.
  intros Hok (q & Hco & _). unfold Seek. rewrite (co_seq _ _ _ Hco), AppendInternalKey_ok by apply (co_range _ _ _ Hco). cbn [mbind result_bind app user_key sequence type].
  change kValueTypeForSeek with kTypeValue. set (T := target ++ EncodeFixed64 (packed Q kTypeValue)) in *.
  destruct (at_seek_on _ _ _ T Hok (co_at _ _ _ Hco) (or_sorted _ _ Ho)) as (i & -> & Hi). cbn [mbind result_bind].
  set (s := seek_pos (C := internal_comparator C) T es) in *. pose proof (at_le _ _ _ Hi) as Hle. rewrite length_map in Hle.
  assert (seek_pos target (view C Q us) = cnt C Q us s) as ->.
  { apply seek_pos_unique; [by apply cnt_le| |].
    - intros j e Hj He. rewrite (view_split C Q us s Hle), lookup_app_l in He by done. apply list_elem_of_lookup_2, shown_before_elem in He as (j' & b & Hj' & Hsh & Hb & ->).
      apply shown_spec in Hsh as (b' & Hb' & Hsb & _). rewrite Hb in Hb'. injection Hb' as <-. by apply (seek_before Q target j' b (co_range _ _ _ Hco) Hb Hsb).
    - intros e He. rewrite (view_split C Q us s Hle), lookup_app_r in He by done. apply list_elem_of_lookup_2, list_elem_of_omap in He as (j & Hj%elem_of_seq & Hp).
      unfold pick in Hp. destruct (shown C Q us j) eqn:Hsh; [|done]. apply fmap_Some in Hp as (b & Hb & ->). apply shown_spec in Hsh as (b' & Hb' & Hsb & _).
      rewrite Hb in Hb'. injection Hb' as <-. intros Hlt. apply (seek_before Q target j b (co_range _ _ _ Hco) Hb Hsb) in Hlt. fold T in Hlt. fold s in Hlt. lia. }
  apply (first_from (set_iter (set_saved (set_state it kForward (valid_ it)) T []) i) Q s); [|done| |done].
  - eapply core_iter; [apply core_saved, core_state|]; done.
  - intros j a Hj Ha Hs. split; [by intros [? _]|]. intros [?|(j' & b & Hj' & Hb & Hsb & E)]; [lia|].
    exfalso. assert (Compare (update_key b) target = Lt) as Hlt by (apply (seek_before Q target j' b (co_range _ _ _ Hco) Hb Hsb); fold T; fold s; lia).
    rewrite (cmp_eq_l _ _ _ E) in Hlt. apply (seek_before Q target j a (co_range _ _ _ Hco) Ha Hs) in Hlt. fold T in Hlt. fold s in Hlt. lia.
Qed.

Lemma it_stands_next it Q p : stands it Q p -> (p < length (view C Q us))%nat -> exists it', Next turns it = Ret it' /\ stands it' Q (S p).
Proof.
  intros (q & Hco & Hpos) Hp. unfold Next. destruct (valid_ it) eqn:Ev; [|lia]. cbn [negb]. destruct Hpos as (m & a & Ha & Hsh & -> & Hdir).
  pose proof (lookup_lt_Some _ _ _ Ha) as Hm. pose proof Hsh as (a' & Ha' & Hs & Ht & _)%shown_spec. rewrite Ha in Ha'. injection Ha' as <-.
  rewrite <- (cnt_shown C Q us m Hsh). destruct (direction_ it) eqn:Ed.
  - subst q. destruct (at_entry _ _ _ _ _ (co_at _ _ _ Hco) (es_lookup m a Ha)) as [-> _]. cbn [mbind result_bind].
    destruct (update_parts a (ok_at C us Ho m a Ha)) as (_ & -> & _). cbn [mbind result_bind].
    destruct (at_next _ _ _ (co_at _ _ _ Hco)) as (i & -> & Hi); [by rewrite length_map|]. cbn [mbind result_bind iter_ set_iter].
    rewrite (at_valid _ _ _ Hi), length_map. destruct (Nat.ltb_spec (S m) (length us)) as [Hlt|Hge].
    + rewrite <- (Nat.max_0_r (S m)). apply FindNext_ok; [eapply core_iter; [by apply core_saved|done]|done|done| |intros j x Hj; lia|lia].
      cbn. by apply consistent_behind; [..|lia].
    + eexists. split; [done|]. exists (S m). split; [apply core_saved, core_state; eapply core_iter; [by apply core_saved|done]|].
      change (cnt C Q us (S m) = length (view C Q us)). by replace (S m) with (length us) by lia.
  - destruct Hdir as (Ek & _ & n & Hn & -> & Hgap).
    assert (exists i, (if it_Valid (iter_ it) then it_Next (iter_ it) else it_SeekToFirst (iter_ it)) = Ret i /\ it_at i es n) as (i & -> & Hi).
    { rewrite (at_valid _ _ _ (co_at _ _ _ Hco)), length_map. destruct n as [|n]; cbn [pred_pos].
      - rewrite length_map, Nat.ltb_irrefl. by apply (at_first _ _ _ (co_at _ _ _ Hco)).
      - destruct (Nat.ltb_spec n (length us)); [|lia]. apply (at_next _ _ _ (co_at _ _ _ Hco)). rewrite length_map. cbn. lia. }
    cbn [mbind result_bind iter_ set_iter]. rewrite (at_valid _ _ _ Hi), length_map. destruct (Nat.ltb_spec n (length us)); [|lia].
    replace (cnt C Q us (S m)) with (cnt C Q us (Nat.max n (S m))) by (f_equal; lia).
    apply FindNext_ok; [eapply core_iter; [by apply core_state|done]|done|done| | |lia].
    + cbn. rewrite Ek. by apply consistent_again.
    + intros j x Hj Hx Hsx. destruct (decide (j = m)) as [->|]; [congruence|]. rewrite (Hgap j x) in Hsx by (done || lia). done.
Qed.

Lemma it_stands_prev it Q p : stands it Q p -> (p < length (view C Q us))%nat ->
  exists it', Prev turns it = Ret it' /\ stands it' Q (match p with O => length (view C Q us) | S j => j end).
Proof.
  intros (q & Hco & Hpos) Hp. unfold Prev. destruct (valid_ it) eqn:Ev; [|lia]. cbn [negb]. destruct Hpos as (m & a & Ha & Hsh & -> & Hdir).
  pose proof (lookup_lt_Some _ _ _ Ha) as Hm. pose proof Hsh as (a' & Ha' & Hs & Ht & Hfirst)%shown_spec. rewrite Ha in Ha'. injection Ha' as <-.
  destruct (direction_ it) eqn:Ed.
  - subst q. rewrite (at_valid _ _ _ (co_at _ _ _ Hco)), length_map, (proj2 (Nat.ltb_lt _ _) Hm). cbn [negb].
    destruct (at_entry _ _ _ _ _ (co_at _ _ _ Hco) (es_lookup m a Ha)) as [-> _]. cbn [mbind result_bind].
    destruct (update_parts a (ok_at C us Ho m a Ha)) as (_ & -> & _). cbn [mbind result_bind].
    destruct (back_up_ok m a Ha m turns (iter_ it) (co_at _ _ _ Hco)) as (n & found & i & -> & Hn & Hi & Hnone & Heq); [lia|lia|intros; lia|].
    cbn [mbind result_bind]. assert (cnt C Q us m = cnt C Q us n) as ->.
    { apply cnt_hidden_range; [done|]. intros s Hsr. destruct (shown C Q us s) eqn:Es; [|done]. apply shown_spec in Es as (b & Hb & Hsb & _).
      by destruct (Hfirst s b ltac:(lia) Hb Hsb (Heq s b ltac:(lia) Hb)). }
    destruct found as [i'|].
    + apply FindPrev_ok; [apply core_state, core_saved; by eapply core_iter|done|lia|lia].
    + subst n. eexists. split; [done|]. exists (pred_pos es 0). by split; [apply core_state, core_saved; eapply core_iter|].
  - destruct Hdir as (Ek & Evl & n & Hn & -> & Hgap). rewrite (cnt_hidden_range C Q us n m Hn).
    + apply FindPrev_ok; [done|done|lia|lia].
    + intros s Hsr. destruct (lookup_lt_is_Some_2 us s) as [b Hb]; [lia|]. by apply (shown_seen Q s b Hb), (Hgap s b).
Qed.

End moves.
End iter.

(** ** The contract of iterators *)

Section laws.
Context {I D : Type} {IT : Iterator I} {IL : IteratorLaws IT} {RS : ReadSampler D} (C : Comparator) {HC : ComparatorLaws C}.
Context (turns : nat).

(** The iterator ranges over the view of the entries below it. *)
Definition db_iter_at (it : DBIter.DBIter I D) (vs : list entry) (p : nat) : Prop :=
  exists us Q, ordered C us /\ (length us < turns)%nat /\ vs = view C Q us /\ stands C us it Q p.

Lemma stands_entry us (it : DBIter.DBIter I D) Q p k v : ordered C us -> stands C us it Q p -> view C Q us !! p = Some (k, v) ->
  DBIter.Valid it = true /\ DBIter.key it = Ret k /\ DBIter.value it = Ret v.
Proof.
  intros Ho (q & Hco & Hpos) He. unfold DBIter.Valid, DBIter.key, DBIter.value. destruct (DBIter.valid_ it); [|apply lookup_lt_Some in He; lia].
  destruct Hpos as (m & a & Ha & Hsh & -> & Hdir). rewrite (view_lookup C Q us m a Hsh Ha) in He. injection He as <- <-. split; [done|].
  destruct (DBIter.direction_ it).
  - subst q. destruct (update_parts a (ok_at C us Ho m a Ha)) as (_ & Hu & Hv & _). destruct (at_entry _ _ _ _ _ (co_at _ _ _ _ Hco) (es_lookup us m a Ha)) as [-> ->].
    cbn [mbind result_bind]. by rewrite Hu, Hv.
  - by destruct Hdir as (-> & -> & _).
Qed.

#[global] Program Instance DBIter_laws : IteratorLaws (DBIter.DBIter_ops (I := I) (D := D) (C := C) turns) := { it_at := db_iter_at }.
Next Obligation.
  intros it vs p (us & Q & Ho & _ & -> & q & Hco & Hpos). destruct (DBIter.valid_ it); [|lia]. destruct Hpos as (m & a & Ha & _ & -> & _).
  apply cnt_le. apply lookup_lt_Some in Ha. lia.
Qed.
Next Obligation.
  intros it vs p (us & Q & Ho & _ & -> & q & Hco & Hpos). unfold it_Valid, DBIter.DBIter_ops, DBIter.Valid. symmetry. destruct (DBIter.valid_ it).
  - destruct Hpos as (m & a & Ha & Hsh & -> & _). apply Nat.ltb_lt. eapply lookup_lt_Some. by apply (view_lookup C Q us m a).
  - subst p. apply Nat.ltb_irrefl.
Qed.
Next Obligation. intros it vs p k v (us & Q & Ho & _ & -> & Hst) He. by eapply stands_entry. Qed.
Next Obligation.
  intros it vs p (us & Q & Ho & _ & -> & q & Hco & _). unfold it_status, DBIter.DBIter_ops, DBIter.status. rewrite (co_ok _ _ _ _ Hco). cbn.
  exact (at_status _ _ _ (co_at _ _ _ _ Hco)).
Qed.
Next Obligation. intros it vs p (us & Q & Ho & Ht & -> & Hst). destruct (it_stands_first C us Ho turns Ht it Q p Hst) as (it' & Hr & Hst'). exists it'. split; [done|]. by exists us, Q. Qed.
Next Obligation. intros it vs p (us & Q & Ho & Ht & -> & Hst). destruct (it_stands_last C us Ho turns Ht it Q p Hst) as (it' & Hr & Hst'). exists it'. split; [done|]. by exists us, Q. Qed.
Next Obligation. intros it vs p (us & Q & Ho & Ht & -> & Hst) Hp. destruct (it_stands_next C us Ho turns Ht it Q p Hst Hp) as (it' & Hr & Hst'). exists it'. split; [done|]. by exists us, Q. Qed.
Next Obligation. intros it vs p (us & Q & Ho & Ht & -> & Hst) Hp. destruct (it_stands_prev C us Ho turns Ht it Q p Hst Hp) as (it' & Hr & Hst'). exists it'. split; [done|]. by exists us, Q. Qed.

(** A new iterator, not positioned yet. *)
Lemma make_db_iter us (i : I) n (db : D) Q seed : ordered C us -> (length us < turns)%nat -> it_at i (map update_entry us) n -> 0 <= Q <= kMaxSequenceNumber ->
  stands C us (DBIter.make db i Q seed) Q (length (view C Q us)).
Proof.
  intros Ho Ht Hat HQ. unfold DBIter.make. assert (1 <= Random.make seed < Random.M) as Hr.
  { unfold Random.make, Random.M. change 2147483647 with (Z.ones 31). rewrite Z.land_ones by lia. pose proof (Z.mod_pos_bound seed (2 ^ 31) ltac:(lia)).
    change (Z.ones 31) with 2147483647. destruct (Z.eqb_spec (seed mod 2 ^ 31) 0), (Z.eqb_spec (seed mod 2 ^ 31) 2147483647); cbn [orb]; lia. }
  pose proof (draws_not_zero _ Hr) as Hd. destruct (DBIter.RandomCompactionPeriod (Random.make seed)) as [p r]. destruct (DBIter.RandomCompactionPeriod r) as [p2 r2].
  destruct Hd as (_ & Hr1 & Hp & _). exists n. split; [|done]. split; cbn; done || lia.
Qed.

(** *** The view and lookups agree *)

Lemma newest_first us k Q : ordered C us -> newest C k Q us = List.find (visible C k Q) us.
Proof.
  intros Ho. induction us as [|a us IH]; [done|]. assert (ordered C us) as Ho'.
  { destruct Ho as [Hok Hs]. split; [by apply Forall_cons_1 in Hok as [_ ?]|]. by apply StronglySorted_inv in Hs as [? _]. }
  cbn [newest foldr List.find]. fold (newest C k Q us). rewrite (IH Ho'). destruct (visible C k Q a) eqn:Ea; [|done].
  destruct (List.find (visible C k Q) us) as [b|] eqn:Eb; [|done]. apply find_some in Eb as [Hb Hvb].
  destruct (Z.ltb_spec (update_seq a) (update_seq b)) as [Hlt|]; [|done]. exfalso. apply list_elem_of_In in Hb.
  destruct Ho as [Hok Hs]. apply StronglySorted_inv in Hs as [_ Hf]. rewrite Forall_forall in Hf.
  apply Forall_cons_1 in Hok as [Hoa Hok]. rewrite Forall_forall in Hok. specialize (Hf (update_entry b) ltac:(by apply list_elem_of_fmap_2)).
  rewrite update_compare in Hf by auto. unfold ikey_order, visible in *.
  destruct (Compare (update_key a) k) eqn:Eka; [|done..]. destruct (Compare (update_key b) k) eqn:Ekb; [|done..].
  rewrite (cmp_eq_r _ _ _ Ekb), Eka in Hf. rewrite Z.compare_lt_iff in Hf. unfold packed in Hf. destruct (update_type a), (update_type b); cbn in Hf; lia.
Qed.

(** A key is in the view with a value exactly when its newest visible update is that value. *)
Lemma view_newest us k v Q : ordered C us ->
  (exists k', (k', v) ∈ view C Q us /\ Compare k' k = Eq) <-> answer <$> newest C k Q us = Some (inl v).
Proof.
  intros Ho. rewrite (newest_first us k Q Ho). split.
  - intros (k' & Hin & E). rewrite <- (view_all C Q us) in Hin. apply shown_before_elem in Hin as (i & a & Hi & Hsh & Ha & [= -> ->]).
    apply shown_spec in Hsh as (a' & Ha' & Hs & Ht & Hfirst). rewrite Ha in Ha'. injection Ha' as <-.
    assert (List.find (visible C k Q) us = Some a) as ->; [|destruct a as [[[s t] ka] va]; cbn in *; by subst t].
    clear -HC Ha Hs Hfirst E. revert i Ha Hfirst. induction us as [|b us IH]; intros i Ha Hfirst; [done|]. cbn [List.find].
    destruct i as [|i]; [cbn in Ha; injection Ha as ->; unfold visible, seen in *; by rewrite E, Hs|]. cbn in Ha.
    assert (visible C k Q b = false) as ->.
    { unfold visible. destruct (Compare (update_key b) k) eqn:Eb; [|done..]. destruct (update_seq b <=? Q) eqn:Hsb; [|done].
      destruct (Hfirst O b ltac:(lia) eq_refl Hsb). by rewrite (cmp_eq_r _ _ _ E). }
    apply (IH i Ha). intros j x Hj Hx. apply (Hfirst (S j) x); [lia|done].
  - destruct (List.find (visible C k Q) us) as [a|] eqn:Ef; [|done]. cbn [fmap option_fmap option_map]. intros [= Hans].
    assert (update_type a = kTypeValue /\ v = update_value a) as [Ht ->] by (destruct a as [[[s t] ka] va]; cbn in *; destruct t; [done|by injection Hans]).
    assert (exists i, us !! i = Some a /\ visible C k Q a = true /\ forall j b, (j < i)%nat -> us !! j = Some b -> visible C k Q b = false) as (i & Ha & Hv & Hno).
    { clear -Ef. induction us as [|b us IH]; [done|]. cbn in Ef. destruct (visible C k Q b) eqn:Eb.
      - injection Ef as ->. exists O. split_and!; [done|done|intros j x Hj; lia].
      - destruct (IH Ef) as (i & Ha & Hv & Hno). exists (S i). split_and!; [done|done|]. intros [|j] x Hj Hx; [cbn in Hx; by injection Hx as <-|]. apply (Hno j x); [lia|done]. }
    unfold visible in Hv. destruct (Compare (update_key a) k) eqn:E; [|done..]. exists (update_key a). split; [|done].
    apply list_elem_of_lookup. exists (cnt C Q us i). apply (view_lookup C Q us i a); [|done]. apply shown_spec. exists a. split_and!; try done.
    intros j b Hj Hb Hsb Eb. pose proof (Hno j b Hj Hb) as Hn. unfold visible in Hn. rewrite (cmp_eq_l _ _ _ Eb), E in Hn. unfold seen in Hsb. congruence.
Qed.

(** A new database iterator, walked forwards and backwards. *)
Lemma db_iter_scans us (i : I) n (db : D) Q seed fuel : ordered C us -> (length us < turns)%nat -> it_at i (map update_entry us) n ->
  0 <= Q <= kMaxSequenceNumber -> (length us <= fuel)%nat ->
  let it := DBIter.make db i Q seed in let ops := DBIter.DBIter_ops (D := D) (C := C) turns in
  (exists it', scan_all (IT := ops) fuel it = Ret (view C Q us, it') /\ it_status (Iterator := ops) it' = Status.OK) /\
  (it ← it_SeekToLast (Iterator := ops) it; scan_back (IT := ops) fuel it) = Ret (rev (view C Q us)).
Proof.
  intros Ho Ht Hat HQ Hf it ops. pose proof (make_db_iter us i n db Q seed Ho Ht Hat HQ) as Hst. fold it in Hst.
  assert (it_at (IteratorLaws := DBIter_laws) it (view C Q us) (length (view C Q us))) as Hit by (by exists us, Q).
  assert (length (view C Q us) <= fuel)%nat as Hlen by (pose proof (cnt_bound C Q us (length us)) as H; change (cnt C Q us (length us)) with (length (view C Q us)) in H; lia).
  split.
  - destruct (scan_all_at (IL := DBIter_laws) fuel it _ _ Hit Hlen) as (it' & Hr & Hat'). exists it'. split; [done|]. exact (at_status (IteratorLaws := DBIter_laws) _ _ _ Hat').
  - destruct (at_last (IteratorLaws := DBIter_laws) _ _ _ Hit) as (it' & Hr & Hit'). subst ops. rewrite Hr. cbn [mbind result_bind]. by apply (scan_back_at (IL := DBIter_laws)).
Qed.

(** C18: Over any iterator of internal keys, the database iterator at a sequence number
    yields in user key order exactly the keys whose newest visible update is a value,
    with that value; backwards the same in reverse; [Seek] stops at the first such key
    that is not before the target; deleted and overwritten values never appear. *)
Theorem db_iterator_shows_current us (i : I) n (db : D) Q seed target (ok : str -> Prop) {SO : SeekOn ok (internal_comparator C) IL} :
  ordered C us -> (length us < turns)%nat -> it_at i (map update_entry us) n -> 0 <= Q <= kMaxSequenceNumber ->
  ok (target ++ EncodeFixed64 (packed Q kTypeValue)) ->
  let it := DBIter.make db i Q seed in let ops := DBIter.DBIter_ops (D := D) (C := C) turns in
  exists vs, keys_sorted vs /\
    (forall k v, (exists k', (k', v) ∈ vs /\ Compare k' k = Eq) <-> answer <$> newest C k Q us = Some (inl v)) /\
    (exists it', scan_all (IT := ops) (length us) it = Ret (vs, it') /\ DBIter.status it' = Status.OK) /\
    (it ← DBIter.SeekToLast turns it; scan_back (IT := ops) (length us) it) = Ret (rev vs) /\
    (exists it' it'', DBIter.Seek turns it target = Ret it' /\
       scan_from (IT := ops) (length us) it' = Ret (drop (seek_pos target vs) vs, it'')).
Proof.
  intros Ho Ht Hat HQ Hok it ops. pose proof (make_db_iter us i n db Q seed Ho Ht Hat HQ) as Hst. fold it in Hst.
  assert (length (view C Q us) <= length us)%nat as Hlen by exact (cnt_bound C Q us (length us)).
  destruct (db_iter_scans us i n db Q seed (length us) Ho Ht Hat HQ ltac:(done)) as [Hscan Hback].
  exists (view C Q us). split; [by apply view_sorted|]. split; [intros k v; by apply view_newest|]. split; [exact Hscan|split; [exact Hback|]].
  - destruct (it_stands_seek C us Ho turns Ht it Q _ target ok Hok Hst) as (it' & Hr & Hst'). exists it'.
    destruct (scan_from_at (IL := DBIter_laws) (length us) it' (view C Q us) (seek_pos target (view C Q us))) as (it'' & Hs & _); [by exists us, Q|lia|]. by exists it''.
Qed.

End laws.

(** ** The iterator of a memtable *)

Section mem_seek.
Context (C : Comparator) {HC : ComparatorLaws C}.

(** Targets a memtable can encode. *)
Definition mem_target (k : str) : Prop := 8 <= str_size k < 2 ^ 32.

#[global] Instance MemTableIterator_seek : SeekOn mem_target (internal_comparator C) (MemTableIterator_laws C).
Proof.
  split. intros it es i k [Hk1 Hk2] Hat Hs. apply (Seek_mem C it es i (MemTable.EncodeKey k) k Hat Hs); [|done].
  unfold MemTable.EncodeKey. rewrite <- (app_nil_r (_ ++ k)). exact (GetLengthPrefixedSlice_Put k [] Hk2).
Qed.

(** Updates in the order of their internal keys, and the memtable they fill. *)
Lemma memtable_iter us us' m : Forall update_ok us -> ForallOrdPairs (distinct C) us -> foldR (add_update C) MemTable.make us = Ret m ->
  us' ≡ₚ us -> keys_sorted (C := internal_comparator C) (map update_entry us') ->
  it_at (IteratorLaws := MemTableIterator_laws C) (MemTable.NewIterator m) (map update_entry us') (length us').
Proof.
  intros Hok Hd Hm Hp Hs. destruct (adds_rep C us MemTable.make [] (mem_make C) Hok) as (m' & es & Hm' & Hrep & Hes); [apply Forall_forall; constructor|done|].
  rewrite Hm in Hm'. injection Hm' as <-. rewrite app_nil_r in Hes. assert (es = map update_entry us') as ->.
  { apply (StronglySorted_unique_strong (fun a b => Compare (Comparator := internal_comparator C) (fst a) (fst b) = Lt)); [|apply (mem_sorted C m es Hrep)|done|by rewrite Hes, Hp].
    intros a b _ _ Hab Hba. pose proof (cmp_trans (C := internal_comparator C) _ _ _ Hab Hba) as H. by rewrite (cmp_refl (C := internal_comparator C)) in H. }
  rewrite <- (length_map update_entry us'). by apply NewIterator_mem.
Qed.

End mem_seek.

(** ** Witness *)

(** No database: samples are dropped. *)
#[export] Instance no_sampler : ReadSampler unit := { RecordReadSample db _ := db }.

Definition demo_us : list update :=
  [ (7, kTypeDeletion, $"apple", []); (5, kTypeValue, $"apple", $"red"); (3, kTypeValue, $"apple", $"sour"); (2, kTypeValue, $"pear", $"green") ].
Definition demo_mem : MemTable.MemTable :=
  match foldR (add_update BytewiseComparator) MemTable.make demo_updates with Ret m => m | _ => MemTable.make end.

Lemma demo_us_ordered : ordered BytewiseComparator demo_us.
Proof. split; repeat constructor; vm_compute; done || discriminate. Qed.

Lemma demo_mem_iter : it_at (IteratorLaws := MemTableIterator_laws BytewiseComparator) (MemTable.NewIterator demo_mem) (map update_entry demo_us) 4.
Proof.
  apply (memtable_iter BytewiseComparator demo_updates demo_us).
  - repeat constructor; vm_compute; discriminate || done.
  - repeat constructor; vm_compute; discriminate.
  - vm_compute. reflexivity.
  - etrans; [apply perm_swap|]. apply perm_skip. apply (Permutation_cons_app [_] [_]). apply perm_swap.
  - apply demo_us_ordered.
Qed.

(** At 6 the deletion of 7 is not visible, and the value of 3 is overwritten. *)
Lemma db_iterator_shows_current_witness :
  let it := DBIter.make tt (MemTable.NewIterator demo_mem) 6 42 in
  let ops := DBIter.DBIter_ops (I := MemTable.MemTableIterator) (IT := MemTable.MemTableIterator_ops (C := BytewiseComparator)) (D := unit) (C := BytewiseComparator) 9 in
  exists vs, keys_sorted vs /\
    (forall k v, (exists k', (k', v) ∈ vs /\ Compare k' k = Eq) <-> answer <$> newest BytewiseComparator k 6 demo_us = Some (inl v)) /\
    (exists it', scan_all (IT := ops) 4 it = Ret (vs, it') /\ DBIter.status (IT := MemTable.MemTableIterator_ops (C := BytewiseComparator)) it' = Status.OK) /\
    (it ← DBIter.SeekToLast (IT := MemTable.MemTableIterator_ops (C := BytewiseComparator)) 9 it; scan_back (IT := ops) 4 it) = Ret (rev vs) /\
    (exists it' it'', DBIter.Seek (IT := MemTable.MemTableIterator_ops (C := BytewiseComparator)) 9 it ($"banana") = Ret it' /\
       scan_from (IT := ops) 4 it' = Ret (drop (seek_pos ($"banana") vs) vs, it'')).
Proof.
  apply (db_iterator_shows_current (IL := MemTableIterator_laws BytewiseComparator) BytewiseComparator 9 demo_us (MemTable.NewIterator demo_mem) 4 tt 6 42 ($"banana") mem_target
    demo_us_ordered).
  - cbn. lia.
  - exact demo_mem_iter.
  - split; vm_compute; discriminate.
  - split; vm_compute; done || discriminate.
Defined.

Example demo_view : view BytewiseComparator 6 demo_us = [($"apple", $"red"); ($"pear", $"green")] /\ view BytewiseComparator 7 demo_us = [($"pear", $"green")].
Proof. vm_compute. done. Qed.
