(* ===== verification/Batch.v ===== *)
(** * leveldb: WriteBatch

    [db/write_batch.cc] and [db/write_batch_internal.h].  A batch is its [rep_]:
    an eight-byte sequence number, a four-byte count and the records.  A
    [WriteBatch::Handler] is a state with two transition functions; the memtable
    that [InsertInto] fills is a parameter. *)

From Stdlib Require Import ZArith Lia.
From S2P Require Import Prelude CString Coding SliceStatus DbFormat.

(** What a handler is told. *)
Inductive BatchOp := OpPut (key value : str) | OpDelete (key : str).

Record Handler (S : Type) := mkHandler {
  h_Put : S -> str -> str -> S;
  h_Delete : S -> str -> S
}.
Arguments mkHandler {S} h_Put h_Delete.
Arguments h_Put {S} h st key value.
Arguments h_Delete {S} h st key.

Definition kHeader : nat := 12.

(** [memcpy] of [bytes] over [rep] at [pos]. *)
Definition splice (rep : str) (pos : nat) (bytes : str) : str :=
  take pos rep ++ bytes ++ drop (pos + length bytes) rep.

Module WriteBatchInternal.

Definition Count (rep : str) : Z := int_of (DecodeFixed32 (drop 8 rep)).
Definition SetCount (rep : str) (n : Z) : str := splice rep 8 (EncodeFixed32 (u32 n)).
Definition Sequence (rep : str) : Z := DecodeFixed64 rep.
Definition SetSequence (rep : str) (seq : Z) : str := splice rep 0 (EncodeFixed64 seq).

Definition SetContents (contents : str) : result str :=
  if str_size contents <? Z.of_nat kHeader then Crash AssertFailed else Ret contents.

Definition Append (dst src : str) : result str :=
  n ← int_check (Count dst + Count src);
  let dst := SetCount dst n in
  if str_size src <? Z.of_nat kHeader then Crash AssertFailed
  else Ret (dst ++ drop kHeader src).

End WriteBatchInternal.

Module WriteBatch.
Import WriteBatchInternal.

Definition Clear : str := replicate kHeader Byte.x00.
Definition ApproximateSize (rep : str) : Z := str_size rep.

Definition Put (rep key value : str) : result str :=
  n ← int_check (Count rep + 1);
  let rep := SetCount rep n ++ [z2b (type_value kTypeValue)] in
  Ret (PutLengthPrefixedSlice (PutLengthPrefixedSlice rep key) value).

Definition Delete (rep key : str) : result str :=
  n ← int_check (Count rep + 1);
  let rep := SetCount rep n ++ [z2b (type_value kTypeDeletion)] in
  Ret (PutLengthPrefixedSlice rep key).

Section iterate.
Context {S : Type} (h : Handler S).

(** The body of the [while] loop of [Iterate]; every iteration consumes at least
    the tag byte, so the length of the input is enough fuel.  A batch holds fewer
    than [2 ^ 31] records, so [found] does not overflow. *)
Fixpoint iterate_loop (fuel : nat) (st : S) (found : Z) (input : str) : S * (Status.Status + Z) :=
  match fuel, input with
  | _, [] => (st, inr found)
  | O, _ => (st, inr found)
  | Datatypes.S fuel', tag :: input =>
      let found := found + 1 in
      if char_val tag =? type_value kTypeValue then
        match GetLengthPrefixedSlice input with
        | Some (key, input) =>
            match GetLengthPrefixedSlice input with
            | Some (value, input) => iterate_loop fuel' (h_Put h st key value) found input
            | None => (st, inl (Status.Corruption ($"bad WriteBatch Put") []))
            end
        | None => (st, inl (Status.Corruption ($"bad WriteBatch Put") []))
        end
      else if char_val tag =? type_value kTypeDeletion then
        match GetLengthPrefixedSlice input with
        | Some (key, input) => iterate_loop fuel' (h_Delete h st key) found input
        | None => (st, inl (Status.Corruption ($"bad WriteBatch Delete") []))
        end
      else (st, inl (Status.Corruption ($"unknown WriteBatch tag") []))
  end.

Definition Iterate (rep : str) (st : S) : S * Status.Status :=
  if str_size rep <? Z.of_nat kHeader
  then (st, Status.Corruption ($"malformed WriteBatch (too small)") [])
  else
    let input := drop kHeader rep in
    match iterate_loop (length input) st 0 input with
    | (st, inl s) => (st, s)
    | (st, inr found) =>
        if negb (found =? Count rep)
        then (st, Status.Corruption ($"WriteBatch has wrong count") [])
        else (st, Status.OK)
    end.

End iterate.
End WriteBatch.

(** [MemTableInserter] and [InsertInto], over the memtable's [Add]. *)
Section inserter.
Context {Mem : Type} (Add : Mem -> Z -> ValueType -> str -> str -> Mem).

Definition MemTableInserter : Handler (Z * Mem) :=
  mkHandler (fun '(sequence_, mem) key value =>
               (u64 (sequence_ + 1), Add mem sequence_ kTypeValue key value))
            (fun '(sequence_, mem) key =>
               (u64 (sequence_ + 1), Add mem sequence_ kTypeDeletion key [])).

Definition InsertInto (rep : str) (mem : Mem) : Mem * Status.Status :=
  let '((_, mem), s) :=
    WriteBatch.Iterate MemTableInserter rep (WriteBatchInternal.Sequence rep, mem) in
  (mem, s).

End inserter.

(** ** The records of a batch *)

Definition enc_op (op : BatchOp) : str :=
  match op with
  | OpPut k v => z2b 1 :: PutLengthPrefixedSlice [] k ++ PutLengthPrefixedSlice [] v
  | OpDelete k => z2b 0 :: PutLengthPrefixedSlice [] k
  end.

Definition op_ok (op : BatchOp) : Prop :=
  match op with
  | OpPut k v => str_size k < 2 ^ 32 /\ str_size v < 2 ^ 32
  | OpDelete k => str_size k < 2 ^ 32
  end.

(** A batch with header [seq] and count [n]. *)
Definition batch_rep (seq n : Z) (ops : list BatchOp) : str :=
  EncodeFixed64 seq ++ EncodeFixed32 (u32 n) ++ concat (map enc_op ops).

Definition run_op {S} (h : Handler S) (st : S) (op : BatchOp) : S :=
  match op with OpPut k v => h_Put h st k v | OpDelete k => h_Delete h st k end.

(** [batch.Put] or [batch.Delete]. *)
Definition apply_op (rep : str) (op : BatchOp) : result str :=
  match op with
  | OpPut k v => WriteBatch.Put rep k v
  | OpDelete k => WriteBatch.Delete rep k
  end.

Fixpoint apply_ops (rep : str) (ops : list BatchOp) : result str :=
  match ops with
  | [] => Ret rep
  | op :: ops' => rep' ← apply_op rep op; apply_ops rep' ops'
  end.

Lemma PutLengthPrefixedSlice_app dst v :
  PutLengthPrefixedSlice dst v = dst ++ PutLengthPrefixedSlice [] v.
Proof. unfold PutLengthPrefixedSlice, PutVarint32. simpl. by rewrite <- app_assoc. Qed.

Section batch_lemmas.
Implicit Types (ops : list BatchOp).
Import WriteBatchInternal.

Lemma Count_rep seq n ops : 0 <= n <= INT_MAX -> Count (batch_rep seq n ops) = n.
Proof.
  intros Hn. unfold Count, batch_rep.
  change (drop 8 (EncodeFixed64 seq ++ EncodeFixed32 (u32 n) ++ concat (map enc_op ops)))
    with (EncodeFixed32 (u32 n) ++ concat (map enc_op ops)).
  rewrite DecodeFixed32_Encode, !wrap_wrap by lia. rewrite wrap_small by (unfold INT_MAX in Hn; lia).
  apply swrap32_small. unfold INT_MIN, INT_MAX in *. lia.
Qed.

Lemma SetCount_rep seq n m ops : SetCount (batch_rep seq n ops) m = batch_rep seq m ops.
Proof. reflexivity. Qed.

Lemma batch_rep_snoc seq n ops op :
  batch_rep seq n (ops ++ [op]) = batch_rep seq n ops ++ enc_op op.
Proof.
  unfold batch_rep. rewrite map_app, concat_app. cbn [map concat]. by rewrite app_nil_r, !app_assoc.
Qed.

Lemma apply_op_rep seq n ops op :
  0 <= n < INT_MAX ->
  apply_op (batch_rep seq n ops) op = Ret (batch_rep seq (n + 1) (ops ++ [op])).
Proof.
  intros Hn. rewrite batch_rep_snoc.
  destruct op as [k v|k]; cbn [apply_op]; unfold WriteBatch.Put, WriteBatch.Delete;
    rewrite Count_rep, int_check_ok by (unfold INT_MIN, INT_MAX in *; lia);
    cbn [mbind result_bind]; rewrite SetCount_rep; f_equal;
    rewrite !(PutLengthPrefixedSlice_app (_ ++ _)), <- !app_assoc; reflexivity.
Qed.

Lemma apply_ops_rep seq n ops ops' :
  0 <= n -> n + Z.of_nat (length ops') <= INT_MAX ->
  apply_ops (batch_rep seq n ops) ops'
  = Ret (batch_rep seq (n + Z.of_nat (length ops')) (ops ++ ops')).
Proof.
  revert n ops. induction ops' as [|op ops' IH]; intros n ops Hn Hl; cbn [apply_ops].
  - by rewrite Z.add_0_r, app_nil_r.
  - cbn [length] in Hl. rewrite apply_op_rep by lia. cbn [mbind result_bind].
    rewrite IH by lia. rewrite <- app_assoc. cbn [length]. do 2 f_equal. lia.
Qed.

Lemma Clear_rep : WriteBatch.Clear = batch_rep 0 0 [].
Proof. reflexivity. Qed.

Section iterate_lemmas.
Context {S : Type} (h : Handler S).

Lemma GetLengthPrefixedSlice_app value rest :
  str_size value < 2 ^ 32 ->
  GetLengthPrefixedSlice (PutLengthPrefixedSlice [] value ++ rest) = Some (value, rest).
Proof. apply GetLengthPrefixedSlice_Put. Qed.

Lemma iterate_ops fuel st found ops :
  Forall op_ok ops -> (length (concat (map enc_op ops)) <= fuel)%nat ->
  WriteBatch.iterate_loop h fuel st found (concat (map enc_op ops))
  = (foldl (run_op h) st ops, inr (found + Z.of_nat (length ops))).
Proof.
  intros Hok. revert fuel st found. induction Hok as [|op ops Hop Hok IH]; intros fuel st found Hf.
  - simpl. rewrite Z.add_0_r. by destruct fuel.
  - cbn [map concat] in *. destruct fuel as [|fuel]; [destruct op; simpl in Hf; lia|].
    rewrite length_app in Hf. cbn [foldl length]. rewrite Nat2Z.inj_succ.
    replace (found + Z.succ (Z.of_nat (length ops))) with (found + 1 + Z.of_nat (length ops)) by lia.
    destruct op as [k v|k]; cbn [enc_op app WriteBatch.iterate_loop] in *.
    + change (char_val (z2b 1) =? type_value kTypeValue) with true. cbv iota.
      destruct Hop as [Hk Hv]. rewrite <- app_assoc, !GetLengthPrefixedSlice_app by done.
      apply IH. cbn [length] in Hf. lia.
    + change (char_val (z2b 0) =? type_value kTypeValue) with false. cbv iota.
      change (char_val (z2b 0) =? type_value kTypeDeletion) with true. cbv iota.
      cbn [op_ok] in Hop. rewrite GetLengthPrefixedSlice_app by done.
      apply IH. cbn [length] in Hf. lia.
Qed.

Lemma Iterate_rep seq n ops st :
  Forall op_ok ops -> 0 <= n <= INT_MAX ->
  WriteBatch.Iterate h (batch_rep seq n ops) st =
  (foldl (run_op h) st ops,
   if Z.of_nat (length ops) =? n then Status.OK
   else Status.Corruption ($"WriteBatch has wrong count") []).
Proof.
  intros Hok Hn. unfold WriteBatch.Iterate.
  change (drop kHeader (batch_rep seq n ops)) with (concat (map enc_op ops)).
  destruct (Z.ltb_spec (str_size (batch_rep seq n ops)) (Z.of_nat kHeader)) as [Hl|_].
  { unfold batch_rep, str_size, kHeader in Hl. rewrite !length_app in Hl. simpl in Hl. lia. }
  rewrite iterate_ops by done. rewrite Count_rep, Z.add_0_l by done.
  by destruct (Z.eqb_spec (Z.of_nat (length ops)) n).
Qed.

End iterate_lemmas.

Lemma Append_rep seq n ops seq' n' ops' :
  0 <= n -> 0 <= n' -> n + n' <= INT_MAX ->
  Append (batch_rep seq n ops) (batch_rep seq' n' ops')
  = Ret (batch_rep seq (n + n') (ops ++ ops')).
Proof.
  intros Hn Hn' Hs. unfold Append. rewrite !Count_rep by lia.
  rewrite int_check_ok by (unfold INT_MIN in *; lia). cbn [mbind result_bind].
  destruct (Z.ltb_spec (str_size (batch_rep seq' n' ops')) (Z.of_nat kHeader)) as [Hl|_].
  { unfold batch_rep, str_size, kHeader in Hl. rewrite !length_app in Hl. simpl in Hl. lia. }
  rewrite SetCount_rep. change (drop kHeader (batch_rep seq' n' ops')) with (concat (map enc_op ops')).
  unfold batch_rep. by rewrite map_app, concat_app, !app_assoc.
Qed.

(** What the inserter does with a list of updates. *)
Fixpoint numbered (seq : Z) (ops : list BatchOp) : list (Z * ValueType * str * str) :=
  match ops with
  | [] => []
  | OpPut k v :: ops' => (seq, kTypeValue, k, v) :: numbered (u64 (seq + 1)) ops'
  | OpDelete k :: ops' => (seq, kTypeDeletion, k, []) :: numbered (u64 (seq + 1)) ops'
  end.

Lemma inserter_run {Mem} (Add : Mem -> Z -> ValueType -> str -> str -> Mem) seq mem ops :
  snd (foldl (run_op (MemTableInserter Add)) (seq, mem) ops)
  = foldl (fun m '(s, t, k, v) => Add m s t k v) mem (numbered seq ops).
Proof.
  revert seq mem. induction ops as [|[k v|k] ops IH]; intros seq mem; simpl; [done|apply IH..].
Qed.

End batch_lemmas.

(** ** Properties *)

(** a batch filled by any sequence of [Put] and [Delete] calls is iterated as
    exactly that sequence, in order, with status OK; and [Append] of two such
    batches iterates the updates of the first and then of the second. *)
Theorem batch_iterates_updates {S} (h : Handler S) st ops ops' :
  Forall op_ok (ops ++ ops') -> Z.of_nat (length (ops ++ ops')) <= INT_MAX ->
  exists b b' c, apply_ops WriteBatch.Clear ops = Ret b /\
    apply_ops WriteBatch.Clear ops' = Ret b' /\ WriteBatchInternal.Append b b' = Ret c /\
    WriteBatch.Iterate h b st = (foldl (run_op h) st ops, Status.OK) /\
    WriteBatch.Iterate h c st = (foldl (run_op h) st (ops ++ ops'), Status.OK).
Proof.
  intros Hok Hn. rewrite length_app in Hn. pose proof Hok as [Ho1 Ho2]%Forall_app.
  eexists _, _, _. rewrite Clear_rep, !apply_ops_rep by lia. cbn [app]. rewrite !Z.add_0_l.
  split_and!; [done|done|by apply Append_rep; lia| |];
    rewrite Iterate_rep by (done || lia); rewrite ?length_app, ?Nat2Z.inj_add, Z.eqb_refl; done.
Qed.

(** [InsertInto] adds the updates of a batch to the memtable one by one, with
    consecutive sequence numbers that start at the batch's own. *)
Theorem InsertInto_numbers_updates {Mem} (Add : Mem -> Z -> ValueType -> str -> str -> Mem)
    mem seq ops b :
  Forall op_ok ops -> Z.of_nat (length ops) <= INT_MAX -> 0 <= seq < 2 ^ 64 ->
  apply_ops WriteBatch.Clear ops = Ret b ->
  InsertInto Add (WriteBatchInternal.SetSequence b seq) mem =
  (foldl (fun m '(s, t, k, v) => Add m s t k v) mem (numbered seq ops), Status.OK).
Proof.
  intros Hok Hn Hs. rewrite Clear_rep, apply_ops_rep by lia. intros [= <-]. cbn [app].
  rewrite Z.add_0_l. change (WriteBatchInternal.SetSequence (batch_rep 0 ?n ops) seq)
    with (batch_rep seq n ops).
  unfold InsertInto. rewrite Iterate_rep by (done || lia). rewrite Z.eqb_refl.
  assert (WriteBatchInternal.Sequence (batch_rep seq (Z.of_nat (length ops)) ops) = seq) as ->.
  { unfold WriteBatchInternal.Sequence, batch_rep. rewrite DecodeFixed64_Encode. by apply wrap_small. }
  rewrite <- inserter_run. by destruct (foldl _ _ _).
Qed.

(** ** Concrete runs *)

Definition demo_ops : list BatchOp := [OpPut ($"Key1") ($"Value1"); OpDelete ($"Key2")].

Definition demo_batch : str :=
  match apply_ops WriteBatch.Clear demo_ops with Ret b => b | _ => [] end.

Lemma InsertInto_numbers_updates_witness :
  InsertInto (fun m s t k v => m ++ [(s, t, k, v)])
    (WriteBatchInternal.SetSequence demo_batch 41) []
  = ([(41, kTypeValue, $"Key1", $"Value1"); (42, kTypeDeletion, $"Key2", [])], Status.OK).
Proof.
  apply (InsertInto_numbers_updates (fun m s t k v => m ++ [(s, t, k, v)]) [] 41 demo_ops);
    [repeat constructor; simpl; lia|done|done|vm_compute; reflexivity].
Defined.
