(* ===== verification/DbWrite.v ===== *)
(** * leveldb: writing and recovering

    The write path of [db/db_impl.cc]: grouping the batches of waiting writers, the
    log record and the memtable ([DBImpl::Write], [BuildBatchGroup]), and reading a
    log back when a database is opened ([RecoverLogFile]).  [MakeRoomForWrite] gives
    [Write] a status; a full memtable is handed to [WriteLevel0Table], whose effect
    on files and versions is a parameter here. *)

From Stdlib Require Import ZArith Lia.
From S2P Require Import Prelude CString Coding SliceStatus FilterPolicy DbFormat Iterators LogFile TableFormat.
From S2P Require Import SkipList SkipListSpec DbTable MemTable Batch.

(** [WritableFile::Sync] *)
Class SyncFile (F : Type) := { wf_Sync : F -> F * Status.Status }.
#[export] Instance mem_sync : SyncFile str := { wf_Sync f := (f, Status.OK) }.

Module DBImpl.

(** A writer in the queue; a null batch asks for a compaction.  Its status and
    condition variable are set when it leaves the queue. *)
Record Writer := mkWriter { batch : option str; sync : bool }.

(** What [Write] uses of [DBImpl]; [tmp_batch_] is empty between calls. *)
Record DBImpl (F : Type) := mkDB {
  log_ : LogFile.Writer.Writer F;
  mem_ : MemTable.MemTable;
  last_sequence_ : Z;
  bg_error_ : Status.Status
}.
Arguments mkDB {F} _ _ _ _.
Arguments log_ {F} _.
Arguments mem_ {F} _.
Arguments last_sequence_ {F} _.
Arguments bg_error_ {F} _.

(** The loop of [BuildBatchGroup] behind the first writer: the temporary batch once
    it is used, and the number of writers in the group. *)
Fixpoint group_loop (first_batch : str) (first_sync : bool) (max_size size : Z) (tmp : option str) (n : nat)
    (writers : list Writer) : result (option str * nat) :=
  match writers with
  | [] => Ret (tmp, n)
  | w :: writers =>
      if sync w && negb first_sync then Ret (tmp, n)
      else
        match batch w with
        | Some b =>
            let size := u64 (size + WriteBatch.ApproximateSize b) in
            if max_size <? size then Ret (tmp, n)
            else
              result ← (match tmp with Some t => Ret t | None => WriteBatchInternal.Append WriteBatch.Clear first_batch end);
              result ← WriteBatchInternal.Append result b;
              group_loop first_batch first_sync max_size size (Some result) (S n) writers
        | None => group_loop first_batch first_sync max_size size tmp (S n) writers
        end
  end.

(** The batch to write and the number of writers it is for. *)
Definition BuildBatchGroup (writers : list Writer) : result (str * nat) :=
  match writers with
  | [] => Crash AssertFailed
  | first :: rest =>
      match batch first with
      | None => Crash AssertFailed
      | Some b =>
          let size := WriteBatch.ApproximateSize b in
          let max_size := if size <=? Z.shiftl 128 10 then size + Z.shiftl 128 10 else Z.shiftl 1 20 in
          q ← group_loop b (sync first) max_size size None 1 rest;
          let '(tmp, n) := (q : option str * nat) in
          Ret (default b tmp, n)
      end
  end.

Section ops.
Context {F : Type} `{WF : !WritableFile F, SyF : !SyncFile F, C : !Comparator}.
Implicit Types (st : DBImpl F).

Definition RecordBackgroundError (bg s : Status.Status) : Status.Status := if Status.ok bg then s else bg.

(** The memtable as [InsertInto] fills it. *)
Definition add_to (m : result MemTable.MemTable) (s : Z) (t : ValueType) (k v : str) : result MemTable.MemTable :=
  m ← m; MemTable.Add m s t k v.

Definition insert_into (rep : str) (m : MemTable.MemTable) : result (MemTable.MemTable * Status.Status) :=
  let '(m, s) := InsertInto add_to rep (Ret m) in m ← m; Ret (m, s).

(** [Write] of the writer at the front of the queue, [room] the status of
    [MakeRoomForWrite]: the new state, the status every writer of the group gets,
    and the writers that are left. *)
Definition Write st (room : Status.Status) (writers : list Writer) : result (DBImpl F * Status.Status * list Writer) :=
  match writers with
  | [] => Crash AssertFailed
  | w :: rest =>
      match Status.ok room, batch w with
      | true, Some _ =>
          q ← BuildBatchGroup writers;
          let '(write_batch, n) := (q : str * nat) in
          let write_batch := WriteBatchInternal.SetSequence write_batch (u64 (last_sequence_ st + 1)) in
          let last_sequence := u64 (last_sequence_ st + u64 (WriteBatchInternal.Count write_batch)) in
          q ← LogFile.Writer.AddRecord (log_ st) write_batch;
          let '(log, status) := (q : LogFile.Writer.Writer F * Status.Status) in
          let '(log, status, sync_error) :=
            if Status.ok status && sync w then
              let '(f, s) := wf_Sync (LogFile.Writer.dest_ log) in
              (LogFile.Writer.mkWriter f (LogFile.Writer.block_offset_ log), s, negb (Status.ok s))
            else (log, status, false) in
          q ← (if Status.ok status then insert_into write_batch (mem_ st) else Ret (mem_ st, status));
          let '(mem, status) := (q : MemTable.MemTable * Status.Status) in
          let bg := if sync_error then RecordBackgroundError (bg_error_ st) status else bg_error_ st in
          Ret (mkDB log mem last_sequence bg, status, drop n writers)
      | _, _ => Ret (st, room, rest)
      end
  end.

(** *** RecoverLogFile *)

Section recover.
(** [WriteLevel0Table], and opening the log again for appending: the files and
    versions, and whether it worked. *)
Context {S : Type} (WriteLevel0Table : S -> MemTable.MemTable -> result (S * Status.Status)) (reopen : S -> result (S * bool)).
Context (over_buffer : MemTable.MemTable -> bool) (paranoid_checks : bool).

Definition MaybeIgnoreError (s : Status.Status) : Status.Status :=
  if Status.ok s || paranoid_checks then s else Status.OK.

(** [LogReporter::Corruption]: the first report becomes the status. *)
Definition Corruption (status : Status.Status) (report : Status.Status) : Status.Status :=
  if paranoid_checks && Status.ok status then report else status.

(** The state of the loop: files and versions, the memtable, [*max_sequence], the
    number of tables written. *)
Record Recovery := mkRecovery { r_files : S; r_mem : option MemTable.MemTable; r_max : Z; r_compactions : nat }.

Fixpoint recover_records (fuel : nat) (rc : Recovery) (status : Status.Status) (r : Reader.Reader str) :
    result (Recovery * Status.Status) :=
  match fuel with
  | O => Crash OutOfFuel
  | Datatypes.S f =>
      x ← Reader.ReadRecord fuel r;
      let '(r, record) := (x : Reader.Reader str * option str) in
      let '(r, reports) := take_reports r in
      let status := foldl Corruption status (map snd reports) in
      match record with
      | None => Ret (rc, status)
      | Some record =>
          if negb (Status.ok status) then Ret (rc, status)
          else if str_size record <? 12
          then recover_records f rc (Corruption status (Status.Corruption ($"log record too small") [])) r
          else
            batch ← WriteBatchInternal.SetContents record;
            q ← insert_into batch (default MemTable.make (r_mem rc));
            let '(mem, s) := (q : MemTable.MemTable * Status.Status) in
            let status := MaybeIgnoreError s in
            if negb (Status.ok status) then Ret (mkRecovery (r_files rc) (Some mem) (r_max rc) (r_compactions rc), status)
            else
              let last_seq := u64 (WriteBatchInternal.Sequence batch + u64 (WriteBatchInternal.Count batch) - 1) in
              let max := if r_max rc <? last_seq then last_seq else r_max rc in
              if over_buffer mem then
                q ← WriteLevel0Table (r_files rc) mem;
                let '(files, status) := (q : S * Status.Status) in
                let rc := mkRecovery files None max (Datatypes.S (r_compactions rc)) in
                if negb (Status.ok status) then Ret (rc, status) else recover_records f rc status r
              else recover_records f (mkRecovery (r_files rc) (Some mem) max (r_compactions rc)) status r
      end
  end.

(** [RecoverLogFile]: [opened] is the status of opening the log, and its contents;
    [reuse] that logs are reused and this is the last one.  The result is the files,
    the memtable kept in use if there is one, [*max_sequence], [*save_manifest] and the
    status. *)
Definition RecoverLogFile (opened : Status.Status * option str) (reuse : bool) (files : S) (max_sequence : Z) :
    result (S * option MemTable.MemTable * Z * bool * Status.Status) :=
  match opened with
  | (s, None) => Ret (files, None, max_sequence, false, MaybeIgnoreError s)
  | (_, Some data) =>
      q ← recover_records (Datatypes.S (length data)) (mkRecovery files None max_sequence 0) Status.OK (Reader.make data true true 0);
      let '(rc, status) := (q : Recovery * Status.Status) in
      let save := (0 <? r_compactions rc)%nat in
      q ← (if Status.ok status && reuse && (r_compactions rc =? 0)%nat then reopen (r_files rc) else Ret (r_files rc, false));
      let '(files, reused) := (q : S * bool) in
      if (reused : bool) then Ret (files, Some (default MemTable.make (r_mem rc)), r_max rc, save, status)
      else
        match r_mem rc with
        | Some mem =>
            if Status.ok status then
              q ← WriteLevel0Table files mem;
              let '(files, status) := (q : S * Status.Status) in
              Ret (files, None, r_max rc, true, status)
            else Ret (files, None, r_max rc, save, status)
        | None => Ret (files, None, r_max rc, save, status)
        end
  end.

End recover.
End ops.
End DBImpl.
