(* ===== verification/DbWriteSpec.v ===== *)
(** * What the write path keeps

    Group commit and recovery ([DbWrite.v]) in terms of the updates of the writers:
    the memtable holds them under consecutive sequence numbers, and the log gives
    them back. *)

From Stdlib Require Import ZArith Lia.
From S2P Require Import Prelude CString Coding SliceStatus FilterPolicy DbFormat Iterators LogFile TableFormat.
From S2P Require Import SkipList SkipListSpec DbTable MemTable Batch DbWrite.
Import DBImpl.

(** ** Numbered updates *)

Lemma numbered_app s a b : 0 <= s -> s + Z.of_nat (length (a ++ b)) < 2 ^ 64 ->
  numbered s (a ++ b) = numbered s a ++ numbered (s + Z.of_nat (length a)) b.
Proof.
  revert s. induction a as [|op a IH]; intros s Hs Hl; cbn [app numbered length] in *; [by rewrite Z.add_0_r|].
  assert (u64 (s + 1) = s + 1) as E by (apply wrap_small; rewrite length_app in Hl; lia).
  destruct op; cbn [app]; rewrite E, IH by lia; do 2 f_equal; f_equal; lia.
Qed.

Lemma length_numbered s ops : length (numbered s ops) = length ops.
Proof. revert s. induction ops as [|[] ops IH]; intros s; cbn; [done|by rewrite IH..]. Qed.

(** The sequence numbers of a list of updates. *)
Lemma numbered_seqs s ops : 0 <= s -> s + Z.of_nat (length ops) < 2 ^ 64 ->
  map update_seq (numbered s ops) = seqZ s (Z.of_nat (length ops)).
Proof.
  revert s. induction ops as [|op ops IH]; intros s Hs Hl; [done|]. cbn [length] in Hl |- *. rewrite seqZ_cons by lia.
  assert (u64 (s + 1) = s + 1) as E by (apply wrap_small; lia).
  destruct op; cbn [numbered map update_seq]; rewrite E, IH by lia; f_equal; f_equal; lia.
Qed.

(** An operation that fits a memtable. *)
Definition small_op (op : BatchOp) : Prop :=
  match op with
  | OpPut k v => str_size k + 8 < 2 ^ 32 /\ str_size v < 2 ^ 32
  | OpDelete k => str_size k + 8 < 2 ^ 32
  end.

Lemma small_op_ok op : small_op op -> op_ok op.
Proof. destruct op; cbn; lia. Qed.

Lemma numbered_ok s ops : 0 <= s -> s + Z.of_nat (length ops) <= kMaxSequenceNumber + 1 -> Forall small_op ops -> Forall update_ok (numbered s ops).
Proof.
  intros Hs Hl Hok. revert s Hs Hl. rewrite kMaxSequenceNumber_val. induction Hok as [|op ops Hop Hok IH]; intros s Hs Hl; [constructor|].
  cbn [length] in Hl. assert (u64 (s + 1) = s + 1) as E by (apply wrap_small; lia).
  destruct op as [k v|k]; cbn [numbered small_op] in *; rewrite E; (constructor; [|apply IH; lia]); unfold update_ok; rewrite kMaxSequenceNumber_val.
  - lia.
  - split; [lia|]. by split.
Qed.

Lemma seqs_distinct (C : Comparator) us : NoDup (map update_seq us) -> ForallOrdPairs (distinct C) us.
Proof.
  induction us as [|a us IH]; cbn [map]; intros Hn; constructor; apply NoDup_cons in Hn as [Ha Hn]; [|by apply IH].
  apply Forall_forall. intros b Hb _ E. apply Ha. rewrite E. by apply list_elem_of_fmap_2.
Qed.

Lemma numbered_distinct (C : Comparator) s ops : 0 <= s -> s + Z.of_nat (length ops) < 2 ^ 64 -> ForallOrdPairs (distinct C) (numbered s ops).
Proof. intros Hs Hl. apply seqs_distinct. rewrite numbered_seqs by done. apply NoDup_seqZ. Qed.

Section spec.
Context (C : Comparator) {HC : ComparatorLaws C}.

(** The memtable of these updates, from an empty one. *)
Definition mem_of (us : list update) : result MemTable.MemTable := foldR (add_update C) MemTable.make us.

(** Updates with different sequence numbers that fit a memtable. *)
Definition good (us : list update) : Prop := Forall update_ok us /\ NoDup (map update_seq us).

Lemma mem_of_good us : good us -> exists m, mem_of us = Ret m.
Proof.
  intros [Hok Hn]. destruct (adds_rep C us MemTable.make [] (mem_make C) Hok) as (m & es & Ha & _); [|by apply seqs_distinct|by exists m].
  apply Forall_forall. intros a _. constructor.
Qed.

Lemma good_app us us' : good (us ++ us') -> good us /\ good us'.
Proof. intros [Hok Hn]. rewrite map_app in Hn. apply Forall_app in Hok as [? ?]. apply NoDup_app in Hn as (? & _ & ?). by repeat split. Qed.

Lemma numbered_good s ops : 0 <= s -> s + Z.of_nat (length ops) <= kMaxSequenceNumber + 1 -> Forall small_op ops -> good (numbered s ops).
Proof.
  intros Hs Hl Hok. split; [by apply numbered_ok|]. rewrite numbered_seqs; [apply NoDup_seqZ|done|]. rewrite kMaxSequenceNumber_val in Hl. lia.
Qed.

Lemma Sequence_rep s n ops : 0 <= s < 2 ^ 64 -> WriteBatchInternal.Sequence (batch_rep s n ops) = s.
Proof. intros Hs. unfold WriteBatchInternal.Sequence, batch_rep. rewrite DecodeFixed64_Encode. by apply wrap_small. Qed.

(** [InsertInto] on the batch of some operations. *)
Lemma add_to_fold us m : foldl (fun m '(s, t, k, v) => add_to (C := C) m s t k v) (Ret m) us = foldR (add_update C) m us.
Proof.
  revert m. induction us as [|[[[s t] k] v] us IH]; intros m; cbn [foldl foldR]; [done|]. cbn [add_to add_update mbind result_bind].
  destruct (MemTable.Add m s t k v) as [m'|e|f]; cbn [mbind result_bind]; [apply IH| |].
  - clear. induction us as [|[[[? ?] ?] ?] us IH]; [done|]. cbn. apply IH.
  - clear. induction us as [|[[[? ?] ?] ?] us IH]; [done|]. cbn. apply IH.
Qed.

Lemma insert_batch s n ops us m m' :
  n = Z.of_nat (length ops) -> n <= INT_MAX -> 0 <= s < 2 ^ 64 -> Forall small_op ops ->
  mem_of us = Ret m -> mem_of (us ++ numbered s ops) = Ret m' ->
  insert_into (C := C) (batch_rep s n ops) m = Ret (m', Status.OK).
Proof.
  intros -> Hn Hs Hok Hm Hm'. unfold insert_into, InsertInto. rewrite Iterate_rep; [|eapply Forall_impl; [exact Hok|apply small_op_ok]|lia]. rewrite Z.eqb_refl.
  rewrite Sequence_rep by done.
  pose proof (inserter_run (add_to (C := C)) s (Ret m) ops) as Hr. destruct (foldl _ _ _) as [s' mr]. cbn [snd] in Hr. rewrite Hr, add_to_fold.
  unfold mem_of in *. rewrite foldR_app, Hm in Hm'. cbn [mbind result_bind] in Hm'. by rewrite Hm'.
Qed.

(** ** Groups of writers *)

(** The operations of a writer's batch; a null batch has none. *)
Definition writer_is (w : Writer) (ops : list BatchOp) : Prop :=
  match batch w with Some b => exists seq, b = batch_rep seq (Z.of_nat (length ops)) ops | None => ops = [] end.

(** [b] is the batch of [ops] under some sequence number. *)
Definition batch_of (b : str) (ops : list BatchOp) : Prop := exists seq, b = batch_rep seq (Z.of_nat (length ops)) ops.

Lemma Append_of b ops b' ops' : batch_of b ops -> batch_of b' ops' -> Z.of_nat (length (ops ++ ops')) <= INT_MAX ->
  exists c, WriteBatchInternal.Append b b' = Ret c /\ batch_of c (ops ++ ops').
Proof.
  intros [s ->] [s' ->] Hl. rewrite length_app in Hl. rewrite Append_rep by lia. eexists. split; [done|]. exists s. by rewrite length_app, Nat2Z.inj_add.
Qed.

Lemma group_loop_ok b0 sy mx ws opss : Forall2 writer_is ws opss -> forall size tmp n acc,
  batch_of (default b0 tmp) acc -> Z.of_nat (length (acc ++ concat opss)) <= INT_MAX ->
  exists tmp' k, group_loop b0 sy mx size tmp n ws = Ret (tmp', (n + k)%nat) /\ (k <= length ws)%nat /\
    batch_of (default b0 tmp') (acc ++ concat (take k opss)).
Proof.
  induction 1 as [|w ops ws opss Hw Hws IH]; intros size tmp n acc Hacc Hl; cbn [group_loop].
  - exists tmp, O. rewrite Nat.add_0_r. cbn. by rewrite app_nil_r.
  - assert (forall t, batch_of (default b0 t) acc -> exists tmp' k, Ret (t, n) = Ret (tmp', (n + k)%nat) /\ (k <= S (length ws))%nat /\
      batch_of (default b0 tmp') (acc ++ concat (take k (ops :: opss)))) as Hstop.
    { intros t Ht. exists t, O. rewrite Nat.add_0_r. cbn. rewrite app_nil_r. split; [done|]. split; [lia|done]. }
    destruct (sync w && negb sy); [by apply Hstop|]. unfold writer_is in Hw. cbn [concat] in Hl. destruct (batch w) as [b|].
    + destruct (mx <? _); [by apply Hstop|].
      assert (exists t, (match tmp with Some t => Ret t | None => WriteBatchInternal.Append WriteBatch.Clear b0 end) = Ret t /\ batch_of t acc) as (t & -> & Ht).
      { destruct tmp as [t|]; [by exists t|]. apply (Append_of _ [] b0 acc); [exists 0; by rewrite Clear_rep|done|]. rewrite length_app in Hl. cbn. lia. }
      cbn [mbind result_bind]. destruct (Append_of t acc b ops Ht Hw) as (c & -> & Hc); [rewrite !length_app in *; lia|]. cbn [mbind result_bind].
      destruct (IH (u64 (size + WriteBatch.ApproximateSize b)) (Some c) (S n) (acc ++ ops) Hc) as (tmp' & k & -> & Hk & Hb); [by rewrite <- app_assoc|].
      exists tmp', (S k). split; [f_equal; f_equal; lia|]. split; [cbn; lia|]. cbn [take concat]. by rewrite app_assoc.
    + subst ops. destruct (IH size tmp (S n) acc Hacc Hl) as (tmp' & k & -> & Hk & Hb).
      exists tmp', (S k). split; [f_equal; f_equal; lia|]. split; [cbn; lia|done].
Qed.

Lemma BuildBatchGroup_ok w b ws ops opss : batch w = Some b -> Forall2 writer_is (w :: ws) (ops :: opss) ->
  Z.of_nat (length (concat (ops :: opss))) <= INT_MAX ->
  exists b' n, BuildBatchGroup (w :: ws) = Ret (b', n) /\ (1 <= n <= length (w :: ws))%nat /\ batch_of b' (concat (take n (ops :: opss))).
Proof.
  intros Eb Hws Hl. inversion Hws as [|? ? ? ? Hw Hrest]; subst. unfold writer_is in Hw. rewrite Eb in Hw. unfold BuildBatchGroup. rewrite Eb.
  destruct (group_loop_ok b (sync w) (if WriteBatch.ApproximateSize b <=? Z.shiftl 128 10 then WriteBatch.ApproximateSize b + Z.shiftl 128 10 else Z.shiftl 1 20)
    ws opss Hrest (WriteBatch.ApproximateSize b) None 1%nat ops Hw Hl) as (tmp & k & -> & Hk & Hb). cbn [mbind result_bind].
  exists (default b tmp), (1 + k)%nat. split; [done|]. split; [cbn; lia|done].
Qed.

(** ** The state after some groups *)

(** The log records of groups of operations, behind the sequence number [s]. *)
Fixpoint log_records (s : Z) (gs : list (list BatchOp)) : list str :=
  match gs with
  | [] => []
  | g :: gs => batch_rep (s + 1) (Z.of_nat (length g)) g :: log_records (s + Z.of_nat (length g)) gs
  end.

Lemma log_records_snoc s gs g :
  log_records s (gs ++ [g]) = log_records s gs ++ [batch_rep (s + Z.of_nat (length (concat gs)) + 1) (Z.of_nat (length g)) g].
Proof.
  revert s. induction gs as [|g' gs IH]; intros s; cbn [app log_records concat length]; [by rewrite Z.add_0_r|].
  rewrite IH, length_app, Nat2Z.inj_add. do 3 f_equal. f_equal. lia.
Qed.

Lemma add_all_snoc w recs rec : add_all w (recs ++ [rec]) = w ← add_all w recs; x ← Writer.AddRecord w rec; Ret (fst x).
Proof.
  revert w. induction recs as [|r recs IH]; intros w; cbn [app add_all].
  - reflexivity.
  - by destruct (Writer.AddRecord w r) as [[w' s]|e|f]; cbn [mbind result_bind fst]; [apply IH|..].
Qed.

(** A log takes any record. *)
Lemma AddRecord_ok recs w rec : add_all (Writer.make []) recs = Ret w ->
  exists w', Writer.AddRecord w rec = Ret (w', Status.OK) /\ add_all (Writer.make []) (recs ++ [rec]) = Ret w'.
Proof.
  intros Hw. destruct (new_log_reads (recs ++ [rec])) as (w' & Hw' & _). exists w'. split; [|done].
  pose proof (log_offset recs w Hw) as Ho. unfold Writer.AddRecord in *.
  destruct (add_read (2 * length rec + 2) w true rec Ho ltac:(lia)) as (w1 & out & n & E & _).
  rewrite add_all_snoc, Hw in Hw'. cbn [mbind result_bind] in Hw'. unfold Writer.AddRecord in Hw'. rewrite E in Hw' |- *. cbn in Hw'. congruence.
Qed.

(** The groups were written, behind [s0], into a new log and a new memtable. *)
Record db_is (st : DBImpl str) (s0 : Z) (gs : list (list BatchOp)) : Prop := {
  db_mem : mem_of (numbered (s0 + 1) (concat gs)) = Ret (mem_ st);
  db_log : add_all (Writer.make []) (log_records s0 gs) = Ret (log_ st);
  db_seq : last_sequence_ st = s0 + Z.of_nat (length (concat gs));
  db_start : 0 <= s0;
  db_small : Forall small_op (concat gs);
  db_groups : Forall (fun g => Z.of_nat (length g) <= INT_MAX) gs
}.

Lemma Write_step st s0 gs w b ws opss :
  db_is st s0 gs -> batch w = Some b -> Forall2 writer_is (w :: ws) opss -> Forall small_op (concat opss) ->
  Z.of_nat (length (concat opss)) <= INT_MAX -> s0 + Z.of_nat (length (concat gs ++ concat opss)) <= kMaxSequenceNumber ->
  exists st' n, Write (C := C) st Status.OK (w :: ws) = Ret (st', Status.OK, drop n (w :: ws)) /\ (1 <= n <= length (w :: ws))%nat /\
    db_is st' s0 (gs ++ [concat (take n opss)]) /\ bg_error_ st' = bg_error_ st.
Proof.
  intros [Hmem Hlog Hseq Hs0 Hsm Hgr] Eb Hws Hsmall Hcount Hmax. destruct opss as [|ops opss]; [by inversion Hws|].
  destruct (BuildBatchGroup_ok w b ws ops opss Eb Hws Hcount) as (b' & n & HB & Hn & sq & ->).
  set (g := concat (take n (ops :: opss))) in *.
  assert (exists r, concat (ops :: opss) = g ++ r) as [r Er].
  { exists (concat (drop n (ops :: opss))). unfold g. by rewrite <- concat_app, take_drop. }
  assert (Forall small_op g) as Hg by (rewrite Er in Hsmall; by apply Forall_app in Hsmall as [? _]).
  assert (Z.of_nat (length g) <= INT_MAX) as Hgl by (rewrite Er, length_app in Hcount; lia).
  rewrite length_app, Er, length_app in Hmax. pose proof kMaxSequenceNumber_val as Ev.
  unfold Write. change (Status.ok Status.OK) with true. cbv iota. rewrite Eb, HB. cbn [mbind result_bind].
  rewrite (wrap_small 64 (last_sequence_ st + 1)) by lia. set (L := last_sequence_ st) in *.
  change (WriteBatchInternal.SetSequence (batch_rep sq ?k g) (L + 1)) with (batch_rep (L + 1) k g).
  rewrite Count_rep by lia. rewrite (wrap_small 64 (Z.of_nat (length g))), (wrap_small 64 (L + Z.of_nat (length g))) by (unfold INT_MAX in *; lia).
  destruct (AddRecord_ok _ _ (batch_rep (L + 1) (Z.of_nat (length g)) g) Hlog) as (w' & -> & Hw'). cbn [mbind result_bind]. change (Status.ok Status.OK) with true. cbn [andb].
  set (syn := if sync w then _ else _). assert (syn = (w', Status.OK, false)) as -> by (unfold syn; by destruct (sync w), w').
  change (Status.ok Status.OK) with true. cbv iota. assert (good (numbered (s0 + 1) (concat gs ++ g))) as Hgood.
  { apply numbered_good; [lia|rewrite length_app; lia|]. by apply Forall_app. }
  destruct (mem_of_good _ Hgood) as [m' Hm']. rewrite numbered_app in Hm' by (rewrite ?length_app; lia).
  assert (s0 + 1 + Z.of_nat (length (concat gs)) = L + 1) as E1 by lia. rewrite E1 in Hm'.
  rewrite (insert_batch (L + 1) _ g _ _ m' eq_refl Hgl ltac:(lia) Hg Hmem Hm'). cbn [mbind result_bind].
  eexists _, n. split; [done|]. split; [done|]. split; [|done].
  split; cbn [mem_ log_ last_sequence_]; rewrite ?concat_app; cbn [concat]; rewrite ?app_nil_r; fold g.
  - rewrite numbered_app by (rewrite ?length_app; lia). by rewrite E1.
  - rewrite log_records_snoc. by replace (s0 + Z.of_nat (length (concat gs)) + 1) with (L + 1) by lia.
  - rewrite length_app. lia.
  - done.
  - by apply Forall_app.
  - apply Forall_app. by split; [|constructor].
Qed.

(** ** Recovery *)

(** The memtable that holds these updates, none when there are none. *)
Definition held (us : list update) (mo : option MemTable.MemTable) : Prop :=
  match mo with None => us = [] | Some m => mem_of us = Ret m end.

Lemma held_default us mo : held us mo -> mem_of us = Ret (default MemTable.make mo).
Proof. destruct mo; cbn; [done|by intros ->]. Qed.

Lemma take_no_reports (r : Reader.Reader str) : Reader.reporter_ r = Some [] -> take_reports r = (r, []).
Proof. destruct r. cbn. intros ->. done. Qed.

Lemma batch_rep_size s n ops : 12 <= str_size (batch_rep s n ops).
Proof. unfold batch_rep, str_size. rewrite !length_app. simpl. lia. Qed.

Lemma foldl_snoc {A} (ms : list A) : forall l, foldl (fun ms m => ms ++ [m]) l ms = l ++ ms.
Proof. induction ms as [|m ms IH]; intros l; cbn; [by rewrite app_nil_r|by rewrite IH, <- app_assoc]. Qed.

Section recover.
Context {S : Type} (wl0 : S -> MemTable.MemTable -> S) (over : MemTable.MemTable -> bool) (paranoid : bool).

(** Every table is written without an error. *)
Definition write_table (files : S) (m : MemTable.MemTable) : result (S * Status.Status) := Ret (wl0 files m, Status.OK).

Lemma recover_records_ok gs : forall fuel r rc s us,
  reads_as fuel r (log_records s gs) -> Reader.reporter_ r = Some [] -> held us (r_mem rc) ->
  good (us ++ numbered (s + 1) (concat gs)) -> 0 <= s -> s + Z.of_nat (length (concat gs)) <= kMaxSequenceNumber ->
  Forall small_op (concat gs) -> Forall (fun g => Z.of_nat (length g) <= INT_MAX) gs ->
  exists uss ms rest rc', recover_records (C := C) write_table over paranoid fuel rc Status.OK r = Ret (rc', Status.OK) /\
    us ++ numbered (s + 1) (concat gs) = concat uss ++ rest /\ Forall2 (fun us m => mem_of us = Ret m) uss ms /\
    r_files rc' = foldl wl0 (r_files rc) ms /\ held rest (r_mem rc') /\
    r_max rc' = (match gs with [] => r_max rc | _ => Z.max (r_max rc) (s + Z.of_nat (length (concat gs))) end) /\
    (r_compactions rc' = r_compactions rc + length ms)%nat.
Proof.
  pose proof kMaxSequenceNumber_val as Ev. induction gs as [|g gs IH]; intros [|fuel] r rc s us Hr Hrep Hheld Hgood Hs Hmax Hsmall Hgl; try done.
  - destruct Hr as (r' & E & Hrep'). cbn [recover_records]. rewrite E. cbn [mbind result_bind]. rewrite take_no_reports by (by rewrite Hrep').
    cbn. exists [], [], us, rc. cbn. rewrite app_nil_r, Nat.add_0_r. by split_and!.
  - cbn [log_records concat] in *. destruct Hr as (r' & E & Hrep' & Hr). rewrite Hrep in Hrep'. rewrite length_app in Hmax.
    apply Forall_cons_1 in Hgl as [Hg Hgl]. pose proof Hsmall as [Hsg Hsr]%Forall_app.
    rewrite numbered_app in Hgood |- * by (rewrite ?length_app; lia). replace (s + 1 + Z.of_nat (length g)) with (s + Z.of_nat (length g) + 1) in * by lia.
    rewrite app_assoc in Hgood. pose proof (good_app _ _ Hgood) as [Hgood1 Hgood2]. destruct (mem_of_good _ Hgood1) as [m Hm].
    cbn [recover_records]. rewrite E. cbn [mbind result_bind]. rewrite take_no_reports by done. cbn [map foldl].
    change (Status.ok Status.OK) with true. cbn [negb]. pose proof (batch_rep_size (s + 1) (Z.of_nat (length g)) g) as Hsz.
    rewrite (proj2 (Z.ltb_ge _ _) Hsz). unfold WriteBatchInternal.SetContents. rewrite (proj2 (Z.ltb_ge _ (Z.of_nat kHeader)) Hsz).
    cbn [mbind result_bind]. rewrite (insert_batch (s + 1) _ g us _ m eq_refl Hg ltac:(lia) Hsg (held_default _ _ Hheld) Hm). cbn [mbind result_bind].
    unfold MaybeIgnoreError. change (Status.ok Status.OK) with true. cbn [orb negb]. rewrite Count_rep by lia.
    rewrite Sequence_rep by lia.
    rewrite (wrap_small 64 (Z.of_nat (length g))), (wrap_small 64) by (unfold INT_MAX in *; lia).
    replace (s + 1 + Z.of_nat (length g) - 1) with (s + Z.of_nat (length g)) by lia.
    assert ((if r_max rc <? s + Z.of_nat (length g) then s + Z.of_nat (length g) else r_max rc) = Z.max (r_max rc) (s + Z.of_nat (length g))) as ->.
    { destruct (Z.ltb_spec (r_max rc) (s + Z.of_nat (length g))); lia. }
    assert (forall mx, (match gs with [] => Z.max mx (s + Z.of_nat (length g)) | _ :: _ => Z.max (Z.max mx (s + Z.of_nat (length g))) (s + Z.of_nat (length g) + Z.of_nat (length (concat gs))) end)
      = Z.max mx (s + Z.of_nat (length (g ++ concat gs)))) as Hmx.
    { intros mx. rewrite length_app. destruct gs; cbn [concat length] in *; lia. }
    destruct (over m).
    + change (write_table (r_files rc) m) with (Ret (wl0 (r_files rc) m, Status.OK) : result (S * Status.Status)). cbn [mbind result_bind]. change (Status.ok Status.OK) with true. cbn [negb].
      destruct (IH fuel r' (mkRecovery (wl0 (r_files rc) m) None (Z.max (r_max rc) (s + Z.of_nat (length g))) (Datatypes.S (r_compactions rc))) (s + Z.of_nat (length g)) [])
        as (uss & ms & rest & rc' & -> & Hus & Hms & Hf & Hh & Hx & Hc); [done|done|done|done|lia|lia|done|done|].
      exists ((us ++ numbered (s + 1) g) :: uss), (m :: ms), rest, rc'. cbn [r_files r_max r_compactions] in *. split; [done|]. rewrite app_assoc. cbn [concat app] in *.
      rewrite Hus, <- !app_assoc. split_and!; [done|by constructor|done|done|by rewrite Hx|cbn; lia].
    + destruct (IH fuel r' (mkRecovery (r_files rc) (Some m) (Z.max (r_max rc) (s + Z.of_nat (length g))) (r_compactions rc)) (s + Z.of_nat (length g)) (us ++ numbered (s + 1) g))
        as (uss & ms & rest & rc' & -> & Hus & Hms & Hf & Hh & Hx & Hc); [done|done|done|done|lia|lia|done|done|].
      exists uss, ms, rest, rc'. cbn [r_files r_max r_compactions] in *. split; [done|]. rewrite app_assoc. split_and!; [done|done|done|done|by rewrite Hx|done].
Qed.

End recover.

End spec.

(** ** Properties *)

Section theorems.
Context (C : Comparator) {HC : ComparatorLaws C}.

(** A queue that starts with a batch, the operations of its writers small enough for
    one batch and a memtable. *)
Definition queue_ok (ws : list Writer) (opss : list (list BatchOp)) : Prop :=
  (match ws with w :: _ => is_Some (batch w) | [] => False end) /\
  Forall2 writer_is ws opss /\ Forall small_op (concat opss) /\ Z.of_nat (length (concat opss)) <= INT_MAX.

(** The operations of the first writers of a queue. *)
Definition group_of (opss : list (list BatchOp)) (g : list BatchOp) : Prop :=
  exists n, (1 <= n <= length opss)%nat /\ g = concat (take n opss).

(** A new log and a new memtable behind the sequence number [s0]. *)
Definition fresh_db (s0 : Z) : DBImpl str := mkDB (LogFile.Writer.make []) MemTable.make s0 Status.OK.

(** [Write] by one queue after the other. *)
Definition run_writes (st : DBImpl str) (qs : list (list Writer)) : result (DBImpl str) :=
  foldR (fun st ws => q ← Write (C := C) st Status.OK ws; Ret (fst (fst q))) st qs.

Lemma run_writes_ok qs opsss : Forall2 queue_ok qs opsss -> forall st s0 gs,
  db_is C st s0 gs -> s0 + Z.of_nat (length (concat gs)) + Z.of_nat (length (concat (concat opsss))) <= kMaxSequenceNumber ->
  exists st' gs', run_writes st qs = Ret st' /\ Forall2 group_of opsss gs' /\ db_is C st' s0 (gs ++ gs').
Proof.
  induction 1 as [|ws opss qs opsss (Hf & Hws & Hsm & Hn) Hqs IH]; intros st s0 gs Hdb Hmax; cbn [run_writes foldR].
  - exists st, []. rewrite app_nil_r. by split_and!.
  - destruct ws as [|w ws]; [done|]. destruct Hf as [b Eb]. cbn [concat] in Hmax. rewrite concat_app, length_app in Hmax.
    destruct (Write_step C st s0 gs w b ws opss Hdb Eb Hws Hsm Hn) as (st1 & n & -> & Hb & Hdb1 & _); [rewrite length_app; lia|].
    cbn [mbind result_bind fst]. apply Forall2_length in Hws as Hl.
    destruct (IH st1 s0 (gs ++ [concat (take n opss)]) Hdb1) as (st' & gs' & Hr & Hg & Hdb').
    { rewrite concat_app, length_app. cbn [concat]. rewrite app_nil_r.
      assert (length (concat (take n opss)) <= length (concat opss))%nat; [|lia].
      rewrite <- (take_drop n opss) at 2. rewrite concat_app, length_app. lia. }
    exists st', (concat (take n opss) :: gs'). split; [done|]. rewrite <- app_assoc in Hdb'. split; [|done].
    constructor; [|done]. exists n. split; [lia|done].
Qed.

Lemma group_length opsss gs : Forall2 group_of opsss gs -> (length (concat gs) <= length (concat (concat opsss)))%nat.
Proof.
  induction 1 as [|opss g opsss gs (n & _ & ->) Hg IH]; [done|]. cbn [concat]. rewrite concat_app, !length_app.
  rewrite <- (take_drop n opss) at 2. rewrite concat_app, length_app. lia.
Qed.

Lemma fresh_is s0 : 0 <= s0 -> db_is C (fresh_db s0) s0 [].
Proof. intros Hs. split; cbn; try done; lia. Qed.

(** The last operation on a key. *)
Definition op_key (op : BatchOp) : str := match op with OpPut k _ => k | OpDelete k => k end.
Definition op_answer (op : BatchOp) : str + Status.Status :=
  match op with OpPut _ v => inl v | OpDelete _ => inr (Status.NotFound [] []) end.

Fixpoint latest (k : str) (ops : list BatchOp) : option BatchOp :=
  match ops with
  | [] => None
  | op :: ops => match latest k ops with Some x => Some x | None => match Compare (op_key op) k with Eq => Some op | _ => None end end
  end.

Lemma newest_numbered k L ops : forall s, 0 <= s -> s + Z.of_nat (length ops) <= L + 1 -> L < 2 ^ 63 ->
  answer <$> newest C k L (numbered s ops) = op_answer <$> latest k ops.
Proof.
  induction ops as [|op ops IH]; intros s Hs Hl HL; [done|]. cbn [length] in Hl. assert (u64 (s + 1) = s + 1) as E by (apply wrap_small; lia).
  specialize (IH (s + 1) ltac:(lia) ltac:(lia) HL).
  assert (numbered s (op :: ops) = (match op with OpPut k v => (s, kTypeValue, k, v) | OpDelete k => (s, kTypeDeletion, k, []) end) :: numbered (s + 1) ops) as ->
    by (destruct op; cbn [numbered]; by rewrite E).
  set (a := match op with OpPut k v => _ | OpDelete k => _ end). cbn [newest foldr latest]. fold (newest C k L (numbered (s + 1) ops)).
  assert (visible C k L a = match Compare (op_key op) k with Eq => true | _ => false end) as ->.
  { unfold visible. assert (update_key a = op_key op) as -> by by destruct op. assert (update_seq a = s) as -> by by destruct op.
    destruct (Compare (op_key op) k); [apply Z.leb_le; lia|done..]. }
  pose proof (newest_spec C k L (numbered (s + 1) ops)) as Hn. destruct (newest C k L (numbered (s + 1) ops)) as [b|]; destruct (latest k ops) as [x|]; try done.
  - assert ((update_seq a <? update_seq b) = true) as ->; [|by destruct (Compare (op_key op) k)].
    apply Z.ltb_lt. destruct Hn as (Hb & _). apply (list_elem_of_fmap_2 update_seq) in Hb.
    assert (update_seq b ∈ seqZ (s + 1) (Z.of_nat (length ops))) as Hin by (rewrite <- numbered_seqs by lia; done).
    apply elem_of_seqZ in Hin. assert (update_seq a = s) as -> by by destruct op. lia.
  - destruct (Compare (op_key op) k); [|done..]. by destruct op.
Qed.


(** C24: Recovery: after any such writes, reading the log file back when the database is
    opened gives every operation again, under its own sequence number, exactly once
    and in order: spread over the memtables that are written as tables and the one
    that is kept, however the memory limit cuts them, and [max_sequence] becomes the
    last sequence number that was used; no corruption is reported. *)
Theorem recovery_restores_writes s0 qs opsss over paranoid reuse can_append max0 :
  Forall2 queue_ok qs opsss -> 0 <= s0 <= max0 -> s0 + Z.of_nat (length (concat (concat opsss))) <= kMaxSequenceNumber ->
  exists st gs uss ms kept save, run_writes (fresh_db s0) qs = Ret st /\ Forall2 group_of opsss gs /\
    RecoverLogFile (C := C) (fun ms m => Ret (ms ++ [m], Status.OK)) (fun ms => Ret (ms, can_append)) over paranoid
      (Status.OK, Some (LogFile.Writer.dest_ (log_ st))) reuse [] max0
    = Ret (ms, kept, Z.max max0 (last_sequence_ st), save, Status.OK) /\
    concat uss = numbered (s0 + 1) (concat gs) /\
    Forall2 (fun us m => mem_of C us = Ret m) uss (ms ++ option_list kept).
Proof.
  intros Hqs Hs Hmax. destruct (run_writes_ok qs opsss Hqs _ s0 [] (fresh_is s0 ltac:(lia))) as (st & gs & Hr & Hg & [Hmem Hlog Hseq _ Hsm Hgl]); [cbn; lia|].
  cbn [app] in *. exists st, gs. destruct (new_log_reads (log_records s0 gs)) as (w & Hw & Hreads). rewrite Hlog in Hw. injection Hw as <-.
  assert (length (concat gs) <= length (concat (concat opsss)))%nat as Hle by (by apply group_length).
  assert (good (numbered (s0 + 1) (concat gs))) as Hgood by (apply numbered_good; [lia|lia|done]).
  destruct (recover_records_ok C (fun ms m => ms ++ [m]) over paranoid gs _ _ (mkRecovery [] None max0 0) s0 [] Hreads) as
    (uss & ms & rest & rc & Hrec & Hus & Hms & Hf & Hh & Hx & Hc); [done|done|done|lia|lia|done|done|].
  unfold RecoverLogFile. unfold write_table in Hrec. rewrite Hrec. cbn [mbind result_bind]. change (Status.ok Status.OK) with true. cbn [andb].
  assert (r_max rc = Z.max max0 (last_sequence_ st)) as Emax by (rewrite Hx, Hseq; destruct gs; cbn; lia). rewrite Emax.
  assert (r_files rc = ms) as Efiles by (rewrite Hf; apply foldl_snoc).
  rewrite Efiles. cbn [app] in Hus. set (reused := reuse && (r_compactions rc =? 0)%nat && can_append).
  assert ((if reuse && (r_compactions rc =? 0)%nat then Ret (ms, can_append) else Ret (ms, false)) = Ret (ms, reused)) as -> by (unfold reused; by destruct (reuse && _)).
  cbn [mbind result_bind]. destruct reused.
  - exists (uss ++ [rest]), ms, (Some (default MemTable.make (r_mem rc))). eexists. split; [done|]. split; [done|]. split; [done|].
    rewrite concat_app. cbn [concat option_list]. rewrite app_nil_r. split; [done|]. apply Forall2_app; [done|]. constructor; [by apply held_default|done].
  - destruct (r_mem rc) as [m|]; cbn [mbind result_bind held] in *.
    + exists (uss ++ [rest]), (ms ++ [m]), None. eexists. split; [done|]. split; [done|]. split; [done|]. rewrite concat_app. cbn [concat option_list].
      rewrite !app_nil_r. split; [done|]. apply Forall2_app; [done|]. by constructor.
    + exists uss, ms, None. eexists. split; [done|]. split; [done|]. split; [done|]. subst rest. rewrite app_nil_r in Hus. cbn. by rewrite app_nil_r.
Qed.

End theorems.

(** ** Examples *)

Definition demo_ops : list (list (list BatchOp)) :=
  [[[OpPut ($"apple") ($"red"); OpPut ($"plum") ($"blue")]; [OpDelete ($"apple")]]; [[OpPut ($"pear") ($"green")]]].
Definition demo_queue : list (list Writer) :=
  map (map (fun ops => mkWriter (Some (batch_rep 0 (Z.of_nat (length ops)) ops)) false)) demo_ops.

Lemma demo_queue_ok : Forall2 queue_ok demo_queue demo_ops.
Proof.
  repeat (constructor; try (split_and!; [by eexists| |repeat constructor|]; try (repeat constructor; by eexists)));
    vm_compute; try done; discriminate.
Qed.


Lemma recovery_restores_writes_witness :
  exists st gs uss ms kept save, run_writes BytewiseComparator (fresh_db 7) demo_queue = Ret st /\ Forall2 group_of demo_ops gs /\
    RecoverLogFile (C := BytewiseComparator) (fun ms m => Ret (ms ++ [m], Status.OK)) (fun ms => Ret (ms, true)) (fun _ => true) true
      (Status.OK, Some (LogFile.Writer.dest_ (log_ st))) true [] 9
    = Ret (ms, kept, Z.max 9 (last_sequence_ st), save, Status.OK) /\
    concat uss = numbered (7 + 1) (concat gs) /\
    Forall2 (fun us m => mem_of BytewiseComparator us = Ret m) uss (ms ++ option_list kept).
Proof.
  apply (recovery_restores_writes BytewiseComparator 7 demo_queue demo_ops (fun _ => true) true true true 9 demo_queue_ok);
    vm_compute; split || idtac; try discriminate; done.
Defined.

Example demo_writes :
  match run_writes BytewiseComparator (fresh_db 7) demo_queue, LookupKey_make ($"apple") 11 with
  | Ret st, Ret lk => last_sequence_ st = 11 /\ MemTable.Get (C := BytewiseComparator) (mem_ st) lk = Ret (Some (inr (Status.NotFound [] [])))
  | _, _ => False
  end.
Proof. vm_compute. done. Qed.
