(* ===== verification/VersionEdit.v ===== *)
(** * leveldb: VersionEdit

    [db/version_edit.{h,cc}]: the changes between two versions of the set of
    tables, as stored in the MANIFEST.  [deleted_files_] is a [std::set] of pairs:
    an ascending list without duplicates.  An [InternalKey] is its [rep_]. *)

From Stdlib Require Import ZArith Lia.
From S2P Require Import Prelude CString World Coding SliceStatus Logging DbFormat.

Definition kNumLevels : Z := 7.

(** ** Data *)

Record FileMetaData := mkMeta {
  refs : Z; allowed_seeks : Z;
  number : Z; file_size : Z; smallest : str; largest : str
}.

(** [FileMetaData()] with the members [AddFile] sets. *)
Definition new_meta (number file_size : Z) (smallest largest : str) : FileMetaData :=
  mkMeta 0 (Z.shiftl 1 30) number file_size smallest largest.

Record VersionEdit := mkEdit {
  comparator_ : str;
  log_number_ : Z;
  prev_log_number_ : Z;
  next_file_number_ : Z;
  last_sequence_ : Z;
  has_comparator_ : bool;
  has_log_number_ : bool;
  has_prev_log_number_ : bool;
  has_next_file_number_ : bool;
  has_last_sequence_ : bool;
  compact_pointers_ : list (Z * str);
  deleted_files_ : list (Z * Z);
  new_files_ : list (Z * FileMetaData)
}.

Definition Clear : VersionEdit := mkEdit [] 0 0 0 0 false false false false false [] [] [].

Definition SetComparatorName (name : str) (e : VersionEdit) : VersionEdit :=
  mkEdit name (log_number_ e) (prev_log_number_ e) (next_file_number_ e) (last_sequence_ e)
    true (has_log_number_ e) (has_prev_log_number_ e) (has_next_file_number_ e) (has_last_sequence_ e)
    (compact_pointers_ e) (deleted_files_ e) (new_files_ e).
Definition SetLogNumber (num : Z) (e : VersionEdit) : VersionEdit :=
  mkEdit (comparator_ e) num (prev_log_number_ e) (next_file_number_ e) (last_sequence_ e)
    (has_comparator_ e) true (has_prev_log_number_ e) (has_next_file_number_ e) (has_last_sequence_ e)
    (compact_pointers_ e) (deleted_files_ e) (new_files_ e).
Definition SetPrevLogNumber (num : Z) (e : VersionEdit) : VersionEdit :=
  mkEdit (comparator_ e) (log_number_ e) num (next_file_number_ e) (last_sequence_ e)
    (has_comparator_ e) (has_log_number_ e) true (has_next_file_number_ e) (has_last_sequence_ e)
    (compact_pointers_ e) (deleted_files_ e) (new_files_ e).
Definition SetNextFile (num : Z) (e : VersionEdit) : VersionEdit :=
  mkEdit (comparator_ e) (log_number_ e) (prev_log_number_ e) num (last_sequence_ e)
    (has_comparator_ e) (has_log_number_ e) (has_prev_log_number_ e) true (has_last_sequence_ e)
    (compact_pointers_ e) (deleted_files_ e) (new_files_ e).
Definition SetLastSequence (seq : Z) (e : VersionEdit) : VersionEdit :=
  mkEdit (comparator_ e) (log_number_ e) (prev_log_number_ e) (next_file_number_ e) seq
    (has_comparator_ e) (has_log_number_ e) (has_prev_log_number_ e) (has_next_file_number_ e) true
    (compact_pointers_ e) (deleted_files_ e) (new_files_ e).

Definition with_files (cp : list (Z * str)) (df : list (Z * Z)) (nf : list (Z * FileMetaData))
    (e : VersionEdit) : VersionEdit :=
  mkEdit (comparator_ e) (log_number_ e) (prev_log_number_ e) (next_file_number_ e) (last_sequence_ e)
    (has_comparator_ e) (has_log_number_ e) (has_prev_log_number_ e) (has_next_file_number_ e)
    (has_last_sequence_ e) cp df nf.

Definition SetCompactPointer (level : Z) (key : str) (e : VersionEdit) : VersionEdit :=
  with_files (compact_pointers_ e ++ [(level, key)]) (deleted_files_ e) (new_files_ e) e.

Definition push_file (level : Z) (f : FileMetaData) (e : VersionEdit) : VersionEdit :=
  with_files (compact_pointers_ e) (deleted_files_ e) (new_files_ e ++ [(level, f)]) e.

Definition AddFile (level file file_size : Z) (smallest largest : str) (e : VersionEdit) : VersionEdit :=
  push_file level (new_meta file file_size smallest largest) e.

(** [std::set<std::pair<int, uint64_t>>::insert] *)
Definition pair_lt (a b : Z * Z) : bool :=
  (fst a <? fst b) || ((fst a =? fst b) && (snd a <? snd b)).
Fixpoint set_insert (p : Z * Z) (l : list (Z * Z)) : list (Z * Z) :=
  match l with
  | [] => [p]
  | q :: l' => if pair_lt p q then p :: l else if pair_lt q p then q :: set_insert p l' else l
  end.

Definition RemoveFile (level file : Z) (e : VersionEdit) : VersionEdit :=
  with_files (compact_pointers_ e) (set_insert (level, file) (deleted_files_ e)) (new_files_ e) e.

(** ** EncodeTo *)

Definition kComparator : Z := 1.
Definition kLogNumber : Z := 2.
Definition kNextFileNumber : Z := 3.
Definition kLastSequence : Z := 4.
Definition kCompactPointer : Z := 5.
Definition kDeletedFile : Z := 6.
Definition kNewFile : Z := 7.
Definition kPrevLogNumber : Z := 9.

Definition put_number (has : bool) (tag num : Z) (dst : str) : str :=
  if has then PutVarint64 (PutVarint32 dst tag) num else dst.

(** A [for] loop that appends to [dst] and may trip the assertion of [Encode]. *)
Fixpoint put_each {A} (put : str -> A -> result str) (dst : str) (l : list A) : result str :=
  match l with
  | [] => Ret dst
  | a :: l' => dst' ← put dst a; put_each put dst' l'
  end.

Definition put_pointer (dst : str) (p : Z * str) : result str :=
  key ← InternalKey_Encode (snd p);
  Ret (PutLengthPrefixedSlice (PutVarint32 (PutVarint32 dst kCompactPointer) (u32 (fst p))) key).

Definition put_deleted (dst : str) (p : Z * Z) : result str :=
  Ret (PutVarint64 (PutVarint32 (PutVarint32 dst kDeletedFile) (u32 (fst p))) (snd p)).

Definition put_file (dst : str) (p : Z * FileMetaData) : result str :=
  let f := snd p in
  let dst := PutVarint32 (PutVarint32 dst kNewFile) (u32 (fst p)) in
  let dst := PutVarint64 (PutVarint64 dst (number f)) (file_size f) in
  s ← InternalKey_Encode (smallest f);
  let dst := PutLengthPrefixedSlice dst s in
  l ← InternalKey_Encode (largest f);
  Ret (PutLengthPrefixedSlice dst l).

Definition EncodeTo (e : VersionEdit) (dst : str) : result str :=
  let dst := if has_comparator_ e
             then PutLengthPrefixedSlice (PutVarint32 dst kComparator) (comparator_ e) else dst in
  let dst := put_number (has_log_number_ e) kLogNumber (log_number_ e) dst in
  let dst := put_number (has_prev_log_number_ e) kPrevLogNumber (prev_log_number_ e) dst in
  let dst := put_number (has_next_file_number_ e) kNextFileNumber (next_file_number_ e) dst in
  let dst := put_number (has_last_sequence_ e) kLastSequence (last_sequence_ e) dst in
  dst ← put_each put_pointer dst (compact_pointers_ e);
  dst ← put_each put_deleted dst (deleted_files_ e);
  put_each put_file dst (new_files_ e).

(** ** DecodeFrom *)

Definition GetInternalKey (input : str) : option (str * str) :=
  match GetLengthPrefixedSlice input with
  | Some (s, rest) => let '(key, ok) := InternalKey_DecodeFrom s in
                      if ok : bool then Some (key, rest) else None
  | None => None
  end.

Definition GetLevel (input : str) : option (Z * str) :=
  match GetVarint32 input with
  | Some (v, rest) => if v <? kNumLevels then Some (v, rest) else None
  | None => None
  end.

(** The [switch] on the tag: the edit after the case and the rest of the input, or
    the message of the failed case. *)
Definition decode_field (tag : Z) (input : str) (e : VersionEdit) : (VersionEdit * str) + str :=
  let number set msg :=
    match GetVarint64 input with Some (n, rest) => inl (set n e, rest) | None => inr msg end in
  if tag =? kComparator then
    match GetLengthPrefixedSlice input with
    | Some (s, rest) => inl (SetComparatorName s e, rest)
    | None => inr ($"comparator name")
    end
  else if tag =? kLogNumber then number SetLogNumber ($"log number")
  else if tag =? kPrevLogNumber then number SetPrevLogNumber ($"previous log number")
  else if tag =? kNextFileNumber then number SetNextFile ($"next file number")
  else if tag =? kLastSequence then number SetLastSequence ($"last sequence number")
  else if tag =? kCompactPointer then
    match GetLevel input with
    | Some (level, input) =>
        match GetInternalKey input with
        | Some (key, rest) => inl (SetCompactPointer level key e, rest)
        | None => inr ($"compaction pointer")
        end
    | None => inr ($"compaction pointer")
    end
  else if tag =? kDeletedFile then
    match GetLevel input with
    | Some (level, input) =>
        match GetVarint64 input with
        | Some (num, rest) => inl (RemoveFile level num e, rest)
        | None => inr ($"deleted file")
        end
    | None => inr ($"deleted file")
    end
  else if tag =? kNewFile then
    match
      '(level, input) ← GetLevel input;
      '(num, input) ← GetVarint64 input;
      '(size, input) ← GetVarint64 input;
      '(small, input) ← GetInternalKey input;
      '(large, input) ← GetInternalKey input;
      Some (AddFile level num size small large e, input)
    with
    | Some r => inl r
    | None => inr ($"new-file entry")
    end
  else inr ($"unknown tag").

(** The [while] loop; a turn consumes at least the tag. *)
Fixpoint decode_loop (fuel : nat) (e : VersionEdit) (input : str) : VersionEdit * option str :=
  match fuel with
  | O => (e, Some ($"invalid tag"))
  | S fuel' =>
      match GetVarint32 input with
      | Some (tag, rest) =>
          match decode_field tag rest e with
          | inl (e', rest') => decode_loop fuel' e' rest'
          | inr msg => (e, Some msg)
          end
      | None => (e, if decide (input = []) then None else Some ($"invalid tag"))
      end
  end.

Definition DecodeFrom (src : str) : VersionEdit * Status.Status :=
  let '(e, msg) := decode_loop (S (length src)) Clear src in
  (e, match msg with Some m => Status.Corruption ($"VersionEdit") m | None => Status.OK end).

(** ** DebugString *)

Definition show_number (has : bool) (label : str) (num : Z) (r : str) : str :=
  if has then AppendNumberTo (r ++ label) num else r.

Definition DebugString (e : VersionEdit) : str :=
  let r := $"VersionEdit {" in
  let r := if has_comparator_ e then r ++ nl ++ $"  Comparator: " ++ comparator_ e else r in
  let r := show_number (has_log_number_ e) (nl ++ $"  LogNumber: ") (log_number_ e) r in
  let r := show_number (has_prev_log_number_ e) (nl ++ $"  PrevLogNumber: ") (prev_log_number_ e) r in
  let r := show_number (has_next_file_number_ e) (nl ++ $"  NextFile: ") (next_file_number_ e) r in
  let r := show_number (has_last_sequence_ e) (nl ++ $"  LastSeq: ") (last_sequence_ e) r in
  let r := foldl (fun r p => AppendNumberTo (r ++ nl ++ $"  CompactPointer: ") (fst p) ++ $" "
                             ++ InternalKey_DebugString (snd p)) r (compact_pointers_ e) in
  let r := foldl (fun r p => AppendNumberTo (AppendNumberTo (r ++ nl ++ $"  RemoveFile: ") (fst p)
                             ++ $" ") (snd p)) r (deleted_files_ e) in
  let r := foldl (fun r p =>
             let f := snd p in
             AppendNumberTo (AppendNumberTo (AppendNumberTo (r ++ nl ++ $"  AddFile: ") (fst p)
               ++ $" ") (number f) ++ $" ") (file_size f)
             ++ $" " ++ InternalKey_DebugString (smallest f) ++ $" .. "
             ++ InternalKey_DebugString (largest f)) r (new_files_ e) in
  r ++ nl ++ $"}" ++ nl.

(** ** An edit as a sequence of tagged fields *)

Record field := mkField { f_tag : Z; f_payload : str; f_effect : VersionEdit -> VersionEdit }.

Definition field_bytes (f : field) : str := EncodeVarint32 (f_tag f) ++ f_payload f.

Definition number_field (has : bool) (tag num : Z) (set : Z -> VersionEdit -> VersionEdit) : list field :=
  if has then [mkField tag (EncodeVarint64 num) (set num)] else [].

Definition pointer_field (p : Z * str) : field :=
  mkField kCompactPointer (EncodeVarint32 (u32 (fst p)) ++ PutLengthPrefixedSlice [] (snd p))
    (SetCompactPointer (fst p) (snd p)).

Definition deleted_field (p : Z * Z) : field :=
  mkField kDeletedFile (EncodeVarint32 (u32 (fst p)) ++ EncodeVarint64 (snd p))
    (RemoveFile (fst p) (snd p)).

Definition file_field (p : Z * FileMetaData) : field :=
  mkField kNewFile
    (EncodeVarint32 (u32 (fst p)) ++ EncodeVarint64 (number (snd p)) ++ EncodeVarint64 (file_size (snd p))
     ++ PutLengthPrefixedSlice [] (smallest (snd p)) ++ PutLengthPrefixedSlice [] (largest (snd p)))
    (AddFile (fst p) (number (snd p)) (file_size (snd p)) (smallest (snd p)) (largest (snd p))).

Definition fields (e : VersionEdit) : list field :=
  (if has_comparator_ e
   then [mkField kComparator (PutLengthPrefixedSlice [] (comparator_ e)) (SetComparatorName (comparator_ e))]
   else [])
  ++ number_field (has_log_number_ e) kLogNumber (log_number_ e) SetLogNumber
  ++ number_field (has_prev_log_number_ e) kPrevLogNumber (prev_log_number_ e) SetPrevLogNumber
  ++ number_field (has_next_file_number_ e) kNextFileNumber (next_file_number_ e) SetNextFile
  ++ number_field (has_last_sequence_ e) kLastSequence (last_sequence_ e) SetLastSequence
  ++ map pointer_field (compact_pointers_ e)
  ++ map deleted_field (deleted_files_ e)
  ++ map file_field (new_files_ e).

(** Sizes and ranges that fit the encoding. *)
Definition u64_ok (n : Z) : Prop := 0 <= n < 2 ^ 64.
Definition key_ok (k : str) : Prop := k <> [] /\ str_size k < 2 ^ 32.
Definition level_ok (l : Z) : Prop := 0 <= l < kNumLevels.

(** The order of a [std::set]. *)
Fixpoint ascending (l : list (Z * Z)) : Prop :=
  match l with
  | [] => True
  | p :: l' => Forall (fun q => pair_lt p q = true) l' /\ ascending l'
  end.

(** A number whose flag is off has the value of [Clear]. *)
Definition flag_ok (has : bool) (n : Z) : Prop := if has then u64_ok n else n = 0.

Record edit_ok (e : VersionEdit) : Prop := {
  eo_comparator : if has_comparator_ e then str_size (comparator_ e) < 2 ^ 32 else comparator_ e = [];
  eo_log : flag_ok (has_log_number_ e) (log_number_ e);
  eo_prev : flag_ok (has_prev_log_number_ e) (prev_log_number_ e);
  eo_next : flag_ok (has_next_file_number_ e) (next_file_number_ e);
  eo_seq : flag_ok (has_last_sequence_ e) (last_sequence_ e);
  eo_pointers : Forall (fun p => level_ok (fst p) /\ key_ok (snd p)) (compact_pointers_ e);
  eo_deleted : Forall (fun p => level_ok (fst p) /\ u64_ok (snd p)) (deleted_files_ e);
  eo_sorted : ascending (deleted_files_ e);
  eo_files : Forall (fun p => level_ok (fst p) /\ u64_ok (number (snd p)) /\ u64_ok (file_size (snd p)) /\
               key_ok (smallest (snd p)) /\ key_ok (largest (snd p)) /\
               refs (snd p) = 0 /\ allowed_seeks (snd p) = Z.shiftl 1 30) (new_files_ e)
}.

(** *** Encoding *)

Lemma PutLengthPrefixedSlice_dst dst v :
  PutLengthPrefixedSlice dst v = dst ++ PutLengthPrefixedSlice [] v.
Proof. unfold PutLengthPrefixedSlice, PutVarint32. simpl. by rewrite <- app_assoc. Qed.

Lemma put_each_app {A} (put : str -> A -> result str) (f : A -> field) dst l :
  (forall dst a, a ∈ l -> put dst a = Ret (dst ++ field_bytes (f a))) ->
  put_each put dst l = Ret (dst ++ concat (map field_bytes (map f l))).
Proof.
  revert dst. induction l as [|a l IH]; intros dst Hp; cbn [put_each map concat].
  - by rewrite app_nil_r.
  - rewrite Hp by set_solver. cbn [mbind result_bind]. rewrite IH by set_solver.
    by rewrite <- app_assoc.
Qed.

Lemma put_number_app has tag num set dst :
  put_number has tag num dst = dst ++ concat (map field_bytes (number_field has tag num set)).
Proof.
  unfold put_number, number_field, PutVarint64, PutVarint32, field_bytes.
  destruct has; simpl; rewrite ?app_nil_r; [by rewrite <- app_assoc|done].
Qed.

Lemma Encode_ok k : key_ok k -> InternalKey_Encode k = Ret k.
Proof. intros [Hk _]. unfold InternalKey_Encode. by rewrite decide_False. Qed.

Lemma EncodeTo_fields e dst :
  edit_ok e -> EncodeTo e dst = Ret (dst ++ concat (map field_bytes (fields e))).
Proof.
  intros He. unfold EncodeTo, fields.
  assert ((if has_comparator_ e then PutLengthPrefixedSlice (PutVarint32 dst kComparator) (comparator_ e) else dst)
    = dst ++ concat (map field_bytes (if has_comparator_ e
       then [mkField kComparator (PutLengthPrefixedSlice [] (comparator_ e)) (SetComparatorName (comparator_ e))]
       else []))) as ->.
  { destruct (has_comparator_ e); cbn [map concat]; rewrite app_nil_r; [|done].
    rewrite PutLengthPrefixedSlice_dst. unfold PutVarint32, field_bytes. by rewrite <- app_assoc. }
  rewrite (put_number_app _ kLogNumber _ SetLogNumber), (put_number_app _ kPrevLogNumber _ SetPrevLogNumber),
    (put_number_app _ kNextFileNumber _ SetNextFile), (put_number_app _ kLastSequence _ SetLastSequence).
  destruct He as [_ _ _ _ _ Hp Hd _ Hf]. rewrite Forall_forall in Hp. rewrite Forall_forall in Hf.
  rewrite (put_each_app _ pointer_field).
  2: { intros d a Ha. destruct (Hp a Ha) as [_ Hk]. unfold put_pointer. rewrite Encode_ok by done.
       cbn [mbind result_bind]. rewrite PutLengthPrefixedSlice_dst.
       unfold PutVarint32. by rewrite <- !app_assoc. }
  cbn [mbind result_bind]. rewrite (put_each_app _ deleted_field).
  2: { intros d a Ha. unfold put_deleted, PutVarint32, PutVarint64. by rewrite <- !app_assoc. }
  cbn [mbind result_bind]. rewrite (put_each_app _ file_field).
  2: { intros d a Ha. destruct (Hf a Ha) as (_ & _ & _ & Hs & Hl & _). unfold put_file.
       rewrite !Encode_ok by done. cbn [mbind result_bind].
       rewrite (PutLengthPrefixedSlice_dst (PutLengthPrefixedSlice _ _)),
         (PutLengthPrefixedSlice_dst (PutVarint64 _ _)).
       unfold PutVarint32, PutVarint64. by rewrite <- !app_assoc. }
  f_equal. rewrite !map_app, !concat_app, <- !app_assoc. reflexivity.
Qed.

(** *** Decoding *)

Definition field_ok (f : field) : Prop :=
  0 <= f_tag f < 2 ^ 32 /\
  forall e rest, decode_field (f_tag f) (f_payload f ++ rest) e = inl (f_effect f e, rest).

Lemma decode_fields fuel e fs :
  Forall field_ok fs -> (length fs < fuel)%nat ->
  decode_loop fuel e (concat (map field_bytes fs)) = (foldl (fun e f => f_effect f e) e fs, None).
Proof.
  intros Hok. revert fuel e. induction Hok as [|f fs [Ht Hf] Hok IH]; intros fuel e Hl;
    (destruct fuel as [|fuel]; [simpl in Hl; lia|]); cbn [decode_loop map concat].
  - reflexivity.
  - unfold field_bytes. rewrite <- app_assoc, GetVarint32_Encode by done. rewrite Hf.
    apply IH. simpl in Hl. lia.
Qed.

Lemma GetVarint64_app n rest : u64_ok n -> GetVarint64 (EncodeVarint64 n ++ rest) = Some (n, rest).
Proof. apply GetVarint64_Encode. Qed.

Lemma GetLevel_app l rest : level_ok l -> GetLevel (EncodeVarint32 (u32 l) ++ rest) = Some (l, rest).
Proof.
  unfold level_ok, kNumLevels. intros Hl. unfold GetLevel. rewrite wrap_small, GetVarint32_Encode by lia.
  destruct (Z.ltb_spec l kNumLevels); [done|unfold kNumLevels in *; lia].
Qed.

Lemma GetInternalKey_app k rest :
  key_ok k -> GetInternalKey (PutLengthPrefixedSlice [] k ++ rest) = Some (k, rest).
Proof.
  intros [Hk Hs]. unfold GetInternalKey. rewrite GetLengthPrefixedSlice_Put by done.
  unfold InternalKey_DecodeFrom. by rewrite bool_decide_false.
Qed.

Lemma number_field_ok has tag num set msg :
  flag_ok has num -> 0 <= tag < 2 ^ 32 ->
  (forall input e, decode_field tag input e =
     match GetVarint64 input with Some (n, rest) => inl (set n e, rest) | None => inr msg end) ->
  Forall field_ok (number_field has tag num set).
Proof.
  intros Hn Ht Hd. unfold number_field. destruct has; [|constructor].
  constructor; [|constructor]. split; [done|]. intros e rest. cbn [f_tag f_payload f_effect].
  by rewrite Hd, GetVarint64_app.
Qed.

Lemma fields_ok e : edit_ok e -> Forall field_ok (fields e).
Proof.
  intros [Hc Hl Hpv Hn Hs Hp Hd _ Hf]. unfold fields. repeat apply Forall_app_2;
    try (eapply number_field_ok; [done|done|reflexivity]).
  - destruct (has_comparator_ e); [|constructor]. constructor; [|constructor]. split; [done|].
    intros e' rest. unfold decode_field. simpl. by rewrite GetLengthPrefixedSlice_Put.
  - apply Forall_map. eapply Forall_impl; [exact Hp|]. intros [l k] [Hl' Hk]. split; [done|].
    intros e' rest. unfold decode_field. cbn -[GetLevel GetInternalKey EncodeVarint32 u32 PutLengthPrefixedSlice].
    rewrite <- app_assoc, GetLevel_app by done. by rewrite GetInternalKey_app.
  - apply Forall_map. eapply Forall_impl; [exact Hd|]. intros [l n] [Hl' Hn']. split; [done|].
    intros e' rest. unfold decode_field. cbn -[GetLevel GetVarint64 EncodeVarint32 EncodeVarint64 u32].
    rewrite <- app_assoc, GetLevel_app by done. by rewrite GetVarint64_app.
  - apply Forall_map. eapply Forall_impl; [exact Hf|]. intros [l m] (Hl' & Hnum & Hsz & Hsm & Hlg & _).
    split; [done|]. intros e' rest. unfold decode_field.
    cbn -[GetLevel GetVarint64 GetInternalKey EncodeVarint32 EncodeVarint64 PutLengthPrefixedSlice u32 mbind].
    rewrite <- !app_assoc, GetLevel_app by done. cbn [mbind option_bind].
    rewrite GetVarint64_app by done. cbn [mbind option_bind].
    rewrite GetVarint64_app by done. cbn [mbind option_bind].
    rewrite GetInternalKey_app by done. cbn [mbind option_bind].
    by rewrite GetInternalKey_app by done.
Qed.

(** *** The effects of the fields rebuild the edit *)

Lemma set_insert_last p l :
  Forall (fun q => pair_lt q p = true) l -> set_insert p l = l ++ [p].
Proof.
  induction 1 as [|q l Hq Hl IH]; simpl; [done|].
  assert (pair_lt p q = false) as ->.
  { unfold pair_lt in *. destruct (Z.ltb_spec (fst q) (fst p)), (Z.eqb_spec (fst q) (fst p)),
      (Z.ltb_spec (snd q) (snd p)), (Z.ltb_spec (fst p) (fst q)), (Z.eqb_spec (fst p) (fst q)),
      (Z.ltb_spec (snd p) (snd q)); simpl in *; try done; lia. }
  by rewrite Hq, IH.
Qed.

Lemma effects_pointers e cp :
  foldl (fun e p => SetCompactPointer (fst p) (snd p) e) e cp
  = with_files (compact_pointers_ e ++ cp) (deleted_files_ e) (new_files_ e) e.
Proof.
  revert e. induction cp as [|[l k] cp IH]; intros e; simpl.
  - rewrite app_nil_r. by destruct e.
  - rewrite IH. unfold SetCompactPointer, with_files. simpl. by rewrite <- app_assoc.
Qed.

Lemma effects_deleted e df :
  ascending df -> (forall p q, p ∈ deleted_files_ e -> q ∈ df -> pair_lt p q = true) ->
  foldl (fun e p => RemoveFile (fst p) (snd p) e) e df
  = with_files (compact_pointers_ e) (deleted_files_ e ++ df) (new_files_ e) e.
Proof.
  revert e. induction df as [|[l n] df IH]; intros e Ha Hlt; simpl.
  - rewrite app_nil_r. by destruct e.
  - destruct Ha as [Ha1 Ha2].
    assert (set_insert (l, n) (deleted_files_ e) = deleted_files_ e ++ [(l, n)]) as Hi.
    { apply set_insert_last, Forall_forall. intros q Hq. apply Hlt; set_solver. }
    unfold RemoveFile at 2. simpl. rewrite Hi, IH; [|done|].
    + unfold with_files. simpl. by rewrite <- app_assoc.
    + simpl. intros p q [Hp|Hp]%elem_of_app Hq; [apply Hlt; set_solver|].
      apply list_elem_of_singleton in Hp as ->. rewrite Forall_forall in Ha1. by apply Ha1.
Qed.

Lemma effects_files e nf :
  Forall (fun p => refs (snd p) = 0 /\ allowed_seeks (snd p) = Z.shiftl 1 30) nf ->
  foldl (fun e p => AddFile (fst p) (number (snd p)) (file_size (snd p)) (smallest (snd p)) (largest (snd p)) e)
    e nf
  = with_files (compact_pointers_ e) (deleted_files_ e) (new_files_ e ++ nf) e.
Proof.
  intros Hf. revert e. induction Hf as [|[l m] nf [Hr Ha] Hf IH]; intros e; simpl.
  - rewrite app_nil_r. by destruct e.
  - rewrite IH. unfold AddFile, push_file, with_files. simpl. rewrite <- app_assoc. simpl.
    do 4 f_equal. destruct m. simpl in *. unfold new_meta. by subst.
Qed.

Lemma foldl_map {A B C} (f : C -> B -> C) (g : A -> B) c l :
  foldl f c (map g l) = foldl (fun c a => f c (g a)) c l.
Proof. revert c. induction l as [|a l IH]; intros c; simpl; auto. Qed.

Lemma effects_number has tag num set e :
  foldl (fun e f => f_effect f e) e (number_field has tag num set) = if has then set num e else e.
Proof. by destruct has. Qed.

Lemma effects_comparator (has : bool) name e :
  foldl (fun e f => f_effect f e) e
    (if has then [mkField kComparator (PutLengthPrefixedSlice [] name) (SetComparatorName name)] else [])
  = if has then SetComparatorName name e else e.
Proof. by destruct has. Qed.

(** The scalar fields of an edit, on an edit without files. *)
Lemma scalar_effects e :
  edit_ok e ->
  (let e1 := if has_comparator_ e then SetComparatorName (comparator_ e) Clear else Clear in
   let e2 := if has_log_number_ e then SetLogNumber (log_number_ e) e1 else e1 in
   let e3 := if has_prev_log_number_ e then SetPrevLogNumber (prev_log_number_ e) e2 else e2 in
   let e4 := if has_next_file_number_ e then SetNextFile (next_file_number_ e) e3 else e3 in
   if has_last_sequence_ e then SetLastSequence (last_sequence_ e) e4 else e4)
  = with_files [] [] [] e.
Proof.
  intros [Hc Hl Hpv Hn Hs _ _ _ _]. destruct e as [c l pl nf ls hc hl hpl hnf hls cp df nfs].
  cbn in Hc, Hl, Hpv, Hn, Hs. unfold with_files. cbn.
  destruct hc, hl, hpl, hnf, hls; cbn in *; subst; reflexivity.
Qed.

Lemma fields_effects e : edit_ok e -> foldl (fun e f => f_effect f e) Clear (fields e) = e.
Proof.
  intros He. unfold fields. rewrite !foldl_app, !foldl_map.
  cbn [f_effect pointer_field deleted_field file_field].
  rewrite effects_comparator, !effects_number. pose proof (scalar_effects e He) as Hs. cbv zeta in Hs.
  rewrite Hs. destruct He as [_ _ _ _ _ _ _ Hsort Hf].
  rewrite effects_pointers, effects_deleted, effects_files; [|eapply Forall_impl; [exact Hf|]; naive_solver|done|].
  - by destruct e.
  - intros p q Hp. by apply elem_of_nil in Hp.
Qed.

(** ** Properties *)

Lemma fields_length e : (length (fields e) <= length (concat (map field_bytes (fields e))))%nat.
Proof.
  induction (fields e) as [|f fs IH]; simpl; [lia|]. rewrite length_app. unfold field_bytes at 1.
  rewrite length_app. assert (1 <= length (EncodeVarint32 (f_tag f)))%nat.
  { unfold EncodeVarint32. repeat case_match; simpl; lia. } lia.
Qed.

Lemma edit_codec e :
  edit_ok e -> exists enc, EncodeTo e [] = Ret enc /\ DecodeFrom enc = (e, Status.OK).
Proof.
  intros He. eexists. split; [by apply EncodeTo_fields|]. unfold DecodeFrom. simpl app.
  rewrite decode_fields; [|by apply fields_ok|].
  - by rewrite fields_effects.
  - pose proof (fields_length e). lia.
Qed.

(** C33: an edit whose keys and numbers fit the encoding survives the MANIFEST:
    [EncodeTo] succeeds and [DecodeFrom] rebuilds the same edit, with every flag,
    pointer, deleted file and new file, and status OK. *)
Theorem edit_roundtrip e :
  edit_ok e -> exists enc, EncodeTo e [] = Ret enc /\ DecodeFrom enc = (e, Status.OK).
Proof. intros He. destruct (edit_codec e He) as (enc & ? & ?). by exists enc. Qed.

Definition demo_edit : VersionEdit :=
  AddFile 2 9 2097152 (ikey ($"Key1") 1) (ikey ($"Key9") 77)
    (RemoveFile 1 8 (RemoveFile 0 5 (SetCompactPointer 1 (ikey ($"Key5") 3)
      (SetLogNumber 300 (SetComparatorName ($"leveldb.BytewiseComparator") Clear))))).

Lemma ikey_key_ok u n : str_size u < 2 ^ 31 -> key_ok (ikey u n).
Proof.
  intros Hu. split; unfold ikey; [by destruct u|]. rewrite key_size. lia.
Qed.

Lemma demo_edit_ok : edit_ok demo_edit.
Proof.
  assert (key_ok (ikey ($"Key1") 1) /\ key_ok (ikey ($"Key9") 77) /\ key_ok (ikey ($"Key5") 3)) as (H1 & H9 & H5).
  { split_and!; by apply ikey_key_ok. }
  split; cbn [demo_edit has_comparator_ comparator_ has_log_number_ log_number_]; try done.
  - apply Forall_singleton. split; [done|exact H5].
  - constructor; [|constructor; [|constructor]]; done.
  - cbn. split_and!; repeat constructor.
  - apply Forall_singleton. split_and!; try done; apply H1 || apply H9.
Qed.

Lemma edit_roundtrip_witness :
  exists enc, EncodeTo demo_edit [] = Ret enc /\ DecodeFrom enc = (demo_edit, Status.OK).
Proof. apply edit_roundtrip. apply demo_edit_ok. Defined.
