(* ===== verification/Version.v ===== *)
(** * leveldb: versions

    [class Version] of [db/version_set.{h,cc}]: the table files of each level, the
    search for a key through them, and the overlap of files with a range of keys.  The
    tables are opened and read through a [TableCache].  The keys of file metadata have
    tags, so the order of internal keys is the comparator [internal_comparator] and
    the user key of a key is its [user_part].  Reference counts and the list of
    versions manage memory and are not modelled; a [FileMetaData*] is the data, and
    identified by its number. *)

From Stdlib Require Import ZArith Lia.
From S2P Require Import Prelude CString World Coding SliceStatus FilterPolicy Logging DbFormat Iterators TwoLevelIterator DbTable VersionEdit.

(** [db/table_cache.h]: looking up a key in a table, with the entry given to the
    callback if it is called, the iterator of a table (or of an error), and forgetting
    a table. *)
Class TableCache (T D : Type) := {
  tc_Get : T -> Z -> Z -> str -> result (Status.Status * option entry * T);
  tc_NewIterator : T -> Z -> Z -> result ((EmptyIterator.EmptyIterator + D) * T);
  tc_Evict : T -> Z -> T
}.

Section sizes.
Context (max_file_size : Z).

Definition int64 (z : Z) : Z := swrap 64 z.
Definition TargetFileSize : Z := max_file_size.
Definition MaxGrandParentOverlapBytes : Z := int64 (u64 (10 * TargetFileSize)).
Definition ExpandedCompactionByteSizeLimit : Z := int64 (u64 (25 * TargetFileSize)).
Definition MaxFileSizeForLevel (level : Z) : Z := TargetFileSize.

Definition TotalFileSize (files : list FileMetaData) : Z :=
  foldl (fun sum f => int64 (u64 (sum + file_size f))) 0 files.
End sizes.

Section files.
Context `{C : !Comparator}.
Implicit Types (f : FileMetaData) (files : list FileMetaData).

Definition icompare (a b : str) : comparison := Compare (Comparator := internal_comparator C) a b.

(** [while (left < right)] *)
Fixpoint find_file (fuel : nat) files (key : str) (left_ right_ : Z) : result Z :=
  if left_ <? right_ then
    match fuel with
    | O => Crash OutOfFuel
    | S fuel =>
        let mid := u32 (left_ + right_) / 2 in
        f ← vec_at files mid;
        match icompare (largest f) key with
        | Lt => find_file fuel files key (u32 (mid + 1)) right_
        | _ => find_file fuel files key left_ mid
        end
    end
  else Ret right_.

Definition FindFile files (key : str) : result Z :=
  find_file (length files) files key 0 (u32 (Z.of_nat (length files))).

Definition AfterFile (user_key : option str) f : bool :=
  match user_key with Some k => match Compare k (user_part (largest f)) with Gt => true | _ => false end | None => false end.
Definition BeforeFile (user_key : option str) f : bool :=
  match user_key with Some k => match Compare k (user_part (smallest f)) with Lt => true | _ => false end | None => false end.

Definition SomeFileOverlapsRange (disjoint_sorted_files : bool) files (smallest_user_key largest_user_key : option str) : result bool :=
  if negb disjoint_sorted_files
  then Ret (existsb (fun f => negb (AfterFile smallest_user_key f || BeforeFile largest_user_key f)) files)
  else
    index ← (match smallest_user_key with
             | Some k => small_key ← InternalKey_make k kMaxSequenceNumber kValueTypeForSeek; FindFile files small_key
             | None => Ret 0
             end);
    if Z.of_nat (length files) <=? index then Ret false
    else f ← vec_at files index; Ret (negb (BeforeFile largest_user_key f)).

(** ** LevelFileNumIterator *)

Record LevelFileNumIterator := mkLevelIter { flist_ : list FileMetaData; index_ : Z }.

Definition NewLevelFileNumIterator files : LevelFileNumIterator := mkLevelIter files (u32 (Z.of_nat (length files))).

Definition level_valid (it : LevelFileNumIterator) : bool := index_ it <? Z.of_nat (length (flist_ it)).
Definition level_key (it : LevelFileNumIterator) : result str :=
  if level_valid it then f ← vec_at (flist_ it) (index_ it); Ret (largest f) else Crash AssertFailed.
Definition level_value (it : LevelFileNumIterator) : result str :=
  if level_valid it then f ← vec_at (flist_ it) (index_ it); Ret (EncodeFixed64 (number f) ++ EncodeFixed64 (file_size f))
  else Crash AssertFailed.

#[global] Instance LevelFileNumIterator_ops : Iterator LevelFileNumIterator := {
  it_Valid := level_valid;
  it_key := level_key;
  it_value := level_value;
  it_status _ := Status.OK;
  it_SeekToFirst it := Ret (mkLevelIter (flist_ it) 0);
  it_SeekToLast it :=
    Ret (mkLevelIter (flist_ it) (match flist_ it with [] => 0 | _ => u32 (Z.of_nat (length (flist_ it)) - 1) end));
  it_Seek it target := i ← FindFile (flist_ it) target; Ret (mkLevelIter (flist_ it) (u32 i));
  it_Next it := if level_valid it then Ret (mkLevelIter (flist_ it) (u32 (index_ it + 1))) else Crash AssertFailed;
  it_Prev it :=
    if level_valid it
    then Ret (mkLevelIter (flist_ it) (if index_ it =? 0 then u32 (Z.of_nat (length (flist_ it))) else index_ it - 1))
    else Crash AssertFailed
}.

(** [GetFileIterator], the block function of the two-level iterators over files. *)
Definition GetFileIterator {T D} `{TC : !TableCache T D} (cache : T) (file_value : str) :
    result ((EmptyIterator.EmptyIterator + D) * T) :=
  if negb (str_size file_value =? 16)
  then Ret (inl (EmptyIterator.NewErrorIterator (Status.Corruption ($"FileReader invoked with unexpected value") [])), cache)
  else tc_NewIterator cache (DecodeFixed64 file_value) (DecodeFixed64 (drop 8 file_value)).

End files.

Module Version.

(** The scores of [VersionSet::Finalize] are kept by [VersionSet]. *)
Record Version := mkVersion {
  files_ : list (list FileMetaData);
  file_to_compact_ : option FileMetaData;
  file_to_compact_level_ : Z
}.

(** [Version(vset)] *)
Definition make : Version := mkVersion (replicate (Z.to_nat kNumLevels) []) None (-1).

(** [files_[level]], an array of [kNumLevels] vectors. *)
Definition level_files (v : Version) (level : Z) : result (list FileMetaData) := vec_at (files_ v) level.

(** ** Searching *)

Inductive SaverState := kNotFound | kFound | kDeleted | kCorrupt.

#[global] Instance SaverState_eq_decision : EqDecision SaverState.
Proof. solve_decision. Defined.

(** [GetStats]: the file to charge for a seek, and its level. *)
Definition GetStats : Type := option (FileMetaData * Z).

Record State (T : Type) := mkState {
  saver : SaverState * str;
  stats : GetStats;
  last_file_read : option (FileMetaData * Z);
  cache : T;
  s_ : Status.Status;
  found : bool
}.
Arguments mkState {T} _ _ _ _ _ _.
Arguments saver {T} _.
Arguments stats {T} _.
Arguments last_file_read {T} _.
Arguments cache {T} _.
Arguments s_ {T} _.
Arguments found {T} _.

Section search.
Context `{C : !Comparator}.
Implicit Types (f : FileMetaData) (v : Version).

(** The state and [*value] of the [Saver] after the callback. *)
Definition SaveValue (user_key : str) (st : SaverState * str) (ikey value : str) : SaverState * str :=
  match ParseInternalKey ikey with
  | None => (kCorrupt, snd st)
  | Some parsed =>
      match Compare (DbFormat.user_key parsed) user_key with
      | Eq => match type parsed with kTypeValue => (kFound, value) | kTypeDeletion => (kDeleted, snd st) end
      | _ => st
      end
  end.

Definition NewestFirst (a b : FileMetaData) : bool := number b <? number a.

(** [std::sort] with [NewestFirst]: the numbers of files are distinct. *)
Definition not_after (a b : FileMetaData) : Prop := NewestFirst b a = false.
#[global] Instance not_after_dec a b : Decision (not_after a b).
Proof. unfold not_after. apply _. Defined.
Definition sort_newest (l : list FileMetaData) : list FileMetaData := merge_sort not_after l.

Section each.
Context {S : Type} (func : S -> Z -> FileMetaData -> result (S * bool)).

(** Calling [func] for each file until it returns false. *)
Fixpoint each_file (st : S) (level : Z) (fs : list FileMetaData) : result (S * bool) :=
  match fs with
  | [] => Ret (st, true)
  | f :: fs => q ← func st level f; let '(st, go) := (q : S * bool) in if go then each_file st level fs else Ret (st, false)
  end.

Definition in_range (user_key : str) f : bool :=
  match Compare user_key (user_part (smallest f)) with
  | Lt => false
  | _ => match Compare user_key (user_part (largest f)) with Gt => false | _ => true end
  end.

(** [for (int level = 1; ...)], over the files of the levels that are left. *)
Fixpoint each_level (st : S) (user_key internal_key : str) (level : Z) (levels : list (list FileMetaData)) : result S :=
  match levels with
  | [] => Ret st
  | files :: levels =>
      q ← (match files with
           | [] => Ret (st, true)
           | _ =>
               index ← FindFile files internal_key;
               if u32 index <? Z.of_nat (length files) then
                 f ← vec_at files (u32 index);
                 match Compare user_key (user_part (smallest f)) with
                 | Lt => Ret (st, true)
                 | _ => func st level f
                 end
               else Ret (st, true)
           end);
      let '(st, go) := (q : S * bool) in
      if go then each_level st user_key internal_key (level + 1) levels else Ret st
  end.

Definition ForEachOverlapping v (user_key internal_key : str) (st : S) : result S :=
  match files_ v with
  | [] => Crash OutOfBounds
  | files0 :: levels =>
      q ← each_file st 0 (sort_newest (List.filter (in_range user_key) files0));
      let '(st, go) := (q : S * bool) in
      if go then each_level st user_key internal_key 1 levels else Ret st
  end.
End each.

(** *** Get *)

Section get.
Context {T D : Type} `{TC : !TableCache T D}.

Definition Match (user_key ikey : str) (st : State T) (level : Z) f : result (State T * bool) :=
  let stats' := match stats st, last_file_read st with None, Some x => Some x | s, _ => s end in
  q ← tc_Get (cache st) (number f) (file_size f) ikey;
  let '(s, e, tc) := (q : Status.Status * option entry * T) in
  let sv := match e with Some (k, v) => SaveValue user_key (saver st) k v | None => saver st end in
  let result s found := mkState sv stats' (Some (f, level)) tc s found in
  if negb (Status.ok s) then Ret (result s true, false)
  else
    match fst sv with
    | kNotFound => Ret (result s (found st), true)
    | kFound => Ret (result s true, false)
    | kDeleted => Ret (result s (found st), false)
    | kCorrupt => Ret (result (Status.Corruption ($"corrupted key for ") user_key) true, false)
    end.

(** The status, [*value], the stats and the table cache; [*value] is untouched when
    nothing was found. *)
Definition Get v (tc : T) (k : LookupKey) (value : str) : result (Status.Status * str * GetStats * T) :=
  st ← ForEachOverlapping (Match (lookup_user_key k) (internal_key k)) v (lookup_user_key k) (internal_key k)
         (mkState (kNotFound, value) None None tc Status.OK false);
  Ret (if found st then s_ st else Status.NotFound [] [], snd (saver st), stats st, cache st).
End get.

(** *** Read statistics *)

Definition charge (n : Z) f : FileMetaData :=
  if number f =? n then mkMeta (refs f) (allowed_seeks f - 1) (number f) (file_size f) (smallest f) (largest f) else f.

(** The file whose seek is charged is found by its number. *)
Definition UpdateStats v (stats : GetStats) : Version * bool :=
  match stats with
  | None => (v, false)
  | Some (f, level) =>
      let files := map (map (charge (number f))) (files_ v) in
      let f := charge (number f) f in
      match file_to_compact_ v with
      | None =>
          if allowed_seeks f <=? 0 then (mkVersion files (Some f) level, true)
          else (mkVersion files None (file_to_compact_level_ v), false)
      | Some g => (mkVersion files (Some (charge (number f) g)) (file_to_compact_level_ v), false)
      end
  end.

(** The callback of [RecordReadSample]: the first match and the number of matches. *)
Definition sample_match (st : GetStats * Z) (level : Z) f : result ((GetStats * Z) * bool) :=
  let matches := snd st + 1 in
  Ret ((if matches =? 1 then Some (f, level) else fst st, matches), matches <? 2).

Definition RecordReadSample v (internal_key : str) : result (Version * bool) :=
  match ParseInternalKey internal_key with
  | None => Ret (v, false)
  | Some ikey =>
      st ← ForEachOverlapping sample_match v (DbFormat.user_key ikey) internal_key (None, 0);
      if 2 <=? snd st then Ret (UpdateStats v (fst st)) else Ret (v, false)
  end.

(** ** Overlaps *)

Definition OverlapInLevel v (level : Z) (smallest_user_key largest_user_key : option str) : result bool :=
  files ← level_files v level; SomeFileOverlapsRange (0 <? level) files smallest_user_key largest_user_key.

Definition is_lt (c : comparison) : bool := match c with Lt => true | _ => false end.
Definition is_gt (c : comparison) : bool := match c with Gt => true | _ => false end.

Definition below (k : str) (bound : option str) : bool := match bound with Some b => is_lt (Compare k b) | None => false end.
Definition above (k : str) (bound : option str) : bool := match bound with Some b => is_gt (Compare k b) | None => false end.

(** The loop of [GetOverlappingInputs]; on level 0 a file that extends the range
    starts it again. *)
Fixpoint overlap_loop (fuel : nat) (level : Z) (files : list FileMetaData) (user_begin user_end : option str) (i : nat)
    (inputs : list FileMetaData) : result (list FileMetaData) :=
  match fuel with
  | O => Crash OutOfFuel
  | Datatypes.S fuel =>
      match files !! i with
      | None => Ret inputs
      | Some f =>
          let i := Datatypes.S i in
          let file_start := user_part (smallest f) in
          let file_limit := user_part (largest f) in
          if below file_limit user_begin || above file_start user_end
          then overlap_loop fuel level files user_begin user_end i inputs
          else
            let inputs := inputs ++ [f] in
            if level =? 0 then
              if below file_start user_begin then overlap_loop fuel level files (Some file_start) user_end 0 []
              else if above file_limit user_end then overlap_loop fuel level files user_begin (Some file_limit) 0 []
              else overlap_loop fuel level files user_begin user_end i inputs
            else overlap_loop fuel level files user_begin user_end i inputs
      end
  end.

(** Each start but the first moves one end of the range to a file's. *)
Definition overlap_fuel (n : nat) : nat := (2 * n + 1) * (n + 1).

Definition GetOverlappingInputs v (level : Z) (begin_ end_ : option str) : result (list FileMetaData) :=
  if (0 <=? level) && (level <? kNumLevels) then
    files ← level_files v level;
    overlap_loop (overlap_fuel (length files)) level files (user_part <$> begin_) (user_part <$> end_) 0 []
  else Crash AssertFailed.

Definition kMaxMemCompactLevel : Z := 2.

(** [while (level < config::kMaxMemCompactLevel)], [n] turns at most. *)
Fixpoint pick_level (n : nat) (max_file_size : Z) v (smallest_user_key largest_user_key start limit : str) (level : Z) : result Z :=
  match n with
  | O => Ret level
  | Datatypes.S n =>
      if negb (level <? kMaxMemCompactLevel) then Ret level
      else
        overlap ← OverlapInLevel v (level + 1) (Some smallest_user_key) (Some largest_user_key);
        if (overlap : bool) then Ret level
        else
          too_much ← (if level + 2 <? kNumLevels then
                        overlaps ← GetOverlappingInputs v (level + 2) (Some start) (Some limit);
                        Ret (MaxGrandParentOverlapBytes max_file_size <? TotalFileSize overlaps)
                      else Ret false);
          if (too_much : bool) then Ret level
          else pick_level n max_file_size v smallest_user_key largest_user_key start limit (level + 1)
  end.

Definition PickLevelForMemTableOutput (max_file_size : Z) v (smallest_user_key largest_user_key : str) : result Z :=
  overlap ← OverlapInLevel v 0 (Some smallest_user_key) (Some largest_user_key);
  if (overlap : bool) then Ret 0
  else
    start ← InternalKey_make smallest_user_key kMaxSequenceNumber kValueTypeForSeek;
    limit ← InternalKey_make largest_user_key 0 kTypeDeletion;
    pick_level (Z.to_nat kMaxMemCompactLevel) max_file_size v smallest_user_key largest_user_key start limit 0.

End search.

Definition file_text (r : str) (f : FileMetaData) : str :=
  AppendNumberTo (AppendNumberTo (r ++ $" ") (number f) ++ $":") (file_size f) ++ $"[" ++ InternalKey_DebugString (smallest f)
  ++ $" .. " ++ InternalKey_DebugString (largest f) ++ $"]" ++ nl.

Definition DebugString (v : Version) : str :=
  foldl (fun r lf => foldl file_text (AppendNumberTo (r ++ $"--- level ") (fst lf) ++ $" ---" ++ nl) (snd lf)) []
    (zip (seqZ 0 kNumLevels) (files_ v)).

End Version.
