(* ===== verification/VersionSpec.v ===== *)
(** * Versions: what a lookup finds

    The search of [Version::Get] over a version whose files hold what their metadata
    says answers with the newest visible update of the user key. *)

From Stdlib Require Import ZArith Lia Permutation.
From S2P Require Import Prelude CString World Coding SliceStatus FilterPolicy Logging DbFormat Iterators TwoLevelIterator.
From S2P Require Import SkipList SkipListSpec TableFormat TableSpec DbTable MemTable Merger DbIter VersionEdit Version.

(** ** FindFile is a lower bound *)

Section find.
Context (C : Comparator) {HC : ComparatorLaws C}.
Implicit Types (f : FileMetaData) (files : list FileMetaData).

(** The entry of a file in [LevelFileNumIterator]. *)
Definition level_entry f : entry := (largest f, EncodeFixed64 (number f) ++ EncodeFixed64 (file_size f)).

Abbreviation ipos key files := (seek_pos (C := internal_comparator C) key (map level_entry files)).

Lemma find_file_ok files key : keys_sorted (C := internal_comparator C) (map level_entry files) -> Z.of_nat (length files) < 2 ^ 31 ->
  forall fuel l r, 0 <= l <= Z.of_nat (ipos key files) -> Z.of_nat (ipos key files) <= r <= Z.of_nat (length files) ->
  r - l <= Z.of_nat fuel -> find_file (C := C) fuel files key l r = Ret (Z.of_nat (ipos key files)).
Proof.
  intros Hs Hn. induction fuel as [|fuel IH]; intros l r Hl Hr Hf; cbn [find_file]; (destruct (Z.ltb_spec l r) as [Hlt|]; [|f_equal; lia]); [lia|].
  rewrite wrap_small by lia. set (mid := (l + r) / 2). assert (l <= mid < r) as Hm by (unfold mid; lia_div).
  destruct (lookup_lt_is_Some_2 files (Z.to_nat mid)) as [f Hf']; [lia|]. rewrite (vec_at_ok files mid f) by (done || lia). cbn [mbind result_bind].
  assert (map level_entry files !! Z.to_nat mid = Some (level_entry f)) as He by (by rewrite list_lookup_fmap, Hf').
  unfold icompare. destruct (Compare (Comparator := internal_comparator C) (largest f) key) eqn:E.
  - apply IH; [lia| |lia]. pose proof (seek_pos_before (C := internal_comparator C) key _ _ _ He) as Hb. cbn [level_entry fst] in Hb. rewrite E in Hb.
    destruct (decide (Z.of_nat (ipos key files) <= mid)); [lia|]. specialize (Hb ltac:(lia)). done.
  - rewrite wrap_small by lia. apply IH; [|lia|lia]. pose proof (seek_pos_gt (C := internal_comparator C) key _ _ _ Hs He E). lia.
  - apply IH; [lia| |lia]. pose proof (seek_pos_before (C := internal_comparator C) key _ _ _ He) as Hb. cbn [level_entry fst] in Hb. rewrite E in Hb.
    destruct (decide (Z.of_nat (ipos key files) <= mid)); [lia|]. specialize (Hb ltac:(lia)). done.
Qed.

(** The first file whose largest key is not before the target. *)
Lemma FindFile_ok files key : keys_sorted (C := internal_comparator C) (map level_entry files) -> Z.of_nat (length files) < 2 ^ 31 ->
  FindFile (C := C) files key = Ret (Z.of_nat (ipos key files)).
Proof.
  intros Hs Hn. unfold FindFile. rewrite wrap_small by lia. pose proof (seek_pos_le (C := internal_comparator C) key (map level_entry files)) as H. rewrite length_map in H.
  apply find_file_ok; [done|done|lia|lia|lia].
Qed.

(** *** LevelFileNumIterator *)

Definition level_at (it : LevelFileNumIterator) (es : list entry) (i : nat) : Prop :=
  es = map level_entry (flist_ it) /\ index_ it = Z.of_nat i /\ (i <= length es)%nat /\ Z.of_nat (length (flist_ it)) < 2 ^ 31.

#[global] Program Instance LevelFileNumIterator_laws : IteratorLaws (LevelFileNumIterator_ops (C := C)) := { it_at := level_at }.
Next Obligation. by intros it es i (_ & _ & Hi & _). Qed.
Next Obligation.
  intros it es i (-> & Hi & _). unfold it_Valid, LevelFileNumIterator_ops, level_valid. rewrite Hi, length_map.
  destruct (Nat.ltb_spec i (length (flist_ it))), (Z.ltb_spec (Z.of_nat i) (Z.of_nat (length (flist_ it)))); done || lia.
Qed.
Next Obligation.
  intros it es i k v (-> & Hi & _) He. rewrite list_lookup_fmap in He. apply fmap_Some in He as (f & Hf & [= -> ->]).
  unfold it_key, it_value, LevelFileNumIterator_ops, level_key, level_value, level_valid. rewrite Hi.
  pose proof (lookup_lt_Some _ _ _ Hf). destruct (Z.ltb_spec (Z.of_nat i) (Z.of_nat (length (flist_ it)))); [|lia].
  rewrite (vec_at_ok _ _ f) by (rewrite ?Nat2Z.id; done || lia). done.
Qed.
Next Obligation. done. Qed.
Next Obligation. intros it es i (-> & _ & _ & Hn). eexists. split; [done|]. split_and!; [done|done|lia|done]. Qed.
Next Obligation.
  intros it es i (-> & _ & _ & Hn). eexists. split; [done|]. rewrite length_map. split_and!; cbn [flist_ index_]; [done| |rewrite length_map; lia|done].
  destruct (flist_ it); [done|]. rewrite wrap_small by (cbn [length] in *; lia). cbn [length] in *. lia.
Qed.
Next Obligation.
  intros it es i (-> & Hi & _ & Hn) Hlt. rewrite length_map in Hlt. unfold it_Next, LevelFileNumIterator_ops, level_valid. rewrite Hi.
  destruct (Z.ltb_spec (Z.of_nat i) (Z.of_nat (length (flist_ it)))); [|lia]. eexists. split; [done|].
  split_and!; cbn [flist_ index_]; [done|rewrite wrap_small; lia|rewrite length_map; lia|done].
Qed.
Next Obligation.
  intros it es i (-> & Hi & _ & Hn) Hlt. rewrite length_map in Hlt. unfold it_Prev, LevelFileNumIterator_ops, level_valid. rewrite Hi.
  destruct (Z.ltb_spec (Z.of_nat i) (Z.of_nat (length (flist_ it)))); [|lia]. eexists. split; [done|]. rewrite length_map.
  split_and!; cbn [flist_ index_]; [done| |rewrite length_map; destruct i; lia|done]. destruct (Z.eqb_spec (Z.of_nat i) 0), i; rewrite ?wrap_small; lia.
Qed.

#[global] Instance LevelFileNumIterator_seek : SeekLaws (internal_comparator C) LevelFileNumIterator_laws.
Proof.
  split. intros it es i target (-> & _ & _ & Hn) Hs. unfold it_Seek, LevelFileNumIterator_ops. rewrite FindFile_ok by done. cbn [mbind result_bind].
  eexists. split; [done|]. pose proof (seek_pos_le (C := internal_comparator C) target (map level_entry (flist_ it))) as H. rewrite length_map in H.
  split_and!; cbn [flist_ index_]; [done|rewrite wrap_small; lia|by rewrite length_map|done].
Qed.

End find.

(** ** Lookups *)

(** What a lookup promises: tables keep their contents; [Get] ends without an error and
    calls back with the first entry that is not before the key or not at all, and it
    does call back when that entry has the user key. *)
Class TableCacheLaws {T D : Type} (C : Comparator) (TC : TableCache T D) := {
  tc_holds : T -> Z -> Z -> list entry -> Prop;
  tc_get t n size es ikey : tc_holds t n size es -> 8 <= str_size ikey ->
    exists r t', tc_Get t n size ikey = Ret (Status.OK, r, t') /\ (forall n size es, tc_holds t n size es -> tc_holds t' n size es) /\
      (r = None \/ r = es !! seek_pos (C := internal_comparator C) ikey es) /\
      (forall e, es !! seek_pos (C := internal_comparator C) ikey es = Some e -> Compare (user_part (fst e)) (user_part ikey) = Eq -> r = Some e)
}.

Section lookup.
Context {T D : Type} (C : Comparator) {HC : ComparatorLaws C} {TC : TableCache T D} {TL : TableCacheLaws C TC}.
Context (contents : Z -> list update).
Implicit Types (f : FileMetaData) (us : list update) (k : str) (s : Z).
Import Version.

Abbreviation target k s := (k ++ EncodeFixed64 (packed s kTypeValue)).

(** Nothing visible lies before the place where [Seek] stops. *)
Lemma find_visible us k s b : ordered C us -> 0 <= s <= kMaxSequenceNumber -> List.find (visible C k s) us = Some b ->
  exists j, us !! j = Some b /\ Compare (update_key b) k = Eq /\ (seek_pos (C := internal_comparator C) (target k s) (map update_entry us) <= j)%nat.
Proof.
  intros Ho Hs [Hb Hv]%find_some. apply list_elem_of_In, list_elem_of_lookup in Hb as [j Hj]. exists j. split; [done|].
  unfold visible in Hv. destruct (Compare (update_key b) k) eqn:E; [|done..]. split; [done|].
  pose proof (seek_before C us Ho s k j b Hs Hj Hv) as H. rewrite E in H. destruct (decide (seek_pos (C := internal_comparator C) (target k s) (map update_entry us) <= j)%nat); [done|].
  destruct H as [H _]. specialize (H ltac:(lia)). done.
Qed.

Lemma find_first us k s p a : us !! p = Some a -> visible C k s a = true ->
  (forall j b, us !! j = Some b -> visible C k s b = true -> (p <= j)%nat) -> List.find (visible C k s) us = Some a.
Proof.
  revert p. induction us as [|b us IH]; intros p Ha Hv Hmin; [done|]. cbn [List.find]. destruct p as [|p]; [injection Ha as ->; by rewrite Hv|]. cbn in Ha.
  destruct (visible C k s b) eqn:Eb; [pose proof (Hmin O b eq_refl Eb); lia|]. apply (IH p); [done|done|]. intros j x Hx Hvx. pose proof (Hmin (S j) x Hx Hvx). lia.
Qed.

(** In a sorted list of updates, the newest visible one of a key is where [Seek] stops. *)
Lemma newest_seek us k s : ordered C us -> 0 <= s <= kMaxSequenceNumber ->
  newest C k s us = a ← us !! seek_pos (C := internal_comparator C) (target k s) (map update_entry us);
    match Compare (update_key a) k with Eq => Some a | _ => None end.
Proof.
  intros Ho Hs. rewrite (newest_first C us k s Ho). pose proof (find_visible us k s) as Hfind. set (p := seek_pos (target k s) (map update_entry us)) in *.
  destruct (us !! p) as [a|] eqn:Ea; cbn [mbind option_bind].
  - assert (update_ok a) as Hok by (by eapply ok_at).
    pose proof (seek_pos_at (C := internal_comparator C) (target k s) (map update_entry us) (update_entry a)) as Hat. fold p in Hat. rewrite list_lookup_fmap, Ea in Hat.
    specialize (Hat eq_refl). rewrite entry_compare in Hat by done. unfold ikey_order in Hat. destruct (Compare (update_key a) k) eqn:E; [|done|].
    + apply (find_first us k s p a Ea).
      * unfold visible. rewrite E. apply Z.leb_le. rewrite Z.compare_lt_iff in Hat. unfold packed in Hat. destruct (update_type a); cbn in Hat; lia.
      * intros j b Hb Hv. unfold visible in Hv. destruct (Compare (update_key b) k) eqn:Eb; [|done..]. pose proof (seek_before C us Ho s k j b Hs Hb Hv) as [H _].
        fold p in H. rewrite Eb in H. destruct (decide (p <= j)%nat); [done|]. by specialize (H ltac:(lia)).
    + destruct (List.find (visible C k s) us) as [b|] eqn:Ef; [|done]. destruct (Hfind b Ho Hs eq_refl) as (j & Hj & Ekb & Hle). exfalso.
      pose proof (key_order_at C us Ho p j a b Hle Ea Hj) as Hord. by rewrite (cmp_eq_r _ _ _ Ekb), E in Hord.
  - destruct (List.find (visible C k s) us) as [b|] eqn:Ef; [|done]. destruct (Hfind b Ho Hs eq_refl) as (j & Hj & _ & Hle).
    apply lookup_ge_None in Ea. apply lookup_lt_Some in Hj. lia.
Qed.

(** A file whose table holds the updates its metadata describes. *)
Record file_ok (tc : T) f : Prop := {
  fo_ordered : ordered C (contents (number f));
  fo_table : tc_holds tc (number f) (file_size f) (map update_entry (contents (number f)));
  fo_first : exists a, head (contents (number f)) = Some a /\ smallest f = fst (update_entry a);
  fo_last : exists a, last (contents (number f)) = Some a /\ largest f = fst (update_entry a);
  fo_range : 0 <= number f < 2 ^ 64 /\ 0 <= file_size f < 2 ^ 64
}.

(** The search goes on. *)
Record searching (value : str) (files : list FileMetaData) (st : State T) : Prop := {
  se_saver : saver st = (kNotFound, value);
  se_found : found st = false;
  se_files : Forall (file_ok (cache st)) files
}.

(** The search ended at an update. *)
Definition answers (value : str) (files : list FileMetaData) (st : State T) (a : update) : Prop :=
  Forall (file_ok (cache st)) files /\
  match update_type a with
  | kTypeValue => saver st = (kFound, update_value a) /\ found st = true /\ s_ st = Status.OK
  | kTypeDeletion => saver st = (kDeleted, value) /\ found st = false
  end.

Lemma user_part_update a : update_ok a -> user_part (fst (update_entry a)) = update_key a.
Proof. destruct a as [[[s t] k] v]. intros (Hs & _). cbn. by destruct (parts k (packed s t) (packed_range s t Hs)). Qed.

Lemma user_part_target k s : 0 <= s <= kMaxSequenceNumber -> user_part (target k s) = k /\ 8 <= str_size (target k s).
Proof.
  intros Hs. destruct (parts k (packed s kTypeValue) (packed_range s kTypeValue Hs)) as [-> _]. split; [done|]. rewrite key_size. pose proof (str_size_nonneg k). lia.
Qed.

Lemma SaveValue_update k st a : update_ok a ->
  SaveValue k st (fst (update_entry a)) (snd (update_entry a)) =
  match Compare (update_key a) k with
  | Eq => match update_type a with kTypeValue => (kFound, update_value a) | kTypeDeletion => (kDeleted, snd st) end
  | _ => st
  end.
Proof. intros Hok. destruct (update_parts a Hok) as (Hp & _ & Hv & _). unfold SaveValue. by rewrite Hp, Hv. Qed.

(** [Match] on one file. *)
Lemma Match_ok value files st k s level f : 0 <= s <= kMaxSequenceNumber -> searching value files st -> f ∈ files ->
  exists st' go, Match (TC := TC) k (target k s) st level f = Ret (st', go) /\
    match newest C k s (contents (number f)) with
    | None => go = true /\ searching value files st'
    | Some a => go = false /\ answers value files st' a
    end.
Proof.
  intros Hs [Hsv Hfd Hfs] Hf. assert (file_ok (cache st) f) as [Ho Ht _ _ _] by (rewrite Forall_forall in Hfs; by apply Hfs).
  destruct (user_part_target k s Hs) as [Hu Hsz]. destruct (tc_get (cache st) (number f) (file_size f) _ (target k s) Ht Hsz) as (r & tc & Hget & Hkeep & Hr & Hcall).
  unfold Match. rewrite Hget. cbn [mbind result_bind]. rewrite (newest_seek _ k s Ho Hs). rewrite list_lookup_fmap in Hr, Hcall.
  assert (Forall (file_ok tc) files) as Hfs'. { eapply Forall_impl; [exact Hfs|]. intros g [? Hg ? ? ?]. split; try done. by apply Hkeep. }
  change (negb (Status.ok Status.OK)) with false. cbv iota. rewrite Hsv.
  destruct (contents (number f) !! _) as [a|] eqn:Ea; cbn [fmap option_fmap option_map mbind option_bind] in *.
  2: { assert (r = None) as -> by (by destruct Hr). eexists _, _. split; [done|]. split; [done|]. by split. }
  assert (update_ok a) as Hok by (by eapply ok_at). specialize (Hcall _ eq_refl). rewrite user_part_update, Hu in Hcall by done.
  pose proof (SaveValue_update k (kNotFound, value) a Hok) as Hsave. destruct (update_entry a) as [ka va]. cbn [fst snd] in Hsave.
  destruct (Compare (update_key a) k) eqn:E.
  - rewrite (Hcall eq_refl), Hsave. unfold answers. destruct (update_type a); cbn [fst]; eexists _, _; by repeat split.
  - assert (match r with Some (k', v') => SaveValue k (kNotFound, value) k' v' | None => (kNotFound, value) end = (kNotFound, value)) as -> by (by destruct Hr as [->| ->]).
    eexists _, _. split; [done|]. split; [done|]. by split.
  - assert (match r with Some (k', v') => SaveValue k (kNotFound, value) k' v' | None => (kNotFound, value) end = (kNotFound, value)) as -> by (by destruct Hr as [->| ->]).
    eexists _, _. split; [done|]. split; [done|]. by split.
Qed.

(** *** One level *)

Abbreviation holds f := (contents (number f)).
Definition level_updates (fs : list FileMetaData) : list update := concat (map (fun f => holds f) fs).

Lemma newest_elem us k s a : newest C k s us = Some a -> a ∈ us /\ visible C k s a = true /\ Compare (update_key a) k = Eq.
Proof.
  intros Hn. pose proof (newest_spec C k s us) as H. rewrite Hn in H. destruct H as (Ha & Hv & _). split; [done|]. split; [done|].
  unfold visible in Hv. by destruct (Compare (update_key a) k).
Qed.

(** A file that a user key is not in the range of has no update of it. *)
Lemma newest_out_of_range tc f k s : file_ok tc f -> in_range (C := C) k f = false -> newest C k s (holds f) = None.
Proof.
  intros [Ho _ (a0 & Hh & Es) (a1 & Hl & El) _] Hr. destruct (newest C k s (holds f)) as [a|] eqn:Hn; [|done]. exfalso.
  apply newest_elem in Hn as (Ha & _ & E). apply list_elem_of_lookup in Ha as [i Hi].
  rewrite head_lookup in Hh. rewrite last_lookup in Hl. unfold in_range in Hr. rewrite Es, El, !user_part_update in Hr by (by eapply ok_at).
  pose proof (key_order_at C _ Ho 0 i a0 a ltac:(lia) Hh Hi) as H0. pose proof (lookup_lt_Some _ _ _ Hi).
  pose proof (key_order_at C _ Ho i (pred (length (holds f))) a a1 ltac:(lia) Hi Hl) as H1.
  rewrite (cmp_eq_r _ _ _ E), cmp_antisym in H0. rewrite (cmp_eq_l _ _ _ E) in H1.
  destruct (Compare k (update_key a0)), (Compare k (update_key a1)); done.
Qed.

Lemma ordered_app us1 us2 : ordered C (us1 ++ us2) -> ordered C us1 /\ ordered C us2.
Proof.
  intros [Hok Hs]. apply Forall_app in Hok as [H1 H2]. rewrite map_app in Hs. apply StronglySorted_app in Hs as (_ & S1 & S2). by split; split.
Qed.

Lemma ordered_app_lt us1 us2 a b : ordered C (us1 ++ us2) -> a ∈ us1 -> b ∈ us2 ->
  Compare (Comparator := internal_comparator C) (fst (update_entry a)) (fst (update_entry b)) = Lt.
Proof.
  intros [_ Hs] Ha Hb. rewrite map_app in Hs. eapply (StronglySorted_app_1_elem_of _ _ _ (update_entry a) (update_entry b) Hs); by apply list_elem_of_fmap_2.
Qed.

Lemma last_elem {A} (l : list A) x : last l = Some x -> x ∈ l.
Proof. intros H. rewrite last_lookup in H. by eapply list_elem_of_lookup_2. Qed.

Lemma level_sorted tc fs : Forall (file_ok tc) fs -> ordered C (level_updates fs) -> keys_sorted (C := internal_comparator C) (map level_entry fs).
Proof.
  induction 1 as [|f fs [_ _ _ (a & Ha & Ea) _] Hfs IH]; intros Ho; [constructor|]. unfold level_updates in Ho. cbn [map concat] in Ho.
  destruct (ordered_app _ _ Ho) as [_ Ho2]. constructor; [by apply IH|]. apply Forall_map, Forall_forall. intros g Hg. cbn [level_entry fst].
  rewrite Forall_forall in Hfs. destruct (fo_last _ _ (Hfs g Hg)) as (b & Hb & Eb). rewrite Ea, Eb. apply (ordered_app_lt _ _ _ _ Ho); [by apply last_elem|].
  apply list_elem_of_In, in_concat. exists (holds g). split; apply list_elem_of_In; [|by apply last_elem]. by apply (list_elem_of_fmap_2 (fun f => holds f)).
Qed.

(** [Seek] in two lists, the second behind the first. *)
Lemma seek_pos_stop t (l1 l2 : list entry) : (seek_pos (C := internal_comparator C) t l1 < length l1)%nat ->
  seek_pos (C := internal_comparator C) t (l1 ++ l2) = seek_pos (C := internal_comparator C) t l1.
Proof.
  induction l1 as [|e l1 IH]; cbn [length seek_pos app]; [lia|]. destruct (Compare (Comparator := internal_comparator C) (fst e) t); [done| |done].
  intros H. f_equal. apply IH. lia.
Qed.

(** The entries of a file up to its largest key. *)
Lemma file_before tc f t : file_ok tc f -> Compare (Comparator := internal_comparator C) (largest f) t = Lt ->
  Forall (fun e => Compare (Comparator := internal_comparator C) (fst e) t = Lt) (map update_entry (holds f)).
Proof.
  intros [Ho _ _ (a & Ha & Ea) _] Hlt. apply Forall_map, Forall_lookup. intros i b Hb. rewrite Ea in Hlt. rewrite last_lookup in Ha.
  pose proof (lookup_lt_Some _ _ _ Hb). destruct (decide (i = pred (length (holds f)))) as [->|]; [by rewrite Hb in Ha; injection Ha as ->|].
  eapply (cmp_trans (C := internal_comparator C)); [|exact Hlt]. apply (sorted_lt (C := internal_comparator C) (map update_entry (holds f)) i (pred (length (holds f))));
    [apply Ho|by rewrite list_lookup_fmap, Hb|by rewrite list_lookup_fmap, Ha|lia].
Qed.

Lemma file_stops tc f t : file_ok tc f -> Compare (Comparator := internal_comparator C) (largest f) t <> Lt ->
  (seek_pos (C := internal_comparator C) t (map update_entry (holds f)) < length (map update_entry (holds f)))%nat.
Proof.
  intros [Ho _ _ (a & Ha & Ea) _] Hge. rewrite last_lookup in Ha. pose proof (lookup_lt_Some _ _ _ Ha).
  destruct (decide (seek_pos (C := internal_comparator C) t (map update_entry (holds f)) < length (map update_entry (holds f)))%nat) as [|Hn]; [done|].
  exfalso. apply Hge. rewrite Ea. rewrite length_map in Hn.
  apply (seek_pos_before (C := internal_comparator C) t (map update_entry (holds f)) (pred (length (holds f))) (update_entry a)); [by rewrite list_lookup_fmap, Ha|lia].
Qed.

(** The newest update of a level is in the file that [FindFile] gives. *)
Lemma newest_level tc fs k s : Forall (file_ok tc) fs -> ordered C (level_updates fs) -> 0 <= s <= kMaxSequenceNumber ->
  newest C k s (level_updates fs) =
  f ← fs !! seek_pos (C := internal_comparator C) (target k s) (map level_entry fs); newest C k s (holds f).
Proof.
  intros Hfs Ho Hs. rewrite (newest_seek _ k s Ho Hs). set (t := target k s).
  induction Hfs as [|f fs Hf Hfs IH]; [done|]. unfold level_updates in Ho |- *. cbn [map concat seek_pos] in *. cbn [level_entry fst].
  destruct (ordered_app _ _ Ho) as [Ho1 Ho2]. rewrite map_app.
  destruct (Compare (Comparator := internal_comparator C) (largest f) t) eqn:E.
  - rewrite seek_pos_stop by (apply (file_stops tc); [done|congruence]). pose proof (file_stops tc f t Hf ltac:(congruence)) as Hlt. rewrite length_map in Hlt.
    rewrite lookup_app_l by done. cbn [lookup list_lookup mbind option_bind]. by rewrite (newest_seek _ k s Ho1 Hs).
  - rewrite (seek_pos_app (C := internal_comparator C)) by (by eapply file_before). rewrite length_map, lookup_app_r by lia.
    replace (length (holds f) + _ - length (holds f))%nat with (seek_pos (C := internal_comparator C) t (map update_entry (level_updates fs))) by (unfold level_updates; lia).
    cbn [lookup list_lookup]. apply IH, Ho2.
  - rewrite seek_pos_stop by (apply (file_stops tc); [done|congruence]). pose proof (file_stops tc f t Hf ltac:(congruence)) as Hlt. rewrite length_map in Hlt.
    rewrite lookup_app_l by done. cbn [lookup list_lookup mbind option_bind]. by rewrite (newest_seek _ k s Ho1 Hs).
Qed.

(** *** The search *)

Fixpoint first_some {A} (l : list (option A)) : option A :=
  match l with [] => None | Some a :: _ => Some a | None :: l => first_some l end.

Lemma each_file_ok value files st k s fs : 0 <= s <= kMaxSequenceNumber -> searching value files st -> fs ⊆ files ->
  exists st' go, each_file (Match (TC := TC) k (target k s)) st 0 fs = Ret (st', go) /\
    match first_some (map (fun f => newest C k s (holds f)) fs) with
    | None => go = true /\ searching value files st'
    | Some a => go = false /\ answers value files st' a
    end.
Proof.
  intros Hs. revert st. induction fs as [|f fs IH]; intros st Hst Hsub; cbn [each_file map first_some]; [by exists st, true|].
  destruct (Match_ok value files st k s 0 f Hs Hst) as (st1 & go & -> & Hm); [set_solver|]. cbn [mbind result_bind].
  destruct (newest C k s (holds f)) as [a|]; destruct Hm as [-> Hm]; [by exists st1, false|]. apply IH; [done|set_solver].
Qed.

Lemma each_level_ok value files k s levels : 0 <= s <= kMaxSequenceNumber -> forall st n, searching value files st ->
  Forall (fun fs => fs ⊆ files /\ ordered C (level_updates fs) /\ Z.of_nat (length fs) < 2 ^ 31) levels ->
  exists st', each_level (Match (TC := TC) k (target k s)) st k (target k s) n levels = Ret st' /\
    match first_some (map (fun fs => newest C k s (level_updates fs)) levels) with
    | None => searching value files st'
    | Some a => answers value files st' a
    end.
Proof.
  intros Hs. induction levels as [|fs levels IH]; intros st n Hst Hl; cbn [each_level map first_some]; [by exists st|].
  apply Forall_cons_1 in Hl as [(Hsub & Ho & Hlen) Hl]. assert (Forall (file_ok (cache st)) fs) as Hfs.
  { rewrite Forall_forall. intros f Hf. pose proof (se_files _ _ _ Hst) as H. rewrite Forall_forall in H. apply H. set_solver. }
  rewrite (newest_level (cache st) fs k s Hfs Ho Hs). destruct fs as [|f0 fs0] eqn:Efs; [by apply IH|]. rewrite <- Efs in *. clear Efs f0 fs0.
  pose proof (level_sorted _ fs Hfs Ho) as Hsorted. rewrite FindFile_ok by done. cbn [mbind result_bind].
  set (p := seek_pos (C := internal_comparator C) (target k s) (map level_entry fs)).
  pose proof (seek_pos_le (C := internal_comparator C) (target k s) (map level_entry fs)) as Hp. fold p in Hp. rewrite length_map in Hp. rewrite wrap_small by lia.
  destruct (fs !! p) as [f|] eqn:Ef; cbn [mbind option_bind].
  - pose proof (lookup_lt_Some _ _ _ Ef). destruct (Z.ltb_spec (Z.of_nat p) (Z.of_nat (length fs))); [|lia].
    rewrite (vec_at_ok fs _ f) by (rewrite ?Nat2Z.id; done || lia). cbn [mbind result_bind].
    assert (f ∈ fs) as Hin by (by eapply list_elem_of_lookup_2). assert (file_ok (cache st) f) as Hf by (rewrite Forall_forall in Hfs; by apply Hfs).
    destruct (Compare k (user_part (smallest f))) eqn:E; [|assert (newest C k s (holds f) = None) as -> by (apply (newest_out_of_range (cache st)); [done|unfold in_range; by rewrite E]); by apply IH|];
      (destruct (Match_ok value files st k s n f Hs Hst) as (st1 & go & -> & Hm); [set_solver|]; cbn [mbind result_bind];
       destruct (newest C k s (holds f)) as [a|]; destruct Hm as [-> Hm]; [by exists st1|by apply IH]).
  - apply lookup_ge_None in Ef. destruct (Z.ltb_spec (Z.of_nat p) (Z.of_nat (length fs))); [lia|]. by apply IH.
Qed.

(** *** The whole version *)

(** Every update of the first list is newer than those of its user key in the second. *)
Definition newer (us1 us2 : list update) : Prop :=
  forall a b, a ∈ us1 -> b ∈ us2 -> Compare (update_key a) (update_key b) = Eq -> update_seq b < update_seq a.

Lemma newest_app us1 us2 k s : newer us1 us2 ->
  newest C k s (us1 ++ us2) = match newest C k s us1 with Some a => Some a | None => newest C k s us2 end.
Proof.
  intros Hn. induction us1 as [|a us1 IH]; [done|]. cbn [app newest foldr]. fold (newest C k s (us1 ++ us2)) (newest C k s us1).
  rewrite IH by (intros x y Hx; apply Hn; by right). destruct (visible C k s a) eqn:Ea, (newest C k s us1) as [b|]; [by destruct (update_seq a <? update_seq b)| |done..].
  destruct (newest C k s us2) as [b|] eqn:Eb; [|done]. apply newest_elem in Eb as (Hb & _ & Ekb). unfold visible in Ea.
  destruct (Compare (update_key a) k) eqn:Eka; try done. pose proof (Hn a b ltac:(by left) Hb ltac:(by rewrite (cmp_eq_r _ _ _ Ekb))).
  destruct (Z.ltb_spec (update_seq a) (update_seq b)); [lia|done].
Qed.

Lemma newer_concat us pieces : Forall (newer us) pieces -> newer us (concat pieces).
Proof.
  intros Hf a b Ha Hb. apply list_elem_of_In, in_concat in Hb as (p & Hp & Hb). rewrite Forall_forall in Hf. apply (Hf p); [by apply list_elem_of_In|done|by apply list_elem_of_In].
Qed.

Lemma newest_concat pieces k s : StronglySorted newer pieces -> newest C k s (concat pieces) = first_some (map (newest C k s) pieces).
Proof.
  induction 1 as [|us pieces Hs IH Hf]; [done|]. cbn [concat map first_some]. rewrite newest_app, IH by (by apply newer_concat).
  by destruct (newest C k s us).
Qed.

Lemma newest_same us us' k s : ForallOrdPairs (distinct C) us' -> us ⊆ us' -> (forall b, b ∈ us' -> visible C k s b = true -> b ∈ us) ->
  newest C k s us = newest C k s us'.
Proof.
  intros Hd Hsub Hvis. pose proof (newest_spec C k s us) as H. pose proof (newest_spec C k s us') as H'.
  destruct (newest C k s us) as [a|], (newest C k s us') as [b|]; [|..|done].
  - destruct H as (Ha & Hva & Hma), H' as (Hb & Hvb & Hmb). f_equal.
    assert (forall x, visible C k s x = true -> Compare (update_key x) k = Eq) as Hk by (intros x; unfold visible; by destruct (Compare (update_key x) k)).
    destruct (distinct_pair C us' a b Hd ltac:(by apply Hsub) Hb) as [|Hne]; [by rewrite (cmp_eq_l _ _ _ (Hk a Hva)), cmp_antisym, (Hk b Hvb)|done|].
    specialize (Hma b (Hvis b Hb Hvb) Hvb). specialize (Hmb a ltac:(by apply Hsub) Hva). lia.
  - destruct H as (Ha & Hva & _). by rewrite (H' a (Hsub _ Ha)) in Hva.
  - destruct H' as (Hb & Hvb & _). by rewrite (H b (Hvis b Hb Hvb)) in Hvb.
Qed.

Lemma elem_level_updates a fs : a ∈ level_updates fs <-> exists f, f ∈ fs /\ a ∈ holds f.
Proof.
  unfold level_updates. rewrite list_elem_of_In, in_concat. split.
  - intros (us & Hus & Ha). apply in_map_iff in Hus as (f & <- & Hf). exists f. by rewrite !list_elem_of_In.
  - intros (f & Hf & Ha). exists (holds f). apply list_elem_of_In in Hf. apply list_elem_of_In in Ha. split; [by apply (in_map (fun f => holds f))|done].
Qed.

(** What a version promises about its files: each holds what its metadata says; the
    files of level 0 may overlap, and newer ones have larger numbers; the others are
    sorted and disjoint; a level is newer than those below it. *)
Record version_ok (tc : T) (v : Version) : Prop := {
  vo_levels : length (files_ v) = Z.to_nat kNumLevels;
  vo_files : Forall (file_ok tc) (concat (files_ v));
  vo_numbers : forall fs, files_ v !! O = Some fs -> NoDup (map number fs);
  vo_level0 : forall fs f g, files_ v !! O = Some fs -> f ∈ fs -> g ∈ fs -> number g < number f -> newer (holds f) (holds g);
  vo_sorted : forall i fs, files_ v !! S i = Some fs -> ordered C (level_updates fs) /\ Z.of_nat (length fs) < 2 ^ 31;
  vo_newer : forall i j fs gs, (i < j)%nat -> files_ v !! i = Some fs -> files_ v !! j = Some gs -> newer (level_updates fs) (level_updates gs);
  vo_distinct : ForallOrdPairs (distinct C) (level_updates (concat (files_ v)))
}.

#[local] Instance not_after_total : Total not_after.
Proof. intros a b. unfold not_after, NewestFirst. destruct (Z.ltb_spec (number a) (number b)), (Z.ltb_spec (number b) (number a)); try lia; auto. Qed.
#[local] Instance not_after_trans : Transitive not_after.
Proof. intros a b c. unfold not_after, NewestFirst. rewrite !Z.ltb_ge. lia. Qed.

(** The files of level 0 in the order they are searched. *)
Lemma searched_newer fs k : NoDup (map number fs) -> (forall f g, f ∈ fs -> g ∈ fs -> number g < number f -> newer (holds f) (holds g)) ->
  StronglySorted newer (map (fun f => holds f) (sort_newest (List.filter (in_range (C := C) k) fs))).
Proof.
  intros Hnd Hn. unfold sort_newest. pose proof (merge_sort_Permutation not_after (List.filter (in_range (C := C) k) fs)) as Hp.
  assert (NoDup (map number (merge_sort not_after (List.filter (in_range (C := C) k) fs)))) as Hnd'.
  { rewrite Hp. rewrite NoDup_ListNoDup in *. clear -Hnd. induction fs as [|f fs IH]; [done|]. cbn [map List.filter] in *. inversion Hnd as [|? ? H1 H2]; subst.
    destruct (in_range k f); [|by apply IH]. constructor; [|by apply IH]. intros Hin. apply H1. apply in_map_iff in Hin as (g & <- & Hg).
    apply in_map. by apply filter_In in Hg as [? _]. }
  assert (forall f, f ∈ merge_sort not_after (List.filter (in_range (C := C) k) fs) -> f ∈ fs) as Hsub.
  { intros f. rewrite Hp, !list_elem_of_In. intros [? _]%filter_In. done. }
  pose proof (StronglySorted_merge_sort not_after (List.filter (in_range (C := C) k) fs)) as Hs.
  clear Hp. induction Hs as [|f l Hs IH Hf]; [constructor|]. cbn [map] in *. apply NoDup_cons in Hnd' as [Hni Hnd'].
  constructor; [apply IH; [done|]; intros g Hg; apply Hsub; by right|]. apply Forall_map, Forall_forall. intros g Hg.
  apply Hn; [apply Hsub; by left|apply Hsub; by right|]. rewrite Forall_forall in Hf. specialize (Hf g Hg). unfold not_after, NewestFirst in Hf.
  apply Z.ltb_ge in Hf. assert (number f <> number g); [|lia]. intros E. apply Hni. rewrite E. by apply list_elem_of_fmap_2.
Qed.

Lemma updates_newer levels : (forall i j fs gs, (i < j)%nat -> levels !! i = Some fs -> levels !! j = Some gs -> newer (level_updates fs) (level_updates gs)) ->
  StronglySorted newer (map level_updates levels).
Proof.
  induction levels as [|fs levels IH]; intros Hn; [constructor|]. cbn [map]. constructor.
  - apply IH. intros i j gs hs Hij Hi Hj. apply (Hn (S i) (S j)); [lia|done|done].
  - apply Forall_map, Forall_lookup. intros i gs Hi. apply (Hn O (S i)); [lia|done|done].
Qed.

(** Where the search looks is the whole version, as far as a key is concerned. *)
Lemma newest_searched tc fs0 levels k s v : version_ok tc v -> files_ v = fs0 :: levels ->
  newest C k s (level_updates (concat (files_ v))) =
  match first_some (map (fun f => newest C k s (holds f)) (sort_newest (List.filter (in_range (C := C) k) fs0))) with
  | Some a => Some a
  | None => first_some (map (fun fs => newest C k s (level_updates fs)) levels)
  end.
Proof.
  intros [_ Hfs Hnum H0 _ Hnew Hd] Ev. rewrite Ev in *. set (ss := sort_newest (List.filter (in_range (C := C) k) fs0)).
  assert (forall f, f ∈ ss <-> f ∈ fs0 /\ in_range (C := C) k f = true) as Hss.
  { intros f. unfold ss, sort_newest. rewrite merge_sort_Permutation, !list_elem_of_In. apply filter_In. }
  pose proof (searched_newer fs0 k (Hnum fs0 eq_refl) (fun f g => H0 fs0 f g eq_refl)) as S0. fold ss in S0.
  assert (StronglySorted newer (map level_updates levels)) as S1.
  { apply updates_newer. intros i j gs hs Hij Hi Hj. apply (Hnew (S i) (S j)); [lia|done|done]. }
  transitivity (newest C k s (level_updates ss ++ concat (map level_updates levels))).
  - symmetry. apply newest_same; [done| |].
    + intros a. rewrite elem_of_app, !elem_level_updates. intros [(f & Hf & Ha)|Ha].
      * exists f. split; [|done]. cbn [concat]. apply elem_of_app. left. by apply Hss.
      * apply list_elem_of_In, in_concat in Ha as (us & Hus & Ha). apply in_map_iff in Hus as (fs & <- & Hl). apply list_elem_of_In, elem_level_updates in Ha as (f & Hf & Ha).
        exists f. split; [|done]. cbn [concat]. apply elem_of_app. right. apply list_elem_of_In, in_concat. exists fs. split; [done|by apply list_elem_of_In].
    + intros b Hb Hv. apply elem_level_updates in Hb as (f & Hf & Hb). cbn [concat] in Hf, Hfs. apply elem_of_app in Hf as [Hf|Hf]; apply elem_of_app.
      * left. apply elem_level_updates. exists f. split; [|done]. apply Hss. split; [done|]. destruct (in_range k f) eqn:Er; [done|]. exfalso.
        apply Forall_app in Hfs as [Hfs _]. rewrite Forall_forall in Hfs. pose proof (newest_spec C k s (holds f)) as Hn.
        rewrite (newest_out_of_range tc f k s (Hfs f Hf) Er) in Hn. by rewrite (Hn b Hb) in Hv.
      * right. apply list_elem_of_In, in_concat in Hf as (fs & Hfs' & Hf). apply list_elem_of_In, in_concat. exists (level_updates fs).
        split; [by apply in_map|]. apply list_elem_of_In, elem_level_updates. exists f. by rewrite list_elem_of_In.
  - rewrite newest_app.
    + unfold level_updates at 1. rewrite !newest_concat, !map_map by done. done.
    + apply newer_concat, Forall_map, Forall_lookup. intros i fs Hi a b Ha. apply elem_level_updates in Ha as (f & Hf & Ha).
      apply (Hnew O (S i) fs0 fs); [lia|done|done|]. apply elem_level_updates. exists f. split; [by apply Hss|done].
Qed.

Lemma internal_key_ok k s lk : 0 <= s <= kMaxSequenceNumber -> LookupKey_make k s = Ret lk -> internal_key lk = target k s.
Proof.
  intros Hs. unfold LookupKey_make. rewrite Pack_ok by done. cbn [mbind result_bind]. intros [= <-]. unfold internal_key. cbn [lk_bytes lk_kstart]. by rewrite drop_app_length.
Qed.

Lemma Get_newest_version v tc k s lk value : version_ok tc v -> str_size k + 13 < 2 ^ 32 -> 0 <= s <= kMaxSequenceNumber -> LookupKey_make k s = Ret lk ->
  exists stats tc', Get (TC := TC) v tc lk value =
    Ret (match answer <$> newest C k s (level_updates (concat (files_ v))) with
         | Some (inl x) => (Status.OK, x)
         | _ => (Status.NotFound [] [], value)
         end, stats, tc') /\ Forall (file_ok tc') (concat (files_ v)).
Proof.
  intros Hv Hk Hs Elk. destruct (LookupKey_ok k s Hk Hs) as (lk' & E' & Euk & _). rewrite Elk in E'. injection E' as <-.
  pose proof (internal_key_ok k s lk Hs Elk) as Eik. unfold Get, ForEachOverlapping. rewrite Euk, Eik.
  pose proof (vo_levels _ _ Hv) as Hlen. destruct (files_ v) as [|fs0 levels] eqn:Ev; [done|]. rewrite <- Ev, (newest_searched tc fs0 levels k s v Hv Ev).
  set (st0 := mkState (kNotFound, value) None None tc Status.OK false).
  assert (searching value (concat (files_ v)) st0) as Hst by (split; [done|done|apply (vo_files _ _ Hv)]).
  destruct (each_file_ok value (concat (files_ v)) st0 k s (sort_newest (List.filter (in_range k) fs0)) Hs Hst) as (st1 & go & -> & Hm).
  { intros f. unfold sort_newest. rewrite merge_sort_Permutation, Ev. cbn [concat]. rewrite elem_of_app, !list_elem_of_In. intros [? _]%filter_In. by left. }
  cbn [mbind result_bind]. destruct (first_some _) as [a|]; cbn [fmap option_fmap option_map].
  { destruct Hm as [-> Ha]. cbn [mbind result_bind]. eexists _, _. destruct Ha as [Hkeep Ha]. split; [|exact Hkeep]. destruct a as [[[sa ta] ka] va]. destruct ta; cbn [answer update_type update_value] in *.
    - by destruct Ha as (-> & ->).
    - by destruct Ha as (-> & -> & ->). }
  destruct Hm as [-> Hst1]. destruct (each_level_ok value (concat (files_ v)) k s levels Hs st1 1 Hst1) as (st2 & -> & Hm).
  { apply Forall_lookup. intros i fs Hi. assert (files_ v !! S i = Some fs) as Hi' by (by rewrite Ev). split; [|by apply (vo_sorted _ _ Hv i)].
    intros f Hf. apply list_elem_of_In, in_concat. exists fs. split; [by apply list_elem_of_In; eapply list_elem_of_lookup_2|by apply list_elem_of_In]. }
  cbn [mbind result_bind]. destruct (first_some _) as [a|]; cbn [fmap option_fmap option_map].
  - eexists _, _. destruct Hm as [Hkeep Hm]. split; [|exact Hkeep]. destruct a as [[[sa ta] ka] va]. destruct ta; cbn [answer update_type update_value] in *.
    + by destruct Hm as (-> & ->).
    + by destruct Hm as (-> & -> & ->).
  - destruct Hm as [-> -> Hkeep]. by eexists _, _.
Qed.

(** *** Charging seeks changes nothing that lookups see *)

Lemma charge_number n f : number (charge n f) = number f.
Proof. unfold charge. by destruct (number f =? n). Qed.

Lemma charge_ok tc n f : file_ok tc f -> file_ok tc (charge n f).
Proof. unfold charge. destruct (number f =? n); [|done]. intros [? ? ? ? ?]. by split. Qed.

Lemma level_updates_charge n fs : level_updates (map (charge n) fs) = level_updates fs.
Proof. unfold level_updates. rewrite map_map. f_equal. apply map_ext. intros f. by rewrite charge_number. Qed.

Lemma version_ok_charge tc tc' v v' n : version_ok tc v -> Forall (file_ok tc') (concat (files_ v)) ->
  files_ v' = map (map (charge n)) (files_ v) ->
  version_ok tc' v' /\ level_updates (concat (files_ v')) = level_updates (concat (files_ v)).
Proof.
  intros [Hl _ Hnum H0 Hs Hn Hd] Hf Ev. assert (level_updates (concat (files_ v')) = level_updates (concat (files_ v))) as Eu.
  { rewrite Ev, <- concat_map. apply level_updates_charge. }
  assert (forall i gs, files_ v' !! i = Some gs -> exists fs, files_ v !! i = Some fs /\ gs = map (charge n) fs) as Hat.
  { intros i gs. rewrite Ev, list_lookup_fmap. intros (fs & Hfs & ->)%fmap_Some. by exists fs. }
  split; [|done]. split.
  - by rewrite Ev, length_map.
  - rewrite Ev, <- concat_map. apply Forall_map. eapply Forall_impl; [exact Hf|]. intros f. apply charge_ok.
  - intros gs (fs & Hfs & ->)%Hat. rewrite map_map. rewrite (map_ext _ number) by apply charge_number. by apply Hnum.
  - intros gs f g (fs & Hfs & ->)%Hat Hg Hg'. apply list_elem_of_fmap in Hg as (f1 & -> & Hf1). apply list_elem_of_fmap in Hg' as (g1 & -> & Hg1).
    rewrite !charge_number. by apply (H0 fs).
  - intros i gs (fs & Hfs & ->)%Hat. rewrite level_updates_charge, length_map. by apply (Hs i).
  - intros i j gs hs Hij (fs & Hfs & ->)%Hat (fs' & Hfs' & ->)%Hat. rewrite !level_updates_charge. by apply (Hn i j).
  - by rewrite Eu.
Qed.

Lemma UpdateStats_ok tc tc' v stats : version_ok tc v -> Forall (file_ok tc') (concat (files_ v)) ->
  version_ok tc' (fst (UpdateStats v stats)) /\ level_updates (concat (files_ (fst (UpdateStats v stats)))) = level_updates (concat (files_ v)).
Proof.
  intros Hv Hf. destruct stats as [[f level]|]; cbn [UpdateStats].
  - destruct (file_to_compact_ v) as [g|]; [|destruct (allowed_seeks _ <=? 0)]; cbn [fst]; by apply (version_ok_charge tc tc' v _ (number f)).
  - cbn [fst]. split; [|done]. destruct Hv as [? _ ? ? ? ? ?]. by split.
Qed.

End lookup.
