(* ===== verification/OverlapSpec.v ===== *)
(** * Files that overlap a range of keys

    [GetOverlappingInputs] ends and returns the files that overlap the range, on level 0
    for a range that was extended until no file crosses its ends; [OverlapInLevel] tells
    whether there is one; [PickLevelForMemTableOutput] picks a level where a new table
    is newer than what lies below and older than nothing above. *)

From Stdlib Require Import ZArith Lia Permutation.
From S2P Require Import Prelude CString World Coding SliceStatus FilterPolicy Logging DbFormat Iterators TwoLevelIterator.
From S2P Require Import TableFormat TableSpec DbTable MemTable DbIter VersionEdit Version VersionSpec.

Section overlaps.
Context (C : Comparator) {HC : ComparatorLaws C}.
Implicit Types (f g : FileMetaData) (files : list FileMetaData) (b e : option str).
Import Version.

Definition start f : str := user_part (smallest f).
Definition limit f : str := user_part (largest f).

(** A file has keys between the bounds; it has none outside. *)
Definition overlapping b e f : bool := negb (below (C := C) (limit f) b || above (C := C) (start f) e).
Definition within b e f : bool := negb (below (C := C) (start f) b || above (C := C) (limit f) e).

(** How many files reach below the lower and above the upper bound. *)
Definition lower_ends b files : nat := length (List.filter (fun f => below (C := C) (start f) b) files).
Definition upper_ends e files : nat := length (List.filter (fun f => above (C := C) (limit f) e) files).

Lemma filter_le {A} (p q : A -> bool) l : (forall x, In x l -> p x = true -> q x = true) -> (length (List.filter p l) <= length (List.filter q l))%nat.
Proof.
  induction l as [|a l IH]; intros H; [done|]. cbn [List.filter]. specialize (IH ltac:(firstorder)). destruct (p a) eqn:Ep; [rewrite (H a) by (done || by left); cbn; lia|].
  destruct (q a); cbn; lia.
Qed.

Lemma filter_lt {A} (p q : A -> bool) l x : In x l -> p x = false -> q x = true -> (forall y, In y l -> p y = true -> q y = true) ->
  (length (List.filter p l) < length (List.filter q l))%nat.
Proof.
  induction l as [|a l IH]; intros Hx Hp Hq H; [done|]. cbn [List.filter]. destruct Hx as [->|Hx].
  - rewrite Hp, Hq. cbn. pose proof (filter_le p q l ltac:(firstorder)). lia.
  - specialize (IH Hx Hp Hq ltac:(firstorder)). destruct (p a) eqn:Ep; [rewrite (H a) by (done || by left); cbn; lia|]. destruct (q a); cbn; lia.
Qed.

Lemma lower_ends_move files f b : f ∈ files -> below (C := C) (start f) b = true -> (lower_ends (Some (start f)) files < lower_ends b files)%nat.
Proof.
  intros Hf Hb. destruct b as [k|]; [|done]. apply (filter_lt _ _ _ f); [by apply list_elem_of_In| |done|].
  - unfold below. by rewrite cmp_refl.
  - intros g _. unfold below in *. unfold is_lt in *. destruct (Compare (start g) (start f)) eqn:E1; try done. destruct (Compare (start f) k) eqn:E2; try done.
    by rewrite (cmp_trans _ _ _ E1 E2).
Qed.

Lemma upper_ends_move files f e : f ∈ files -> above (C := C) (limit f) e = true -> (upper_ends (Some (limit f)) files < upper_ends e files)%nat.
Proof.
  intros Hf Hb. destruct e as [k|]; [|done]. apply (filter_lt _ _ _ f); [by apply list_elem_of_In| |done|].
  - unfold above. by rewrite cmp_refl.
  - intros g _. unfold above in *. unfold is_gt in *. destruct (Compare (limit g) (limit f)) eqn:E1; try done. destruct (Compare (limit f) k) eqn:E2; try done.
    apply cmp_flip in E1, E2. cbn in E1, E2. by rewrite (cmp_flip _ _ _ (cmp_trans _ _ _ E2 E1)).
Qed.

(** [b'] is [b], or lies below it. *)
Definition lowered b b' : Prop := match b, b' with Some x, Some y => Compare y x <> Gt | None, None => True | _, _ => False end.
Definition raised e e' : Prop := match e, e' with Some x, Some y => Compare x y <> Gt | None, None => True | _, _ => False end.

Lemma cmp_le_trans x y z : Compare x y <> Gt -> Compare y z <> Gt -> Compare x z <> Gt.
Proof.
  intros H1 H2. destruct (Compare x y) eqn:E1; [by rewrite (cmp_eq_l _ _ _ E1)| |done].
  destruct (Compare y z) eqn:E2; [by rewrite <- (cmp_eq_r _ _ _ E2), E1|by rewrite (cmp_trans _ _ _ E1 E2)|done].
Qed.

Lemma lowered_refl b : lowered b b.
Proof. destruct b; cbn; [by rewrite cmp_refl|done]. Qed.
Lemma raised_refl e : raised e e.
Proof. destruct e; cbn; [by rewrite cmp_refl|done]. Qed.
Lemma lowered_trans a b c : lowered a b -> lowered b c -> lowered a c.
Proof. destruct a, b, c; try done. cbn. intros H1 H2. by eapply cmp_le_trans. Qed.
Lemma raised_trans a b c : raised a b -> raised b c -> raised a c.
Proof. destruct a, b, c; try done. cbn. intros H1 H2. by eapply cmp_le_trans. Qed.

(** On levels above 0 one pass is enough. *)
Lemma overlap_loop_sorted fuel level files b e : level <> 0 -> forall i acc, (length files < fuel + i)%nat -> (i <= length files)%nat ->
  overlap_loop (C := C) fuel level files b e i acc = Ret (acc ++ List.filter (overlapping b e) (drop i files)).
Proof.
  intros Hl. induction fuel as [|fuel IH]; intros i acc Hfuel Hi; [lia|]. cbn [overlap_loop]. destruct (files !! i) as [f|] eqn:Ef.
  - rewrite (drop_S _ _ _ Ef). cbn [List.filter]. unfold overlapping at 1. fold (start f) (limit f). apply lookup_lt_Some in Ef as Hlt.
    destruct (below (limit f) b || above (start f) e) eqn:Eo; cbn [negb]; [by apply IH; lia|]. destruct (Z.eqb_spec level 0); [done|]. rewrite IH by lia. by rewrite <- app_assoc.
  - apply lookup_ge_None in Ef. rewrite drop_ge by lia. by rewrite app_nil_r.
Qed.

(** On level 0 the range is extended until no file crosses its ends. *)
Lemma overlap_loop_0 fuel files : forall b e i, (i <= length files)%nat ->
  Forall (fun f => within b e f = true) (List.filter (overlapping b e) (take i files)) ->
  ((lower_ends b files + upper_ends e files) * (length files + 1) + (length files + 1 - i) <= fuel)%nat ->
  exists b' e', overlap_loop (C := C) fuel 0 files b e i (List.filter (overlapping b e) (take i files)) = Ret (List.filter (overlapping b' e') files) /\
    lowered b b' /\ raised e e' /\ Forall (fun f => within b' e' f = true) (List.filter (overlapping b' e') files).
Proof.
  induction fuel as [|fuel IH]; intros b e i Hi Hin Hfuel; [lia|]. cbn [overlap_loop]. destruct (files !! i) as [f|] eqn:Ef.
  2: { apply lookup_ge_None in Ef. rewrite take_ge in * by lia. exists b, e. split; [done|]. split; [apply lowered_refl|]. split; [apply raised_refl|done]. }
  apply lookup_lt_Some in Ef as Hlt. fold (start f) (limit f). assert (f ∈ files) as Hf by (by eapply list_elem_of_lookup_2).
  assert (List.filter (overlapping b e) (take (S i) files) = List.filter (overlapping b e) (take i files) ++ (if overlapping b e f then [f] else [])) as Es.
  { rewrite (take_S_r _ _ _ Ef), List.filter_app. cbn. by destruct (overlapping b e f). }
  destruct (below (limit f) b || above (start f) e) eqn:Eo.
  { assert (overlapping b e f = false) as Eov by (unfold overlapping; by rewrite Eo). rewrite Eov, app_nil_r in Es. rewrite <- Es. apply IH; [lia| |lia]. by rewrite Es. }
  assert (overlapping b e f = true) as Eov by (unfold overlapping; by rewrite Eo). rewrite Eov in Es. cbn [Z.eqb].
  destruct (below (start f) b) eqn:Eb.
  { destruct (IH (Some (start f)) e O ltac:(lia)) as (b' & e' & Hr & Hl' & Hr' & Hw); [constructor| |].
    { pose proof (lower_ends_move files f b Hf Eb). nia. }
    exists b', e'. split; [exact Hr|]. split; [|done]. eapply lowered_trans; [|exact Hl']. destruct b as [k|]; [|done]. cbn in *. unfold is_lt in Eb. by destruct (Compare (start f) k). }
  destruct (above (limit f) e) eqn:Ea.
  { destruct (IH b (Some (limit f)) O ltac:(lia)) as (b' & e' & Hr & Hl' & Hr' & Hw); [constructor| |].
    { pose proof (upper_ends_move files f e Hf Ea). nia. }
    exists b', e'. split; [exact Hr|]. split; [done|]. split; [|done]. eapply raised_trans; [|exact Hr']. destruct e as [k|]; [|done]. cbn in *. unfold is_gt in Ea.
    rewrite cmp_antisym. by destruct (Compare (limit f) k). }
  rewrite <- Es. apply IH; [lia| |lia]. rewrite Es. apply Forall_app. split; [done|]. constructor; [|done]. unfold within. by rewrite Eb, Ea.
Qed.

Lemma filter_length_le {A} (p : A -> bool) l : (length (List.filter p l) <= length l)%nat.
Proof. induction l as [|a l IH]; [done|]. cbn. destruct (p a); cbn; lia. Qed.

(** [GetOverlappingInputs] ends, and what it returns. *)
Lemma GetOverlappingInputs_ok v level files begin_ end_ : 0 <= level < kNumLevels -> Version.level_files v level = Ret files ->
  let b := user_part <$> begin_ in let e := user_part <$> end_ in
  exists b' e', GetOverlappingInputs (C := C) v level begin_ end_ = Ret (List.filter (overlapping b' e') files) /\
    lowered b b' /\ raised e e' /\
    if level =? 0 then Forall (fun f => within b' e' f = true) (List.filter (overlapping b' e') files) else b' = b /\ e' = e.
Proof.
  intros Hl Hf b e. unfold GetOverlappingInputs. destruct (Z.leb_spec 0 level); [|lia]. destruct (Z.ltb_spec level kNumLevels); [|lia]. cbn [andb]. rewrite Hf. cbn [mbind result_bind].
  fold b e. destruct (Z.eqb_spec level 0) as [->|Hne].
  - destruct (overlap_loop_0 (overlap_fuel (length files)) files b e O ltac:(lia)) as (b' & e' & Hr & H1 & H2 & H3); [constructor| |].
    { unfold overlap_fuel, lower_ends, upper_ends. pose proof (filter_length_le (fun f => below (C := C) (start f) b) files). pose proof (filter_length_le (fun f => above (C := C) (limit f) e) files). nia. }
    exists b', e'. split; [exact Hr|]. done.
  - exists b, e. split; [|split; [apply lowered_refl|split; [apply raised_refl|done]]]. rewrite overlap_loop_sorted by (done || unfold overlap_fuel; nia). done.
Qed.

Lemma touching_overlaps b e f g : within b e f = true -> overlapping (Some (start f)) (Some (limit f)) g = true -> overlapping b e g = true.
Proof.
  unfold within, overlapping. rewrite !negb_true_iff, !orb_false_iff. intros [H1 H2] [H3 H4]. split.
  - destruct b as [x|]; [|done]. cbn in *. unfold is_lt in *. destruct (Compare (limit g) x) eqn:E; [done| |done]. exfalso.
    assert (Compare (limit g) (start f) = Lt) as H; [|by rewrite H in H3]. destruct (Compare (start f) x) eqn:E1; [by rewrite (cmp_eq_r _ _ _ E1)|done|].
    apply cmp_flip in E1. cbn in E1. by rewrite (cmp_trans _ _ _ E E1).
  - destruct e as [x|]; [|done]. cbn in *. unfold is_gt in *. destruct (Compare (start g) x) eqn:E; [done|done|]. exfalso. apply cmp_flip in E. cbn in E.
    assert (Compare (start g) (limit f) = Gt) as H; [|by rewrite H in H4]. apply (cmp_flip _ _ Lt). destruct (Compare (limit f) x) eqn:E1; [by rewrite (cmp_eq_l _ _ _ E1)|by rewrite (cmp_trans _ _ _ E1 E)|done].
Qed.

Lemma overlapping_wider b e b' e' f : lowered b b' -> raised e e' -> overlapping b e f = true -> overlapping b' e' f = true.
Proof.
  unfold overlapping. rewrite !negb_true_iff, !orb_false_iff. intros Hl Hr [H1 H2]. split.
  - destruct b as [x|], b' as [y|]; try done. cbn in *. unfold is_lt in *. destruct (Compare (limit f) y) eqn:E; [done| |done]. exfalso.
    destruct (Compare y x) eqn:E1; [by rewrite <- (cmp_eq_r _ _ _ E1), E in H1|by rewrite (cmp_trans _ _ _ E E1) in H1|done].
  - destruct e as [x|], e' as [y|]; try done. cbn in *. unfold is_gt in *. destruct (Compare (start f) y) eqn:E; [done|done|]. exfalso. apply cmp_flip in E. cbn in E.
    assert (Compare x (start f) = Lt) as H by (destruct (Compare x y) eqn:E1; [by rewrite (cmp_eq_l _ _ _ E1)|by rewrite (cmp_trans _ _ _ E1 E)|done]).
    apply cmp_flip in H. cbn in H. by rewrite H in H2.
Qed.

Lemma filter_sublist {A} (p : A -> bool) (l : list A) : sublist (List.filter p l) l.
Proof. induction l as [|a l IH]; cbn; [constructor|]. destruct (p a); by constructor. Qed.

(** C14: [GetOverlappingInputs] ends, although it starts again whenever a file of level 0
    extends the range; it returns, in order, every file of the level that overlaps the
    range, on the other levels no more than these, and on level 0 with a file every
    other file that overlaps it. *)
Theorem overlapping_inputs_closed v level files begin_ end_ : 0 <= level < kNumLevels -> Version.level_files v level = Ret files ->
  exists inputs, GetOverlappingInputs (C := C) v level begin_ end_ = Ret inputs /\ sublist inputs files /\
    (forall f, f ∈ files -> overlapping (user_part <$> begin_) (user_part <$> end_) f = true -> f ∈ inputs) /\
    (0 < level -> forall f, f ∈ inputs -> overlapping (user_part <$> begin_) (user_part <$> end_) f = true) /\
    (level = 0 -> forall f g, f ∈ inputs -> g ∈ files -> overlapping (Some (start f)) (Some (limit f)) g = true -> g ∈ inputs).
Proof.
  intros Hl Hf. destruct (GetOverlappingInputs_ok v level files begin_ end_ Hl Hf) as (b' & e' & Hrun & Hlo & Hra & Hcase). eexists. split; [exact Hrun|].
  assert (forall f, f ∈ List.filter (overlapping b' e') files <-> f ∈ files /\ overlapping b' e' f = true) as Hin by (intros f; by rewrite !list_elem_of_In, filter_In).
  split; [apply filter_sublist|]. split_and!.
  - intros f Hff Ho. apply Hin. split; [done|]. by eapply overlapping_wider.
  - intros Hpos f Hff. destruct (Z.eqb_spec level 0); [lia|]. destruct Hcase as [-> ->]. by apply Hin in Hff as [_ ?].
  - intros -> f g Hff Hg Ho. apply Hin. split; [done|]. cbn in Hcase. rewrite Forall_forall in Hcase. exact (touching_overlaps _ _ f g (Hcase f Hff) Ho).
Qed.
End overlaps.

(** ** Levels that hold no key of a range *)

Section ranges.
Context {T D : Type} (C : Comparator) {HC : ComparatorLaws C} {TC : TableCache T D} {TL : TableCacheLaws C TC}.
Context (contents : Z -> list update).
Implicit Types (f g : FileMetaData) (fs : list FileMetaData) (a b : update).
Import Version.

Lemma key_in_file tc f b : file_ok C contents tc f -> b ∈ contents (number f) ->
  Compare (start f) (update_key b) <> Gt /\ Compare (update_key b) (limit f) <> Gt.
Proof.
  intros [Ho _ (a0 & Hh & Es) (a1 & Hl & El) _] Hb. apply list_elem_of_lookup in Hb as [i Hi]. rewrite head_lookup in Hh. rewrite last_lookup in Hl.
  unfold start, limit. rewrite Es, El, !user_part_update by (by eapply ok_at). pose proof (lookup_lt_Some _ _ _ Hi). split.
  - exact (key_order_at C _ Ho 0 i a0 b ltac:(lia) Hh Hi).
  - exact (key_order_at C _ Ho i (pred (length (contents (number f)))) b a1 ltac:(lia) Hi Hl).
Qed.

(** In a sorted level, files come in the order of their keys. *)
Lemma files_in_order fs i j f g a b : ordered C (level_updates contents fs) -> (i < j)%nat -> fs !! i = Some f -> fs !! j = Some g ->
  a ∈ contents (number f) -> b ∈ contents (number g) -> Compare (update_key a) (update_key b) <> Gt.
Proof.
  intros Ho Hij Hf Hg Ha Hb. assert (level_updates contents fs = level_updates contents (take (S i) fs) ++ level_updates contents (drop (S i) fs)) as Es.
  { unfold level_updates. by rewrite <- concat_app, <- map_app, take_drop. }
  assert (a ∈ level_updates contents (take (S i) fs)) as Ha'.
  { apply elem_level_updates. exists f. split; [apply (list_elem_of_lookup_2 _ i); by rewrite lookup_take_lt by lia|done]. }
  assert (b ∈ level_updates contents (drop (S i) fs)) as Hb'.
  { apply elem_level_updates. exists g. split; [|done]. apply (list_elem_of_lookup_2 _ (j - S i)). rewrite lookup_drop. rewrite <- Hg. f_equal. lia. }
  rewrite Es in Ho. apply list_elem_of_lookup in Ha' as [i1 H1]. apply list_elem_of_lookup in Hb' as [i2 H2]. pose proof (lookup_lt_Some _ _ _ H1).
  apply (key_order_at C _ Ho i1 (length (level_updates contents (take (S i) fs)) + i2)); [lia|by rewrite lookup_app_l|].
  rewrite lookup_app_r by lia. rewrite <- H2. f_equal. lia.
Qed.

(** No file of the level reaches into the range from [lo] to [hi]. *)
Definition apart (lo hi : str) fs : Prop := forall f, f ∈ fs -> Compare (limit f) lo = Lt \/ Compare hi (start f) = Lt.

Lemma apart_updates tc lo hi fs b : Forall (file_ok C contents tc) fs -> apart lo hi fs -> b ∈ level_updates contents fs ->
  Compare (update_key b) lo = Lt \/ Compare hi (update_key b) = Lt.
Proof.
  intros Hfs Hap (f & Hf & Hb)%elem_level_updates. rewrite Forall_forall in Hfs. destruct (key_in_file tc f b (Hfs f Hf) Hb) as [H1 H2]. destruct (Hap f Hf) as [E|E]; [left|right].
  - destruct (Compare (update_key b) (limit f)) eqn:E2; [by rewrite (cmp_eq_l _ _ _ E2)|by rewrite (cmp_trans _ _ _ E2 E)|done].
  - destruct (Compare (start f) (update_key b)) eqn:E2; [by rewrite <- (cmp_eq_r _ _ _ E2)|by rewrite (cmp_trans _ _ _ E E2)|done].
Qed.

Lemma InternalKey_make_ok k s t : 0 <= s <= kMaxSequenceNumber -> InternalKey_make k s t = Ret (k ++ EncodeFixed64 (packed s t)).
Proof. intros Hs. unfold InternalKey_make. by rewrite AppendInternalKey_ok. Qed.

Lemma max_sequence_range : 0 <= kMaxSequenceNumber <= kMaxSequenceNumber.
Proof. by vm_compute. Qed.

Lemma before_key tc f k : file_ok C contents tc f ->
  Compare (Comparator := internal_comparator C) (largest f) (k ++ EncodeFixed64 (packed kMaxSequenceNumber kTypeValue)) = Lt -> Compare (limit f) k = Lt.
Proof.
  intros [Ho _ _ (a1 & Hl & El) _] H. rewrite last_lookup in Hl. assert (update_ok a1) as Hok by (by eapply ok_at). rewrite El, entry_compare in H by (done || apply max_sequence_range).
  unfold limit. rewrite El, user_part_update by done. unfold ikey_order in H. destruct (Compare (update_key a1) k); [|done..]. rewrite Z.compare_lt_iff in H.
  destruct a1 as [[[s t] u] v]. destruct Hok as (Hs & _). cbn in H. unfold packed in H. destruct t; cbn in H; lia.
Qed.

Lemma SomeFileOverlapsRange_ok tc fs level lo hi : Forall (file_ok C contents tc) fs ->
  (0 < level -> ordered C (level_updates contents fs) /\ Z.of_nat (length fs) < 2 ^ 31) ->
  exists r, SomeFileOverlapsRange (C := C) (0 <? level) fs (Some lo) (Some hi) = Ret r /\ (r = false -> apart lo hi fs).
Proof.
  intros Hfs Hs. unfold SomeFileOverlapsRange. destruct (Z.ltb_spec 0 level) as [Hl|Hl]; cbn [negb].
  - destruct (Hs Hl) as [Ho Hn]. rewrite InternalKey_make_ok by apply max_sequence_range. cbn [mbind result_bind].
    rewrite FindFile_ok by (try done; by eapply level_sorted). cbn [mbind result_bind]. set (p := seek_pos _ _).
    assert (forall j f, (j < p)%nat -> fs !! j = Some f -> Compare (limit f) lo = Lt) as Hbefore.
    { intros j f Hj Hf. rewrite Forall_lookup in Hfs. apply (before_key tc f lo (Hfs j f Hf)).
      apply (seek_pos_before (C := internal_comparator C) _ (map level_entry fs) j (level_entry f)); [by rewrite list_lookup_fmap, Hf|done]. }
    destruct (Z.leb_spec (Z.of_nat (length fs)) (Z.of_nat p)) as [Hge|Hlt].
    + exists false. split; [done|]. intros _ f Hf. apply list_elem_of_lookup in Hf as [j Hj]. pose proof (lookup_lt_Some _ _ _ Hj). left. by apply (Hbefore j f); [lia|].
    + destruct (lookup_lt_is_Some_2 fs p) as [g Hg]; [lia|]. rewrite (vec_at_ok _ _ g) by (rewrite ?Nat2Z.id; done || lia). cbn [mbind result_bind].
      eexists. split; [done|]. intros Hr%negb_false_iff f Hf. apply list_elem_of_lookup in Hf as [j Hj].
      destruct (decide (j < p)%nat) as [|Hjp]; [left; by apply (Hbefore j f)|right]. unfold BeforeFile in Hr. fold (start g) in Hr. destruct (Compare hi (start g)) eqn:Eh; [done| |done].
      assert (Compare (start g) (start f) <> Gt) as H.
      { destruct (decide (j = p)) as [->|]; [rewrite Hj in Hg; injection Hg as ->; by rewrite cmp_refl|].
        rewrite Forall_lookup in Hfs. destruct (Hfs p g Hg) as [Hog _ (a0 & Hh & Es) _ _], (Hfs j f Hj) as [Hof _ (a1 & Hh1 & Es1) _ _].
        rewrite head_lookup in Hh, Hh1. unfold start. rewrite Es, Es1, (user_part_update a0), (user_part_update a1) by first [exact (ok_at C _ Hog _ _ Hh)|exact (ok_at C _ Hof _ _ Hh1)].
        apply (files_in_order fs p j g f a0 a1 Ho); [lia|done|done|by eapply list_elem_of_lookup_2..]. }
      destruct (Compare (start g) (start f)) eqn:E; [by rewrite <- (cmp_eq_r _ _ _ E)|by rewrite (cmp_trans _ _ _ Eh E)|done].
  - eexists. split; [done|]. intros Hr f Hf. rewrite <- not_true_iff_false, existsb_exists in Hr.
    destruct (AfterFile (C := C) (Some lo) f) eqn:Ea; [left|destruct (BeforeFile (C := C) (Some hi) f) eqn:Eb; [right|]].
    + unfold AfterFile in Ea. fold (limit f) in Ea. destruct (Compare lo (limit f)) eqn:E; try done. by apply cmp_flip in E.
    + unfold BeforeFile in Eb. fold (start f) in Eb. by destruct (Compare hi (start f)).
    + exfalso. apply Hr. exists f. split; [by apply list_elem_of_In|]. by rewrite Ea, Eb.
Qed.

Lemma version_level tc v level : version_ok C contents tc v -> 0 <= level < kNumLevels ->
  exists fs, files_ v !! Z.to_nat level = Some fs /\ level_files v level = Ret fs /\ Forall (file_ok C contents tc) fs /\
    (0 < level -> ordered C (level_updates contents fs) /\ Z.of_nat (length fs) < 2 ^ 31).
Proof.
  intros [Hlv Hfs _ _ Hso _ _] Hl. destruct (lookup_lt_is_Some_2 (files_ v) (Z.to_nat level)) as [fs Hf]; [rewrite Hlv; unfold kNumLevels in *; lia|].
  exists fs. split; [done|]. split; [by apply vec_at_ok; [lia|]|]. split.
  - rewrite Forall_concat in Hfs. rewrite Forall_lookup in Hfs. by eapply Hfs.
  - intros Hpos. destruct (Z.to_nat level) as [|i] eqn:Ei; [lia|]. by apply (Hso i).
Qed.

Lemma OverlapInLevel_ok tc v level lo hi : version_ok C contents tc v -> 0 <= level < kNumLevels ->
  exists r, OverlapInLevel (C := C) v level (Some lo) (Some hi) = Ret r /\
    (r = false -> forall fs, files_ v !! Z.to_nat level = Some fs -> apart lo hi fs).
Proof.
  intros Hv Hl. destruct (version_level tc v level Hv Hl) as (fs & Hf & Hlf & Hfs & Hs). unfold OverlapInLevel. rewrite Hlf. cbn [mbind result_bind].
  destruct (SomeFileOverlapsRange_ok tc fs level lo hi Hfs Hs) as (r & -> & Hr). exists r. split; [done|]. intros Er fs' Hf'. rewrite Hf in Hf'. injection Hf' as <-. by apply Hr.
Qed.

Lemma pick_level_ok tc v max lo hi kb ke : version_ok C contents tc v -> forall n level, 0 <= level -> level + Z.of_nat n <= kMaxMemCompactLevel ->
  (forall i fs, (i <= Z.to_nat level)%nat -> files_ v !! i = Some fs -> apart lo hi fs) ->
  exists l, pick_level (C := C) n max v lo hi kb ke level = Ret l /\ level <= l <= kMaxMemCompactLevel /\
    forall i fs, (i <= Z.to_nat l)%nat -> files_ v !! i = Some fs -> apart lo hi fs.
Proof.
  intros Hv. induction n as [|n IH]; intros level Hl0 Hln Hap; cbn [pick_level]; [exists level; split; [done|]; split; [unfold kMaxMemCompactLevel in *; lia|done]|].
  destruct (Z.ltb_spec level kMaxMemCompactLevel); [|unfold kMaxMemCompactLevel in *; lia]. cbn [negb].
  destruct (OverlapInLevel_ok tc v (level + 1) lo hi Hv) as (r & -> & Hr); [unfold kMaxMemCompactLevel, kNumLevels in *; lia|]. cbn [mbind result_bind].
  destruct r; [exists level; split; [done|]; split; [lia|done]|]. specialize (Hr eq_refl).
  assert (forall i fs, (i <= Z.to_nat (level + 1))%nat -> files_ v !! i = Some fs -> apart lo hi fs) as Hap'.
  { intros i fs Hi Hf. destruct (decide (i = Z.to_nat (level + 1))) as [->|]; [by apply Hr|]. apply (Hap i); [lia|done]. }
  destruct (Z.ltb_spec (level + 2) kNumLevels); [|unfold kMaxMemCompactLevel, kNumLevels in *; lia].
  destruct (version_level tc v (level + 2) Hv) as (fs & _ & Hlf & _); [lia|].
  destruct (GetOverlappingInputs_ok C v (level + 2) fs (Some kb) (Some ke)) as (b' & e' & -> & _); [lia|done|]. cbn [mbind result_bind].
  destruct (_ <? _); [exists level; split; [done|]; split; [lia|done]|].
  destruct (IH (level + 1)) as (l & -> & Hle & Hl); [lia|lia|done|]. exists l. split; [done|]. split; [lia|done].
Qed.

(** The level that is picked, and all above it, hold no key of the new table unless it
    is level 0. *)
Lemma PickLevelForMemTableOutput_ok tc v max lo hi : version_ok C contents tc v ->
  exists l, PickLevelForMemTableOutput (C := C) max v lo hi = Ret l /\ 0 <= l <= kMaxMemCompactLevel /\
    (0 < l -> forall i fs, (i <= Z.to_nat l)%nat -> files_ v !! i = Some fs -> apart lo hi fs).
Proof.
  intros Hv. unfold PickLevelForMemTableOutput. destruct (OverlapInLevel_ok tc v 0 lo hi Hv) as (r & -> & Hr); [unfold kNumLevels; lia|]. cbn [mbind result_bind].
  destruct r; [exists 0; split; [done|]; split; [unfold kMaxMemCompactLevel; lia|lia]|]. specialize (Hr eq_refl).
  pose proof max_sequence_range. rewrite !InternalKey_make_ok by lia. cbn [mbind result_bind].
  destruct (pick_level_ok tc v max lo hi (lo ++ EncodeFixed64 (packed kMaxSequenceNumber kTypeValue)) (hi ++ EncodeFixed64 (packed 0 kTypeDeletion)) Hv (Z.to_nat kMaxMemCompactLevel) 0)
    as (l & Hp & Hle & Hl); [lia|unfold kMaxMemCompactLevel; lia| |exists l; split; [exact Hp|]; split; [lia|by intros _]].
  intros i fs Hi Hf. assert (i = O) as -> by (cbn in Hi; lia). by apply Hr.
Qed.
End ranges.

(** ** Witness: a range that grows twice *)

Definition span (n : Z) (a b : str) : FileMetaData := mkMeta 1 100 n 40 (a ++ EncodeFixed64 (packed 9 kTypeValue)) (b ++ EncodeFixed64 (packed 1 kTypeValue)).
Definition demo_spans : list FileMetaData := [span 1 ($"k") ($"p"); span 2 ($"a") ($"c"); span 3 ($"f") ($"l"); span 4 ($"x") ($"z")].

(** The range from o to o meets file 1, which meets file 3. *)
Lemma overlapping_inputs_closed_witness :
  let v := Version.mkVersion [demo_spans; []; []; []; []; []; []] None (-1) in let o := Some ($"o" ++ EncodeFixed64 (packed 5 kTypeValue)) in
  exists inputs, Version.GetOverlappingInputs (C := BytewiseComparator) v 0 o o = Ret inputs /\ sublist inputs demo_spans /\ span 1 ($"k") ($"p") ∈ inputs /\ span 3 ($"f") ($"l") ∈ inputs.
Proof.
  intros v o. destruct (overlapping_inputs_closed BytewiseComparator v 0 demo_spans o o) as (inputs & Hrun & Hsub & Hall & _ & Hclosed); [by vm_compute|reflexivity|].
  assert (span 1 ($"k") ($"p") ∈ inputs) as H1 by (apply Hall; [left|vm_compute; reflexivity]). exists inputs. split; [exact Hrun|]. split; [exact Hsub|]. split; [exact H1|].
  apply (Hclosed eq_refl (span 1 ($"k") ($"p"))); [exact H1|do 2 right; left|vm_compute; reflexivity].
Defined.
