(* ===== verification/DbRead.v ===== *)
(** * leveldb: reading a database

    The read side of [db/db_impl.cc], with [db/snapshot.h] and the iterators of
    [Version] ([db/version_set.cc]): a lookup goes through the memtable, the immutable
    memtable and the current version; an iterator merges theirs.  The calls hold the
    mutex but for the search, which works on the objects it took references to; what
    other threads do to the database meanwhile is not in the state.  Reference counts
    and the clean-up functions manage memory and are not modelled. *)

From Stdlib Require Import ZArith Lia.
From S2P Require Import Prelude CString World Coding SliceStatus FilterPolicy Logging DbFormat Iterators TwoLevelIterator.
From S2P Require Import SkipList DbTable MemTable Merger DbIter VersionEdit Version.

(** ** db/snapshot.h *)

Module SnapshotList.

(** A snapshot is a node of a circular list and known by its address. *)
Record SnapshotImpl := mkSnapshot { snapshot_address : Z; sequence_number_ : Z }.

(** The nodes after the dummy head, and an address that is not in use. *)
Record SnapshotList := mkList { nodes : list SnapshotImpl; free_address : Z }.

Definition make : SnapshotList := mkList [] 0.

Definition empty (l : SnapshotList) : bool := match nodes l with [] => true | _ => false end.
Definition oldest (l : SnapshotList) : result SnapshotImpl :=
  match head (nodes l) with Some s => Ret s | None => Crash AssertFailed end.
Definition newest (l : SnapshotList) : result SnapshotImpl :=
  match last (nodes l) with Some s => Ret s | None => Crash AssertFailed end.

Definition New (l : SnapshotList) (sequence_number : Z) : result (SnapshotImpl * SnapshotList) :=
  ok ← (if empty l then Ret true else s ← newest l; Ret (sequence_number_ s <=? sequence_number));
  if (ok : bool) then
    let snapshot := mkSnapshot (free_address l) sequence_number in
    Ret (snapshot, mkList (nodes l ++ [snapshot]) (free_address l + 1))
  else Crash AssertFailed.

(** The snapshot has to be one of the list's ([snapshot->list_ == this]). *)
Definition Delete (l : SnapshotList) (snapshot : SnapshotImpl) : result SnapshotList :=
  if existsb (fun s => snapshot_address s =? snapshot_address snapshot) (nodes l)
  then Ret (mkList (List.filter (fun s => negb (snapshot_address s =? snapshot_address snapshot)) (nodes l)) (free_address l))
  else Crash AssertFailed.

End SnapshotList.

(** ** The iterators of a version *)

(** The argument of [GetFileIterator], and a bound on the files of a level. *)
Record FileArg (T : Type) := mkFileArg { fa_cache : T; fa_files : nat }.
Arguments mkFileArg {T} _ _.
Arguments fa_cache {T} _.
Arguments fa_files {T} _.

Section version_iterators.
Context {T D : Type} `{C : !Comparator, TC : !TableCache T D, ITD : !Iterator D}.

Abbreviation TableIterator := (EmptyIterator.EmptyIterator + D)%type.

#[export] Instance file_block_function : BlockFunction (FileArg T) TableIterator := {
  block_function a file_value :=
    q ← GetFileIterator (fa_cache a) file_value;
    let '(it, tc) := (q : TableIterator * T) in
    Ret (it, mkFileArg tc (fa_files a));
  block_fuel := fa_files
}.

Abbreviation LevelIterator := (TwoLevelIterator.TwoLevelIterator LevelFileNumIterator TableIterator (FileArg T)).

Definition NewConcatenatingIterator (files : list FileMetaData) (tc : T) : result LevelIterator :=
  TwoLevelIterator.make (NewLevelFileNumIterator files) (mkFileArg tc (2 + length files)).

(** The first loop of [AddIterators]. *)
Fixpoint table_iterators (tc : T) (files : list FileMetaData) : result (list TableIterator * T) :=
  match files with
  | [] => Ret ([], tc)
  | f :: files =>
      q ← tc_NewIterator tc (number f) (file_size f);
      let '(it, tc) := (q : TableIterator * T) in
      q ← table_iterators tc files;
      let '(its, tc) := (q : list TableIterator * T) in
      Ret (it :: its, tc)
  end.

(** The second loop. *)
Fixpoint level_iterators (tc : T) (levels : list (list FileMetaData)) : result (list LevelIterator) :=
  match levels with
  | [] => Ret []
  | [] :: levels => level_iterators tc levels
  | files :: levels => it ← NewConcatenatingIterator files tc; its ← level_iterators tc levels; Ret (it :: its)
  end.

Definition AddIterators (v : Version.Version) (tc : T) : result (list (TableIterator + LevelIterator) * T) :=
  match Version.files_ v with
  | [] => Crash OutOfBounds
  | files0 :: levels =>
      q ← table_iterators tc files0;
      let '(its, tc) := (q : list TableIterator * T) in
      lits ← level_iterators tc levels;
      Ret (map inl its ++ map inr lits, tc)
  end.

End version_iterators.

(** ** db/db_impl.cc *)

Module DBRead.

(** The members of [DBImpl] that reads use; [current_] and [last_sequence_] are
    [versions_->current()] and [versions_->LastSequence()].  [scheduled_] says whether
    [MaybeScheduleCompaction] was called. *)
Record DBImpl (T : Type) := mkDB {
  mem_ : MemTable.MemTable;
  imm_ : option MemTable.MemTable;
  current_ : Version.Version;
  table_cache_ : T;
  last_sequence_ : Z;
  snapshots_ : SnapshotList.SnapshotList;
  seed_ : Z;
  scheduled_ : bool
}.
Arguments mkDB {T} _ _ _ _ _ _ _ _.
Arguments mem_ {T} _.
Arguments imm_ {T} _.
Arguments current_ {T} _.
Arguments table_cache_ {T} _.
Arguments last_sequence_ {T} _.
Arguments snapshots_ {T} _.
Arguments seed_ {T} _.
Arguments scheduled_ {T} _.

Section ops.
Context {T D : Type} `{C : !Comparator, TC : !TableCache T D, ITD : !Iterator D}.
Implicit Types (db : DBImpl T).

Definition set_current db (v : Version.Version) (tc : T) (scheduled : bool) : DBImpl T :=
  mkDB (mem_ db) (imm_ db) v tc (last_sequence_ db) (snapshots_ db) (seed_ db) scheduled.

(** [options.snapshot] *)
Definition read_sequence db (snapshot : option SnapshotList.SnapshotImpl) : Z :=
  match snapshot with Some s => SnapshotList.sequence_number_ s | None => last_sequence_ db end.

(** [MemTable::Get(lkey, value, &s)] when it returns true. *)
Definition from_memtable (r : str + Status.Status) (value : str) : Status.Status * str :=
  match r with inl v => (Status.OK, v) | inr s => (s, value) end.

Definition Get db (snapshot : option SnapshotList.SnapshotImpl) (key value : str) : result (Status.Status * str * DBImpl T) :=
  lkey ← LookupKey_make key (read_sequence db snapshot);
  in_mem ← MemTable.Get (mem_ db) lkey;
  match in_mem with
  | Some r => Ret (from_memtable r value, db)
  | None =>
      in_imm ← (match imm_ db with Some imm => MemTable.Get imm lkey | None => Ret None end);
      match (in_imm : option (str + Status.Status)) with
      | Some r => Ret (from_memtable r value, db)
      | None =>
          q ← Version.Get (current_ db) (table_cache_ db) lkey value;
          let '(s, value, stats, tc) := (q : Status.Status * str * Version.GetStats * T) in
          let '(v, compact) := Version.UpdateStats (current_ db) stats in
          Ret (s, value, set_current db v tc (scheduled_ db || compact))
      end
  end.

Abbreviation TableIterator := (EmptyIterator.EmptyIterator + D)%type.
Abbreviation LevelIterator := (TwoLevelIterator.TwoLevelIterator LevelFileNumIterator TableIterator (FileArg T)).
Abbreviation ChildIterator := (MemTable.MemTableIterator + (TableIterator + LevelIterator))%type.

(** The virtual functions of the merged iterator, which compares internal keys. *)
Definition InternalIterator_ops : Iterator (MergingIterator.Merged ChildIterator) :=
  either_iterator (A := EmptyIterator.EmptyIterator) (B := (ChildIterator + MergingIterator.MergingIterator ChildIterator)%type)
    (IB := either_iterator (IB := MergingIterator.MergingIterator_ops (C := internal_comparator C))).

(** The iterator, [*latest_snapshot], [*seed] and the database. *)
Definition NewInternalIterator db : result (MergingIterator.Merged ChildIterator * Z * Z * DBImpl T) :=
  q ← AddIterators (current_ db) (table_cache_ db);
  let '(its, tc) := (q : list (TableIterator + LevelIterator) * T) in
  let mems := MemTable.NewIterator (mem_ db) :: match imm_ db with Some imm => [MemTable.NewIterator imm] | None => [] end in
  m ← MergingIterator.NewMergingIterator (map inl mems ++ map inr its);
  let seed := u32 (seed_ db + 1) in
  Ret (m, last_sequence_ db, seed, mkDB (mem_ db) (imm_ db) (current_ db) tc (last_sequence_ db) (snapshots_ db) seed (scheduled_ db)).

(** [RecordReadSample]; a crash of the overlap search leaves the database as it is. *)
Definition RecordReadSample db (key : str) : result (DBImpl T) :=
  q ← Version.RecordReadSample (current_ db) key;
  let '(v, compact) := (q : Version.Version * bool) in
  Ret (set_current db v (table_cache_ db) (scheduled_ db || compact)).

#[export] Instance db_sampler : ReadSampler (DBImpl T) := {
  DbIter.RecordReadSample db key := match RecordReadSample db key with Ret db => db | _ => db end
}.

Definition NewIterator db (snapshot : option SnapshotList.SnapshotImpl) :
    result (DBIter.DBIter (MergingIterator.Merged ChildIterator) (DBImpl T)) :=
  q ← NewInternalIterator db;
  let '(iter, latest_snapshot, seed, db) := (q : MergingIterator.Merged ChildIterator * Z * Z * DBImpl T) in
  Ret (DBIter.make db iter (match snapshot with Some s => SnapshotList.sequence_number_ s | None => latest_snapshot end) seed).

(** Those of the database iterator. *)
Definition DBIterator_ops (turns : nat) : Iterator (DBIter.DBIter (MergingIterator.Merged ChildIterator) (DBImpl T)) :=
  DBIter.DBIter_ops (IT := InternalIterator_ops) (RS := db_sampler) (C := C) turns.

Definition with_snapshots db (l : SnapshotList.SnapshotList) : DBImpl T :=
  mkDB (mem_ db) (imm_ db) (current_ db) (table_cache_ db) (last_sequence_ db) l (seed_ db) (scheduled_ db).

Definition GetSnapshot db : result (SnapshotList.SnapshotImpl * DBImpl T) :=
  q ← SnapshotList.New (snapshots_ db) (last_sequence_ db);
  let '(s, l) := (q : SnapshotList.SnapshotImpl * SnapshotList.SnapshotList) in
  Ret (s, with_snapshots db l).

Definition ReleaseSnapshot db (snapshot : SnapshotList.SnapshotImpl) : result (DBImpl T) :=
  l ← SnapshotList.Delete (snapshots_ db) snapshot; Ret (with_snapshots db l).

End ops.
End DBRead.
