(* ===== verification/DbReadSpec.v ===== *)
(** * Reading a database: lookups and iterators

    [DBImpl::Get] answers with the newest visible update of a key among the memtable,
    the immutable memtable and the tables of the current version, and
    [DBImpl::NewIterator] shows exactly the keys that [Get] finds. *)

From Stdlib Require Import ZArith Lia Permutation.
From S2P Require Import Prelude CString World Coding SliceStatus FilterPolicy Logging DbFormat Iterators TwoLevelIterator.
From S2P Require Import SkipList SkipListSpec TableFormat TableSpec DbTable MemTable Merger DbIter VersionEdit Version VersionSpec DbRead.

(** ** Snapshots *)

Section snapshots.
Import SnapshotList.

(** The snapshots are in the order of their sequence numbers, none above [bound], and
    their addresses are in use. *)
Record snapshots_ok (l : SnapshotList) (bound : Z) : Prop := {
  so_sorted : StronglySorted (fun a b => sequence_number_ a <= sequence_number_ b) (nodes l);
  so_bound : Forall (fun s => sequence_number_ s <= bound) (nodes l);
  so_used : Forall (fun s => snapshot_address s < free_address l) (nodes l)
}.

Lemma New_ok l bound n : snapshots_ok l bound -> bound <= n ->
  exists s l', New l n = Ret (s, l') /\ snapshots_ok l' n /\ nodes l' = nodes l ++ [s] /\ sequence_number_ s = n.
Proof.
  intros [Hs Hb Hu] Hn. unfold New. assert ((if empty l then Ret true else s ← newest l; Ret (sequence_number_ s <=? n)) = Ret true) as ->.
  { unfold empty, newest. destruct (nodes l) as [|a r] eqn:E; [done|]. rewrite <- E in *. destruct (last (nodes l)) as [s|] eqn:El; [|by apply last_None in El; rewrite E in El].
    cbn [mbind result_bind]. f_equal. apply Z.leb_le. apply last_elem in El. rewrite Forall_forall in Hb. specialize (Hb s El). lia. }
  cbn [mbind result_bind]. eexists _, _. split; [done|]. split; [|done]. split; cbn [nodes free_address].
  - apply StronglySorted_app. split_and!; [|done|repeat constructor]. intros a b Ha Hb'. apply list_elem_of_singleton in Hb' as ->. cbn. rewrite Forall_forall in Hb. specialize (Hb a Ha). lia.
  - apply Forall_app. split; [|repeat constructor; cbn; lia]. eapply Forall_impl; [exact Hb|]. cbn. lia.
  - apply Forall_app. split; [|repeat constructor; cbn; lia]. eapply Forall_impl; [exact Hu|]. cbn. lia.
Qed.

Lemma StronglySorted_List_filter {A} (R : A -> A -> Prop) (p : A -> bool) l : StronglySorted R l -> StronglySorted R (List.filter p l).
Proof.
  induction 1 as [|a l Hs IH Hf]; cbn [List.filter]; [constructor|]. destruct (p a); [|done]. constructor; [done|].
  apply Forall_forall. intros b. rewrite list_elem_of_In. intros [Hb _]%filter_In. rewrite Forall_forall in Hf. apply Hf. by apply list_elem_of_In.
Qed.

Lemma Forall_List_filter {A} (P : A -> Prop) (p : A -> bool) l : Forall P l -> Forall P (List.filter p l).
Proof. intros Hf. apply Forall_forall. intros b. rewrite list_elem_of_In. intros [Hb _]%filter_In. rewrite Forall_forall in Hf. apply Hf. by apply list_elem_of_In. Qed.

Lemma Delete_ok l bound s : snapshots_ok l bound -> s ∈ nodes l -> exists l', Delete l s = Ret l' /\ snapshots_ok l' bound /\
  forall a, a ∈ nodes l' <-> a ∈ nodes l /\ snapshot_address a <> snapshot_address s.
Proof.
  intros [Hs Hb Hu] Hin. unfold Delete. rewrite (proj2 (existsb_exists _ _)) by (exists s; split; [by apply list_elem_of_In|by apply Z.eqb_refl]).
  eexists. split; [done|]. split; [split; cbn [nodes free_address]; [by apply StronglySorted_List_filter|by apply Forall_List_filter..]|].
  intros a. cbn [nodes]. rewrite !list_elem_of_In, filter_In. split; (intros [? H]; split; [done|]).
  - by apply negb_true_iff, Z.eqb_neq in H.
  - by apply negb_true_iff, Z.eqb_neq.
Qed.

(** The oldest snapshot has the smallest number. *)
Lemma oldest_ok l bound s : snapshots_ok l bound -> oldest l = Ret s -> Forall (fun a => sequence_number_ s <= sequence_number_ a) (nodes l).
Proof.
  intros [Hs _ _]. unfold oldest. destruct (nodes l) as [|a r]; [done|]. cbn. intros [= ->]. inversion Hs; subst. by constructor; [lia|].
Qed.

End snapshots.

(** ** Lookups *)

Section reads.
Context {T D : Type} (C : Comparator) {HC : ComparatorLaws C} {TC : TableCache T D} {TL : TableCacheLaws C TC} {ITD : Iterator D}.
Context (contents : Z -> list update).
Implicit Types (db : DBRead.DBImpl T) (us mus imus : list update).
Import DBRead.

Definition version_updates (v : Version.Version) : list update := level_updates contents (concat (Version.files_ v)).

(** A memtable holds the updates [us]. *)
Definition mem_holds (m : MemTable.MemTable) us : Prop := exists es, mem_rep C m es /\ es ≡ₚ map update_entry us.

(** The immutable memtable, if there is one. *)
Definition imm_holds (m : option MemTable.MemTable) us : Prop :=
  match m with Some m => mem_holds m us | None => us = [] end.

(** A database whose memtable is newer than its immutable memtable, and these newer
    than its tables. *)
Record db_ok db mus imus : Prop := {
  do_mem : mem_holds (mem_ db) mus;
  do_imm : imm_holds (imm_ db) imus;
  do_version : version_ok C contents (table_cache_ db) (current_ db);
  do_update : Forall update_ok (mus ++ imus ++ version_updates (current_ db));
  do_distinct : ForallOrdPairs (distinct C) (mus ++ imus ++ version_updates (current_ db));
  do_newer : newer C mus (imus ++ version_updates (current_ db));
  do_newer_imm : newer C imus (version_updates (current_ db))
}.

Lemma FOP_app {A} (R : A -> A -> Prop) l1 l2 : ForallOrdPairs R (l1 ++ l2) -> ForallOrdPairs R l1 /\ ForallOrdPairs R l2.
Proof.
  induction l1 as [|a l1 IH]; cbn [app]; [by split; [constructor|]|]. intros H. inversion H as [|? ? Hf Hr]; subst. destruct (IH Hr). split; [|done].
  constructor; [|done]. apply List.Forall_app in Hf. tauto.
Qed.

(** [Get] answers, and leaves a database with the same updates. *)
Lemma Get_ok db mus imus snapshot k value :
  db_ok db mus imus -> str_size k + 13 < 2 ^ 32 -> 0 <= read_sequence db snapshot <= kMaxSequenceNumber ->
  exists db', Get (C := C) (TC := TC) db snapshot k value =
    Ret (match answer <$> newest C k (read_sequence db snapshot) (mus ++ imus ++ version_updates (current_ db)) with
         | Some (inl x) => (Status.OK, x)
         | _ => (Status.NotFound [] [], value)
         end, db') /\ db_ok db' mus imus /\ version_updates (current_ db') = version_updates (current_ db) /\ last_sequence_ db' = last_sequence_ db.
Proof.
  intros Hdb Hk Hs. pose proof Hdb as [(mes & Hm & Hmp) Hi Hv Hok Hd Hn1 Hn2]. set (s := read_sequence db snapshot) in *. unfold Get. fold s.
  destruct (LookupKey_ok k s Hk Hs) as (lk & Elk & _). rewrite Elk. cbn [mbind result_bind].
  apply FOP_app in Hd as [Hd1 Hd2]. apply FOP_app in Hd2 as [Hd2 _]. apply Forall_app in Hok as [Hok1 Hok2]. apply Forall_app in Hok2 as [Hok2 _].
  rewrite (Get_newest C (mem_ db) mes mus k s lk Hm Hmp Hok1 Hd1 Hk Hs Elk). cbn [mbind result_bind]. rewrite newest_app by done.
  assert (forall a : update, (from_memtable (answer a) value, db) = (match Some (answer a) with Some (inl x) => (Status.OK, x) | _ => (Status.NotFound [] [], value) end, db)) as Ha.
  { intros [[[? []] ?] ?]; done. }
  destruct (newest C k s mus) as [a|]; cbn [fmap option_fmap option_map]; [by rewrite Ha; exists db|]. rewrite newest_app by done.
  assert ((match imm_ db with Some imm => MemTable.Get (C := C) imm lk | None => Ret None end) = Ret (answer <$> newest C k s imus)) as ->.
  { unfold imm_holds in Hi. destruct (imm_ db) as [imm|]; [|by rewrite Hi]. destruct Hi as (ies & Him & Hip). by apply (Get_newest C imm ies imus k s lk). }
  cbn [mbind result_bind]. destruct (newest C k s imus) as [a|]; cbn [fmap option_fmap option_map]; [by rewrite Ha; exists db|].
  destruct (Get_newest_version C contents (current_ db) (table_cache_ db) k s lk value Hv Hk Hs Elk) as (stats & tc & -> & Hkeep).
  cbn [mbind result_bind]. destruct (UpdateStats_ok C contents _ _ _ stats Hv Hkeep) as [Hv' Eu]. destruct (Version.UpdateStats (current_ db) stats) as [v compact].
  cbn [fst] in Hv', Eu. exists (set_current db v tc (scheduled_ db || compact)). split; [|split; [|done]].
  - fold (version_updates (current_ db)). by destruct (answer <$> _) as [[x|x]|].
  - destruct Hdb. unfold version_updates in *. split; cbn [mem_ imm_ current_ table_cache_ set_current] in *; unfold version_updates; rewrite ?Eu; try done; by exists mes.
Qed.

End reads.

(** ** Iterators *)

(** What [NewIterator] of the table cache promises. *)
Class TableCacheIterators {T D : Type} {C : Comparator} {TC : TableCache T D} (TL : TableCacheLaws C TC) {ITD : Iterator D} (LD : IteratorLaws ITD) := {
  tc_iter t n size es : tc_holds t n size es ->
    exists d t' p, tc_NewIterator t n size = Ret (d, t') /\
      it_at (IteratorLaws := either_laws (LA := empty_laws) (LB := LD)) d es p /\ (forall n size es, tc_holds t n size es -> tc_holds t' n size es)
}.

Section iterators.
Context {T D : Type} (C : Comparator) {HC : ComparatorLaws C} {TC : TableCache T D} {TL : TableCacheLaws C TC} {ITD : Iterator D}.
Context {LD : IteratorLaws ITD} {SD : SeekLaws (internal_comparator C) LD} {TI : TableCacheIterators TL LD}.
Context (contents : Z -> list update).
Implicit Types (db : DBRead.DBImpl T) (us mus imus : list update) (f : FileMetaData).

Abbreviation icmp := (internal_comparator C).
Abbreviation holds f := (contents (number f)).
Abbreviation entries us := (map update_entry us).

#[local] Instance table_laws : IteratorLaws (either_iterator (A := EmptyIterator.EmptyIterator) (B := D)) := either_laws (LA := empty_laws) (LB := LD).

#[local] Instance table_seek : SeekLaws icmp table_laws.
Proof.
  split. intros [e|d] es i target Hat Hs; cbn in Hat.
  - destruct Hat as (Hst & -> & ->). by exists (inl e).
  - destruct (at_seek (SeekLaws := SD) d es i target Hat Hs) as (d' & Hr & Hat'). exists (inr d'). split; [|done]. cbn. by rewrite Hr.
Qed.

(** The values of [LevelFileNumIterator] stand for the tables of the files. *)
#[local] Program Instance file_block_laws : BlockFunctionLaws table_laws (file_block_function (T := T) (D := D)) := {
  denotes a h es := exists n size, 0 <= n < 2 ^ 64 /\ 0 <= size < 2 ^ 64 /\ h = EncodeFixed64 n ++ EncodeFixed64 size /\ tc_holds (fa_cache a) n size es
}.
Next Obligation.
  intros a h es (n & size & Hn & Hs & -> & Hh). destruct (tc_iter (fa_cache a) n size es Hh) as (d & t' & p & Hr & Hat & Hkeep).
  exists d, (mkFileArg t' (fa_files a)), p. split; [|split; [done|split; [done|]]].
  - cbn [block_function file_block_function]. unfold GetFileIterator. replace (str_size (EncodeFixed64 n ++ EncodeFixed64 size)) with 16.
    + rewrite Z.eqb_refl. cbn [negb]. rewrite (drop_app_length' _ _ 8) by (by rewrite EncodeFixed64_length).
      rewrite DecodeFixed64_Encode, <- (app_nil_r (EncodeFixed64 size)), DecodeFixed64_Encode, !wrap_small, Hr by done. done.
    + unfold str_size. rewrite length_app, !EncodeFixed64_length. done.
  - intros h' es' (n' & size' & ? & ? & ? & ?). exists n', size'. split; [done|]. split; [done|]. split; [done|]. by apply Hkeep.
Qed.

(** The contents a value stands for. *)
Definition file_block (h : str) : list entry := entries (contents (DecodeFixed64 h)).

Lemma file_block_entry f : 0 <= number f < 2 ^ 64 -> block_of file_block (level_entry f) = entries (holds f).
Proof. intros Hn. unfold block_of, file_block, level_entry. cbn [snd]. by rewrite DecodeFixed64_Encode, wrap_small. Qed.

Lemma file_range tc fs : Forall (file_ok C contents tc) fs -> Forall (fun f => 0 <= number f < 2 ^ 64 /\ 0 <= file_size f < 2 ^ 64) fs.
Proof. intros H. eapply Forall_impl; [exact H|]. intros f []. done. Qed.

Lemma all_files tc fs : Forall (file_ok C contents tc) fs -> all_of file_block (map level_entry fs) = entries (level_updates contents fs).
Proof.
  intros Hfs%file_range. unfold all_of, level_updates. rewrite map_map, concat_map, map_map. f_equal. apply map_ext_in. intros f Hf.
  apply file_block_entry. rewrite Forall_forall in Hfs. apply Hfs. by apply list_elem_of_In.
Qed.

(** A file's largest key is not before its keys and before those of the files behind. *)
Lemma files_separated tc fs : Forall (file_ok C contents tc) fs -> ordered C (level_updates contents fs) ->
  separated (C := icmp) file_block (map level_entry fs).
Proof.
  intros Hfs Ho j e He. apply list_lookup_fmap_Some in He as (f & -> & Hf). rewrite Forall_lookup in Hfs. pose proof (Hfs j f Hf) as Hok.
  assert (forall g, 0 <= number g < 2 ^ 64 -> forall x, x ∈ block_of file_block (level_entry g) -> exists b, x = update_entry b /\ b ∈ holds g) as Hblk.
  { intros g Hg x. rewrite file_block_entry by done. intros Hx. apply list_elem_of_fmap in Hx as (b & -> & Hb). by exists b. }
  split.
  - intros x Hx. apply Hblk in Hx as (b & -> & Hb); [|apply Hok]. cbn [level_entry fst]. destruct Hok as [Hof _ _ (a & Ha & ->) _].
    apply list_elem_of_lookup in Hb as [i Hb]. rewrite last_lookup in Ha. pose proof (lookup_lt_Some _ _ _ Hb).
    destruct (decide (i = pred (length (holds f)))) as [->|]; [rewrite Hb in Ha; injection Ha as ->; by rewrite (cmp_refl (C := icmp))|].
    rewrite (sorted_lt (C := icmp) (entries (holds f)) i (pred (length (holds f))) (update_entry b) (update_entry a)); [done|apply Hof|by rewrite list_lookup_fmap, Hb|by rewrite list_lookup_fmap, Ha|lia].
  - intros j' e' x Hj He' Hx. apply list_lookup_fmap_Some in He' as (g & -> & Hg). pose proof (Hfs j' g Hg) as Hokg. apply Hblk in Hx as (b & -> & Hb); [|apply Hokg].
    cbn [level_entry fst]. destruct Hok as [_ _ _ (a & Ha & ->) _].
    assert (level_updates contents fs = level_updates contents (take (S j) fs) ++ level_updates contents (drop (S j) fs)) as Es.
    { unfold level_updates. by rewrite <- concat_app, <- map_app, take_drop. }
    rewrite Es in Ho. apply (ordered_app_lt C _ _ _ _ Ho); apply elem_level_updates.
    + exists f. split; [|by apply last_elem]. apply (list_elem_of_lookup_2 _ j). by rewrite lookup_take_lt by lia.
    + exists g. split; [|done]. apply (list_elem_of_lookup_2 _ (j' - S j)). rewrite lookup_drop. rewrite <- Hg. f_equal. lia.
Qed.

#[local] Instance level_laws : IteratorLaws (TwoLevelIterator.TwoLevelIterator_ops (I := LevelFileNumIterator) (D := (EmptyIterator.EmptyIterator + D)%type) (A := FileArg T)) :=
  sorted_two_laws (C := icmp) (LI := LevelFileNumIterator_laws C) (LD := table_laws).

Lemma NewConcatenatingIterator_at tc fs : Forall (file_ok C contents tc) fs -> ordered C (level_updates contents fs) -> Z.of_nat (length fs) < 2 ^ 31 ->
  exists it p, NewConcatenatingIterator (C := C) fs tc = Ret it /\ it_at (IteratorLaws := level_laws) it (entries (level_updates contents fs)) p.
Proof.
  intros Hfs Ho Hlen. destruct (make_at (LI := LevelFileNumIterator_laws C) (BL := file_block_laws) file_block (map level_entry fs) (NewLevelFileNumIterator fs) (mkFileArg tc (2 + length fs)) (length (entries (level_updates contents fs)))) as (it & Hr & Hat).
  - split; [done|]. cbn [index_ flist_ NewLevelFileNumIterator]. rewrite wrap_small, length_map by lia. done.
  - by rewrite (all_files tc).
  - intros e He. apply list_elem_of_fmap in He as (f & -> & Hf). rewrite Forall_forall in Hfs. destruct (Hfs f Hf) as [_ Hh _ _ [Hn Hs]].
    exists (number f), (file_size f). split; [done|]. split; [done|]. split; [done|]. by rewrite file_block_entry.
  - cbn [block_fuel file_block_function fa_files]. rewrite length_map. lia.
  - exists it, (length (entries (level_updates contents fs))). split; [done|]. exists file_block, (map level_entry fs). split; [by rewrite (all_files tc)|]. split; [done|].
    split; [by apply (level_sorted C contents tc)|by apply (files_separated tc)].
Qed.

(** *** The children *)

Abbreviation at_children L its cs := (Forall2 (fun it c => it_at (IteratorLaws := L) it (fst c) (snd c)) its cs).

(** [cs] are sorted and hold the updates [us] together. *)
Definition parts_of us (cs : list (list entry * nat)) : Prop :=
  Forall (keys_sorted (C := icmp)) (map fst cs) /\ concat (map fst cs) ≡ₚ entries us.

Lemma parts_cons us1 us2 es p cs : keys_sorted (C := icmp) es -> es ≡ₚ entries us1 -> parts_of us2 cs -> parts_of (us1 ++ us2) ((es, p) :: cs).
Proof. intros Hs Hp [Hss Hps]. split; cbn [map fst concat]; [by constructor|]. by rewrite map_app, Hp, Hps. Qed.

Lemma parts_app us1 us2 cs1 cs2 : parts_of us1 cs1 -> parts_of us2 cs2 -> parts_of (us1 ++ us2) (cs1 ++ cs2).
Proof. intros [H1 P1] [H2 P2]. split; [rewrite map_app; by apply Forall_app|]. by rewrite !map_app, concat_app, P1, P2. Qed.

Lemma parts_nil : parts_of [] [].
Proof. by split. Qed.

Lemma table_iterators_at fs : forall tc, Forall (file_ok C contents tc) fs ->
  exists its tc' cs, table_iterators tc fs = Ret (its, tc') /\ at_children table_laws its cs /\ parts_of (level_updates contents fs) cs /\
    (forall f, file_ok C contents tc f -> file_ok C contents tc' f).
Proof.
  induction fs as [|f fs IH]; intros tc Hfs; cbn [table_iterators]; [exists [], tc, []; split; [done|]; split; [constructor|]; by split; [apply parts_nil|]|].
  apply Forall_cons_1 in Hfs as [Hf Hfs]. pose proof Hf as [Ho Hh _ _ _].
  destruct (tc_iter tc (number f) (file_size f) _ Hh) as (d & tc1 & p & -> & Hat & Hkeep). cbn [mbind result_bind].
  assert (forall g, file_ok C contents tc g -> file_ok C contents tc1 g) as Hk1 by (intros g []; split; try done; by apply Hkeep).
  destruct (IH tc1) as (its & tc2 & cs & -> & Hats & Hparts & Hk2); [by eapply Forall_impl|]. cbn [mbind result_bind].
  exists (d :: its), tc2, ((entries (holds f), p) :: cs). split; [done|]. split; [by constructor|]. split; [|intros g Hg; by apply Hk2, Hk1].
  apply parts_cons; [apply Ho|done|done].
Qed.

Lemma level_iterators_at tc levels :
  Forall (fun fs => Forall (file_ok C contents tc) fs /\ ordered C (level_updates contents fs) /\ Z.of_nat (length fs) < 2 ^ 31) levels ->
  exists its cs, level_iterators (C := C) tc levels = Ret its /\ at_children level_laws its cs /\ parts_of (level_updates contents (concat levels)) cs.
Proof.
  induction 1 as [|fs levels (Hfs & Ho & Hlen) Hl IH]; [exists [], []; split; [done|]; split; [constructor|apply parts_nil]|].
  destruct IH as (its & cs & Hr & Hats & Hparts). destruct fs as [|f0 fs0] eqn:Efs; [by exists its, cs|]. rewrite <- Efs in *.
  replace (level_iterators tc (fs :: levels)) with (it ← NewConcatenatingIterator (C := C) (D := D) fs tc; its ← level_iterators (C := C) tc levels; Ret (it :: its)) by (by rewrite Efs).
  destruct (NewConcatenatingIterator_at tc fs Hfs Ho Hlen) as (it & p & -> & Hat). cbn [mbind result_bind]. rewrite Hr. cbn [mbind result_bind].
  exists (it :: its), ((entries (level_updates contents fs), p) :: cs). split; [done|]. split; [by constructor|]. cbn [concat].
  unfold level_updates at 1. rewrite map_app, concat_app. apply parts_cons; [apply Ho|done|done].
Qed.

#[local] Instance child_laws : IteratorLaws (either_iterator (A := (EmptyIterator.EmptyIterator + D)%type)
    (B := TwoLevelIterator.TwoLevelIterator LevelFileNumIterator (EmptyIterator.EmptyIterator + D) (FileArg T))) :=
  either_laws (LA := table_laws) (LB := level_laws).

Lemma AddIterators_at tc v : version_ok C contents tc v ->
  exists its tc' cs, AddIterators (C := C) v tc = Ret (its, tc') /\ at_children child_laws its cs /\ parts_of (version_updates contents v) cs /\
    version_ok C contents tc' v.
Proof.
  intros Hv. pose proof (vo_levels _ _ _ _ Hv) as Hlen. pose proof (vo_files _ _ _ _ Hv) as Hfs. unfold AddIterators, version_updates.
  destruct (Version.files_ v) as [|fs0 levels] eqn:Ev; [done|]. cbn [concat] in Hfs |- *. apply Forall_app in Hfs as [H0 Hl].
  destruct (table_iterators_at fs0 tc H0) as (its & tc' & cs & -> & Hats & Hparts & Hkeep). cbn [mbind result_bind].
  destruct (level_iterators_at tc' levels) as (lits & lcs & -> & Hlats & Hlparts).
  { apply Forall_lookup. intros i fs Hi. split; [|apply (vo_sorted _ _ _ _ Hv i); by rewrite Ev]. apply Forall_forall. intros f Hf. apply Hkeep.
    rewrite Forall_forall in Hl. apply Hl. apply list_elem_of_In, in_concat. exists fs. split; apply list_elem_of_In; [by eapply list_elem_of_lookup_2|done]. }
  cbn [mbind result_bind]. eexists _, tc', (cs ++ lcs). split; [done|]. split; [|split].
  - apply Forall2_app; [apply Forall2_fmap_l|apply Forall2_fmap_l]; done.
  - unfold level_updates. rewrite map_app, concat_app. by apply parts_app.
  - destruct Hv as [? Hf ? ? ? ? ?]. split; try done. eapply Forall_impl; [exact Hf|done].
Qed.

(** *** All updates in order *)

Lemma FOP_perm us us' : ForallOrdPairs (distinct C) us -> us ≡ₚ us' -> NoDup us -> ForallOrdPairs (distinct C) us'.
Proof.
  intros Hd Hp Hnd. rewrite Hp in Hnd. assert (forall a b, a ∈ us' -> b ∈ us' -> a <> b -> distinct C a b) as Hab.
  { intros a b Ha Hb Hne E. rewrite <- Hp in Ha, Hb. by destruct (distinct_pair C us a b Hd Ha Hb E). }
  clear Hd Hp. induction us' as [|a us' IH]; [constructor|]. apply NoDup_cons in Hnd as [Hni Hnd]. constructor.
  - apply List.Forall_forall. intros b Hb. apply list_elem_of_In in Hb. apply Hab; [by left|by right|]. intros ->. done.
  - apply IH; [done|]. intros x y Hx Hy. apply Hab; by right.
Qed.

Lemma FOP_NoDup us : ForallOrdPairs (distinct C) us -> NoDup us.
Proof.
  induction 1 as [|a us Hf Hr IH]; [constructor|]. constructor; [|done]. intros Ha%list_elem_of_In. rewrite List.Forall_forall in Hf.
  apply (Hf a Ha); [apply cmp_refl|done].
Qed.

Definition entry_le (a b : update) : Prop := Compare (Comparator := icmp) (fst (update_entry a)) (fst (update_entry b)) <> Gt.
#[local] Instance entry_le_dec a b : Decision (entry_le a b).
Proof. unfold entry_le. destruct (Compare _ _); [left|left|right]; try done. intros H. by apply H. Defined.
#[local] Instance entry_le_total : Total entry_le.
Proof.
  intros a b. unfold entry_le. pose proof (cmp_antisym (C := icmp) (fst (update_entry b)) (fst (update_entry a))) as H.
  destruct (Compare (Comparator := icmp) (fst (update_entry a)) (fst (update_entry b))); [by left|by left|]. right. by rewrite <- (CompOpp_involutive (Compare _ _)), <- H.
Qed.
#[local] Instance entry_le_trans : Transitive entry_le.
Proof.
  intros a b c. unfold entry_le. intros Hab Hbc. destruct (Compare (Comparator := icmp) (fst (update_entry a)) (fst (update_entry b))) eqn:E; [by rewrite (cmp_eq_l (C := icmp) _ _ _ E)| |done].
  destruct (Compare (Comparator := icmp) (fst (update_entry b)) (fst (update_entry c))) eqn:E'; [by rewrite <- (cmp_eq_r (C := icmp) _ _ _ E'), E|by rewrite (cmp_trans (C := icmp) _ _ _ E E')|done].
Qed.

(** Updates that differ can be put in the order of their internal keys. *)
Lemma sorted_updates us : Forall update_ok us -> ForallOrdPairs (distinct C) us -> exists us', us' ≡ₚ us /\ ordered C us'.
Proof.
  intros Hok Hd. exists (merge_sort entry_le us). pose proof (merge_sort_Permutation entry_le us) as Hp. split; [done|].
  assert (Forall update_ok (merge_sort entry_le us)) as Hok' by (by rewrite Hp). split; [done|].
  assert (ForallOrdPairs (distinct C) (merge_sort entry_le us)) as Hd' by (apply (FOP_perm us); [done|by symmetry|by apply FOP_NoDup]).
  pose proof (StronglySorted_merge_sort entry_le us) as Hs. clear Hp. induction Hs as [|a l Hs IH Hf]; [constructor|]. cbn [map].
  apply Forall_cons_1 in Hok' as [Ha Hl]. inversion Hd' as [|? ? Hda Hdl]; subst. constructor; [by apply IH|]. apply Forall_map, Forall_forall.
  intros b Hb. rewrite Forall_forall in Hf, Hl. specialize (Hf b Hb). unfold entry_le in Hf. rewrite List.Forall_forall in Hda.
  pose proof (distinct_entries C a b Ha (Hl b Hb) (Hda b (proj1 (list_elem_of_In _ _) Hb))). by destruct (Compare _ _).
Qed.

(** *** The whole database *)

#[local] Instance db_child_laws : IteratorLaws (either_iterator (A := MemTable.MemTableIterator) (B := ((EmptyIterator.EmptyIterator + D) +
    TwoLevelIterator.TwoLevelIterator LevelFileNumIterator (EmptyIterator.EmptyIterator + D) (FileArg T))%type)) :=
  either_laws (LA := MemTableIterator_laws C) (LB := child_laws).

#[local] Instance db_child_seek : SeekOn mem_target icmp db_child_laws.
Proof.
  unfold db_child_laws, child_laws, level_laws. apply either_seek; [by apply MemTableIterator_seek|]. apply either_seek; apply SeekLaws_on.
Qed.

#[local] Instance db_merged_laws : IteratorLaws (DBRead.InternalIterator_ops (T := T) (D := D) (C := C)) :=
  merged_laws (IL := db_child_laws) (C := icmp) mem_target.

Lemma mem_child m us : mem_holds C m us -> exists es p, it_at (IteratorLaws := MemTableIterator_laws C) (MemTable.NewIterator m) es p /\
  keys_sorted (C := icmp) es /\ es ≡ₚ entries us.
Proof. intros (es & Hr & Hp). exists es, (length es). split; [by apply NewIterator_mem|]. split; [by apply (mem_sorted C m)|done]. Qed.

Lemma NewInternalIterator_at db mus imus us : db_ok C contents db mus imus -> ordered C us -> us ≡ₚ mus ++ imus ++ version_updates contents (DBRead.current_ db) ->
  exists m n seed db', DBRead.NewInternalIterator (C := C) db = Ret (m, DBRead.last_sequence_ db, seed, db') /\
    it_at (IteratorLaws := db_merged_laws) m (entries us) n /\ db_ok C contents db' mus imus /\ DBRead.current_ db' = DBRead.current_ db.
Proof.
  intros Hdb Ho Hp. pose proof Hdb as [Hm Hi Hv Hok Hd Hn1 Hn2]. unfold DBRead.NewInternalIterator.
  destruct (AddIterators_at _ _ Hv) as (its & tc & cs & -> & Hats & Hparts & Hv'). cbn [mbind result_bind].
  destruct (mem_child _ _ Hm) as (mes & mp & Hmat & Hms & Hmp).
  set (mems := MemTable.NewIterator (DBRead.mem_ db) :: match DBRead.imm_ db with Some imm => [MemTable.NewIterator imm] | None => [] end).
  assert (exists mcs, at_children (MemTableIterator_laws C) mems mcs /\ parts_of (mus ++ imus) mcs) as (mcs & Hmats & Hmparts).
  { unfold imm_holds in Hi. unfold mems. destruct (DBRead.imm_ db) as [imm|].
    - destruct (mem_child _ _ Hi) as (ies & ip & Hiat & His & Hip). exists [(mes, mp); (ies, ip)]. split; [apply Forall2_cons; split; [done|]; apply Forall2_cons; split; [done|apply Forall2_nil_2]|].
      apply parts_cons; [done|done|]. rewrite <- (app_nil_r imus). apply parts_cons; [done|done|apply parts_nil].
    - exists [(mes, mp)]. split; [apply Forall2_cons; split; [done|apply Forall2_nil_2]|]. rewrite Hi. apply parts_cons; [done|done|apply parts_nil]. }
  destruct (NewMergingIterator_at (C := icmp) (IL := db_child_laws) mem_target (map inl mems ++ map inr its) (mcs ++ cs) (entries us)) as (m & n & Hr & Hat).
  - apply Forall2_app; apply Forall2_fmap_l; done.
  - destruct (parts_app _ _ _ _ Hmparts Hparts) as [Hs Hc]. split; [apply Ho|done|]. by rewrite Hc, Hp, app_assoc.
  - apply Forall_map. eapply Forall_impl; [apply (or_ok _ _ Ho)|]. intros [[[s t] k] v] (_ & Hk & _). cbn [update_entry fst]. unfold mem_target. rewrite key_size.
    pose proof (str_size_nonneg k). lia.
  - rewrite Hr. cbn [mbind result_bind]. eexists m, n, _, _. split; [done|]. split; [done|]. split; [by split|done].
Qed.

(** C9: A lookup answers with the newest update of the key that the snapshot (or the
    last sequence number) sees, in the memtable, the immutable memtable or any table of
    the current version: its value with an OK status, or NotFound when that update is a
    deletion or there is none.  It leaves the database as it was but for the statistics
    and the table cache, so that later lookups answer the same. *)
Theorem db_get_newest db mus imus snapshot k value :
  db_ok C contents db mus imus -> str_size k + 13 < 2 ^ 32 -> 0 <= DBRead.read_sequence db snapshot <= kMaxSequenceNumber ->
  exists db', DBRead.Get (C := C) (TC := TC) db snapshot k value =
    Ret (match answer <$> newest C k (DBRead.read_sequence db snapshot) (mus ++ imus ++ version_updates contents (DBRead.current_ db)) with
         | Some (inl x) => (Status.OK, x)
         | _ => (Status.NotFound [] [], value)
         end, db') /\
    db_ok C contents db' mus imus /\ version_updates contents (DBRead.current_ db') = version_updates contents (DBRead.current_ db) /\
    DBRead.last_sequence_ db' = DBRead.last_sequence_ db.
Proof. intros Hdb Hk Hs. by apply Get_ok. Qed.

(** C10: An iterator of the database shows, in key order and in both directions, exactly
    the keys that [Get] finds at the same snapshot, with the same values, whatever
    memtable, level or table they come from. *)
Theorem db_iterator_matches_get db mus imus snapshot turns :
  db_ok C contents db mus imus -> 0 <= DBRead.read_sequence db snapshot <= kMaxSequenceNumber ->
  (length (mus ++ imus ++ version_updates contents (DBRead.current_ db)) < turns)%nat ->
  let ops := DBRead.DBIterator_ops (T := T) (D := D) (C := C) turns in
  exists it vs, DBRead.NewIterator (C := C) db snapshot = Ret it /\ keys_sorted vs /\
    (exists it', scan_all (IT := ops) turns it = Ret (vs, it') /\ it_status (Iterator := ops) it' = Status.OK) /\
    (it ← it_SeekToLast (Iterator := ops) it; scan_back (IT := ops) turns it) = Ret (rev vs) /\
    (forall k v, str_size k + 13 < 2 ^ 32 ->
       (exists k', (k', v) ∈ vs /\ Compare k' k = Eq) <-> exists db', DBRead.Get (C := C) (TC := TC) db snapshot k [] = Ret (Status.OK, v, db')).
Proof.
  intros Hdb HQ Ht ops. set (Q := DBRead.read_sequence db snapshot) in *. pose proof Hdb as [_ _ _ Hok Hd _ _].
  destruct (sorted_updates _ Hok Hd) as (us & Hp & Ho). destruct (NewInternalIterator_at db mus imus us Hdb Ho Hp) as (m & n & seed & db1 & Hr & Hat & _).
  assert (length us < turns)%nat as Ht' by (by rewrite Hp).
  exists (DBIter.make db1 m Q seed), (view C Q us). split; [|split; [by apply view_sorted|]].
  { unfold DBRead.NewIterator. rewrite Hr. done. }
  destruct (db_iter_scans (RS := DBRead.db_sampler (T := T) (C := C)) (IL := db_merged_laws) C turns us m n db1 Q seed turns Ho Ht' Hat HQ ltac:(lia)) as [Hscan Hback].
  split; [exact Hscan|split; [exact Hback|]].
  - intros k v Hk. rewrite view_newest by done. destruct (Get_ok C contents db mus imus snapshot k [] Hdb Hk HQ) as (db' & -> & _). fold Q.
    rewrite (newest_same C us (mus ++ imus ++ version_updates contents (DBRead.current_ db)) k Q Hd) by (intros a; by rewrite Hp).
    destruct (answer <$> _) as [[x|x]|]; split; try (by intros [? [=]]); try done; [intros [= ->]; by eexists|].
    intros (db2 & [= -> _]). done.
Qed.

End iterators.

(** ** Witness: a database with two memtables and four tables *)

(** An iterator over a list. *)
Record ListIterator := mkListIter { li_entries : list entry; li_pos : nat }.

#[export] Instance list_iterator : Iterator ListIterator := {
  it_Valid it := (li_pos it <? length (li_entries it))%nat;
  it_key it := match li_entries it !! li_pos it with Some e => Ret (fst e) | None => Crash AssertFailed end;
  it_value it := match li_entries it !! li_pos it with Some e => Ret (snd e) | None => Crash AssertFailed end;
  it_status _ := Status.OK;
  it_SeekToFirst it := Ret (mkListIter (li_entries it) 0);
  it_SeekToLast it := Ret (mkListIter (li_entries it) (length (li_entries it) - 1));
  it_Seek it target := Ret (mkListIter (li_entries it) (seek_pos (C := internal_comparator BytewiseComparator) target (li_entries it)));
  it_Next it := Ret (mkListIter (li_entries it) (S (li_pos it)));
  it_Prev it := Ret (mkListIter (li_entries it) (match li_pos it with O => length (li_entries it) | S j => j end))
}.

Definition list_at (it : ListIterator) (es : list entry) (i : nat) : Prop := it = mkListIter es i /\ (i <= length es)%nat.

#[export] Program Instance list_laws : IteratorLaws list_iterator := { it_at := list_at }.
Next Obligation. by intros it es i [-> ?]. Qed.
Next Obligation. by intros it es i [-> ?]. Qed.
Next Obligation. intros it es i k v [-> ?] He. cbn. by rewrite He. Qed.
Next Obligation. done. Qed.
Next Obligation. intros it es i [-> ?]. eexists. split; [done|]. split; [done|lia]. Qed.
Next Obligation. intros it es i [-> ?]. eexists. split; [done|]. split; [done|lia]. Qed.
Next Obligation. intros it es i [-> ?] ?. eexists. split; [done|]. split; [done|lia]. Qed.
Next Obligation. intros it es i [-> ?] ?. eexists. split; [done|]. split; [done|]. destruct i; lia. Qed.

#[export] Instance list_seek : SeekLaws (internal_comparator BytewiseComparator) list_laws.
Proof. split. intros it es i target [-> _] _. eexists. split; [done|]. split; [done|apply seek_pos_le]. Qed.

(** Tables in memory, by their numbers. *)
Abbreviation tables := (Z -> list entry).

#[export] Instance memory_tables : TableCache tables ListIterator := {
  tc_Get t n _ ikey := Ret (Status.OK, t n !! seek_pos (C := internal_comparator BytewiseComparator) ikey (t n), t);
  tc_NewIterator t n _ := Ret (inr (mkListIter (t n) (length (t n))), t);
  tc_Evict t _ := t
}.

#[export] Program Instance memory_tables_laws : TableCacheLaws BytewiseComparator memory_tables := { tc_holds t n _ es := t n = es }.
Next Obligation. intros t n size es ikey <- _. eexists _, t. split; [done|]. split; [done|]. split; [by right|]. by intros e -> _. Qed.

#[export] Instance memory_tables_iterators : TableCacheIterators memory_tables_laws list_laws.
Proof. split. intros t n size es <-. eexists _, t, (length (t n)). split; [done|]. split; [|done]. by split. Qed.

Lemma mem_holds_adds (C : Comparator) {HC : ComparatorLaws C} us m : Forall update_ok us -> ForallOrdPairs (distinct C) us ->
  foldR (add_update C) MemTable.make us = Ret m -> mem_holds C m us.
Proof.
  intros Hok Hd Hm. destruct (adds_rep C us MemTable.make [] (mem_make C) Hok) as (m' & es & Hm' & Hrep & Hp); [apply Forall_forall; constructor|done|].
  rewrite Hm in Hm'. injection Hm' as <-. exists es. split; [done|]. by rewrite app_nil_r in Hp.
Qed.

Definition demo_mus : list update := [(10, kTypeDeletion, $"pear", []); (9, kTypeValue, $"fig", $"new")].
Definition demo_imus : list update := [(8, kTypeValue, $"apple", $"gold")].
Definition demo_contents (n : Z) : list update :=
  if n =? 4 then [(7, kTypeDeletion, $"apple", []); (6, kTypeValue, $"pear", $"ripe")]
  else if n =? 3 then [(5, kTypeValue, $"apple", $"red")]
  else if n =? 2 then [(3, kTypeValue, $"apple", $"sour")]
  else if n =? 1 then [(2, kTypeValue, $"pear", $"green"); (1, kTypeValue, $"plum", $"blue")]
  else [].
Definition demo_file (n : Z) : FileMetaData :=
  let key a := fst (update_entry a) in
  mkMeta 1 100 n 40 (default [] (key <$> head (demo_contents n))) (default [] (key <$> last (demo_contents n))).
Definition demo_version : Version.Version :=
  Version.mkVersion [[demo_file 3; demo_file 4]; [demo_file 2; demo_file 1]; []; []; []; []; []] None (-1).
Definition demo_memtable (us : list update) : MemTable.MemTable :=
  match foldR (add_update BytewiseComparator) MemTable.make us with Ret m => m | _ => MemTable.make end.
Definition demo_db : DBRead.DBImpl tables :=
  DBRead.mkDB (demo_memtable demo_mus) (Some (demo_memtable demo_imus)) demo_version (fun n => map update_entry (demo_contents n)) 10
    SnapshotList.make 0 false.

Ltac elems := repeat match goal with
  | H : _ ∈ _ :: _ |- _ => apply elem_of_cons in H as [->|H]
  | H : _ ∈ [] |- _ => by apply elem_of_nil in H
  end.

Lemma demo_file_ok n : 1 <= n <= 4 -> file_ok BytewiseComparator demo_contents (fun n => map update_entry (demo_contents n)) (demo_file n).
Proof.
  intros Hn. assert (n = 1 \/ n = 2 \/ n = 3 \/ n = 4) as [->|[->|[->| ->]]] by lia;
    (split; [split; repeat constructor; vm_compute; done || discriminate|done|by eexists|by eexists|done]).
Qed.

Lemma demo_version_ok : version_ok BytewiseComparator demo_contents (fun n => map update_entry (demo_contents n)) demo_version.
Proof.
  split.
  - done.
  - apply Forall_forall. intros f Hf. cbn [concat demo_version Version.files_ app] in Hf. elems; by apply demo_file_ok.
  - intros fs [= <-]. cbn. repeat constructor; set_solver.
  - intros fs f g [= <-] Hf Hg. elems; cbn [number demo_file]; try lia; intros _ a b Ha Hb; cbn in Ha, Hb; elems; done.
  - intros [|[|[|[|[|[|i]]]]]] fs [= <-]; (split; [split; repeat constructor; vm_compute; done || discriminate|done]).
  - intros i [|[|j]] fs gs Hij Hi Hj a b Ha Hb; [lia| |].
    + replace i with O in Hi by lia. injection Hi as <-. injection Hj as <-. cbn in Ha, Hb. elems; by vm_compute.
    + assert (gs = []) as -> by (destruct j as [|[|[|[|[|j]]]]]; by inversion Hj). by apply elem_of_nil in Hb.
  - repeat constructor; vm_compute; discriminate.
Qed.

Lemma demo_db_ok : db_ok BytewiseComparator demo_contents demo_db demo_mus demo_imus.
Proof.
  split.
  - apply (mem_holds_adds BytewiseComparator demo_mus); [repeat constructor; vm_compute; discriminate || done|repeat constructor; vm_compute; discriminate|by vm_compute].
  - apply (mem_holds_adds BytewiseComparator demo_imus); [repeat constructor; vm_compute; discriminate || done|repeat constructor|by vm_compute].
  - apply demo_version_ok.
  - repeat constructor; vm_compute; discriminate || done.
  - repeat constructor; vm_compute; discriminate.
  - intros a b Ha Hb; unfold demo_mus, demo_imus in Ha, Hb; cbn in Ha, Hb; elems; by vm_compute.
  - intros a b Ha Hb; unfold demo_mus, demo_imus in Ha, Hb; cbn in Ha, Hb; elems; by vm_compute.
Qed.

(** The deletion of 7 in the tables is hidden by the immutable memtable's update of 8. *)
Lemma db_get_newest_witness :
  exists db', DBRead.Get (C := BytewiseComparator) demo_db None ($"apple") [] = Ret (Status.OK, $"gold", db').
Proof.
  destruct (db_get_newest BytewiseComparator demo_contents demo_db demo_mus demo_imus None ($"apple") []) as (db' & H & _);
    [apply demo_db_ok|vm_compute; reflexivity|vm_compute; split; discriminate|].
  exists db'. rewrite H. vm_compute. reflexivity.
Defined.

(** At the snapshot 7 the tables are all there is, and apple is deleted. *)
Lemma db_iterator_matches_get_witness :
  let ops := DBRead.DBIterator_ops (T := tables) (D := ListIterator) (C := BytewiseComparator) 20 in
  exists it vs, DBRead.NewIterator (C := BytewiseComparator) demo_db (Some (SnapshotList.mkSnapshot 0 7)) = Ret it /\ keys_sorted vs /\
    (exists it', scan_all (IT := ops) 20 it = Ret (vs, it') /\ it_status (Iterator := ops) it' = Status.OK) /\
    (it ← it_SeekToLast (Iterator := ops) it; scan_back (IT := ops) 20 it) = Ret (rev vs) /\
    (forall k v, str_size k + 13 < 2 ^ 32 -> (exists k', (k', v) ∈ vs /\ Compare k' k = Eq) <->
       exists db', DBRead.Get (C := BytewiseComparator) demo_db (Some (SnapshotList.mkSnapshot 0 7)) k [] = Ret (Status.OK, v, db')).
Proof.
  apply (db_iterator_matches_get BytewiseComparator demo_contents demo_db demo_mus demo_imus (Some (SnapshotList.mkSnapshot 0 7)) 20);
    [apply demo_db_ok|vm_compute; split; discriminate|vm_compute; lia].
Defined.

Example demo_iterates :
  (it ← DBRead.NewIterator (C := BytewiseComparator) demo_db (Some (SnapshotList.mkSnapshot 0 7));
   q ← scan_all (IT := DBRead.DBIterator_ops (C := BytewiseComparator) 20) 20 it; Ret (fst q)) =
  Ret [($"pear", $"ripe"); ($"plum", $"blue")].
Proof. vm_compute. reflexivity. Qed.
