(* ===== verification/VersionSet.v ===== *)
(** * leveldb: the set of versions

    [class VersionSet] of [db/version_set.{h,cc}]: applying edits to a version
    ([VersionSet::Builder]), the descriptor log (MANIFEST), reading it back, file
    numbers and scores; with [SetCurrentFile] ([db/filename.cc]) and the file helpers of
    [util/env.cc].  Reference counts and the list of old versions manage memory and are
    not modelled; the mutex is given up only for the write of the log, during which no
    other edit is applied. *)

From Stdlib Require Import ZArith Lia SpecFloat.
From S2P Require Import Prelude CString World Coding SliceStatus FilterPolicy Logging DbFormat LogFile DbWrite VersionEdit Version.

(** ** Env *)

(** The calls of [Env] that the database uses.  An open file keeps what was appended to it
    until it is closed or dropped; opening a file gives the data it then has. *)
Class Env (E F : Type) := {
  env_NewWritableFile : E -> str -> E * Status.Status * option F;
  env_NewAppendableFile : E -> str -> E * Status.Status * option F;
  env_Close : E -> F -> E * Status.Status;
  env_NewSequentialFile : E -> str -> Status.Status * option str;
  env_GetFileSize : E -> str -> Status.Status * Z;
  env_RenameFile : E -> str -> str -> E * Status.Status;
  env_RemoveFile : E -> str -> E * Status.Status;
  env_GetChildren : E -> str -> Status.Status * list str;
  env_FileExists : E -> str -> bool;
  env_CreateDir : E -> str -> E * Status.Status;
  env_RemoveDir : E -> str -> E * Status.Status;
  env_LockFile : E -> str -> E * Status.Status;
  env_UnlockFile : E -> str -> E * Status.Status;
  env_NowMicros : E -> E * Z
}.

Section env.
Context {E F : Type} `{EN : !Env E F, WF : !WritableFile F, SyF : !SyncFile F}.

Definition DoWriteStringToFile (env : E) (data fname : str) (should_sync : bool) : E * Status.Status :=
  match env_NewWritableFile env fname with
  | (env, s, Some file) =>
      if negb (Status.ok s) then (env, s)
      else
        let '(file, s) := wf_Append file data in
        let '(file, s) := if Status.ok s && should_sync then wf_Sync file else (file, s) in
        let '(env, s) := if Status.ok s then env_Close env file else (env, s) in
        if Status.ok s then (env, s) else (fst (env_RemoveFile env fname), s)
  | (env, s, None) => (env, s)
  end.

Definition WriteStringToFileSync (env : E) (data fname : str) : E * Status.Status := DoWriteStringToFile env data fname true.

(** [ReadFileToString]: the blocks of 8192 bytes it reads are the data of the file. *)
Definition ReadFileToString (env : E) (fname : str) : Status.Status * str :=
  match env_NewSequentialFile env fname with
  | (s, Some data) => if Status.ok s then (Status.OK, data) else (s, [])
  | (s, None) => (s, [])
  end.

(** [Slice::starts_with] *)
Definition starts_with (s prefix : str) : bool := bool_decide (take (length prefix) s = prefix).

Definition SetCurrentFile (env : E) (dbname : str) (descriptor_number : Z) : result (E * Status.Status) :=
  manifest ← DescriptorFileName dbname descriptor_number;
  if negb (starts_with manifest (dbname ++ $"/")) then Crash AssertFailed
  else
    let contents := drop (length dbname + 1) manifest in
    tmp ← TempFileName dbname descriptor_number;
    let '(env, s) := WriteStringToFileSync env (contents ++ nl) tmp in
    let '(env, s) := if Status.ok s then env_RenameFile env tmp (CurrentFileName dbname) else (env, s) in
    Ret (if Status.ok s then (env, s) else (fst (env_RemoveFile env tmp), s)).
End env.

(** ** VersionSet::Builder *)

(** [v[i] = f(v[i])] on an array. *)
Definition vec_update {A} (v : list A) (i : Z) (f : A -> A) : result (list A) :=
  a ← vec_at v i; Ret (<[Z.to_nat i := f a]> v).

Module Builder.

Record LevelState := mkLevel { deleted_files : gset Z; added_files : list FileMetaData }.

Record Builder := mkBuilder { base_ : Version.Version; levels_ : list LevelState }.

Definition make (base : Version.Version) : Builder := mkBuilder base (replicate (Z.to_nat kNumLevels) (mkLevel ∅ [])).

Section ops.
Context `{C : !Comparator}.
Implicit Types (f g : FileMetaData) (b : Builder).

Definition BySmallestKey f1 f2 : bool :=
  match icompare (smallest f1) (smallest f2) with
  | Lt => true
  | Gt => false
  | Eq => number f1 <? number f2
  end.

(** [FileSet::insert]: a [std::set] in the order of [BySmallestKey]. *)
Fixpoint set_insert f (l : list FileMetaData) : list FileMetaData :=
  match l with
  | [] => [f]
  | g :: l' => if BySmallestKey f g then f :: l else if BySmallestKey g f then g :: set_insert f l' else l
  end.

(** [allowed_seeks] of a new file *)
Definition initial_seeks (file_size : Z) : Z :=
  let n := swrap 32 (file_size / 16384) in if n <? 100 then 100 else n.

Definition delete_file (levels : list LevelState) (d : Z * Z) : result (list LevelState) :=
  vec_update levels (fst d) (fun l => mkLevel ({[snd d]} ∪ deleted_files l) (added_files l)).

Definition add_file (levels : list LevelState) (p : Z * FileMetaData) : result (list LevelState) :=
  let f := snd p in
  let f := mkMeta 1 (initial_seeks (file_size f)) (number f) (file_size f) (smallest f) (largest f) in
  vec_update levels (fst p) (fun l => mkLevel (deleted_files l ∖ {[number f]}) (set_insert f (added_files l))).

(** [compact_pointer_[level] = key.Encode().ToString()], of a key that is not empty. *)
Definition set_pointer (pointers : list str) (p : Z * str) : result (list str) :=
  match snd p with [] => Crash AssertFailed | key => vec_update pointers (fst p) (fun _ => key) end.

(** [Apply]: [pointers] is [vset_->compact_pointer_]. *)
Definition Apply b (pointers : list str) (edit : VersionEdit) : result (Builder * list str) :=
  pointers ← foldR set_pointer pointers (compact_pointers_ edit);
  levels ← foldR delete_file (levels_ b) (deleted_files_ edit);
  levels ← foldR add_file levels (new_files_ edit);
  Ret (mkBuilder (base_ b) levels, pointers).

Definition MaybeAddFile (level : Z) (deleted : gset Z) (files : list FileMetaData) f : result (list FileMetaData) :=
  if bool_decide (number f ∈ deleted) then Ret files
  else
    match last files with
    | Some g =>
        if 0 <? level then
          match icompare (largest g) (smallest f) with Lt => Ret (files ++ [f]) | _ => Crash AssertFailed end
        else Ret (files ++ [f])
    | None => Ret (files ++ [f])
    end.

(** The files before the place [std::upper_bound] gives in the sorted base files. *)
Fixpoint smaller_files f (base : list FileMetaData) : list FileMetaData * list FileMetaData :=
  match base with
  | [] => ([], [])
  | g :: base' => if BySmallestKey f g then ([], base) else let '(l, r) := smaller_files f base' in (g :: l, r)
  end.

Fixpoint merge_files (level : Z) (deleted : gset Z) (files base added : list FileMetaData) : result (list FileMetaData) :=
  match added with
  | [] => foldR (MaybeAddFile level deleted) files base
  | f :: added =>
      let '(before, base) := smaller_files f base in
      files ← foldR (MaybeAddFile level deleted) files before;
      files ← MaybeAddFile level deleted files f;
      merge_files level deleted files base added
  end.

(** The check of the ranges behind [#ifndef NDEBUG]. *)
Fixpoint no_overlap (files : list FileMetaData) : bool :=
  match files with
  | f :: ((g :: _) as rest) => match icompare (largest f) (smallest g) with Lt => no_overlap rest | _ => false end
  | _ => true
  end.

Definition save_level (level : Z) (base : list FileMetaData) (l : LevelState) : result (list FileMetaData) :=
  files ← merge_files level (deleted_files l) [] base (added_files l);
  if (0 <? level) && negb (no_overlap files) then Crash Terminate else Ret files.

Fixpoint save_levels (level : Z) (base : list (list FileMetaData)) (ls : list LevelState) : result (list (list FileMetaData)) :=
  match base, ls with
  | b :: base, l :: ls => files ← save_level level b l; rest ← save_levels (level + 1) base ls; Ret (files :: rest)
  | [], [] => Ret []
  | _, _ => Crash OutOfBounds
  end.

(** [SaveTo] a new version *)
Definition SaveTo b : result Version.Version :=
  files ← save_levels 0 (Version.files_ (base_ b)) (levels_ b); Ret (Version.mkVersion files None (-1)).

End ops.
End Builder.

(** ** VersionSet *)

Module VersionSet.

Definition kL0_CompactionTrigger : Z := 4.

Definition times_10 (x : spec_float) : spec_float := SFmul 53 1024 x (double_of_int 10).

(** [while (level > 1)] *)
Definition MaxBytesForLevel (level : Z) : spec_float :=
  Nat.iter (Z.to_nat (level - 1)) times_10 (SFmul 53 1024 (double_of_int 10) (double_of_int 1048576)).

(** [compaction_score_] and [compaction_level_] are those of [current_]. *)
Record VersionSet (F : Type) := mkSet {
  dbname_ : str;
  next_file_number_ : Z;
  manifest_file_number_ : Z;
  last_sequence_ : Z;
  log_number_ : Z;
  prev_log_number_ : Z;
  descriptor_log_ : option (Writer.Writer F);
  current_ : Version.Version;
  compaction_score_ : spec_float;
  compaction_level_ : Z;
  compact_pointer_ : list str
}.
Arguments mkSet {F} _ _ _ _ _ _ _ _ _ _ _.
Arguments dbname_ {F} _.
Arguments next_file_number_ {F} _.
Arguments manifest_file_number_ {F} _.
Arguments last_sequence_ {F} _.
Arguments log_number_ {F} _.
Arguments prev_log_number_ {F} _.
Arguments descriptor_log_ {F} _.
Arguments current_ {F} _.
Arguments compaction_score_ {F} _.
Arguments compaction_level_ {F} _.
Arguments compact_pointer_ {F} _.

(** [VersionSet(...)]; the score of a version before [Finalize] is -1. *)
Definition make {F} (dbname : str) : VersionSet F :=
  mkSet dbname 2 0 0 0 0 None Version.make (SFopp (double_of_int 1)) (-1) (replicate (Z.to_nat kNumLevels) []).

Section ops.
Context {E F : Type} `{EN : !Env E F, WF : !WritableFile F, SyF : !SyncFile F, C : !Comparator}.
(** [icmp_.user_comparator()->Name()], [options_->reuse_logs] and
    [options_->max_file_size] *)
Context (comparator_name : str) (reuse_logs : bool) (max_file_size : Z).
Implicit Types (vs : VersionSet F) (v : Version.Version) (edit : VersionEdit).

Definition set_numbers vs (next last : Z) : VersionSet F :=
  mkSet (dbname_ vs) next (manifest_file_number_ vs) last (log_number_ vs) (prev_log_number_ vs) (descriptor_log_ vs) (current_ vs)
    (compaction_score_ vs) (compaction_level_ vs) (compact_pointer_ vs).

Definition NewFileNumber vs : Z * VersionSet F :=
  (next_file_number_ vs, set_numbers vs (u64 (next_file_number_ vs + 1)) (last_sequence_ vs)).

Definition ReuseFileNumber vs (file_number : Z) : VersionSet F :=
  if next_file_number_ vs =? u64 (file_number + 1) then set_numbers vs file_number (last_sequence_ vs) else vs.

Definition SetLastSequence vs (s : Z) : result (VersionSet F) :=
  if last_sequence_ vs <=? s then Ret (set_numbers vs (next_file_number_ vs) s) else Crash AssertFailed.

Definition MarkFileNumberUsed vs (number : Z) : VersionSet F :=
  if next_file_number_ vs <=? number then set_numbers vs (u64 (number + 1)) (last_sequence_ vs) else vs.

Definition NeedsCompaction vs : bool :=
  SFleb (double_of_int 1) (compaction_score_ vs) || match Version.file_to_compact_ (current_ vs) with Some _ => true | None => false end.

Definition NumLevelFiles vs (level : Z) : result Z :=
  if (0 <=? level) && (level <? kNumLevels) then files ← Version.level_files (current_ vs) level; Ret (swrap 32 (Z.of_nat (length files)))
  else Crash AssertFailed.

Definition NumLevelBytes vs (level : Z) : result Z :=
  if (0 <=? level) && (level <? kNumLevels) then files ← Version.level_files (current_ vs) level; Ret (TotalFileSize files)
  else Crash AssertFailed.

(** *** Finalize *)

Definition level_score (level : Z) (files : list FileMetaData) : spec_float :=
  if level =? 0 then SFdiv 53 1024 (double_of_int (Z.of_nat (length files))) (double_of_int kL0_CompactionTrigger)
  else SFdiv 53 1024 (double_of_int (u64 (TotalFileSize files))) (MaxBytesForLevel level).

Fixpoint best_level (level : Z) (levels : list (list FileMetaData)) (best : spec_float * Z) : spec_float * Z :=
  match levels with
  | [] => best
  | files :: levels =>
      let score := level_score level files in
      best_level (level + 1) levels (if SFltb (fst best) score then (score, level) else best)
  end.

Definition Finalize v : spec_float * Z :=
  best_level 0 (take (Z.to_nat (kNumLevels - 1)) (Version.files_ v)) (SFopp (double_of_int 1), -1).

(** *** WriteSnapshot *)

Definition snapshot_pointer (edit : VersionEdit) (p : Z * str) : VersionEdit :=
  match snd p with [] => edit | key => SetCompactPointer (fst p) key edit end.

Definition snapshot_file (level : Z) (edit : VersionEdit) (f : FileMetaData) : VersionEdit :=
  AddFile level (number f) (file_size f) (smallest f) (largest f) edit.

(** The levels from [level] on. *)
Fixpoint snapshot_files (level : Z) (levels : list (list FileMetaData)) (edit : VersionEdit) : VersionEdit :=
  match levels with
  | [] => edit
  | files :: levels => snapshot_files (level + 1) levels (foldl (snapshot_file level) edit files)
  end.

Fixpoint number_from {A} (level : Z) (l : list A) : list (Z * A) :=
  match l with [] => [] | a :: l => (level, a) :: number_from (level + 1) l end.

Definition snapshot_edit vs : VersionEdit :=
  let edit := SetComparatorName comparator_name VersionEdit.Clear in
  let edit := foldl snapshot_pointer edit (number_from 0 (compact_pointer_ vs)) in
  snapshot_files 0 (Version.files_ (current_ vs)) edit.

Definition WriteSnapshot vs (log : Writer.Writer F) : result (Writer.Writer F * Status.Status) :=
  record ← VersionEdit.EncodeTo (snapshot_edit vs) [];
  Writer.AddRecord log record.

(** *** LogAndApply *)

(** The log number and the previous one have to be given, or are the current ones. *)
Definition complete_edit vs edit : result VersionEdit :=
  edit ← (if has_log_number_ edit then
            if (log_number_ vs <=? VersionEdit.log_number_ edit) && (VersionEdit.log_number_ edit <? next_file_number_ vs)
            then Ret edit else Crash AssertFailed
          else Ret (SetLogNumber (log_number_ vs) edit));
  let edit := if has_prev_log_number_ edit then edit else SetPrevLogNumber (prev_log_number_ vs) edit in
  Ret (VersionEdit.SetLastSequence (last_sequence_ vs) (SetNextFile (next_file_number_ vs) edit)).

(** Opening the descriptor log if there is none: the log, the status and the name of
    the new file. *)
Definition open_descriptor vs (env : E) : result (E * option (Writer.Writer F) * Status.Status * option str) :=
  match descriptor_log_ vs with
  | Some log => Ret (env, Some log, Status.OK, None)
  | None =>
      name ← DescriptorFileName (dbname_ vs) (manifest_file_number_ vs);
      match env_NewWritableFile env name with
      | (env, s, Some file) =>
          if Status.ok s then
            q ← WriteSnapshot vs (Writer.make file);
            let '(log, s) := (q : Writer.Writer F * Status.Status) in
            Ret (env, Some log, s, Some name)
          else Ret (env, None, s, Some name)
      | (env, s, None) => Ret (env, None, s, Some name)
      end
  end.

(** [AddRecord] and [Sync]; the failure is written to the info log. *)
Definition log_edit (log : option (Writer.Writer F)) edit (s : Status.Status) : result (option (Writer.Writer F) * Status.Status) :=
  match log, Status.ok s with
  | Some log, true =>
      record ← VersionEdit.EncodeTo edit [];
      q ← Writer.AddRecord log record;
      let '(log, s) := (q : Writer.Writer F * Status.Status) in
      if Status.ok s then
        let '(file, s) := wf_Sync (Writer.dest_ log) in
        Ret (Some (Writer.mkWriter file (Writer.block_offset_ log)), s)
      else Ret (Some log, s)
  | None, true => Crash NullDeref
  | log, false => Ret (log, s)
  end.

Definition LogAndApply vs (env : E) edit : result (VersionSet F * E * Status.Status) :=
  edit ← complete_edit vs edit;
  q ← Builder.Apply (Builder.make (current_ vs)) (compact_pointer_ vs) edit;
  let '(b, pointers) := (q : Builder.Builder * list str) in
  v ← Builder.SaveTo b;
  let '(score, level) := Finalize v in
  let vs := mkSet (dbname_ vs) (next_file_number_ vs) (manifest_file_number_ vs) (last_sequence_ vs) (log_number_ vs) (prev_log_number_ vs)
              (descriptor_log_ vs) (current_ vs) (compaction_score_ vs) (compaction_level_ vs) pointers in
  q ← open_descriptor vs env;
  let '(env, log, s, new_manifest_file) := (q : E * option (Writer.Writer F) * Status.Status * option str) in
  q ← log_edit log edit s;
  let '(log, s) := (q : option (Writer.Writer F) * Status.Status) in
  q ← (match new_manifest_file with
       | Some _ => if Status.ok s then SetCurrentFile env (dbname_ vs) (manifest_file_number_ vs) else Ret (env, s)
       | None => Ret (env, s)
       end);
  let '(env, s) := (q : E * Status.Status) in
  if Status.ok s then
    Ret (mkSet (dbname_ vs) (next_file_number_ vs) (manifest_file_number_ vs) (last_sequence_ vs)
           (VersionEdit.log_number_ edit) (VersionEdit.prev_log_number_ edit) log v score level pointers, env, s)
  else
    let '(log, env) := match new_manifest_file with
                       | Some name => (None, fst (env_RemoveFile env name))
                       | None => (log, env)
                       end in
    Ret (mkSet (dbname_ vs) (next_file_number_ vs) (manifest_file_number_ vs) (last_sequence_ vs) (log_number_ vs) (prev_log_number_ vs)
           log (current_ vs) (compaction_score_ vs) (compaction_level_ vs) pointers, env, s).

(** *** Recover *)

(** What the loop over the records has read: each number if there was one. *)
Record Recovered := mkRecovered {
  r_builder : Builder.Builder;
  r_pointers : list str;
  r_next_file : option Z;
  r_log_number : option Z;
  r_prev_log_number : option Z;
  r_last_sequence : option Z
}.

Definition note_number (has : bool) (n : Z) (old : option Z) : option Z := if has then Some n else old.

(** [LogReporter::Corruption] *)
Definition Corruption (status report : Status.Status) : Status.Status := if Status.ok status then report else status.

(** One record: the status, and what is read. *)
Definition recover_record (rc : Recovered) (record : str) : result (Recovered * Status.Status) :=
  let '(edit, s) := VersionEdit.DecodeFrom record in
  let s := if Status.ok s && has_comparator_ edit && negb (bool_decide (comparator_ edit = comparator_name))
           then Status.InvalidArgument (comparator_ edit ++ $" does not match existing comparator ") comparator_name else s in
  q ← (if Status.ok s then Builder.Apply (r_builder rc) (r_pointers rc) edit else Ret (r_builder rc, r_pointers rc));
  let '(b, pointers) := (q : Builder.Builder * list str) in
  Ret (mkRecovered b pointers (note_number (has_next_file_number_ edit) (VersionEdit.next_file_number_ edit) (r_next_file rc))
         (note_number (has_log_number_ edit) (VersionEdit.log_number_ edit) (r_log_number rc))
         (note_number (has_prev_log_number_ edit) (VersionEdit.prev_log_number_ edit) (r_prev_log_number rc))
         (note_number (has_last_sequence_ edit) (VersionEdit.last_sequence_ edit) (r_last_sequence rc)), s).

Fixpoint recover_loop (fuel : nat) (rc : Recovered) (s : Status.Status) (r : Reader.Reader str) : result (Recovered * Status.Status) :=
  match fuel with
  | O => Crash OutOfFuel
  | S f =>
      x ← Reader.ReadRecord fuel r;
      let '(r, record) := (x : Reader.Reader str * option str) in
      let '(r, reports) := take_reports r in
      let s := foldl Corruption s (map snd reports) in
      match record with
      | None => Ret (rc, s)
      | Some record =>
          if negb (Status.ok s) then Ret (rc, s)
          else q ← recover_record rc record; let '(rc, s) := (q : Recovered * Status.Status) in recover_loop f rc s r
      end
  end.

(** [ReuseManifest]: the log to append to, and the number of its file. *)
Definition ReuseManifest vs (env : E) (dscname dscbase : str) : E * option (Writer.Writer F * Z) :=
  if negb reuse_logs then (env, None)
  else
    match ParseFileName dscbase with
    | Some (manifest_number, kDescriptorFile) =>
        let '(s, manifest_size) := env_GetFileSize env dscname in
        if negb (Status.ok s) || (TargetFileSize max_file_size <=? manifest_size) then (env, None)
        else
          match env_NewAppendableFile env dscname with
          | (env, r, Some file) => if Status.ok r then (env, Some (Writer.make_at file manifest_size, manifest_number)) else (env, None)
          | (env, _, None) => (env, None)
          end
    | _ => (env, None)
    end.

(** The end of [Recover]: the numbers that have to be there, and the version. *)
Definition install_recovered vs (env : E) (dscname current : str) (rc : Recovered) : result (VersionSet F * E * Status.Status * bool) :=
  let prev_log_number := default 0 (r_prev_log_number rc) in
  let log_number := default 0 (r_log_number rc) in
  let vs := MarkFileNumberUsed (MarkFileNumberUsed vs prev_log_number) log_number in
  match r_next_file rc, r_log_number rc, r_last_sequence rc with
  | None, _, _ => Ret (vs, env, Status.Corruption ($"no meta-nextfile entry in descriptor") [], false)
  | Some _, None, _ => Ret (vs, env, Status.Corruption ($"no meta-lognumber entry in descriptor") [], false)
  | Some _, Some _, None => Ret (vs, env, Status.Corruption ($"no last-sequence-number entry in descriptor") [], false)
  | Some next_file, Some _, Some last_sequence =>
      v ← Builder.SaveTo (r_builder rc);
      let '(score, level) := Finalize v in
      let '(env, reuse) := ReuseManifest vs env dscname current in
      let log := fst <$> reuse in
      let manifest := match reuse with Some (_, n) => n | None => next_file end in
      Ret (mkSet (dbname_ vs) (u64 (next_file + 1)) manifest last_sequence log_number prev_log_number log v score level (r_pointers rc),
           env, Status.OK, match reuse with Some _ => false | None => true end)
  end.

(** The version set, the status and whether [*save_manifest] is set. *)
Definition Recover vs (env : E) : result (VersionSet F * E * Status.Status * bool) :=
  let '(s, current) := ReadFileToString env (CurrentFileName (dbname_ vs)) in
  if negb (Status.ok s) then Ret (vs, env, s, false)
  else if match last current with Some c => negb (bool_decide (c = Byte.x0a)) | None => true end
  then Ret (vs, env, Status.Corruption ($"CURRENT file does not end with newline") [], false)
  else
    let current := take (length current - 1) current in
    let dscname := dbname_ vs ++ $"/" ++ current in
    match env_NewSequentialFile env dscname with
    | (s, Some data) =>
        q ← recover_loop (S (length data)) (mkRecovered (Builder.make (current_ vs)) (compact_pointer_ vs) None None None None) s
              (Reader.make data true true 0);
        let '(rc, s) := (q : Recovered * Status.Status) in
        let vs := mkSet (dbname_ vs) (next_file_number_ vs) (manifest_file_number_ vs) (last_sequence_ vs) (log_number_ vs) (prev_log_number_ vs)
                    (descriptor_log_ vs) (current_ vs) (compaction_score_ vs) (compaction_level_ vs) (r_pointers rc) in
        if Status.ok s then install_recovered vs env dscname current rc else Ret (vs, env, s, false)
    | (s, None) =>
        Ret (vs, env, if Status.code s =? Status.code_value Status.kNotFound then Status.Corruption ($"CURRENT points to a non-existent file") (Status.ToString s) else s, false)
    end.

End ops.
End VersionSet.
