(* ===== verification/VersionSetSpec.v ===== *)
(** * The set of versions: edits and the MANIFEST

    What [VersionSet::Builder] makes of a version and edits, and that the MANIFEST a
    version set has written gives [Recover] the version and the numbers back. *)

From Stdlib Require Import ZArith Lia Permutation SpecFloat.
From S2P Require Import Prelude CString World Coding SliceStatus FilterPolicy Logging DbFormat Iterators LogFile DbTable DbWrite DbWriteSpec VersionEdit Version VersionSpec VersionSet.

(** ** Levels of a builder *)

Section levels.
Context (C : Comparator) {HC : ComparatorLaws C}.
Implicit Types (f g : FileMetaData) (fs base added : list FileMetaData) (del : gset Z).
Import Builder.

Definition before f g : Prop := BySmallestKey (C := C) f g = true.

Lemma before_trans f g h : before f g -> before g h -> before f h.
Proof.
  unfold before, BySmallestKey, icompare. destruct (Compare (smallest f) (smallest g)) eqn:E1; [| |done].
  - rewrite (cmp_eq_l (C := internal_comparator C) _ _ _ E1). destruct (Compare (smallest g) (smallest h)); [|done..]. rewrite !Z.ltb_lt. lia.
  - intros _. destruct (Compare (smallest g) (smallest h)) eqn:E2; [|by rewrite (cmp_trans (C := internal_comparator C) _ _ _ E1 E2)|done].
    by rewrite <- (cmp_eq_r (C := internal_comparator C) _ _ _ E2), E1.
Qed.

Lemma before_irrefl f : ~ before f f.
Proof. unfold before, BySmallestKey, icompare. rewrite (cmp_refl (C := internal_comparator C)). by rewrite Z.ltb_irrefl. Qed.

Lemma before_total f g : number f <> number g -> before f g \/ before g f.
Proof.
  intros Hn. unfold before, BySmallestKey, icompare. rewrite (cmp_antisym (C := internal_comparator C) (smallest g)).
  destruct (Compare (Comparator := internal_comparator C) (smallest g) (smallest f)); cbn [CompOpp]; [|by right|by left].
  rewrite !Z.ltb_lt. lia.
Qed.

Definition file_sorted fs : Prop := StronglySorted before fs.

(** Sorted lists of the same files are the same. *)
Lemma file_sorted_unique fs fs' : file_sorted fs -> file_sorted fs' -> fs ≡ₚ fs' -> fs = fs'.
Proof.
  intros H H' Hp. apply (StronglySorted_unique_strong before fs fs'); [|done..]. intros f g _ _ Hfg Hgf. exfalso. by eapply before_irrefl, before_trans.
Qed.

Lemma set_insert_ok f fs : file_sorted fs -> number f ∉ map number fs -> file_sorted (set_insert (C := C) f fs) /\ set_insert (C := C) f fs ≡ₚ f :: fs.
Proof.
  induction 1 as [|g fs Hs IH Hf]; cbn [set_insert map]; intros Hn; [split; [by repeat constructor|done]|].
  apply not_elem_of_cons in Hn as [Hne Hn]. destruct (BySmallestKey f g) eqn:E.
  - split; [|done]. constructor; [by constructor|]. constructor; [done|]. eapply Forall_impl; [exact Hf|]. intros h. by apply before_trans.
  - destruct (before_total f g Hne) as [H|H]; [by rewrite H in E|]. rewrite H. destruct (IH Hn) as [IHs IHp]. split; [|by rewrite IHp, perm_swap].
    constructor; [done|]. rewrite IHp. by constructor.
Qed.

(** *** Merging *)

Fixpoint merged base added : list FileMetaData :=
  match added with
  | [] => base
  | f :: added => let '(l, r) := smaller_files (C := C) f base in l ++ f :: merged r added
  end.

Lemma smaller_files_ok f base l r : file_sorted base -> smaller_files (C := C) f base = (l, r) -> number f ∉ map number base ->
  base = l ++ r /\ Forall (fun g => before g f) l /\ Forall (before f) r.
Proof.
  intros Hs. revert l r. induction Hs as [|g base Hs IH Hf]; cbn [smaller_files map]; intros l r; [by intros [= <- <-] _|].
  intros Hsm [Hne Hn]%not_elem_of_cons. destruct (BySmallestKey f g) eqn:E.
  - injection Hsm as <- <-. split; [done|]. split; [done|]. constructor; [done|]. eapply Forall_impl; [exact Hf|]. intros h. by apply before_trans.
  - destruct (smaller_files f base) as [l' r'] eqn:E'. injection Hsm as <- <-. destruct (IH l' r' eq_refl Hn) as (-> & Hl & Hr).
    split; [done|]. split; [|done]. constructor; [|done]. destruct (before_total f g Hne) as [H|H]; [by rewrite H in E|done].
Qed.

Lemma merged_ok added : forall base, file_sorted base -> file_sorted added -> NoDup (map number (base ++ added)) ->
  file_sorted (merged base added) /\ merged base added ≡ₚ base ++ added.
Proof.
  induction added as [|f added IH]; intros base Hb Ha Hnd; cbn [merged]; [by rewrite app_nil_r|].
  apply StronglySorted_inv in Ha as [Ha Hfa]. rewrite map_app in Hnd. cbn [map] in Hnd. apply NoDup_app in Hnd as (Hnb & Hdis & Hna).
  assert (number f ∉ map number base) as Hnf by (intros Hin; apply (Hdis _ Hin); by left).
  destruct (smaller_files f base) as [l r] eqn:E. destruct (smaller_files_ok f base l r Hb E Hnf) as (-> & Hl & Hr).
  apply StronglySorted_app in Hb as (Hlr & Hsl & Hsr). apply NoDup_cons in Hna as [Hfn Hna].
  destruct (IH r Hsr Ha) as [IHs IHp].
  { rewrite map_app. rewrite map_app in Hnb, Hdis. apply NoDup_app. split; [by apply NoDup_app in Hnb as (_ & _ & ?)|]. split; [|done].
    intros x Hx Hx'. apply (Hdis x); [apply elem_of_app; by right|by right]. }
  split; [|rewrite IHp; solve_Permutation].
  apply StronglySorted_app. split; [|split; [done|]].
  - intros g h Hg. rewrite Forall_forall in Hl. pose proof (Hl g Hg) as Hgf. intros [->|Hh]%elem_of_cons; [done|]. rewrite IHp in Hh.
    apply elem_of_app in Hh as [Hh|Hh]; [by apply Hlr|]. rewrite Forall_forall in Hfa. by eapply before_trans; [|apply Hfa].
  - constructor; [done|]. rewrite IHp. by apply Forall_app.
Qed.

Definition live del fs : list FileMetaData := List.filter (fun f => negb (bool_decide (number f ∈ del))) fs.

(** [MaybeAddFile] adds the files that are not deleted. *)
Lemma MaybeAddFile_ok level del acc f fs : MaybeAddFile (C := C) level del acc f = Ret fs -> fs = acc ++ live del [f].
Proof.
  unfold MaybeAddFile, live. cbn [List.filter]. case_bool_decide; cbn [negb]; [intros [= <-]; by rewrite app_nil_r|].
  destruct (last acc) as [g|]; [|by intros [= <-]]. destruct (0 <? level); [|by intros [= <-]]. destruct (icompare _ _); [done|by intros [= <-]|done].
Qed.

Lemma live_app del fs fs' : live del (fs ++ fs') = live del fs ++ live del fs'.
Proof. apply List.filter_app. Qed.

Lemma add_files_ok level del l : forall acc fs, foldR (MaybeAddFile (C := C) level del) acc l = Ret fs -> fs = acc ++ live del l.
Proof.
  induction l as [|f l IH]; intros acc fs; cbn [foldR]; [intros [= <-]; by rewrite app_nil_r|].
  destruct (MaybeAddFile level del acc f) as [acc'| |] eqn:E; [|done..]. cbn [mbind result_bind]. intros ->%IH. apply MaybeAddFile_ok in E as ->.
  change (f :: l) with ([f] ++ l). by rewrite live_app, app_assoc.
Qed.

Lemma merge_files_ok level del added : forall acc base fs, merge_files (C := C) level del acc base added = Ret fs ->
  fs = acc ++ live del (merged base added).
Proof.
  induction added as [|f added IH]; intros acc base fs; cbn [merge_files merged]; [apply add_files_ok|].
  destruct (smaller_files f base) as [l r]. destruct (foldR _ acc l) as [acc'| |] eqn:E; [|done..]. cbn [mbind result_bind].
  destruct (MaybeAddFile level del acc' f) as [acc''| |] eqn:E'; [|done..]. cbn [mbind result_bind]. intros ->%IH.
  apply add_files_ok in E as ->. apply MaybeAddFile_ok in E' as ->. rewrite !live_app. change (f :: merged r added) with ([f] ++ merged r added).
  by rewrite live_app, !app_assoc.
Qed.

(** *** The ranges *)

Lemma no_overlap_app fs g f fs' : no_overlap (C := C) (fs ++ g :: f :: fs') = true -> icompare (C := C) (largest g) (smallest f) = Lt.
Proof.
  induction fs as [|h fs IH]; cbn [app no_overlap]; [by destruct (icompare _ _)|]. destruct fs as [|h' fs]; cbn [app] in *.
  - destruct (icompare (largest h) (smallest g)); [done| |done]. apply IH.
  - destruct (icompare (largest h) (smallest h')); [done| |done]. apply IH.
Qed.

Definition disjoint_at (level : Z) fs : Prop := 0 < level -> no_overlap (C := C) fs = true.

Lemma MaybeAddFile_intro level del acc f rest : disjoint_at level (acc ++ live del [f] ++ rest) ->
  MaybeAddFile (C := C) level del acc f = Ret (acc ++ live del [f]).
Proof.
  unfold MaybeAddFile, live, disjoint_at. cbn [List.filter]. case_bool_decide; cbn [negb app]; [by rewrite app_nil_r|]. intros Hno.
  destruct (last acc) as [g|] eqn:El; [|done]. destruct (Z.ltb_spec 0 level) as [Hl|]; [|done]. apply last_Some in El as [acc' ->].
  specialize (Hno Hl). rewrite <- app_assoc in Hno. cbn [app] in Hno. by rewrite (no_overlap_app _ _ _ _ Hno).
Qed.

Lemma add_files_intro level del l : forall acc rest, disjoint_at level (acc ++ live del l ++ rest) ->
  foldR (MaybeAddFile (C := C) level del) acc l = Ret (acc ++ live del l).
Proof.
  induction l as [|f l IH]; intros acc rest Hno; cbn [foldR]; [by rewrite app_nil_r|].
  change (f :: l) with ([f] ++ l) in Hno |- *. rewrite live_app, <- app_assoc in Hno.
  rewrite (MaybeAddFile_intro level del acc f _ Hno). cbn [mbind result_bind]. rewrite app_assoc in Hno. rewrite (IH _ rest Hno).
  by rewrite live_app, app_assoc.
Qed.

Lemma merge_files_intro level del added : forall acc base, disjoint_at level (acc ++ live del (merged base added)) ->
  merge_files (C := C) level del acc base added = Ret (acc ++ live del (merged base added)).
Proof.
  induction added as [|f added IH]; intros acc base; cbn [merge_files merged]; intros Hno; [apply (add_files_intro level del base acc []); by rewrite app_nil_r|].
  destruct (smaller_files f base) as [l r]. change (f :: merged r added) with ([f] ++ merged r added) in Hno |- *. rewrite !live_app in Hno |- *.
  rewrite (add_files_intro level del l acc _ Hno). cbn [mbind result_bind]. rewrite app_assoc in Hno.
  rewrite (MaybeAddFile_intro level del _ f _ Hno). cbn [mbind result_bind]. rewrite app_assoc in Hno. rewrite (IH _ r Hno). by rewrite !app_assoc.
Qed.

(** A level after [SaveTo]. *)
Definition level_result base (l : LevelState) : list FileMetaData := live (deleted_files l) (merged base (added_files l)).

Lemma save_level_ok level base l fs : save_level (C := C) level base l = Ret fs <-> fs = level_result base l /\ disjoint_at level fs.
Proof.
  unfold save_level, level_result. split.
  - destruct (merge_files _ _ _ _ _) as [fs'| |] eqn:E; [|done..]. cbn [mbind result_bind]. apply merge_files_ok in E. cbn [app] in E. subst fs'.
    unfold disjoint_at. destruct (Z.ltb_spec 0 level); cbn [andb]; [|intros [= <-]; split; [done|lia]]. destruct (no_overlap _) eqn:En; [|done].
    intros [= <-]. by split.
  - intros [-> Hno]. rewrite merge_files_intro by done. cbn [mbind result_bind app]. destruct (Z.ltb_spec 0 level) as [Hl|]; [|done]. by rewrite (Hno Hl).
Qed.

Lemma save_levels_ok bases : forall level ls files, save_levels (C := C) level bases ls = Ret files <->
  length bases = length ls /\ length files = length ls /\
  forall i b l, bases !! i = Some b -> ls !! i = Some l -> files !! i = Some (level_result b l) /\ disjoint_at (level + Z.of_nat i) (level_result b l).
Proof.
  induction bases as [|b bases IH]; intros level [|l ls] files; cbn [save_levels].
  - split; [by intros [= <-]|]. intros (_ & Hl & _). by destruct files.
  - split; [done|]. by intros (? & _).
  - split; [done|]. by intros (? & _).
  - split.
    + destruct (save_level level b l) as [fs| |] eqn:E; [|done..]. cbn [mbind result_bind]. destruct (save_levels (level + 1) bases ls) as [rest| |] eqn:E'; [|done..].
      cbn [mbind result_bind]. intros [= <-]. apply IH in E' as (H1 & H2 & H3). apply save_level_ok in E as [-> Hd]. cbn [length]. split; [by f_equal|]. split; [by f_equal|].
      intros [|i] b' l'; cbn; [intros [= <-] [= <-]; split; [done|by rewrite Z.add_0_r]|]. intros Hb Hl. destruct (H3 i b' l' Hb Hl) as [? ?]. split; [done|].
      by replace (level + Z.of_nat (S i)) with (level + 1 + Z.of_nat i) by lia.
    + intros (H1 & H2 & H3). destruct files as [|fs files]; [done|]. injection H1 as H1. injection H2 as H2.
      destruct (H3 O b l eq_refl eq_refl) as [Hfs Hd]. injection Hfs as ->. rewrite Z.add_0_r in Hd.
      rewrite (proj2 (save_level_ok level b l _) (conj eq_refl Hd)). cbn [mbind result_bind].
      assert (save_levels (level + 1) bases ls = Ret files) as ->; [|done]. apply IH. split; [done|]. split; [done|].
      intros i b' l' Hb Hl. destruct (H3 (S i) b' l' Hb Hl) as [? ?]. split; [done|]. by replace (level + 1 + Z.of_nat i) with (level + Z.of_nat (S i)) by lia.
Qed.

(** *** Metadata as it is read back *)

Lemma map_id_on {A} (h : A -> A) l : (forall x, In x l -> h x = x) -> map h l = l.
Proof. intros H. rewrite <- (map_id l) at 2. by apply map_ext_in. Qed.

Definition norm f : FileMetaData := mkMeta 1 (initial_seeks (file_size f)) (number f) (file_size f) (smallest f) (largest f).

Lemma smaller_files_norm f base : smaller_files (C := C) (norm f) (map norm base) =
  let '(l, r) := smaller_files (C := C) f base in (map norm l, map norm r).
Proof.
  induction base as [|g base IH]; [done|]. cbn [smaller_files map]. change (BySmallestKey (norm f) (norm g)) with (BySmallestKey f g).
  destruct (BySmallestKey f g); [done|]. rewrite IH. by destruct (smaller_files f base).
Qed.

Lemma merged_norm added : forall base, merged (map norm base) (map norm added) = map norm (merged base added).
Proof.
  induction added as [|f added IH]; intros base; [done|]. cbn [merged map]. rewrite smaller_files_norm. destruct (smaller_files f base) as [l r].
  rewrite IH. by rewrite map_app.
Qed.

Lemma live_norm del fs : live del (map norm fs) = map norm (live del fs).
Proof. induction fs as [|f fs IH]; [done|]. unfold live in *. cbn [map List.filter]. rewrite IH. cbn [norm number]. by destruct (bool_decide _). Qed.

Lemma no_overlap_norm fs : no_overlap (C := C) (map norm fs) = no_overlap (C := C) fs.
Proof.
  induction fs as [|f fs IH]; [done|]. cbn [map no_overlap]. destruct fs as [|g fs]; [done|]. cbn [map] in *.
  change (icompare (largest (norm f)) (smallest (norm g))) with (icompare (largest f) (smallest g)). by rewrite IH.
Qed.

Lemma number_norm fs : map number (map norm fs) = map number fs.
Proof. by rewrite map_map. Qed.

Lemma norm_norm fs : map norm (map norm fs) = map norm fs.
Proof. by rewrite map_map. Qed.

(** *** Applying an edit, level by level *)

Definition items_at {X} (i : nat) (ps : list (Z * X)) : list X := map snd (List.filter (fun p => fst p =? Z.of_nat i) ps).

Lemma vec_update_at {A} (v : list A) (i : Z) (g : A -> A) : 0 <= i < Z.of_nat (length v) ->
  exists v', vec_update v i g = Ret v' /\ length v' = length v /\
    forall j a, v !! j = Some a -> v' !! j = Some (if Z.of_nat j =? i then g a else a).
Proof.
  intros Hi. destruct (lookup_lt_is_Some_2 v (Z.to_nat i)) as [a Ha]; [lia|]. unfold vec_update. rewrite (vec_at_ok v i a) by (done || lia).
  cbn [mbind result_bind]. eexists. split; [done|]. split; [apply length_insert|]. intros j b Hb. destruct (Z.eqb_spec (Z.of_nat j) i) as [E|E].
  - subst i. rewrite Nat2Z.id in *. rewrite Hb in Ha. injection Ha as <-. apply list_lookup_insert_eq. by apply lookup_lt_Some in Hb.
  - rewrite list_lookup_insert_ne by lia. done.
Qed.

Lemma foldR_vec_update {A X} (g : X -> A -> A) (f : list A -> Z * X -> result (list A)) ps :
  (forall v p, p ∈ ps -> f v p = vec_update v (fst p) (g (snd p))) ->
  forall v, Forall (fun p => 0 <= fst p < Z.of_nat (length v)) ps ->
  exists v', foldR f v ps = Ret v' /\ length v' = length v /\
    forall i a, v !! i = Some a -> v' !! i = Some (foldl (fun a x => g x a) a (items_at i ps)).
Proof.
  intros Hf. induction ps as [|p ps IH]; intros v Hr; cbn [foldR]; [by exists v|]. apply Forall_cons_1 in Hr as [Hp Hr].
  rewrite (Hf v p) by (by left). destruct (vec_update_at v (fst p) (g (snd p)) Hp) as (v1 & -> & Hl1 & Hv1). cbn [mbind result_bind].
  destruct (IH ltac:(intros v0 q Hq; apply Hf; by right) v1) as (v2 & Hv & Hl2 & Hv2); [by rewrite Hl1|]. exists v2. split; [done|]. split; [congruence|]. intros i a Ha. rewrite (Hv2 i _ (Hv1 i a Ha)).
  unfold items_at. cbn [List.filter]. rewrite (Z.eqb_sym (fst p)). by destruct (Z.of_nat i =? fst p).
Qed.

Definition insert_files added fs : list FileMetaData := foldl (fun a f => set_insert (C := C) (norm f) a) added fs.

(** What an edit does to the state of level [i]. *)
Record level_step (i : nat) (e : VersionEdit) (l l' : LevelState) : Prop := {
  ls_deleted x : x ∈ deleted_files l' <-> (x ∈ deleted_files l \/ x ∈ items_at i (deleted_files_ e)) /\ x ∉ map number (items_at i (new_files_ e));
  ls_added : added_files l' = insert_files (added_files l) (items_at i (new_files_ e))
}.

Lemma fold_delete ns : forall l, let l' := foldl (fun l n => mkLevel ({[n]} ∪ deleted_files l) (added_files l)) l ns in
  added_files l' = added_files l /\ forall x, x ∈ deleted_files l' <-> x ∈ deleted_files l \/ x ∈ ns.
Proof.
  induction ns as [|n ns IH]; intros l; cbn [foldl]; [split; [done|]; intros x; set_solver|]. destruct (IH (mkLevel ({[n]} ∪ deleted_files l) (added_files l))) as [-> H].
  split; [done|]. intros x. rewrite H. cbn [deleted_files]. set_solver.
Qed.

Lemma fold_add fs : forall l,
  let l' := foldl (fun l f => mkLevel (deleted_files l ∖ {[number f]}) (set_insert (C := C) (norm f) (added_files l))) l fs in
  added_files l' = insert_files (added_files l) fs /\ forall x, x ∈ deleted_files l' <-> x ∈ deleted_files l /\ x ∉ map number fs.
Proof.
  induction fs as [|f fs IH]; intros l; cbn [foldl]; [split; [done|]; intros x; set_solver|].
  destruct (IH (mkLevel (deleted_files l ∖ {[number f]}) (set_insert (C := C) (norm f) (added_files l)))) as [-> H]. split; [done|]. intros x. rewrite H.
  cbn [deleted_files map]. set_solver.
Qed.

Lemma Apply_ok b ps e : edit_ok e -> length (levels_ b) = Z.to_nat kNumLevels -> length ps = Z.to_nat kNumLevels ->
  exists b' ps', Apply (C := C) b ps e = Ret (b', ps') /\ foldR set_pointer ps (compact_pointers_ e) = Ret ps' /\ length ps' = Z.to_nat kNumLevels /\
    base_ b' = base_ b /\ length (levels_ b') = Z.to_nat kNumLevels /\
    forall i l, levels_ b !! i = Some l -> exists l', levels_ b' !! i = Some l' /\ level_step i e l l'.
Proof.
  intros He Hl Hps. unfold Apply.
  destruct (foldR_vec_update (fun k _ => k) set_pointer (compact_pointers_ e)) with (v := ps) as (ps' & Hp & Hlp & _).
  { intros v [l k] Hin. pose proof (eo_pointers _ He) as H. rewrite Forall_forall in H. destruct (H _ Hin) as [_ [Hk _]]. unfold set_pointer. cbn [fst snd] in *. by destruct k. }
  { eapply Forall_impl; [apply (eo_pointers _ He)|]. rewrite Hps. intros p [Hlv _]. unfold level_ok in Hlv. cbn in *. lia. }
  rewrite Hp. cbn [mbind result_bind].
  destruct (foldR_vec_update (fun n l => mkLevel ({[n]} ∪ deleted_files l) (added_files l)) delete_file (deleted_files_ e)) with (v := levels_ b) as (l1 & -> & Hl1 & H1).
  { done. }
  { eapply Forall_impl; [apply (eo_deleted _ He)|]. rewrite Hl. intros p [Hlv _]. unfold level_ok in Hlv. cbn in *. lia. }
  cbn [mbind result_bind].
  destruct (foldR_vec_update (fun f l => mkLevel (deleted_files l ∖ {[number f]}) (set_insert (C := C) (norm f) (added_files l))) (add_file (C := C)) (new_files_ e)) with (v := l1) as (l2 & -> & Hl2 & H2).
  { done. }
  { eapply Forall_impl; [apply (eo_files _ He)|]. rewrite Hl1, Hl. intros p [Hlv _]. unfold level_ok in Hlv. cbn in *. lia. }
  cbn [mbind result_bind]. eexists _, ps'. split; [done|]. split; [done|]. split; [congruence|]. split; [done|]. cbn [levels_]. split; [congruence|].
  intros i l Hi. eexists. split; [by apply H2, H1|].
  destruct (fold_delete (items_at i (deleted_files_ e)) l) as [Ha Hd]. split.
  - intros x. rewrite (proj2 (fold_add _ _) x), Hd. done.
  - rewrite (proj1 (fold_add _ _)). by rewrite Ha.
Qed.

Lemma insert_files_ok fs : forall added, file_sorted added -> NoDup (map number (added ++ fs)) ->
  file_sorted (insert_files added fs) /\ insert_files added fs ≡ₚ added ++ map norm fs.
Proof.
  induction fs as [|f fs IH]; intros added Hs Hnd; cbn [insert_files foldl map]; [by rewrite app_nil_r|].
  assert (NoDup (number f :: map number (added ++ fs))) as Hnd'.
  { eapply NoDup_Permutation_proper; [|exact Hnd]. rewrite !map_app. cbn [map]. solve_Permutation. }
  apply NoDup_cons in Hnd' as [Hni Hnd']. rewrite map_app in Hni. destruct (set_insert_ok (norm f) added Hs) as [Hs1 Hp1]; [cbn; set_solver|].
  fold (insert_files (set_insert (C := C) (norm f) added) fs). destruct (IH _ Hs1) as [Hs2 Hp2].
  { eapply NoDup_Permutation_proper; [|exact Hnd]. rewrite !map_app, Hp1. cbn [map norm number]. solve_Permutation. }
  split; [done|]. rewrite Hp2, Hp1. solve_Permutation.
Qed.

Lemma elem_live del fs x : x ∈ live del fs <-> x ∈ fs /\ number x ∉ del.
Proof. unfold live. rewrite !list_elem_of_In, filter_In, negb_true_iff, bool_decide_eq_false. done. Qed.

Lemma live_sorted del fs : file_sorted fs -> file_sorted (live del fs).
Proof.
  induction 1 as [|f fs Hs IH Hf]; [constructor|]. unfold live. cbn [List.filter]. fold (live del fs). destruct (negb _); [|done]. constructor; [done|].
  rewrite Forall_forall in Hf |- *. intros g Hg. apply Hf. by apply elem_live in Hg as [? _].
Qed.

Lemma NoDup_of_numbers fs : NoDup (map number fs) -> NoDup fs.
Proof. apply (NoDup_fmap_1 number). Qed.

(** A level of the version and the state of a builder that has replayed the edits up to
    it describe the same files. *)
Record level_agrees fs (l : LevelState) : Prop := {
  la_files : map norm fs = live (deleted_files l) (added_files l);
  la_sorted : file_sorted (added_files l);
  la_norm : map norm (added_files l) = added_files l;
  la_numbers : NoDup (map number (added_files l))
}.

Lemma sublist_live del fs : sublist (live del fs) fs.
Proof. induction fs as [|f fs IH]; [constructor|]. unfold live in *. cbn [List.filter]. destruct (negb _); by constructor. Qed.

Lemma sublist_numbers fs fs' : sublist fs fs' -> sublist (map number fs) (map number fs').
Proof. induction 1; cbn [map]; by constructor. Qed.

(** One more edit, applied to the version and replayed. *)
Lemma level_replay i e base l l' ls : level_agrees base l -> level_step i e l l' -> level_step i e (mkLevel ∅ []) ls ->
  NoDup (map number (added_files l ++ items_at i (new_files_ e))) -> level_agrees (level_result base ls) l'.
Proof.
  intros [Hfs Hs Hn Hnum] [Hd Ha] [Hds Has] Hnd. set (news := items_at i (new_files_ e)) in *.
  destruct (insert_files_ok news _ Hs Hnd) as [Hs' Hp']. assert (NoDup (map number news)) as Hnews.
  { rewrite map_app in Hnd. by apply NoDup_app in Hnd as (_ & _ & ?). }
  destruct (insert_files_ok news [] ltac:(constructor) Hnews) as [Hss Hps]. cbn [app] in Hps. cbn [added_files deleted_files] in Has, Hds.
  rewrite <- Ha in Hs', Hp'. rewrite <- Has in Hss, Hps.
  assert (map norm (added_files ls) = added_files ls) as Hnorms.
  { apply (map_id_on). intros x Hx. rewrite <- list_elem_of_In, Hps in Hx. apply list_elem_of_fmap in Hx as (y & -> & _). done. }
  split; [|done| |].
  - unfold level_result. rewrite <- live_norm, <- merged_norm, Hnorms, Hfs.
    assert (NoDup (map number (live (deleted_files l) (added_files l) ++ added_files ls))) as Hnd1.
    { rewrite map_app, Hps, number_norm. rewrite map_app in Hnd. eapply sublist_NoDup; [exact Hnd|]. apply sublist_app; [|done]. apply sublist_numbers, sublist_live. }
    destruct (merged_ok (added_files ls) (live (deleted_files l) (added_files l)) (live_sorted _ _ Hs) Hss Hnd1) as [Hms Hmp].
    apply file_sorted_unique; [by apply live_sorted|by apply live_sorted|]. apply NoDup_Permutation.
    + eapply sublist_NoDup; [|apply sublist_live]. rewrite Hmp. by apply NoDup_of_numbers.
    + eapply sublist_NoDup; [|apply sublist_live]. rewrite Hp'. apply NoDup_of_numbers. by rewrite map_app, number_norm, <- map_app.
    + intros x. rewrite !elem_live, Hmp, Hp', !elem_of_app, elem_live, Hps, Hd, Hds. fold news.
      assert (x ∈ map norm news -> number x ∈ map number news) as Hin.
      { intros Hx. rewrite <- number_norm. by apply (list_elem_of_fmap_2 number). }
      assert (x ∈ added_files l -> number x ∉ map number news) as Hout.
      { intros Hx Hx'. rewrite map_app in Hnd. apply NoDup_app in Hnd as (_ & Hdis & _). apply (Hdis (number x)); [by apply list_elem_of_fmap_2|done]. }
      set_solver.
  - apply map_id_on. intros x Hx. rewrite <- list_elem_of_In, Hp' in Hx. apply elem_of_app in Hx as [Hx|Hx].
    + rewrite <- Hn in Hx. apply list_elem_of_fmap in Hx as (y & -> & _). done.
    + apply list_elem_of_fmap in Hx as (y & -> & _). done.
  - rewrite Hp'. by rewrite map_app, number_norm, <- map_app.
Qed.

End levels.

(** ** The MANIFEST *)

Section manifest.
Context {E : Type} (C : Comparator) {HC : ComparatorLaws C} {EN : Env E str}.
Context (comparator_name : str) (reuse_logs : bool) (max_file_size : Z).
Implicit Types (vs : VersionSet.VersionSet str) (v : Version.Version) (e : VersionEdit) (used : list (Z * Z)).
Import VersionSet.

(** The levels and numbers of the files an edit adds. *)
Definition added_by e : list (Z * Z) := map (fun p => (fst p, number (snd p))) (new_files_ e).

Lemma items_added_by i e : items_at i (added_by e) = map number (items_at i (new_files_ e)).
Proof.
  unfold items_at, added_by. induction (new_files_ e) as [|[l f] fs IH]; [done|]. cbn [map List.filter fst snd]. destruct (l =? Z.of_nat i); cbn [map]; by rewrite IH.
Qed.

Lemma items_app {X} i (l1 l2 : list (Z * X)) : items_at i (l1 ++ l2) = items_at i l1 ++ items_at i l2.
Proof. unfold items_at. by rewrite List.filter_app, map_app. Qed.

Lemma items_NoDup i used : NoDup used -> NoDup (items_at i used).
Proof.
  induction 1 as [|[l n] used Hni Hnd IH]; [constructor|]. unfold items_at in *. cbn [List.filter fst]. destruct (Z.eqb_spec l (Z.of_nat i)) as [->|]; [|done].
  cbn [map snd]. constructor; [|done]. intros Hin. apply Hni. apply list_elem_of_fmap in Hin as ([l' n'] & -> & Hin). rewrite list_elem_of_In in Hin |- *.
  apply filter_In in Hin as [Hin Hl]. cbn in Hl. apply Z.eqb_eq in Hl as ->. done.
Qed.

(** What the records read so far say: the same files, each level and number once. *)
Record agrees (rc : Recovered) v (ps : list str) used : Prop := {
  ag_base : Builder.base_ (r_builder rc) = Version.make;
  ag_levels : length (Builder.levels_ (r_builder rc)) = Z.to_nat kNumLevels;
  ag_version : length (Version.files_ v) = Z.to_nat kNumLevels;
  ag_pointers : r_pointers rc = ps /\ length ps = Z.to_nat kNumLevels;
  ag_files i fs l : Version.files_ v !! i = Some fs -> Builder.levels_ (r_builder rc) !! i = Some l ->
    level_agrees C fs l /\ items_at i used ≡ₚ map number (Builder.added_files l) /\ disjoint_at C (Z.of_nat i) fs;
  ag_used : NoDup used
}.

(** The comparator an edit names is the one in use. *)
Definition names_comparator e : Prop := has_comparator_ e = true -> comparator_ e = comparator_name.

(** The numbers after an edit. *)
Definition notes rc rc' e : Prop :=
  r_next_file rc' = note_number (has_next_file_number_ e) (VersionEdit.next_file_number_ e) (r_next_file rc) /\
  r_log_number rc' = note_number (has_log_number_ e) (VersionEdit.log_number_ e) (r_log_number rc) /\
  r_prev_log_number rc' = note_number (has_prev_log_number_ e) (VersionEdit.prev_log_number_ e) (r_prev_log_number rc) /\
  r_last_sequence rc' = note_number (has_last_sequence_ e) (VersionEdit.last_sequence_ e) (r_last_sequence rc).

Lemma new_levels i : (i < Z.to_nat kNumLevels)%nat -> replicate (Z.to_nat kNumLevels) (Builder.mkLevel ∅ []) !! i = Some (Builder.mkLevel ∅ []).
Proof. intros Hi. by apply lookup_replicate_2. Qed.

(** A record, read for an edit that is applied to the version. *)
Lemma record_agrees rc v ps used e b ps' v' : agrees rc v ps used -> edit_ok e -> names_comparator e -> NoDup (used ++ added_by e) ->
  Builder.Apply (C := C) (Builder.make v) ps e = Ret (b, ps') -> Builder.SaveTo (C := C) b = Ret v' ->
  exists record rc', EncodeTo e [] = Ret record /\ recover_record (C := C) comparator_name rc record = Ret (rc', Status.OK) /\
    agrees rc' v' ps' (used ++ added_by e) /\ notes rc rc' e.
Proof.
  intros [Hbase Hlen Hv [Hp Hps] Hfiles Hused] He Hname Hnd HA HS. destruct (edit_codec e He) as (record & Henc & Hdec).
  exists record. unfold recover_record. rewrite Hdec. assert (has_comparator_ e && negb (bool_decide (comparator_ e = comparator_name)) = false) as Hok.
  { destruct (has_comparator_ e) eqn:Ec; [|done]. by rewrite (bool_decide_eq_true_2 _ (Hname Ec)). }
  change (Status.ok Status.OK) with true. cbn [andb]. rewrite Hok. change (Status.ok Status.OK) with true. cbv iota.
  destruct (Apply_ok C (r_builder rc) ps e He Hlen Hps) as (b1 & ps1 & HA1 & Hp1 & Hlp1 & Hb1 & Hl1 & Hst1). rewrite Hp, HA1. cbn [mbind result_bind].
  destruct (Apply_ok C (Builder.make v) ps e He (length_replicate _ _) Hps) as (b2 & ps2 & HA2 & Hp2 & Hlp2 & Hb2 & Hl2 & Hst2). rewrite HA in HA2. injection HA2 as <- <-.
  rewrite Hp1 in Hp2. injection Hp2 as ->. eexists. split; [done|]. split; [done|]. split; [|by split_and!].
  unfold Builder.SaveTo in HS. destruct (Builder.save_levels 0 _ _) as [files| |] eqn:ES; [|done..]. cbn [mbind result_bind] in HS. injection HS as <-.
  apply save_levels_ok in ES as (_ & Hlf & Hsv). rewrite Hb2 in Hsv. cbn [Builder.base_ Builder.make] in Hsv.
  split; cbn [r_builder r_pointers Version.files_]; [congruence|done|congruence|done| |done].
  intros i fs l' Hi Hl'. pose proof (lookup_lt_Some _ _ _ Hi) as Hlt. rewrite Hlf, Hl2 in Hlt.
  destruct (lookup_lt_is_Some_2 (Version.files_ v) i) as [base Hbi]; [lia|]. destruct (lookup_lt_is_Some_2 (Builder.levels_ (r_builder rc)) i) as [l Hli]; [lia|].
  destruct (Hst2 i _ (new_levels i Hlt)) as (ls & Hls & Hstep2). destruct (Hst1 i l Hli) as (l1 & Hl1i & Hstep1). rewrite Hl' in Hl1i. injection Hl1i as <-.
  destruct (Hfiles i base l Hbi Hli) as (Hag & Hit & _). destruct (Hsv i base ls Hbi Hls) as [Hfi Hdis]. rewrite Hi in Hfi. injection Hfi as ->.
  assert (NoDup (map number (Builder.added_files l ++ items_at i (new_files_ e)))) as Hnd'.
  { apply (items_NoDup i) in Hnd. rewrite items_app, items_added_by, Hit, <- map_app in Hnd. done. }
  split; [by eapply level_replay|]. split; [|by rewrite Z.add_0_l in Hdis].
  rewrite items_app, items_added_by, Hit, (ls_added _ _ _ _ _ Hstep1).
  destruct (insert_files_ok C (items_at i (new_files_ e)) _ (la_sorted _ _ _ Hag) Hnd') as [_ ->]. by rewrite map_app, number_norm.
Qed.

(** *** The snapshot at the start *)

(** The files of the levels from [n] on, as the snapshot adds them. *)
Fixpoint files_from (n : Z) (levels : list (list FileMetaData)) : list (Z * FileMetaData) :=
  match levels with
  | [] => []
  | fs :: levels => map (fun f => (n, new_meta (number f) (file_size f) (smallest f) (largest f))) fs ++ files_from (n + 1) levels
  end.

Definition pointers_from (ps : list str) : list (Z * str) := List.filter (fun p => match snd p with [] => false | _ => true end) (number_from 0 ps).

Lemma snapshot_file_fold n fs : forall e, foldl (snapshot_file n) e fs =
  with_files (compact_pointers_ e) (deleted_files_ e) (new_files_ e ++ map (fun f => (n, new_meta (number f) (file_size f) (smallest f) (largest f))) fs) e.
Proof.
  induction fs as [|f fs IH]; intros e; cbn [foldl map]; [rewrite app_nil_r; by destruct e|]. rewrite IH. unfold snapshot_file, AddFile, push_file, with_files. cbn. by rewrite <- app_assoc.
Qed.

Lemma snapshot_files_eq levels : forall n e, snapshot_files n levels e = with_files (compact_pointers_ e) (deleted_files_ e) (new_files_ e ++ files_from n levels) e.
Proof.
  induction levels as [|fs levels IH]; intros n e; cbn [snapshot_files files_from]; [rewrite app_nil_r; by destruct e|].
  rewrite IH, snapshot_file_fold. unfold with_files. cbn. by rewrite <- app_assoc.
Qed.

Lemma snapshot_pointers_eq l : forall e, foldl snapshot_pointer e l =
  with_files (compact_pointers_ e ++ List.filter (fun p => match snd p with [] => false | _ => true end) l) (deleted_files_ e) (new_files_ e) e.
Proof.
  induction l as [|[n k] l IH]; intros e; cbn [foldl List.filter snd]; [rewrite app_nil_r; by destruct e|]. rewrite IH. unfold snapshot_pointer. cbn [fst snd].
  destruct k; [done|]. unfold SetCompactPointer, with_files. cbn. by rewrite <- app_assoc.
Qed.

Lemma snapshot_edit_eq vs : snapshot_edit comparator_name vs =
  with_files (pointers_from (compact_pointer_ vs)) [] (files_from 0 (Version.files_ (current_ vs))) (SetComparatorName comparator_name VersionEdit.Clear).
Proof. unfold snapshot_edit. rewrite snapshot_files_eq, snapshot_pointers_eq. done. Qed.

Lemma items_const {X Y} (h : X -> Y) k m xs : items_at k (map (fun x => (m, h x)) xs) = if m =? Z.of_nat k then map h xs else [].
Proof. unfold items_at. induction xs as [|x xs IH]; cbn [map List.filter fst]; [by case_match|]. destruct (m =? Z.of_nat k); cbn [map snd]; by rewrite IH. Qed.

Lemma items_above levels : forall n k, Z.of_nat k < n -> items_at k (files_from n levels) = [].
Proof.
  induction levels as [|gs levels IH]; intros n k Hk; cbn [files_from]; [done|]. rewrite items_app, items_const, IH by lia.
  by rewrite (proj2 (Z.eqb_neq _ _)) by lia.
Qed.

Lemma items_files_from levels : forall n i fs, 0 <= n -> levels !! i = Some fs ->
  items_at (Z.to_nat n + i) (files_from n levels) = map (fun f => new_meta (number f) (file_size f) (smallest f) (largest f)) fs.
Proof.
  induction levels as [|gs levels IH]; intros n i fs Hn Hi; [done|]. cbn [files_from]. rewrite items_app, items_const. destruct i as [|i].
  - injection Hi as ->. rewrite items_above by lia. rewrite (proj2 (Z.eqb_eq _ _)) by lia. by rewrite app_nil_r.
  - rewrite (proj2 (Z.eqb_neq _ _)) by lia. cbn [app]. rewrite <- (IH (n + 1) i fs) by (done || lia). f_equal. lia.
Qed.

Lemma items_files_0 levels i fs : levels !! i = Some fs ->
  items_at i (files_from 0 levels) = map (fun f => new_meta (number f) (file_size f) (smallest f) (largest f)) fs.
Proof. intros Hi. by apply (items_files_from levels 0). Qed.

(** The levels and numbers of the files of a version. *)
Definition files_used v : list (Z * Z) := map (fun p => (fst p, number (snd p))) (files_from 0 (Version.files_ v)).

(** A version that can be saved: sorted and disjoint levels, and metadata and pointers
    that fit the encoding. *)
Record saved_ok v (ps : list str) : Prop := {
  sv_levels : length (Version.files_ v) = Z.to_nat kNumLevels;
  sv_sorted i fs : Version.files_ v !! i = Some fs -> file_sorted C fs /\ disjoint_at C (Z.of_nat i) fs;
  sv_used : NoDup (files_used v);
  sv_files fs f : fs ∈ Version.files_ v -> f ∈ fs -> u64_ok (number f) /\ u64_ok (file_size f) /\ key_ok (smallest f) /\ key_ok (largest f);
  sv_pointers : length ps = Z.to_nat kNumLevels /\ Forall (fun k => k = [] \/ key_ok k) ps;
  sv_name : str_size comparator_name < 2 ^ 32
}.

Lemma number_from_level {A} (l : list A) : forall n p, p ∈ number_from n l -> n <= fst p < n + Z.of_nat (length l) /\ snd p ∈ l.
Proof.
  induction l as [|a l IH]; intros n p; cbn [number_from length]; [by intros ?%elem_of_nil|]. intros [->|Hp]%elem_of_cons; [cbn; split; [lia|by left]|].
  destruct (IH _ _ Hp). split; [lia|by right].
Qed.

Lemma files_from_level levels : forall n p, p ∈ files_from n levels -> n <= fst p < n + Z.of_nat (length levels) /\
  exists fs f, fs ∈ levels /\ f ∈ fs /\ snd p = new_meta (number f) (file_size f) (smallest f) (largest f).
Proof.
  induction levels as [|fs levels IH]; intros n p; cbn [files_from length]; [by intros ?%elem_of_nil|]. intros [Hp|Hp]%elem_of_app.
  - apply list_elem_of_fmap in Hp as (f & -> & Hf). cbn. split; [lia|]. exists fs, f. split; [by left|]. by split.
  - destruct (IH _ _ Hp) as (? & gs & g & ? & ? & ?). split; [lia|]. exists gs, g. split; [by right|]. by split.
Qed.

Lemma snapshot_edit_ok vs : saved_ok (current_ vs) (compact_pointer_ vs) -> edit_ok (snapshot_edit comparator_name vs).
Proof.
  intros [Hlen _ _ Hf [Hpl Hpk] Hn]. rewrite snapshot_edit_eq. split; cbn; try done.
  - apply Forall_forall. intros p Hp. unfold pointers_from in Hp. rewrite list_elem_of_In in Hp. apply filter_In in Hp as [Hp Hk]. apply list_elem_of_In, number_from_level in Hp as [Hr Hin].
    rewrite Hpl in Hr. split; [unfold level_ok; lia|]. rewrite Forall_forall in Hpk. destruct (Hpk _ Hin) as [H|]; [by rewrite H in Hk|done].
  - apply Forall_forall. intros p Hp. apply files_from_level in Hp as (Hr & fs & f & Hfs & Hff & ->). rewrite Hlen in Hr. split; [unfold level_ok; lia|].
    cbn. destruct (Hf fs f Hfs Hff) as (? & ? & ? & ?). done.
Qed.

(** The record of the snapshot, read into an empty version set. *)
Definition nothing_read : Recovered := mkRecovered (Builder.make Version.make) (replicate (Z.to_nat kNumLevels) []) None None None None.

(** The pointers that are set, set one by one. *)
Lemma set_pointers_from ps : forall done_, Forall (fun k => k = [] \/ key_ok k) ps ->
  foldR Builder.set_pointer (done_ ++ replicate (length ps) []) (List.filter (fun p => match snd p with [] => false | _ => true end) (number_from (Z.of_nat (length done_)) ps)) =
  Ret (done_ ++ ps).
Proof.
  induction ps as [|k ps IH]; intros done_ Hk; cbn [number_from List.filter snd length replicate]; [done|]. apply Forall_cons_1 in Hk as [_ Hk].
  specialize (IH (done_ ++ [k]) Hk). rewrite length_app, Nat2Z.inj_add in IH. cbn [length] in IH. rewrite <- !app_assoc in IH. cbn [app] in IH. change (Z.of_nat 1) with 1 in IH.
  destruct k as [|c k]; [exact IH|]. cbn [foldR].
  assert (Builder.set_pointer (done_ ++ [] :: replicate (length ps) []) (Z.of_nat (length done_), c :: k) = Ret (done_ ++ (c :: k) :: replicate (length ps) [])) as ->; [|exact IH].
  unfold Builder.set_pointer. cbn [snd fst]. unfold vec_update.
  rewrite (vec_at_ok _ _ []) by (try lia; rewrite Nat2Z.id, lookup_app_r, Nat.sub_diag by lia; done). cbn [mbind result_bind].
  by rewrite Nat2Z.id, insert_app_r_alt, Nat.sub_diag by lia.
Qed.

Lemma make_lookup i fs : Version.files_ Version.make !! i = Some fs -> fs = [].
Proof. intros H. cbn [Version.files_ Version.make] in H. apply lookup_replicate in H as [-> _]. done. Qed.

Lemma used_from levels : forall n, items_at n (map (fun p => (fst p, number (snd p))) (files_from 0 levels)) = map number (items_at n (files_from 0 levels)).
Proof. intros n. unfold items_at. induction (files_from 0 levels) as [|[l f] fs IH]; [done|]. cbn [map List.filter fst snd]. destruct (l =? Z.of_nat n); cbn [map]; by rewrite IH. Qed.

Lemma snapshot_agrees vs : saved_ok (current_ vs) (compact_pointer_ vs) ->
  exists record rc, EncodeTo (snapshot_edit comparator_name vs) [] = Ret record /\
    recover_record (C := C) comparator_name nothing_read record = Ret (rc, Status.OK) /\
    agrees rc (current_ vs) (compact_pointer_ vs) (files_used (current_ vs)) /\
    notes nothing_read rc (snapshot_edit comparator_name vs).
Proof.
  intros Hsv. pose proof (snapshot_edit_ok vs Hsv) as Hok. destruct (edit_codec _ Hok) as (record & Henc & Hdec). exists record.
  destruct Hsv as [Hlen Hsorted Hused _ [Hpl Hpk] _]. unfold recover_record. rewrite Hdec.
  assert (has_comparator_ (snapshot_edit comparator_name vs) && negb (bool_decide (comparator_ (snapshot_edit comparator_name vs) = comparator_name)) = false) as Hn.
  { rewrite snapshot_edit_eq. cbn. by rewrite bool_decide_eq_true_2. }
  change (Status.ok Status.OK) with true. cbn [andb]. rewrite Hn. change (Status.ok Status.OK) with true. cbv iota.
  destruct (Apply_ok C (r_builder nothing_read) (r_pointers nothing_read) _ Hok (length_replicate _ _) (length_replicate _ _)) as (b & ps & -> & Hps & Hlp & Hb & Hlb & Hst).
  cbn [mbind result_bind]. eexists. split; [done|]. split; [done|]. split; [|by split_and!].
  assert (ps = compact_pointer_ vs) as ->.
  { rewrite snapshot_edit_eq in Hps. cbn [compact_pointers_ with_files r_pointers nothing_read] in Hps. rewrite <- Hpl in Hps.
    pose proof (set_pointers_from (compact_pointer_ vs) [] Hpk) as H. cbn [app length] in H. unfold pointers_from in Hps. change (Z.of_nat 0) with 0 in H. rewrite H in Hps. by injection Hps as <-. }
  split; cbn [r_builder r_pointers]; [done|done|done|done| |done].
  intros i fs l' Hi Hl'. pose proof (lookup_lt_Some _ _ _ Hi) as Hlt. rewrite Hlen in Hlt.
  destruct (Hst i _ (new_levels i Hlt)) as (l1 & Hl1 & [Hd Ha]). rewrite Hl' in Hl1. injection Hl1 as <-.
  rewrite snapshot_edit_eq in Hd, Ha. cbn [deleted_files_ new_files_ with_files Builder.deleted_files Builder.added_files] in Hd, Ha. rewrite (items_files_0 _ _ _ Hi) in Hd, Ha.
  destruct (Hsorted i fs Hi) as [Hs Hdis]. set (news := map _ fs) in *.
  assert (items_at i (files_used (current_ vs)) = map number fs) as Hu.
  { unfold files_used. rewrite used_from, (items_files_0 _ _ _ Hi), map_map. done. }
  assert (NoDup (map number fs)) as Hnd by (rewrite <- Hu; by apply items_NoDup).
  assert (map norm news = map norm fs) as Hnn by (unfold news; by rewrite map_map).
  destruct (insert_files_ok C news [] ltac:(constructor)) as [Hs' Hp']; [cbn [app]; unfold news; by rewrite map_map|]. rewrite <- Ha in Hs', Hp'. cbn [app] in Hp'.
  assert (Builder.added_files l' = map norm fs) as Hadd.
  { rewrite Hnn in Hp'. apply (file_sorted_unique C); [done| |done]. clear -Hs. unfold file_sorted in *. induction Hs as [|f fs Hs IH Hf]; [constructor|]. cbn [map]. constructor; [done|].
    apply Forall_map. exact Hf. }
  assert (forall x, x ∉ Builder.deleted_files l') as Hde by (intros x; rewrite Hd; set_solver).
  split; [|split; [|done]].
  - split; rewrite ?Hadd; [|by rewrite <- Hadd|by rewrite norm_norm|by rewrite number_norm].
    clear -Hde. induction fs as [|f fs IH]; [done|]. unfold live in *. cbn [map List.filter]. rewrite bool_decide_eq_false_2 by apply Hde. cbn [negb]. by f_equal.
  - by rewrite Hu, Hadd, number_norm.
Qed.

(** *** Logging edits *)

(** The records of a MANIFEST, read one after the other without an error. *)
Definition read_records (recs : list str) : result Recovered :=
  foldR (fun rc rec => q ← recover_record (C := C) comparator_name rc rec; if Status.ok (snd q) then Ret (fst q) else Crash AssertFailed) nothing_read recs.

Lemma read_records_snoc recs rec rc rc' : read_records recs = Ret rc -> recover_record (C := C) comparator_name rc rec = Ret (rc', Status.OK) ->
  read_records (recs ++ [rec]) = Ret rc'.
Proof. intros Hr Hn. unfold read_records in *. rewrite foldR_app, Hr. cbn [mbind result_bind foldR]. by rewrite Hn. Qed.

(** The descriptor log holds records that say what the version set has: its version,
    pointers and log numbers; [next] and [last] are the numbers at the last edit. *)
Definition logged vs used (next last : Z) : Prop :=
  exists recs w rc, descriptor_log_ vs = Some w /\ add_all (Writer.make []) recs = Ret w /\ read_records recs = Ret rc /\
    agrees rc (current_ vs) (compact_pointer_ vs) used /\
    r_next_file rc = Some next /\ r_log_number rc = Some (log_number_ vs) /\ r_prev_log_number rc = Some (prev_log_number_ vs) /\ r_last_sequence rc = Some last.

Lemma complete_edit_has vs e e' : complete_edit vs e = Ret e' ->
  has_next_file_number_ e' = true /\ has_log_number_ e' = true /\ has_prev_log_number_ e' = true /\ has_last_sequence_ e' = true /\
  VersionEdit.next_file_number_ e' = next_file_number_ vs /\ VersionEdit.last_sequence_ e' = last_sequence_ vs /\
  new_files_ e' = new_files_ e.
Proof.
  unfold complete_edit. destruct (has_log_number_ e) eqn:E1; [destruct (_ && _); [|done]|]; cbn [mbind result_bind]; intros [= <-]; cbn;
    repeat match goal with |- context [if ?b then _ else _] => destruct b eqn:? end; cbn; try congruence; by rewrite ?E1.
Qed.

Lemma log_edit_ok recs w e record w' s : add_all (Writer.make []) recs = Ret w -> EncodeTo e [] = Ret record ->
  log_edit (Some w) e Status.OK = Ret (w', s) -> s = Status.OK /\ exists w1, w' = Some w1 /\ add_all (Writer.make []) (recs ++ [record]) = Ret w1.
Proof.
  intros Hw Henc. unfold log_edit. change (Status.ok Status.OK) with true. cbv iota. rewrite Henc. cbn [mbind result_bind].
  destruct (AddRecord_ok recs w record Hw) as (w1 & -> & Hw1). cbn [mbind result_bind]. change (Status.ok Status.OK) with true. cbv iota. cbn [wf_Sync mem_sync].
  intros [= <- <-]. split; [done|]. exists w1. split; [by destruct w1|done].
Qed.

(** Setting the pointers of an edit twice. *)
Lemma pointers_twice ps ps' e : edit_ok e -> length ps = Z.to_nat kNumLevels -> foldR Builder.set_pointer ps (compact_pointers_ e) = Ret ps' ->
  foldR Builder.set_pointer ps' (compact_pointers_ e) = Ret ps' /\ length ps' = Z.to_nat kNumLevels /\
  (Forall (fun k => k = [] \/ key_ok k) ps -> Forall (fun k => k = [] \/ key_ok k) ps').
Proof.
  intros He Hl Hp. assert (forall v : list str, forall p, p ∈ compact_pointers_ e -> Builder.set_pointer v p = vec_update v (fst p) (fun _ => snd p)) as Hset.
  { intros v [l k] Hin. pose proof (eo_pointers _ He) as H. rewrite Forall_forall in H. destruct (H _ Hin) as [_ [Hk _]]. unfold Builder.set_pointer. cbn [fst snd] in *. by destruct k. }
  assert (forall v : list str, length v = Z.to_nat kNumLevels -> Forall (fun p => 0 <= fst p < Z.of_nat (length v)) (compact_pointers_ e)) as Hr.
  { intros v Hv. eapply Forall_impl; [apply (eo_pointers _ He)|]. rewrite Hv. intros p [Hlv _]. unfold level_ok in Hlv. cbn in *. lia. }
  destruct (foldR_vec_update (fun k _ => k) Builder.set_pointer (compact_pointers_ e) Hset ps (Hr ps Hl)) as (v & Hv & Hlv & Hat). rewrite Hp in Hv. injection Hv as <-.
  rewrite Hl in Hlv. destruct (foldR_vec_update (fun k _ => k) Builder.set_pointer (compact_pointers_ e) Hset ps' (Hr ps' Hlv)) as (v & Hv & Hlv2 & Hat2).
  assert (forall ks (a : str), foldl (fun _ k => k) (foldl (fun _ k => k) a ks) ks = foldl (fun _ k => k) a ks) as Htwice.
  { intros ks a. destruct ks as [|k ks] using rev_ind; [done|]. by rewrite !foldl_app. }
  split; [|split; [done|]].
  - rewrite Hv. f_equal. apply list_eq_same_length with (n := length ps'); [done|done|]. intros i x y Hi Hx Hy. rewrite Hlv in Hi.
    destruct (lookup_lt_is_Some_2 ps i) as [a Ha]; [lia|]. pose proof (Hat i a Ha) as Hy'. rewrite Hy in Hy'. injection Hy' as ->.
    rewrite (Hat2 i _ Hy) in Hx. injection Hx as <-. apply Htwice.
  - intros Hk. apply Forall_lookup. intros i x Hx. pose proof (lookup_lt_Some _ _ _ Hx). destruct (lookup_lt_is_Some_2 ps i) as [a Ha]; [lia|].
    rewrite (Hat i a Ha) in Hx. injection Hx as <-. assert (foldl (fun _ k => k) a (items_at i (compact_pointers_ e)) = a \/ foldl (fun _ k => k) a (items_at i (compact_pointers_ e)) ∈ items_at i (compact_pointers_ e)) as [->|Hin].
    { destruct (items_at i (compact_pointers_ e)) as [|k ks _] using rev_ind; [by left|]. right. rewrite foldl_app. cbn. apply elem_of_app. right. by left. }
    + rewrite Forall_lookup in Hk. by apply (Hk i).
    + right. revert Hin. generalize (foldl (fun _ k : str => k) a (items_at i (compact_pointers_ e))). intros x Hin. unfold items_at in Hin. apply list_elem_of_fmap in Hin as ([l k] & -> & Hin). rewrite list_elem_of_In in Hin. apply filter_In in Hin as [Hin _].
      pose proof (eo_pointers _ He) as H'. rewrite Forall_forall in H'. apply list_elem_of_In in Hin. by destruct (H' _ Hin).
Qed.

Abbreviation LogEdit := (LogAndApply (E := E) (F := str) (C := C) comparator_name).

(** A version set before its first edit: no descriptor log yet. *)
Definition unlogged vs used : Prop :=
  descriptor_log_ vs = None /\ saved_ok (current_ vs) (compact_pointer_ vs) /\ used = files_used (current_ vs).

(** [Apply] works on the pointers and on the levels apart. *)
Lemma Apply_pointers b ps e b' ps' : Builder.Apply (C := C) b ps e = Ret (b', ps') ->
  foldR Builder.set_pointer ps (compact_pointers_ e) = Ret ps' /\
  forall qs qs', foldR Builder.set_pointer qs (compact_pointers_ e) = Ret qs' -> Builder.Apply (C := C) b qs e = Ret (b', qs').
Proof.
  unfold Builder.Apply. destruct (foldR Builder.set_pointer ps _) as [p| |]; [|done..]. cbn [mbind result_bind].
  destruct (foldR Builder.delete_file _ _) as [l1| |]; [|done..]. cbn [mbind result_bind]. destruct (foldR Builder.add_file _ _) as [l2| |]; [|done..]. cbn [mbind result_bind].
  intros [= <- <-]. split; [done|]. intros qs qs' ->. done.
Qed.

Context (Hnew : forall env name env' s f, env_NewWritableFile env name = (env', s, Some f) -> f = []).

(** The log an edit goes to: it holds what the version set had before. *)
Lemma open_descriptor_logged vs vs1 env used e env' w s name :
  (unlogged vs used \/ exists next last, logged vs used next last) -> edit_ok e ->
  foldR Builder.set_pointer (compact_pointer_ vs) (compact_pointers_ e) = Ret (compact_pointer_ vs1) ->
  descriptor_log_ vs1 = descriptor_log_ vs -> current_ vs1 = current_ vs ->
  open_descriptor comparator_name vs1 env = Ret (env', Some w, s, name) -> Status.ok s = true ->
  exists recs rc ps, add_all (Writer.make []) recs = Ret w /\ read_records recs = Ret rc /\
    agrees rc (current_ vs) ps used /\ foldR Builder.set_pointer ps (compact_pointers_ e) = Ret (compact_pointer_ vs1).
Proof.
  intros Hstart He Hptr Hlog Hcur. unfold open_descriptor. rewrite Hlog. destruct Hstart as [(-> & Hsv & ->)|(next & last & recs & w' & rc & -> & Hw & Hr & Hag & _)].
  - destruct (DescriptorFileName _ _) as [nm| |]; [|done..]. cbn [mbind result_bind].
    destruct (env_NewWritableFile env nm) as [[env2 s2] [f|]] eqn:Enew; [|done]. destruct (Status.ok s2) eqn:Es2; [|done]. apply Hnew in Enew as ->.
    destruct (pointers_twice _ _ e He (proj1 (sv_pointers _ _ Hsv)) Hptr) as (Htwice & Hlen & Hkeys).
    assert (saved_ok (current_ vs1) (compact_pointer_ vs1)) as Hsv1.
    { rewrite Hcur. destruct Hsv as [? ? ? ? [_ ?] ?]. split; try done. split; [done|auto]. }
    destruct (snapshot_agrees vs1 Hsv1) as (record & rc & Henc & Hrec & Hag & _). unfold WriteSnapshot. rewrite Henc. cbn [mbind result_bind].
    destruct (AddRecord_ok [] (Writer.make []) record eq_refl) as (w1 & -> & Hw1). cbn [mbind result_bind]. intros [= <- <- <- <-] _.
    exists [record], rc, (compact_pointer_ vs1). rewrite Hcur in Hag. split; [done|]. split; [|by split]. by apply (read_records_snoc [] record nothing_read rc).
  - intros [= <- <- <- <-] _. by exists recs, rc, (compact_pointer_ vs).
Qed.

(** An edit that is logged: applied to the version it gives the new one, and read back
    it gives the same. *)
Lemma LogAndApply_logged vs env used e e' vs' env' :
  (unlogged vs used \/ exists next last, logged vs used next last) ->
  complete_edit vs e = Ret e' -> edit_ok e' -> names_comparator e' -> NoDup (used ++ added_by e) ->
  LogEdit vs env e = Ret (vs', env', Status.OK) ->
  logged vs' (used ++ added_by e) (next_file_number_ vs') (last_sequence_ vs').
Proof.
  intros Hstart Hce He Hn Hnd. destruct (complete_edit_has _ _ _ Hce) as (H1 & H2 & H3 & H4 & H5 & H6 & H7).
  assert (added_by e = added_by e') as Hadd by (unfold added_by; by rewrite H7). rewrite Hadd in *. unfold LogAndApply. rewrite Hce. cbn [mbind result_bind].
  destruct (Builder.Apply _ _ e') as [[b ps']| |] eqn:HA; [|done..]. cbn [mbind result_bind]. destruct (Builder.SaveTo b) as [v'| |] eqn:HS; [|done..]. cbn [mbind result_bind].
  destruct (Finalize v') as [score level]. set (vs1 := mkSet _ _ _ _ _ _ _ _ _ _ ps'). destruct (Apply_pointers _ _ _ _ _ HA) as [Hptr HA'].
  destruct (open_descriptor comparator_name vs1 env) as [[[[env1 log] s1] name]| |] eqn:Hopen; [|done..]. cbn [mbind result_bind].
  destruct (log_edit log e' s1) as [[log' s2]| |] eqn:Hedit; [|done..]. cbn [mbind result_bind].
  destruct (match name with Some _ => _ | None => _ end) as [[env2 s3]| |] eqn:Hcur; [|done..]. cbn [mbind result_bind].
  assert (Status.ok s3 = true -> Status.ok s2 = true) as Hs32.
  { intros Hs3. destruct (Status.ok s2) eqn:Es2; [done|]. destruct name; try rewrite Es2 in Hcur; injection Hcur as _ <-; congruence. }
  destruct (Status.ok s3) eqn:Es3; [|destruct name; intros H; injection H as _ _ ->; done]. intros H. injection H as <- <- ->.
  specialize (Hs32 eq_refl). destruct (Status.ok s1) eqn:Es1.
  2: { unfold log_edit in Hedit. rewrite Es1 in Hedit. destruct log; injection Hedit as <- <-; congruence. }
  destruct log as [w|]; [|unfold log_edit in Hedit; by rewrite Es1 in Hedit]. assert (s1 = Status.OK) as -> by (by destruct s1).
  destruct (open_descriptor_logged vs vs1 env used e' env1 w Status.OK name Hstart He Hptr eq_refl eq_refl Hopen Es1) as (recs & rc & ps & Hw & Hr & Hag & Hps).
  destruct (record_agrees rc (current_ vs) ps used e' b ps' v' Hag He Hn Hnd (HA' ps ps' Hps) HS) as (record & rc' & Henc & Hrec & Hag' & N1 & N2 & N3 & N4).
  destruct (log_edit_ok recs w e' record log' s2 Hw Henc Hedit) as (_ & w1 & -> & Hw1).
  exists (recs ++ [record]), w1, rc'. cbn [descriptor_log_ current_ compact_pointer_ log_number_ prev_log_number_ next_file_number_ last_sequence_].
  split; [done|]. split; [done|]. split; [by eapply read_records_snoc|]. split; [done|]. rewrite N1, N2, N3, N4, H1, H2, H3, H4. cbn [note_number]. by rewrite H5, H6.
Qed.

(** *** The life of a version set *)

Definition with_current vs v : VersionSet str :=
  mkSet (dbname_ vs) (next_file_number_ vs) (manifest_file_number_ vs) (last_sequence_ vs) (log_number_ vs) (prev_log_number_ vs)
    (descriptor_log_ vs) v (compaction_score_ vs) (compaction_level_ vs) (compact_pointer_ vs).

(** A version set with its environment, the levels and numbers of all files its log
    names, and the next file number and last sequence number when it was last written. *)
Record life := mkLife { l_set : VersionSet str; l_env : E; l_used : list (Z * Z); l_next : Z; l_last : Z }.

(** What happens to it: edits are logged, which never add a file number to a level
    again; file numbers are taken, sequence numbers used and seeks charged. *)
Inductive live_step : life -> life -> Prop :=
  | step_log vs env used next last e e' vs' env' :
      complete_edit vs e = Ret e' -> edit_ok e' -> names_comparator e' -> NoDup (used ++ added_by e) ->
      LogEdit vs env e = Ret (vs', env', Status.OK) ->
      live_step (mkLife vs env used next last) (mkLife vs' env' (used ++ added_by e) (next_file_number_ vs') (last_sequence_ vs'))
  | step_number vs env used next last :
      live_step (mkLife vs env used next last) (mkLife (snd (NewFileNumber vs)) env used next last)
  | step_sequence vs env used next last s vs' :
      SetLastSequence vs s = Ret vs' -> live_step (mkLife vs env used next last) (mkLife vs' env used next last)
  | step_stats vs env used next last stats :
      live_step (mkLife vs env used next last) (mkLife (with_current vs (fst (Version.UpdateStats (current_ vs) stats))) env used next last).

Definition life_logged (x : life) : Prop := logged (l_set x) (l_used x) (l_next x) (l_last x).

Lemma agrees_charge rc v v' ps used n : agrees rc v ps used -> Version.files_ v' = map (map (Version.charge n)) (Version.files_ v) -> agrees rc v' ps used.
Proof.
  intros [? ? Hv ? Hf ?] Ev. split; try done; [by rewrite Ev, length_map|]. intros i gs l Hgs Hl. rewrite Ev, list_lookup_fmap in Hgs. apply fmap_Some in Hgs as (fs & Hfs & ->).
  destruct (Hf i fs l Hfs Hl) as ([Hn ? ? ?] & Hu & Hd).
  assert (forall f, norm (Version.charge n f) = norm f) as Hc by (intros f; unfold Version.charge; by destruct (number f =? n)).
  split; [|split; [done|]].
  - split; try done. rewrite map_map. rewrite <- Hn. by apply map_ext.
  - intros Hi. rewrite <- no_overlap_norm, map_map. rewrite (map_ext _ norm) by done. rewrite no_overlap_norm. by apply Hd.
Qed.

Lemma live_step_logged x y : live_step x y -> life_logged x -> life_logged y.
Proof.
  intros Hstep Hx. destruct Hstep as [vs env used next last e e' vs' env' Hce He Hn Hnd Hlog|vs env used next last|vs env used next last s vs' Hs|vs env used next last stats];
    unfold life_logged in *; cbn [l_set l_used l_next l_last] in *.
  - apply (LogAndApply_logged vs env used e e' vs' env'); [right; by exists next, last|done..].
  - exact Hx.
  - unfold SetLastSequence in Hs. destruct (last_sequence_ vs <=? s); [|done]. by injection Hs as <-.
  - destruct Hx as (recs & w & rc & ? & ? & ? & Hag & ?). exists recs, w, rc. cbn [descriptor_log_ current_ compact_pointer_ log_number_ prev_log_number_ with_current].
    split; [done|]. split; [done|]. split; [done|]. split; [|done]. destruct stats as [[f level]|]; cbn [Version.UpdateStats]; [|done].
    destruct (Version.file_to_compact_ (current_ vs)) as [g|]; [|destruct (allowed_seeks _ <=? 0)]; cbn [fst]; by eapply agrees_charge.
Qed.

(** *** Recovery *)

Lemma recover_loop_ok recs : forall fuel r rc rc', reads_as fuel r recs -> Reader.reporter_ r = Some [] ->
  foldR (fun rc rec => q ← recover_record (C := C) comparator_name rc rec; if Status.ok (snd q) then Ret (fst q) else Crash AssertFailed) rc recs = Ret rc' ->
  recover_loop (C := C) comparator_name fuel rc Status.OK r = Ret (rc', Status.OK).
Proof.
  induction recs as [|rec recs IH]; intros [|fuel] r rc rc'; cbn [reads_as]; try done; cbn [foldR recover_loop].
  - intros (r' & -> & Hrep) Hr [= <-]. cbn [mbind result_bind]. rewrite take_no_reports by congruence. done.
  - intros (r' & -> & Hrep & Hrest) Hr Hf. cbn [mbind result_bind]. rewrite take_no_reports by congruence. cbn [map foldl].
    change (Status.ok Status.OK) with true. cbn [negb]. destruct (recover_record _ rc rec) as [[rc1 s]| |]; [|done..]. cbn [mbind result_bind snd fst] in Hf |- *.
    destruct (Status.ok s) eqn:Es; [|done]. cbn [mbind result_bind] in Hf. assert (s = Status.OK) as -> by (by destruct s). by apply IH; [|congruence|].
Qed.

(** What [SaveTo] makes of the levels that were read. *)
Lemma SaveTo_agrees rc v ps used : agrees rc v ps used ->
  Builder.SaveTo (C := C) (r_builder rc) = Ret (Version.mkVersion (map (map norm) (Version.files_ v)) None (-1)).
Proof.
  intros [Hb Hl Hv _ Hf _]. unfold Builder.SaveTo. rewrite Hb.
  assert (Builder.save_levels (C := C) 0 (Version.files_ Version.make) (Builder.levels_ (r_builder rc)) = Ret (map (map norm) (Version.files_ v))) as ->; [|done].
  apply save_levels_ok. cbn [Version.files_ Version.make]. rewrite length_replicate, length_map. split; [done|]. split; [congruence|]. intros i b l Hbi Hli.
  apply make_lookup in Hbi as ->. pose proof (lookup_lt_Some _ _ _ Hli) as Hlt. destruct (lookup_lt_is_Some_2 (Version.files_ v) i) as [fs Hfs]; [lia|].
  destruct (Hf i fs l Hfs Hli) as ([Hn Hs _ Hnum] & _ & Hd). unfold level_result.
  destruct (merged_ok C (Builder.added_files l) [] ltac:(constructor) Hs Hnum) as [Hms Hmp]. cbn [app] in Hmp.
  rewrite (file_sorted_unique C _ _ Hms Hs Hmp), <- Hn, list_lookup_fmap, Hfs. split; [done|]. intros Hi. rewrite no_overlap_norm. by apply Hd.
Qed.

(** Before the first edit too. *)
Definition life_ok (x : life) : Prop := unlogged (l_set x) (l_used x) \/ life_logged x.

Lemma files_from_charge n levels : forall m, files_from m (map (map (Version.charge n)) levels) = files_from m levels.
Proof.
  induction levels as [|fs levels IH]; intros m; [done|]. cbn [map files_from]. rewrite IH, map_map. f_equal. apply map_ext. intros f.
  unfold Version.charge. by destruct (number f =? n).
Qed.

Lemma saved_ok_charge v v' ps n : saved_ok v ps -> Version.files_ v' = map (map (Version.charge n)) (Version.files_ v) ->
  saved_ok v' ps /\ files_used v' = files_used v.
Proof.
  intros [Hl Hs Hu Hf ? ?] Ev. assert (files_used v' = files_used v) as Eu by (unfold files_used; by rewrite Ev, files_from_charge).
  assert (forall f, smallest (Version.charge n f) = smallest f /\ largest (Version.charge n f) = largest f /\ number (Version.charge n f) = number f /\ file_size (Version.charge n f) = file_size f) as Hc.
  { intros f. unfold Version.charge. by destruct (number f =? n). }
  split; [|done]. split; [by rewrite Ev, length_map| |by rewrite Eu| |done|done].
  - intros i gs Hgs. rewrite Ev, list_lookup_fmap in Hgs. apply fmap_Some in Hgs as (fs & Hfs & ->). destruct (Hs i fs Hfs) as [Hst Hd]. split.
    + clear -Hst Hc. induction Hst as [|f fs Hst IH Hf]; [constructor|]. cbn [map]. constructor; [done|]. apply Forall_map. eapply Forall_impl; [exact Hf|].
      intros g. unfold before, Builder.BySmallestKey. destruct (Hc f) as (-> & _ & -> & _), (Hc g) as (-> & _ & -> & _). done.
    + intros Hi. rewrite <- no_overlap_norm, map_map, (map_ext _ norm), no_overlap_norm; [by apply Hd|]. intros f. unfold norm. destruct (Hc f) as (-> & -> & -> & ->). done.
  - intros gs g Hgs Hg. rewrite Ev in Hgs. apply list_elem_of_fmap in Hgs as (fs & -> & Hfs). apply list_elem_of_fmap in Hg as (f & -> & Hff).
    destruct (Hc f) as (-> & -> & -> & ->). by apply (Hf fs).
Qed.

Lemma live_step_ok x y : live_step x y -> life_ok x -> life_ok y.
Proof.
  intros Hstep [Hx|Hx]; [|right; by eapply live_step_logged]. destruct Hstep as [vs env used next last e e' vs' env' Hce He Hn Hnd Hlog|vs env used next last|vs env used next last s vs' Hs|vs env used next last stats];
    cbn [l_set l_used] in Hx.
  - right. apply (LogAndApply_logged vs env used e e' vs' env'); [by left|done..].
  - left. exact Hx.
  - left. unfold SetLastSequence in Hs. destruct (last_sequence_ vs <=? s); [|done]. by injection Hs as <-.
  - left. destruct Hx as (Hd & Hsv & ->). unfold unlogged. cbn [l_set l_used descriptor_log_ current_ compact_pointer_ with_current]. split; [done|].
    destruct stats as [[f level]|]; cbn [Version.UpdateStats]; [|done].
    destruct (Version.file_to_compact_ (current_ vs)) as [g|]; [|destruct (allowed_seeks _ <=? 0)]; cbn [fst];
      (edestruct saved_ok_charge as [? Eu]; [exact Hsv| |split; [eassumption|by rewrite Eu]]; done).
Qed.

Lemma lives_ok x y : rtc live_step x y -> life_ok x -> life_ok y.
Proof. induction 1; [done|]. intros Hx. apply IHrtc. by eapply live_step_ok. Qed.


End manifest.

(** ** Witness: two edits *)

(** Files by name; new files are empty, and nothing fails. *)
#[export] Instance demo_env : Env (list (str * str)) str := {
  env_NewWritableFile env _ := (env, Status.OK, Some []);
  env_NewAppendableFile env _ := (env, Status.OK, Some []);
  env_Close env _ := (env, Status.OK);
  env_NewSequentialFile env name :=
    match List.find (fun p => bool_decide (fst p = name)) env with
    | Some (_, data) => (Status.OK, Some data)
    | None => (Status.NotFound name [], None)
    end;
  env_GetFileSize env name := (Status.NotFound name [], 0);
  env_RenameFile env _ _ := (env, Status.OK);
  env_RemoveFile env _ := (env, Status.OK);
  env_GetChildren env _ := (Status.OK, map fst env);
  env_FileExists env name := existsb (fun p => bool_decide (fst p = name)) env;
  env_CreateDir env _ := (env, Status.OK);
  env_RemoveDir env _ := (env, Status.OK);
  env_LockFile env _ := (env, Status.OK);
  env_UnlockFile env _ := (env, Status.OK);
  env_NowMicros env := (env, 0)
}.

Definition bytewise_name : str := $"leveldb.BytewiseComparator".
Abbreviation demo_set := (VersionSet.VersionSet str).
Definition demo_start : demo_set :=
  VersionSet.mkSet ($"/db") 3 1 0 0 0 None Version.make (SFopp (double_of_int 1)) (-1) (replicate (Z.to_nat kNumLevels) []).
Definition demo_edit_1 : VersionEdit := AddFile 0 5 4096 (ikey ($"a") 3) (ikey ($"k") 4) (AddFile 0 4 100 (ikey ($"b") 1) (ikey ($"z") 2) Clear).
Definition demo_edit_2 : VersionEdit :=
  AddFile 1 7 200 (ikey ($"a") 3) (ikey ($"c") 4) (RemoveFile 0 5 (SetCompactPointer 0 (ikey ($"k") 4) (SetLogNumber 2 Clear))).
Definition demo_apply (vs : demo_set) (e : VersionEdit) : demo_set :=
  match VersionSet.LogAndApply (C := BytewiseComparator) bytewise_name vs ([] : list (str * str)) e with Ret (vs, _, _) => vs | _ => vs end.
Definition demo_full_1 : VersionEdit := SetLastSequence 0 (SetNextFile 3 (SetPrevLogNumber 0 (SetLogNumber 0 demo_edit_1))).
Definition demo_full_2 : VersionEdit := SetLastSequence 0 (SetNextFile 4 (SetPrevLogNumber 0 demo_edit_2)).
Definition demo_mid : demo_set := snd (VersionSet.NewFileNumber (demo_apply demo_start demo_edit_1)).
Definition demo_end : demo_set := demo_apply demo_mid demo_edit_2.
Definition demo_log : Writer.Writer str := default (Writer.make []) (VersionSet.descriptor_log_ demo_end).

Lemma demo_start_ok : unlogged BytewiseComparator bytewise_name demo_start (files_used (VersionSet.current_ demo_start)).
Proof.
  split; [done|]. split; [|done]. split; try done.
  - intros i fs Hi. apply make_lookup in Hi as ->. split; [constructor|done].
  - constructor.
  - intros fs f Hfs Hf. apply list_elem_of_lookup in Hfs as [i Hi]. apply make_lookup in Hi as ->. by apply elem_of_nil in Hf.
  - split; [done|]. apply Forall_forall. intros k Hk. apply list_elem_of_lookup in Hk as [i Hi]. cbn [VersionSet.compact_pointer_ demo_start VersionSet.make] in Hi.
    apply lookup_replicate in Hi as [-> _]. by left.
Qed.

Ltac edit_ok_tac := split; cbn; try done; repeat first [apply Forall_cons; split | apply Forall_nil | split | apply ikey_key_ok]; done.

Lemma demo_full_1_ok : edit_ok demo_full_1.
Proof. edit_ok_tac. Qed.
Lemma demo_full_2_ok : edit_ok demo_full_2.
Proof. edit_ok_tac. Qed.

