(* ===== verification/LruCache.v ===== *)
(** * leveldb: the LRU cache

    [util/cache.cc].  An [LRUHandle*] is a number; the handles that are allocated live
    in a heap, and reading one that was freed is the outcome [Crash NullDeref].  The
    chains of the hash table and the two circular lists are lists of handles, the
    oldest entry first.  Values that were given to the deleter are recorded. *)

From Stdlib Require Import ZArith Lia.
From S2P Require Import Prelude CString World Coding SliceStatus FilterPolicy Table Version VersionSet.

Record LRUHandle (V : Type) := mkHandle {
  value : V;
  charge : Z;
  key : str;
  in_cache : bool;
  refs : Z;
  hash : Z
}.
Arguments mkHandle {V} _ _ _ _ _ _.
Arguments value {V} _.
Arguments charge {V} _.
Arguments key {V} _.
Arguments in_cache {V} _.
Arguments refs {V} _.
Arguments hash {V} _.

Section heap.
Context {V : Type}.
Abbreviation heap := (gmap nat (LRUHandle V)).

(** [*h] *)
Definition deref (m : heap) (h : nat) : result (LRUHandle V) := match m !! h with Some e => Ret e | None => Crash NullDeref end.

Definition set_refs (e : LRUHandle V) (n : Z) : LRUHandle V := mkHandle (value e) (charge e) (key e) (in_cache e) n (hash e).
Definition set_in_cache (e : LRUHandle V) (b : bool) : LRUHandle V := mkHandle (value e) (charge e) (key e) b (refs e) (hash e).
End heap.

Module HandleTable.

Record HandleTable := mkTable { length_ : Z; elems_ : Z; list_ : list (list nat) }.

Section ops.
Context {V : Type}.
Implicit Types (m : gmap nat (LRUHandle V)) (t : HandleTable) (chain : list nat).

(** [hash & (length - 1)] *)
Definition slot (length : Z) (hash : Z) : Z := Z.land hash (u32 (length - 1)).

(** The place in a chain that [FindPointer] ends at. *)
Fixpoint find_in_chain m (k : str) (h : Z) chain : result nat :=
  match chain with
  | [] => Ret O
  | p :: chain =>
      e ← deref m p;
      if (hash e =? h) && bool_decide (k = key e) then Ret O
      else n ← find_in_chain m k h chain; Ret (S n)
  end.

Definition FindPointer m t (k : str) (h : Z) : result (list nat * nat) :=
  chain ← vec_at (list_ t) (slot (length_ t) h);
  n ← find_in_chain m k h chain;
  Ret (chain, n).

Definition Lookup m t (k : str) (h : Z) : result (option nat) :=
  q ← FindPointer m t k h;
  Ret (fst q !! snd q).

(** [while (new_length < elems_) new_length *= 2] on 32 bits *)
Fixpoint grow (fuel : nat) (new_length elems : Z) : result Z :=
  if new_length <? elems then
    match fuel with O => Crash OutOfFuel | S fuel => grow fuel (u32 (new_length * 2)) elems end
  else Ret new_length.

(** One handle goes to the front of its new chain. *)
Definition rehash m (new_length : Z) (lists : list (list nat)) (p : nat) : result (list (list nat)) :=
  e ← deref m p;
  vec_update lists (slot new_length (hash e)) (fun chain => p :: chain).

Definition Resize m t : result HandleTable :=
  new_length ← grow 32 4 (elems_ t);
  new_list ← foldR (foldR (rehash m new_length)) (replicate (Z.to_nat new_length) []) (list_ t);
  if elems_ t =? u32 (Z.of_nat (length (concat (list_ t)))) then Ret (mkTable new_length (elems_ t) new_list)
  else Crash AssertFailed.

Definition make m : result HandleTable := Resize m (mkTable 0 0 []).

(** The old entry, which the new one replaces in its chain *)
Definition Insert m t (p : nat) : result (HandleTable * option nat) :=
  e ← deref m p;
  q ← FindPointer m t (key e) (hash e);
  let '(chain, n) := (q : list nat * nat) in
  lists ← vec_update (list_ t) (slot (length_ t) (hash e)) (fun _ => take n chain ++ p :: drop (S n) chain);
  match chain !! n with
  | Some old => Ret (mkTable (length_ t) (elems_ t) lists, Some old)
  | None =>
      let t := mkTable (length_ t) (u32 (elems_ t + 1)) lists in
      t ← (if length_ t <? elems_ t then Resize m t else Ret t);
      Ret (t, None)
  end.

Definition Remove m t (k : str) (h : Z) : result (HandleTable * option nat) :=
  q ← FindPointer m t k h;
  let '(chain, n) := (q : list nat * nat) in
  match chain !! n with
  | Some p =>
      lists ← vec_update (list_ t) (slot (length_ t) h) (fun _ => take n chain ++ drop (S n) chain);
      Ret (mkTable (length_ t) (u32 (elems_ t - 1)) lists, Some p)
  | None => Ret (t, None)
  end.

End ops.
End HandleTable.

Module LRUCache.

Record LRUCache (V : Type) := mkCache {
  capacity_ : Z;
  usage_ : Z;
  lru_ : list nat;
  in_use_ : list nat;
  table_ : HandleTable.HandleTable;
  mem : gmap nat (LRUHandle V);
  fresh : nat;
  deleted : list (str * V)
}.
Arguments mkCache {V} _ _ _ _ _ _ _ _.
Arguments capacity_ {V} _.
Arguments usage_ {V} _.
Arguments lru_ {V} _.
Arguments in_use_ {V} _.
Arguments table_ {V} _.
Arguments mem {V} _.
Arguments fresh {V} _.
Arguments deleted {V} _.

Section ops.
Context {V : Type}.
Implicit Types (c : LRUCache V) (p : nat) (e : LRUHandle V).

Definition set_lists c (lru in_use : list nat) : LRUCache V := mkCache (capacity_ c) (usage_ c) lru in_use (table_ c) (mem c) (fresh c) (deleted c).
Definition set_table c (t : HandleTable.HandleTable) : LRUCache V := mkCache (capacity_ c) (usage_ c) (lru_ c) (in_use_ c) t (mem c) (fresh c) (deleted c).
Definition set_usage c (n : Z) : LRUCache V := mkCache (capacity_ c) n (lru_ c) (in_use_ c) (table_ c) (mem c) (fresh c) (deleted c).
Definition store c p e : LRUCache V := mkCache (capacity_ c) (usage_ c) (lru_ c) (in_use_ c) (table_ c) (<[p := e]> (mem c)) (fresh c) (deleted c).

(** [LRUCache()] and [SetCapacity] *)
Definition make (capacity : Z) : result (LRUCache V) :=
  t ← HandleTable.make (∅ : gmap nat (LRUHandle V));
  Ret (mkCache capacity 0 [] [] t ∅ O []).

Definition unlink p (l : list nat) : list nat := filter (fun q => q <> p) l.

Definition LRU_Remove c p : LRUCache V := set_lists c (unlink p (lru_ c)) (unlink p (in_use_ c)).
Definition append_lru c p : LRUCache V := set_lists c (lru_ c ++ [p]) (in_use_ c).
Definition append_in_use c p : LRUCache V := set_lists c (lru_ c) (in_use_ c ++ [p]).

Definition Ref c p : result (LRUCache V) :=
  e ← deref (mem c) p;
  let c := if (refs e =? 1) && in_cache e then append_in_use (LRU_Remove c p) p else c in
  Ret (store c p (set_refs e (u32 (refs e + 1)))).

(** The entry is given to its deleter and freed. *)
Definition delete_entry c p e : LRUCache V :=
  mkCache (capacity_ c) (usage_ c) (lru_ c) (in_use_ c) (table_ c) (delete p (mem c)) (fresh c) (deleted c ++ [(key e, value e)]).

Definition Unref c p : result (LRUCache V) :=
  e ← deref (mem c) p;
  if negb (0 <? refs e) then Crash AssertFailed
  else
    let e := set_refs e (refs e - 1) in
    let c := store c p e in
    if refs e =? 0 then if in_cache e then Crash AssertFailed else Ret (delete_entry c p e)
    else if in_cache e && (refs e =? 1) then Ret (append_lru (LRU_Remove c p) p)
    else Ret c.

Definition FinishErase c (o : option nat) : result (LRUCache V * bool) :=
  match o with
  | None => Ret (c, false)
  | Some p =>
      e ← deref (mem c) p;
      if negb (in_cache e) then Crash AssertFailed
      else
        let c := LRU_Remove c p in
        let c := store c p (set_in_cache e false) in
        let c := set_usage c (u64 (usage_ c - charge e)) in
        c ← Unref c p;
        Ret (c, true)
  end.

Definition Lookup c (k : str) (h : Z) : result (option nat * LRUCache V) :=
  o ← HandleTable.Lookup (mem c) (table_ c) k h;
  match o with
  | Some p => c ← Ref c p; Ret (Some p, c)
  | None => Ret (None, c)
  end.

Definition Release c p : result (LRUCache V) := Unref c p.

(** [FinishErase(table_.Remove(...))] *)
Definition erase c (k : str) (h : Z) : result (LRUCache V * bool) :=
  q ← HandleTable.Remove (mem c) (table_ c) k h;
  FinishErase (set_table c (fst q)) (snd q).

(** The oldest entry that is not in use is removed. *)
Definition evict_oldest c p : result (LRUCache V) :=
  e ← deref (mem c) p;
  if negb (refs e =? 1) then Crash AssertFailed
  else
    q ← erase c (key e) (hash e);
    if (snd q : bool) then Ret (fst q) else Crash AssertFailed.

(** [while (usage_ > capacity_ && lru_.next != &lru_)] *)
Fixpoint evict (fuel : nat) c : result (LRUCache V) :=
  match lru_ c with
  | p :: _ =>
      if capacity_ c <? usage_ c then
        match fuel with O => Crash OutOfFuel | S fuel => c ← evict_oldest c p; evict fuel c end
      else Ret c
  | [] => Ret c
  end.

Definition Insert c (k : str) (h : Z) (v : V) (charge : Z) : result (nat * LRUCache V) :=
  let p := fresh c in
  let c := mkCache (capacity_ c) (usage_ c) (lru_ c) (in_use_ c) (table_ c) (mem c) (S p) (deleted c) in
  let e := mkHandle v charge k false 1 h in
  c ← ((if 0 <? capacity_ c then
         let c := store c p (set_in_cache (set_refs e 2) true) in
         let c := append_in_use c p in
         let c := set_usage c (u64 (usage_ c + charge)) in
         q ← HandleTable.Insert (mem c) (table_ c) p;
         q ← FinishErase (set_table c (fst q)) (snd q);
         Ret (fst q)
       else Ret (store c p e)) : result (LRUCache V));
  c ← evict (length (lru_ c)) c;
  Ret (p, c).

Definition Erase c (k : str) (h : Z) : result (LRUCache V) := q ← erase c k h; Ret (fst q).

(** [while (lru_.next != &lru_)] *)
Fixpoint prune (fuel : nat) c : result (LRUCache V) :=
  match lru_ c with
  | p :: _ => match fuel with O => Crash OutOfFuel | S fuel => c ← evict_oldest c p; prune fuel c end
  | [] => Ret c
  end.

Definition Prune c : result (LRUCache V) := prune (length (lru_ c)) c.

Definition TotalCharge c : Z := usage_ c.

(** One turn of [~LRUCache()] *)
Definition destroy_entry c p : result (LRUCache V) :=
  e ← deref (mem c) p;
  if in_cache e && (refs e =? 1) then Unref (store c p (set_in_cache e false)) p else Crash AssertFailed.

Definition destroy c : result (LRUCache V) :=
  match in_use_ c with
  | [] => foldR destroy_entry c (lru_ c)
  | _ => Crash AssertFailed
  end.

End ops.
End LRUCache.

Module ShardedLRUCache.

Definition kNumShardBits : Z := 4.
Definition kNumShards : Z := Z.shiftl 1 kNumShardBits.

Record ShardedLRUCache (V : Type) := mkSharded { shard_ : list (LRUCache.LRUCache V); last_id_ : Z }.
Arguments mkSharded {V} _ _.
Arguments shard_ {V} _.
Arguments last_id_ {V} _.

(** A handle with the hash it stores, which selects its shard. *)
Record Handle := mkRef { h_hash : Z; h_id : nat }.

Definition HashSlice (s : str) : Z := Hash s 0.
Definition Shard (h : Z) : Z := Z.shiftr h (32 - kNumShardBits).

Section ops.
Context {V : Type}.
Implicit Types (c : ShardedLRUCache V) (k : str).

Definition NewLRUCache (capacity : Z) : result (ShardedLRUCache V) :=
  shard ← LRUCache.make (u64 (capacity + (kNumShards - 1)) / kNumShards);
  Ret (mkSharded (replicate (Z.to_nat kNumShards) shard) 0).

Definition set_shard c (i : Z) (s : LRUCache.LRUCache V) : ShardedLRUCache V := mkSharded (<[Z.to_nat i := s]> (shard_ c)) (last_id_ c).

Definition Insert c k (v : V) (charge : Z) : result (Handle * ShardedLRUCache V) :=
  let h := HashSlice k in
  s ← vec_at (shard_ c) (Shard h);
  q ← LRUCache.Insert s k h v charge;
  let '(p, s) := (q : nat * LRUCache.LRUCache V) in
  Ret (mkRef h p, set_shard c (Shard h) s).

Definition Lookup c k : result (option Handle * ShardedLRUCache V) :=
  let h := HashSlice k in
  s ← vec_at (shard_ c) (Shard h);
  q ← LRUCache.Lookup s k h;
  let '(o, s) := (q : option nat * LRUCache.LRUCache V) in
  Ret (mkRef h <$> o, set_shard c (Shard h) s).

Definition Release c (r : Handle) : result (ShardedLRUCache V) :=
  s ← vec_at (shard_ c) (Shard (h_hash r));
  s ← LRUCache.Release s (h_id r);
  Ret (set_shard c (Shard (h_hash r)) s).

Definition Erase c k : result (ShardedLRUCache V) :=
  let h := HashSlice k in
  s ← vec_at (shard_ c) (Shard h);
  s ← LRUCache.Erase s k h;
  Ret (set_shard c (Shard h) s).

Definition Value c (r : Handle) : result V :=
  s ← vec_at (shard_ c) (Shard (h_hash r));
  e ← deref (LRUCache.mem s) (h_id r);
  Ret (value e).

Definition NewId c : Z * ShardedLRUCache V :=
  let id := u64 (last_id_ c + 1) in (id, mkSharded (shard_ c) id).

Definition Prune c : result (ShardedLRUCache V) :=
  shards ← foldR (fun l s => s ← LRUCache.Prune s; Ret (l ++ [s])) [] (shard_ c);
  Ret (mkSharded shards (last_id_ c)).

Definition TotalCharge c : Z := foldl (fun n s => u64 (n + LRUCache.TotalCharge s)) 0 (shard_ c).

Definition destroy c : result (list (LRUCache.LRUCache V)) :=
  foldR (fun l s => s ← LRUCache.destroy s; Ret (l ++ [s])) [] (shard_ c).

End ops.
End ShardedLRUCache.
