(* ===== verification/LruCacheSpec.v ===== *)
(** * The LRU cache keeps its promises

    The hash table finds what was inserted; a shard never fails an assertion, answers a
    lookup with the value that was inserted last and was neither erased nor evicted,
    evicts in least recently used order and only what nobody holds, stays within its
    capacity as far as clients let it, and deletes a value when the last reference to it
    goes. *)

From Stdlib Require Import ZArith Lia Permutation.
From S2P Require Import Prelude CString World Coding SliceStatus FilterPolicy Crc32c Table Version VersionSet VersionSetSpec LruCache.

(** ** The hash table *)

Section table.
Context {V : Type} (hf : str -> Z).
Hypothesis Hhf : forall k, 0 <= hf k < 2 ^ 32.
Implicit Types (m : gmap nat (LRUHandle V)) (t : HandleTable.HandleTable) (hs chain : list nat) (p : nat) (e : LRUHandle V).
Import HandleTable.

Definition holds_at m p : Prop := exists e, m !! p = Some e /\ hash e = hf (key e).

(** The table holds exactly these handles, each in its chain, with different keys. *)
Record table_ok m t hs : Prop := {
  to_length : exists k, 2 <= k <= 31 /\ length_ t = 2 ^ k;
  to_lists : Z.of_nat (length (list_ t)) = length_ t;
  to_chains b chain p : list_ t !! b = Some chain -> p ∈ chain -> exists e, m !! p = Some e /\ hash e = hf (key e) /\ slot (length_ t) (hash e) = Z.of_nat b;
  to_perm : concat (list_ t) ≡ₚ hs;
  to_nodup : NoDup hs;
  to_keys p q e e' : p ∈ hs -> q ∈ hs -> m !! p = Some e -> m !! q = Some e' -> key e = key e' -> p = q;
  to_elems : elems_ t = Z.of_nat (length hs)
}.

Lemma slot_range k h : 2 <= k <= 31 -> 0 <= h -> 0 <= slot (2 ^ k) h < 2 ^ k.
Proof.
  intros Hk Hh. unfold slot. assert (1 < 2 ^ k <= 2 ^ 31) as Hp by (split; [apply Z.pow_gt_1; lia|apply Z.pow_le_mono_r; lia]).
  rewrite wrap_small by lia. replace (2 ^ k - 1) with (Z.ones k) by (rewrite Z.ones_equiv; lia). rewrite Z.land_ones by lia. apply Z.mod_pos_bound. lia.
Qed.

Lemma find_chain_ok m k chain : Forall (holds_at m) chain -> exists n, find_in_chain m k (hf k) chain = Ret n /\
  match chain !! n with
  | Some p => exists e, m !! p = Some e /\ key e = k
  | None => n = length chain /\ forall p e, p ∈ chain -> m !! p = Some e -> key e <> k
  end.
Proof.
  induction 1 as [|p chain (e & Hp & Hh) Hc (n & IHn & IH)]; cbn [find_in_chain].
  - exists O. split; [done|]. split; [done|]. by intros p e ?%elem_of_nil.
  - unfold deref. rewrite Hp. cbn [mbind result_bind]. destruct (bool_decide_reflect (k = key e)) as [->|Hne].
    + rewrite Hh, Z.eqb_refl. exists O. split; [done|]. by exists e.
    + rewrite andb_false_r, IHn. cbn [mbind result_bind]. exists (S n). split; [done|]. cbn. destruct (chain !! n); [done|]. destruct IH as [-> IH]. split; [done|].
      intros q e' [->|Hq]%elem_of_cons Hm; [rewrite Hp in Hm; by injection Hm as <-|by eapply IH].
Qed.

(** The chains without one, and with another in its place. *)
Lemma concat_replace {A} (l : list (list A)) b x : l !! b = Some x -> exists rest, concat l ≡ₚ x ++ rest /\ forall y, concat (<[b := y]> l) ≡ₚ y ++ rest.
Proof.
  intros Hb. exists (concat (take b l) ++ concat (drop (S b) l)). pose proof (lookup_lt_Some _ _ _ Hb). split.
  - rewrite <- (take_drop_middle _ _ _ Hb) at 1. rewrite concat_app. cbn [concat]. solve_Permutation.
  - intros y. rewrite insert_take_drop by done. rewrite concat_app. cbn [concat]. solve_Permutation.
Qed.

Lemma table_elem m t hs b chain p : table_ok m t hs -> list_ t !! b = Some chain -> p ∈ chain -> p ∈ hs.
Proof. intros Ht Hb Hp. rewrite <- (to_perm _ _ _ Ht). apply list_elem_of_In, in_concat. exists chain. rewrite <- !list_elem_of_In. split; [by eapply list_elem_of_lookup_2|done]. Qed.

Lemma table_chain m t hs p : table_ok m t hs -> p ∈ hs -> exists b chain, list_ t !! b = Some chain /\ p ∈ chain.
Proof.
  intros Ht Hp. rewrite <- (to_perm _ _ _ Ht) in Hp. apply list_elem_of_In, in_concat in Hp as (chain & Hc & Hp). rewrite <- !list_elem_of_In in *. apply list_elem_of_lookup in Hc as [b Hb]. by exists b, chain.
Qed.

Lemma FindPointer_ok m t hs k : table_ok m t hs -> exists b chain n, FindPointer m t k (hf k) = Ret (chain, n) /\
  Z.of_nat b = slot (length_ t) (hf k) /\ list_ t !! b = Some chain /\
  match chain !! n with
  | Some p => exists e, m !! p = Some e /\ key e = k
  | None => n = length chain /\ forall p e, p ∈ hs -> m !! p = Some e -> key e <> k
  end.
Proof.
  intros Ht. destruct (to_length _ _ _ Ht) as (j & Hj & Hl). pose proof (slot_range j (hf k) Hj ltac:(apply Hhf)) as Hs. rewrite <- Hl in Hs.
  destruct (lookup_lt_is_Some_2 (list_ t) (Z.to_nat (slot (length_ t) (hf k)))) as [chain Hc]; [pose proof (to_lists _ _ _ Ht); lia|].
  unfold FindPointer. rewrite (vec_at_ok _ _ chain) by (done || lia). cbn [mbind result_bind].
  destruct (find_chain_ok m k chain) as (n & -> & Hn).
  { apply Forall_forall. intros p Hp. destruct (to_chains _ _ _ Ht _ _ p Hc Hp) as (e & ? & ? & _). by exists e. }
  cbn [mbind result_bind]. exists (Z.to_nat (slot (length_ t) (hf k))), chain, n. split; [done|]. split; [lia|]. split; [done|].
  destruct (chain !! n); [done|]. destruct Hn as [-> Hn]. split; [done|]. intros p e Hp Hm Hk. destruct (table_chain m t hs p Ht Hp) as (b & chain' & Hb & Hpc).
  destruct (to_chains _ _ _ Ht b chain' p Hb Hpc) as (e' & Hm' & He & Hsl). rewrite Hm in Hm'. injection Hm' as <-. rewrite He, Hk in Hsl. rewrite Hsl, Nat2Z.id in Hc.
  rewrite Hb in Hc. injection Hc as ->. exact (Hn p e Hpc Hm Hk).
Qed.

Lemma Lookup_table m t hs k : table_ok m t hs -> exists o, Lookup m t k (hf k) = Ret o /\
  match o with
  | Some p => p ∈ hs /\ exists e, m !! p = Some e /\ key e = k
  | None => forall p e, p ∈ hs -> m !! p = Some e -> key e <> k
  end.
Proof.
  intros Ht. destruct (FindPointer_ok m t hs k Ht) as (b & chain & n & Hf & _ & Hb & Hn). unfold Lookup. rewrite Hf. cbn [mbind result_bind fst snd]. eexists. split; [done|].
  destruct (chain !! n) as [p|] eqn:Ep; [|tauto]. split; [|done]. eapply table_elem; [done|exact Hb|by eapply list_elem_of_lookup_2].
Qed.

(** *** Resize *)

Lemma grow_ok fuel : forall j elems, 2 <= j <= 31 -> 31 - j < Z.of_nat fuel -> elems <= 2 ^ 31 -> exists k, 2 <= k <= 31 /\ grow fuel (2 ^ j) elems = Ret (2 ^ k).
Proof.
  induction fuel as [|fuel IH]; intros j elems Hj Hf He; [lia|]. cbn [grow]. destruct (Z.ltb_spec (2 ^ j) elems) as [Hlt|]; [|by exists j].
  assert (j < 31) as Hj31 by (apply (Z.pow_lt_mono_r_iff 2); lia). assert (2 ^ j * 2 = 2 ^ (j + 1)) as E by (rewrite Z.pow_add_r by lia; lia).
  rewrite E, wrap_small by (split; [apply Z.pow_nonneg; lia|apply Z.pow_lt_mono_r; lia]). apply IH; lia.
Qed.

(** The chains while they are filled. *)
Definition filling m (len : Z) (lists : list (list nat)) (ps : list nat) : Prop :=
  Z.of_nat (length lists) = len /\ concat lists ≡ₚ ps /\
  forall b chain p, lists !! b = Some chain -> p ∈ chain -> exists e, m !! p = Some e /\ hash e = hf (key e) /\ slot len (hash e) = Z.of_nat b.

Lemma rehash_ok m k lists ps p : 2 <= k <= 31 -> filling m (2 ^ k) lists ps -> holds_at m p ->
  exists lists', rehash m (2 ^ k) lists p = Ret lists' /\ filling m (2 ^ k) lists' (p :: ps).
Proof.
  intros Hk (Hl & Hp & Hc) (e & He & Hh). unfold rehash, deref. rewrite He. cbn [mbind result_bind]. unfold vec_update.
  pose proof (slot_range k (hash e) Hk ltac:(rewrite Hh; apply Hhf)) as Hs. set (s := slot (2 ^ k) (hash e)) in *.
  destruct (lookup_lt_is_Some_2 lists (Z.to_nat s)) as [chain Hch]; [lia|]. rewrite (vec_at_ok _ _ chain) by (done || lia). cbn [mbind result_bind]. eexists. split; [done|]. split_and!.
  - by rewrite length_insert.
  - destruct (concat_replace lists _ _ Hch) as (rest & H1 & H2). rewrite H2. cbn [app]. by rewrite <- H1, Hp.
  - intros b chain' q Hb Hq. destruct (decide (b = Z.to_nat s)) as [->|Hne]; [|rewrite list_lookup_insert_ne in Hb by done; by eapply Hc].
    rewrite list_lookup_insert_eq in Hb by (by eapply lookup_lt_Some). injection Hb as <-. apply elem_of_cons in Hq as [->|Hq]; [|by eapply Hc].
    exists e. split; [done|]. split; [done|]. unfold s. lia.
Qed.

Lemma rehash_all m k qs : 2 <= k <= 31 -> Forall (holds_at m) qs -> forall lists ps, filling m (2 ^ k) lists ps ->
  exists lists', foldR (rehash m (2 ^ k)) lists qs = Ret lists' /\ filling m (2 ^ k) lists' (rev qs ++ ps).
Proof.
  intros Hk. induction 1 as [|q qs Hq Hqs IH]; intros lists ps Hf; cbn [foldR]; [by exists lists|].
  destruct (rehash_ok m k lists ps q Hk Hf Hq) as (l1 & -> & H1). cbn [mbind result_bind]. destruct (IH l1 _ H1) as (l2 & -> & H2). exists l2. split; [done|].
  cbn [rev]. by rewrite <- app_assoc.
Qed.

Lemma foldR_concat {A B} (f : B -> A -> result B) (ls : list (list A)) : forall b, foldR (foldR f) b ls = foldR f b (concat ls).
Proof. induction ls as [|l ls IH]; intros b; cbn [foldR concat]; [done|]. rewrite foldR_app. destruct (foldR f b l); [cbn [mbind result_bind]; apply IH|done..]. Qed.

Lemma concat_nils n : concat (replicate n ([] : list nat)) = [].
Proof. by induction n. Qed.

(** [Resize] of chains with these handles. *)
Lemma Resize_ok m t hs : concat (list_ t) ≡ₚ hs -> Forall (holds_at m) hs -> NoDup hs -> Z.of_nat (length hs) <= 2 ^ 31 -> elems_ t = Z.of_nat (length hs) ->
  (forall p q e e', p ∈ hs -> q ∈ hs -> m !! p = Some e -> m !! q = Some e' -> key e = key e' -> p = q) ->
  exists t', Resize m t = Ret t' /\ table_ok m t' hs.
Proof.
  intros Hp Hh Hnd Hn He Hk. unfold Resize. destruct (grow_ok 32 2 (elems_ t)) as (k & Hkr & Hg); [lia|lia|lia|]. change (2 ^ 2) with 4 in Hg. rewrite Hg. cbn [mbind result_bind].
  rewrite foldR_concat. destruct (rehash_all m k (concat (list_ t)) Hkr) with (lists := replicate (Z.to_nat (2 ^ k)) ([] : list nat)) (ps := [] : list nat) as (lists & -> & Hl & Hc & Hs).
  { by rewrite Hp. }
  { split_and!; [rewrite length_replicate; rewrite Z2Nat.id by (apply Z.pow_nonneg; lia); done|by rewrite concat_nils|]. intros b chain p Hb Hin. apply lookup_replicate in Hb as [-> _]. by apply elem_of_nil in Hin. }
  cbn [mbind result_bind]. rewrite (Permutation_length Hp), He, wrap_small, Z.eqb_refl by lia. eexists. split; [done|]. split; cbn [length_ elems_ list_]; try done; [by exists k|].
  rewrite Hc, app_nil_r, <- Permutation_rev. done.
Qed.

(** *** Insert and Remove *)

Lemma elem_unlink p q hs : p ∈ LRUCache.unlink q hs <-> p ∈ hs /\ p <> q.
Proof. unfold LRUCache.unlink. rewrite list_elem_of_filter. tauto. Qed.

Lemma unlink_perm q hs : NoDup hs -> q ∈ hs -> hs ≡ₚ q :: LRUCache.unlink q hs.
Proof.
  intros Hnd Hq. apply NoDup_Permutation; [done| |].
  - constructor; [rewrite elem_unlink; tauto|by apply NoDup_filter].
  - intros x. rewrite elem_of_cons, elem_unlink. destruct (decide (x = q)) as [->|]; tauto.
Qed.

Lemma elem_around {A} (x : A) n l : x ∈ take n l ++ drop (S n) l -> x ∈ l.
Proof. rewrite elem_of_app. intros [H|H]; [by apply subseteq_take in H|by apply subseteq_drop in H]. Qed.

Lemma table_perm m t hs hs' : hs ≡ₚ hs' -> table_ok m t hs -> table_ok m t hs'.
Proof.
  intros Hp [H1 H2 H3 H4 H5 H6 H7]. split; try done; [by rewrite H4|by rewrite <- Hp| |by rewrite <- (Permutation_length Hp)]. intros p q e e' Hp1 Hq1. rewrite <- Hp in Hp1, Hq1. by apply H6.
Qed.

(** Only keys and hashes matter to the table. *)
Lemma table_mem m m' t hs : table_ok m t hs -> (forall p e, p ∈ hs -> m !! p = Some e -> exists e', m' !! p = Some e' /\ key e' = key e /\ hash e' = hash e) -> table_ok m' t hs.
Proof.
  intros Ht Hm. pose proof Ht as [H1 H2 H3 H4 H5 H6 H7]. split; try done.
  - intros b chain p Hb Hp. destruct (H3 b chain p Hb Hp) as (e & He & Hh & Hs). destruct (Hm p e (table_elem m t hs b chain p Ht Hb Hp) He) as (e' & He' & Hk & Hh'). exists e'. by rewrite Hk, Hh'.
  - assert (forall p e', p ∈ hs -> m' !! p = Some e' -> exists e, m !! p = Some e /\ key e' = key e) as Hback.
    { intros p e' Hp He'. destruct (table_chain m t hs p Ht Hp) as (b & chain & Hb & Hpc). destruct (H3 b chain p Hb Hpc) as (e & He & _). destruct (Hm p e Hp He) as (e'' & H' & Hk & _).
      rewrite He' in H'. injection H' as <-. by exists e. }
    intros p q e e' Hp Hq He He' Hk. destruct (Hback p e Hp He) as (x & Hx & Ex), (Hback q e' Hq He') as (y & Hy & Ey). apply (H6 p q x y); congruence.
Qed.

Lemma table_holds m t hs : table_ok m t hs -> Forall (holds_at m) hs.
Proof.
  intros Ht. apply Forall_forall. intros p Hp. destruct (table_chain m t hs p Ht Hp) as (b & chain & Hb & Hpc). destruct (to_chains _ _ _ Ht b chain p Hb Hpc) as (e & ? & ? & _). by exists e.
Qed.

Lemma make_table m : exists t, make m = Ret t /\ table_ok m t [].
Proof. apply Resize_ok; try done; try constructor. intros p q e e' ?%elem_of_nil. done. Qed.

(** Another chain in place of one. *)
Lemma vec_update_chain t b chain s f : list_ t !! b = Some chain -> Z.of_nat b = s -> vec_update (list_ t) s f = Ret (<[b := f chain]> (list_ t)).
Proof. intros Hb <-. unfold vec_update. rewrite (vec_at_ok _ _ chain) by (rewrite ?Nat2Z.id; done || lia). cbn [mbind result_bind]. by rewrite Nat2Z.id. Qed.

Lemma Insert_table m t hs p e : table_ok m t hs -> p ∉ hs -> m !! p = Some e -> hash e = hf (key e) -> Z.of_nat (length hs) < 2 ^ 31 ->
  exists t' o, Insert m t p = Ret (t', o) /\
    match o with
    | Some q => q ∈ hs /\ (exists e', m !! q = Some e' /\ key e' = key e) /\ table_ok m t' (p :: LRUCache.unlink q hs)
    | None => (forall q e', q ∈ hs -> m !! q = Some e' -> key e' <> key e) /\ table_ok m t' (p :: hs)
    end.
Proof.
  intros Ht Hp He Hh Hn. unfold Insert, deref. rewrite He. cbn [mbind result_bind]. rewrite Hh.
  destruct (FindPointer_ok m t hs (key e) Ht) as (b & chain & n & -> & Hb & Hc & Hcase). cbn [mbind result_bind]. rewrite (vec_update_chain t b chain _ _ Hc Hb). cbn [mbind result_bind].
  destruct (concat_replace (list_ t) b chain Hc) as (rest & R1 & R2). pose proof Ht as [H1 H2 H3 H4 H5 H6 H7]. rewrite H4 in R1.
  assert (forall l b' chain' q, <[b := take n chain ++ p :: drop (S n) chain]> (list_ t) = l -> l !! b' = Some chain' -> q ∈ chain' ->
    exists x, m !! q = Some x /\ hash x = hf (key x) /\ slot (length_ t) (hash x) = Z.of_nat b') as Hchains.
  { intros l b' chain' q <- Hb' Hq. destruct (decide (b' = b)) as [->|]; [|rewrite list_lookup_insert_ne in Hb' by done; by eapply H3].
    rewrite list_lookup_insert_eq in Hb' by (by eapply lookup_lt_Some). injection Hb' as <-. rewrite <- Permutation_middle in Hq. apply elem_of_cons in Hq as [->|Hq]; [exists e; by rewrite Hh|].
    apply (H3 b chain q Hc). by eapply elem_around. }
  destruct (chain !! n) as [q|] eqn:Eq.
  - destruct Hcase as (e' & He' & Hk'). eexists _, (Some q). split; [done|]. assert (q ∈ hs) as Hq by (eapply table_elem; [done|exact Hc|by eapply list_elem_of_lookup_2]). split; [done|].
    split; [by exists e'|]. assert (take n chain ++ p :: drop (S n) chain ≡ₚ p :: take n chain ++ drop (S n) chain) as Hmid by (by rewrite Permutation_middle).
    assert (LRUCache.unlink q hs ≡ₚ (take n chain ++ drop (S n) chain) ++ rest) as Hun.
    { apply (Permutation_cons_inv (a := q)). rewrite <- unlink_perm, R1 by done. rewrite <- (take_drop_middle _ _ _ Eq) at 1. solve_Permutation. }
    split; cbn [length_ elems_ list_]; [done|by rewrite length_insert|by intros b' chain' q'; eapply Hchains| | | |].
    + rewrite R2, Hmid, Hun. done.
    + constructor; [rewrite elem_unlink; tauto|by apply NoDup_filter].
    + intros x y ex ey Hx Hy Hex Hey Hkey. apply elem_of_cons in Hx as [->|[Hx Hxq]%elem_unlink], Hy as [->|[Hy Hyq]%elem_unlink]; [done| | |by eapply H6].
      * exfalso. apply Hyq. rewrite He in Hex. injection Hex as <-. apply (H6 y q ey e'); congruence.
      * exfalso. apply Hxq. rewrite He in Hey. injection Hey as <-. apply (H6 x q ex e'); congruence.
    + rewrite H7. pose proof (Permutation_length (unlink_perm q hs H5 Hq)). cbn [length] in *. lia.
  - destruct Hcase as [-> Hno]. assert (Forall (holds_at m) (p :: hs)) as Hall by (constructor; [by exists e|by eapply table_holds]).
    assert (NoDup (p :: hs)) as Hnd by (by constructor). assert (concat (<[b := take (length chain) chain ++ p :: drop (S (length chain)) chain]> (list_ t)) ≡ₚ p :: hs) as Hperm.
    { rewrite R2, firstn_all, drop_ge by lia. rewrite R1. solve_Permutation. }
    assert (forall x y ex ey, x ∈ p :: hs -> y ∈ p :: hs -> m !! x = Some ex -> m !! y = Some ey -> key ex = key ey -> x = y) as Hkeys.
    { intros x y ex ey Hx Hy Hex Hey Hkey. apply elem_of_cons in Hx as [->|Hx], Hy as [->|Hy]; [done| | |by eapply H6].
      - exfalso. rewrite He in Hex. injection Hex as <-. by apply (Hno y ey).
      - exfalso. rewrite He in Hey. injection Hey as <-. by apply (Hno x ex). }
    rewrite H7, wrap_small by lia. cbn [length_ elems_]. assert (Z.of_nat (length hs) + 1 = Z.of_nat (length (p :: hs))) as El by (cbn [length]; lia). rewrite El.
    destruct (length_ t <? _).
    + destruct (Resize_ok m (mkTable (length_ t) (Z.of_nat (length (p :: hs))) (<[b := take (length chain) chain ++ p :: drop (S (length chain)) chain]> (list_ t))) (p :: hs)) as (t' & -> & Ht'); try done; [lia|].
      cbn [mbind result_bind]. by exists t', None.
    + cbn [mbind result_bind]. eexists _, None. split; [done|]. split; [done|]. split; cbn [length_ elems_ list_]; try done; [by rewrite length_insert|]. by intros b' chain' q'; eapply Hchains.
Qed.

Lemma Remove_table m t hs k : table_ok m t hs -> Z.of_nat (length hs) <= 2 ^ 31 -> exists t' o, Remove m t k (hf k) = Ret (t', o) /\
    match o with
    | Some q => q ∈ hs /\ (exists e, m !! q = Some e /\ key e = k) /\ table_ok m t' (LRUCache.unlink q hs)
    | None => t' = t /\ forall q e, q ∈ hs -> m !! q = Some e -> key e <> k
    end.
Proof.
  intros Ht Hn. destruct (FindPointer_ok m t hs k Ht) as (b & chain & n & Hf & Hb & Hc & Hcase). unfold Remove. rewrite Hf. cbn [mbind result_bind].
  destruct (chain !! n) as [q|] eqn:Eq; [|exists t, None; tauto]. rewrite (vec_update_chain t b chain _ _ Hc Hb). cbn [mbind result_bind]. eexists _, (Some q). split; [done|].
  destruct (concat_replace (list_ t) b chain Hc) as (rest & R1 & R2). pose proof Ht as [H1 H2 H3 H4 H5 H6 H7]. rewrite H4 in R1.
  assert (q ∈ hs) as Hq by (eapply table_elem; [done|exact Hc|by eapply list_elem_of_lookup_2]). split; [done|]. split; [done|]. split; cbn [length_ elems_ list_]; [done|by rewrite length_insert| | | | |].
  - intros b' chain' x Hb' Hx. destruct (decide (b' = b)) as [->|]; [|rewrite list_lookup_insert_ne in Hb' by done; by eapply H3].
    rewrite list_lookup_insert_eq in Hb' by (by eapply lookup_lt_Some). injection Hb' as <-. apply (H3 b chain x Hc). by eapply elem_around.
  - rewrite R2. apply (Permutation_cons_inv (a := q)). rewrite <- unlink_perm, R1 by done. rewrite <- (take_drop_middle _ _ _ Eq) at 3. solve_Permutation.
  - by apply NoDup_filter.
  - intros x y ex ey [Hx _]%elem_unlink [Hy _]%elem_unlink. by apply H6.
  - rewrite H7. pose proof (Permutation_length (unlink_perm q hs H5 Hq)) as El. cbn [length] in El. rewrite wrap_small by lia. lia.
Qed.
End table.

(** ** A shard *)

Section cache.
Context {V : Type} (hf : str -> Z).
Hypothesis Hhf : forall k, 0 <= hf k < 2 ^ 32.
Implicit Types (c : LRUCache.LRUCache V) (p q : nat) (e : LRUHandle V) (l : list nat).
Import LRUCache.

(** The sum of the charges. *)
Definition charges (m : gmap nat (LRUHandle V)) l : Z := foldr (fun p n => match m !! p with Some e => charge e + n | None => n end) 0 l.

Definition all c : list nat := lru_ c ++ in_use_ c.
#[local] Arguments all : simpl never.
#[local] Arguments unlink : simpl never.

(** The references that clients have. *)
Definition clients e : Z := refs e - (if in_cache e then 1 else 0).

(** The lists, the reference counts and the usage agree. *)
Record lists_ok c : Prop := {
  lo_nodup : NoDup (all c);
  lo_lru p : p ∈ lru_ c -> exists e, mem c !! p = Some e /\ in_cache e = true /\ refs e = 1;
  lo_use p : p ∈ in_use_ c -> exists e, mem c !! p = Some e /\ in_cache e = true /\ 2 <= refs e;
  lo_cached p e : mem c !! p = Some e -> in_cache e = true -> p ∈ all c;
  lo_gone p e : mem c !! p = Some e -> in_cache e = false -> 1 <= refs e;
  lo_fresh p e : mem c !! p = Some e -> (p < fresh c)%nat;
  lo_usage : usage_ c = u64 (charges (mem c) (all c))
}.

Definition cache_ok c : Prop := lists_ok c /\ table_ok hf (mem c) (table_ c) (all c).

Lemma unlink_app p l l' : unlink p (l ++ l') = unlink p l ++ unlink p l'.
Proof. apply filter_app. Qed.

Lemma unlink_id p l : p ∉ l -> unlink p l = l.
Proof.
  intros Hp. unfold unlink. induction l as [|q l IH]; [done|]. apply not_elem_of_cons in Hp as [Hne Hp]. rewrite filter_cons_True by done. by rewrite IH.
Qed.

Lemma charges_perm m l l' : l ≡ₚ l' -> charges m l = charges m l'.
Proof. induction 1 as [|p l l' _ IH|p q l|l1 l2 l3 _ IH1 _ IH2]; cbn [charges foldr]; [done| | |congruence]; fold (charges m); [destruct (m !! p); fold (charges m l); fold (charges m l'); lia|destruct (m !! p), (m !! q); lia]. Qed.

Lemma charges_ext m m' l : (forall p, p ∈ l -> charge <$> m' !! p = charge <$> m !! p) -> charges m' l = charges m l.
Proof.
  induction l as [|p l IH]; intros H; [done|]. cbn [charges foldr]. fold (charges m l) (charges m' l). rewrite IH by (intros q Hq; apply H; by right).
  specialize (H p ltac:(by left)). destruct (m' !! p), (m !! p); try done. injection H as H. lia.
Qed.

Lemma charges_cons m p e l : m !! p = Some e -> charges m (p :: l) = charge e + charges m l.
Proof. intros He. cbn [charges foldr]. by rewrite He. Qed.

Lemma all_elem c p : lists_ok c -> p ∈ all c -> exists e, mem c !! p = Some e /\ in_cache e = true /\ 1 <= refs e.
Proof.
  intros H Hp. apply elem_of_app in Hp as [Hp|Hp]; [destruct (lo_lru _ H p Hp) as (e & ? & ? & ?)|destruct (lo_use _ H p Hp) as (e & ? & ? & ?)]; exists e; split_and!; try done; lia.
Qed.

(** A new count for an entry that stays in its list. *)
Lemma store_ok c p e e' : lists_ok c -> mem c !! p = Some e -> key e' = key e -> hash e' = hash e -> charge e' = charge e -> in_cache e' = in_cache e ->
  (p ∈ lru_ c -> refs e' = 1) -> (p ∈ in_use_ c -> 2 <= refs e') -> (in_cache e = false -> 1 <= refs e') -> lists_ok (store c p e').
Proof.
  intros [Hnd Hl Hu Hc Hg Hf Hus] He Hk Hh Hch Hi H1 H2 H3. split; cbn; try done.
  - intros q Hq. destruct (decide (q = p)) as [->|]; [rewrite lookup_insert_eq; exists e'; destruct (Hl p Hq) as (x & Hx & ? & ?); rewrite He in Hx; injection Hx as <-; split_and!; [done|congruence|by apply H1]|].
    rewrite lookup_insert_ne by done. by apply Hl.
  - intros q Hq. destruct (decide (q = p)) as [->|]; [rewrite lookup_insert_eq; exists e'; destruct (Hu p Hq) as (x & Hx & ? & ?); rewrite He in Hx; injection Hx as <-; split_and!; [done|congruence|by apply H2]|].
    rewrite lookup_insert_ne by done. by apply Hu.
  - intros q x. rewrite lookup_insert_Some. intros [[<- <-]|[_ Hx]] Hin; [apply (Hc p e He); congruence|by eapply Hc].
  - intros q x. rewrite lookup_insert_Some. intros [[<- <-]|[_ Hx]] Hin; [apply H3; congruence|by eapply Hg].
  - intros q x. rewrite lookup_insert_Some. intros [[<- _]|[_ Hx]]; by eapply Hf.
  - rewrite Hus. f_equal. apply charges_ext. intros q _. cbn. destruct (decide (q = p)) as [->|]; [rewrite lookup_insert_eq, He; cbn; congruence|by rewrite lookup_insert_ne by done].
Qed.

Lemma store_table c p e e' t hs : mem c !! p = Some e -> key e' = key e -> hash e' = hash e -> table_ok hf (mem c) t hs -> table_ok hf (<[p := e']> (mem c)) t hs.
Proof.
  intros He Hk Hh Ht. eapply table_mem; [exact Ht|]. intros q x _ Hx. destruct (decide (q = p)) as [->|].
  - exists e'. rewrite lookup_insert_eq. rewrite He in Hx. by injection Hx as <-.
  - exists x. by rewrite lookup_insert_ne by done.
Qed.

(** *** Ref and Unref *)

Lemma Ref_ok c p e : cache_ok c -> mem c !! p = Some e -> p ∈ all c -> refs e < 2 ^ 32 - 1 ->
  exists c', Ref c p = Ret c' /\ cache_ok c' /\ mem c' = <[p := set_refs e (refs e + 1)]> (mem c) /\ all c' ≡ₚ all c /\ lru_ c' = unlink p (lru_ c) /\
    capacity_ c' = capacity_ c /\ usage_ c' = usage_ c /\ deleted c' = deleted c.
Proof.
  intros [Hl Ht] He Hp Hr. unfold Ref, deref. rewrite He. cbn [mbind result_bind]. pose proof Hl as [Hnd Hlru Huse Hc Hg Hf Hus]. pose proof (proj1 (NoDup_app _ _) Hnd) as (N1 & N2 & N3).
  destruct (all_elem c p Hl Hp) as (x & Hx & Hin & Hr1). rewrite He in Hx. injection Hx as <-. rewrite Hin, andb_true_r, wrap_small by lia. eexists. split; [done|].
  destruct (Z.eqb_spec (refs e) 1) as [E|E].
  - assert (p ∈ lru_ c) as Hpl.
    { apply elem_of_app in Hp as [?|Hp]; [done|]. destruct (Huse p Hp) as (x & Hx & _ & ?). rewrite He in Hx. injection Hx as <-. lia. }
    assert (p ∉ in_use_ c) as Hpu by (by apply N2).
    assert (unlink p (lru_ c) ++ in_use_ c ++ [p] ≡ₚ all c) as Hperm by (unfold all; rewrite (unlink_perm p (lru_ c) N1 Hpl) at 2; solve_Permutation).
    set (c1 := append_in_use (LRU_Remove c p) p). assert (all c1 = unlink p (lru_ c) ++ in_use_ c ++ [p]) as Eall by (unfold all, c1; cbn; by rewrite (unlink_id p (in_use_ c) Hpu)).
    assert (lists_ok (store c1 p (set_refs e (refs e + 1)))) as Hl'.
    { split; cbn.
      - change (NoDup (all c1)). by rewrite Eall, Hperm.
      - intros q [Hq Hne]%elem_unlink. rewrite lookup_insert_ne by done. by apply Hlru.
      - rewrite (unlink_id p (in_use_ c) Hpu). intros q Hq. destruct (decide (q = p)) as [->|Hne]; [rewrite lookup_insert_eq; eexists; split; [done|]; cbn; split; [done|lia]|].
        rewrite lookup_insert_ne by done. apply Huse. apply elem_of_app in Hq as [?|?%list_elem_of_singleton]; done.
      - intros q y. change (all (store c1 _ _)) with (all c1). rewrite Eall, Hperm, lookup_insert_Some. intros [[<- _]|[_ Hy]]; [done|by eapply Hc].
      - intros q y. rewrite lookup_insert_Some. intros [[<- <-]|[_ Hy]]; cbn; [intros; lia|by eapply Hg].
      - intros q y. rewrite lookup_insert_Some. intros [[<- _]|[_ Hy]]; by eapply Hf.
      - rewrite Hus. f_equal. change (all (store c1 _ _)) with (all c1). rewrite Eall, (charges_perm _ _ _ Hperm). symmetry. apply charges_ext. intros q _. cbn.
        destruct (decide (q = p)) as [->|]; [rewrite lookup_insert_eq, He; done|by rewrite lookup_insert_ne by done]. }
    split; [split; [done|]|]; cbn.
    + change (all (store c1 _ _)) with (all c1). eapply store_table; [exact He|done|done|]. rewrite Eall. by apply (table_perm hf _ _ (all c)).
    + split; [done|]. split; [change (all c1 ≡ₚ all c); by rewrite Eall|]. done.
  - assert (p ∉ lru_ c) as Hpl.
    { intros Hpl. destruct (Hlru p Hpl) as (x & Hx & _ & ?). rewrite He in Hx. injection Hx as <-. lia. }
    split; [split|]; cbn.
    + apply (store_ok c p e); try done; cbn; intros; try done; try lia.
    + by eapply store_table.
    + split; [done|]. split; [done|]. split; [by rewrite unlink_id|]. done.
Qed.

Lemma Unref_ok c p e : cache_ok c -> mem c !! p = Some e -> 1 <= clients e ->
  exists c', Unref c p = Ret c' /\ cache_ok c' /\ capacity_ c' = capacity_ c /\ usage_ c' = usage_ c /\ fresh c' = fresh c /\ all c' ≡ₚ all c /\
    (if refs e =? 1 then mem c' = delete p (mem c) /\ deleted c' = deleted c ++ [(key e, value e)]
     else mem c' = <[p := set_refs e (refs e - 1)]> (mem c) /\ deleted c' = deleted c) /\
    (if in_cache e && (refs e =? 2) then lru_ c' = lru_ c ++ [p] /\ in_use_ c' = unlink p (in_use_ c) else lru_ c' = lru_ c /\ in_use_ c' = in_use_ c).
Proof.
  intros [Hl Ht] He Hcl. unfold Unref, deref. rewrite He. cbn [mbind result_bind]. pose proof Hl as [Hnd Hlru Huse Hc Hg Hf Hus]. pose proof (proj1 (NoDup_app _ _) Hnd) as (N1 & N2 & N3).
  unfold clients in Hcl. assert (0 < refs e) as Hr by (destruct (in_cache e); lia). destruct (Z.ltb_spec 0 (refs e)); [|lia]. cbn [negb refs set_refs in_cache].
  assert (p ∉ lru_ c) as Hpl.
  { intros Hpl. destruct (Hlru p Hpl) as (x & Hx & Hi & ?). rewrite He in Hx. injection Hx as <-. rewrite Hi in Hcl. lia. }
  destruct (Z.eqb_spec (refs e - 1) 0) as [E0|E0].
  - assert ((refs e =? 1) = true) as -> by (apply Z.eqb_eq; lia). destruct (in_cache e) eqn:Ei; [lia|]. eexists. split; [done|].
    assert (p ∉ all c) as Hpa by (intros Hpa; destruct (all_elem c p Hl Hpa) as (x & Hx & Hi & _); rewrite He in Hx; injection Hx as <-; congruence).
    assert (forall q, q ∈ all c -> delete p (mem c) !! q = mem c !! q) as Hdel by (intros q Hq; rewrite lookup_delete_ne; [done|]; intros ->; done).
    assert (delete p (<[p := set_refs e (refs e - 1)]> (mem c)) = delete p (mem c)) as Ed by (by rewrite delete_insert_eq).
    split; [split; [split; cbn|]|]; cbn; rewrite ?Ed.
    + done.
    + intros q Hq. rewrite Hdel by (apply elem_of_app; by left). by apply Hlru.
    + intros q Hq. rewrite Hdel by (apply elem_of_app; by right). by apply Huse.
    + intros q x. rewrite lookup_delete_Some. intros [_ Hx]. by eapply Hc.
    + intros q x. rewrite lookup_delete_Some. intros [_ Hx]. by eapply Hg.
    + intros q x. rewrite lookup_delete_Some. intros [_ Hx]. by eapply Hf.
    + rewrite Hus. f_equal. symmetry. apply charges_ext. intros q Hq. by rewrite Hdel.
    + eapply table_mem; [exact Ht|]. intros q x Hq Hx. exists x. by rewrite Hdel.
    + done.
  - destruct (Z.eqb_spec (refs e) 1); [lia|]. destruct (in_cache e) eqn:Ei; cbn [andb].
    + destruct (Z.eqb_spec (refs e) 2) as [E2|E2]; [destruct (Z.eqb_spec (refs e - 1) 1); [|lia]|destruct (Z.eqb_spec (refs e - 1) 1); [lia|]].
      * assert (p ∈ in_use_ c) as Hpu by (pose proof (Hc p e He Ei) as Hp; by apply elem_of_app in Hp as [?|?]).
        assert ((lru_ c ++ [p]) ++ unlink p (in_use_ c) ≡ₚ all c) as Hperm by (unfold all; rewrite (unlink_perm p (in_use_ c) N3 Hpu) at 2; solve_Permutation).
        set (e' := set_refs e (refs e - 1)). set (c1 := append_lru (LRU_Remove (store c p e') p) p).
        assert (all c1 = (lru_ c ++ [p]) ++ unlink p (in_use_ c)) as Eall by (unfold all, c1; cbn [lru_ in_use_ append_lru LRU_Remove store set_lists]; by rewrite (unlink_id p (lru_ c) Hpl)).
        exists c1. split; [done|]. split; [split; [split; cbn|]|].
        -- by rewrite Eall, Hperm.
        -- rewrite (unlink_id p (lru_ c) Hpl). intros q Hq. destruct (decide (q = p)) as [->|Hne]; [rewrite lookup_insert_eq; exists e'; cbn; split_and!; [done|done|lia]|].
           rewrite lookup_insert_ne by done. apply Hlru. apply elem_of_app in Hq as [?|?%list_elem_of_singleton]; done.
        -- intros q [Hq Hne]%elem_unlink. rewrite lookup_insert_ne by done. by apply Huse.
        -- intros q x. rewrite Eall, Hperm, lookup_insert_Some. intros [[<- _]|[_ Hx]]; [by intros _; eapply Hc|by eapply Hc].
        -- intros q x. rewrite lookup_insert_Some. intros [[<- <-]|[_ Hx]]; cbn; [intros; lia|by eapply Hg].
        -- intros q x. rewrite lookup_insert_Some. intros [[<- _]|[_ Hx]]; by eapply Hf.
        -- rewrite Hus. f_equal. rewrite Eall, (charges_perm _ _ _ Hperm). symmetry. apply charges_ext. intros q _. cbn.
           destruct (decide (q = p)) as [->|]; [rewrite lookup_insert_eq, He; done|by rewrite lookup_insert_ne by done].
        -- eapply (store_table c p e); [exact He|done|done|]. rewrite Eall. by apply (table_perm hf _ _ (all c)).
        -- split_and!; try done; [by rewrite Eall|]. cbn. by rewrite (unlink_id p (lru_ c) Hpl).
      * eexists. split; [done|]. split; [split; cbn|done]; [|by eapply store_table].
        apply (store_ok c p e); try done; cbn; intros; try done; lia.
    + eexists. split; [done|]. split; [split; cbn|done]; [|by eapply store_table].
      apply (store_ok c p e); try done; cbn; intros; try done; [|lia]. exfalso. destruct (Huse p) as (x & Hx & Hi & _); [done|]. rewrite He in Hx. injection Hx as <-. congruence.
Qed.

(** *** Taking an entry out *)

(** [q] leaves the cache, whose table no longer has it. *)
Lemma FinishErase_some c q e : lists_ok c -> q ∈ all c -> mem c !! q = Some e -> table_ok hf (mem c) (table_ c) (unlink q (all c)) ->
  exists c', FinishErase c (Some q) = Ret (c', true) /\ cache_ok c' /\ capacity_ c' = capacity_ c /\ usage_ c' = u64 (usage_ c - charge e) /\ fresh c' = fresh c /\
    lru_ c' = unlink q (lru_ c) /\ in_use_ c' = unlink q (in_use_ c) /\
    (if refs e =? 1 then mem c' = delete q (mem c) /\ deleted c' = deleted c ++ [(key e, value e)]
     else mem c' = <[q := set_in_cache (set_refs e (refs e - 1)) false]> (mem c) /\ deleted c' = deleted c).
Proof.
  intros Hl Hq He Ht. destruct (all_elem c q Hl Hq) as (x & Hx & Hin & Hr). rewrite He in Hx. injection Hx as <-. pose proof Hl as [Hnd Hlru Huse Hc Hg Hf Hus].
  unfold FinishErase, deref. rewrite He. cbn [mbind result_bind]. rewrite Hin. cbn [negb]. set (e1 := set_in_cache e false).
  set (c1 := set_usage (store (LRU_Remove c q) q e1) (u64 (usage_ (store (LRU_Remove c q) q e1) - charge e))).
  assert (all c1 = unlink q (all c)) as Eall by (unfold all, c1; cbn; by rewrite unlink_app).
  assert (cache_ok c1) as Hok.
  { split; [split; cbn|].
    - rewrite Eall. by apply NoDup_filter.
    - intros p [Hp Hne]%elem_unlink. rewrite lookup_insert_ne by done. by apply Hlru.
    - intros p [Hp Hne]%elem_unlink. rewrite lookup_insert_ne by done. by apply Huse.
    - intros p x. rewrite Eall, elem_unlink, lookup_insert_Some. intros [[<- <-]|[Hne Hx]] Hi; [done|]. split; [by eapply Hc|done].
    - intros p x. rewrite lookup_insert_Some. intros [[<- <-]|[_ Hx]]; cbn; [done|by eapply Hg].
    - intros p x. rewrite lookup_insert_Some. intros [[<- _]|[_ Hx]]; by eapply Hf.
    - rewrite Hus. rewrite Eall, (charges_perm _ _ _ (unlink_perm q (all c) Hnd Hq)), (charges_cons _ _ _ _ He).
      assert (charges (<[q := e1]> (mem c)) (unlink q (all c)) = charges (mem c) (unlink q (all c))) as ->.
      { apply charges_ext. intros p [_ Hne]%elem_unlink. by rewrite lookup_insert_ne by done. }
      unfold wrap. rewrite Zminus_mod_idemp_l. f_equal. lia.
    - rewrite Eall. eapply (store_table c q e); [exact He|done|done|exact Ht]. }
  destruct (Unref_ok c1 q e1 Hok) as (c' & Hun & Hok' & Hcap & Husg & Hfr & Hall & Hmem & Hlists); [cbn; by rewrite lookup_insert_eq|unfold clients; cbn; lia|].
  rewrite Hun. cbn [mbind result_bind]. cbn [in_cache e1 set_in_cache andb] in Hlists. destruct Hlists as [Hl1 Hl2].
  exists c'. split; [done|]. split; [done|]. split; [done|]. split; [done|]. split; [done|]. split; [done|]. split; [done|].
  cbn [refs e1 set_in_cache] in Hmem. destruct (refs e =? 1); destruct Hmem as [-> ->]; cbn; (split; [|done]).
  - by rewrite delete_insert_eq.
  - by rewrite insert_insert_eq.
Qed.

Lemma erase_ok c k : cache_ok c -> Z.of_nat (length (all c)) <= 2 ^ 31 ->
  exists c' b, erase c k (hf k) = Ret (c', b) /\ cache_ok c' /\
    match b with
    | false => c' = c /\ forall q e, q ∈ all c -> mem c !! q = Some e -> key e <> k
    | true => exists q e, q ∈ all c /\ mem c !! q = Some e /\ key e = k /\ capacity_ c' = capacity_ c /\ usage_ c' = u64 (usage_ c - charge e) /\ fresh c' = fresh c /\
        lru_ c' = unlink q (lru_ c) /\ in_use_ c' = unlink q (in_use_ c) /\
        (if refs e =? 1 then mem c' = delete q (mem c) /\ deleted c' = deleted c ++ [(key e, value e)]
         else mem c' = <[q := set_in_cache (set_refs e (refs e - 1)) false]> (mem c) /\ deleted c' = deleted c)
    end.
Proof.
  intros [Hl Ht] Hn. unfold erase. destruct (Remove_table hf Hhf (mem c) (table_ c) (all c) k Ht Hn) as (t' & o & -> & Ho). cbn [mbind result_bind fst snd]. destruct o as [q|].
  - destruct Ho as (Hq & (e & He & Hk) & Ht'). destruct (FinishErase_some (set_table c t') q e) as (c' & Hf & Hok & Hrest); [by destruct Hl|done|done|done|].
    exists c', true. split; [done|]. split; [done|]. exists q, e. do 3 (split; [done|]). exact Hrest.
  - destruct Ho as [-> Hno]. exists (set_table c (table_ c)), false. split; [done|]. assert (set_table c (table_ c) = c) as -> by (by destruct c). done.
Qed.

(** *** Eviction *)

Lemma evict_oldest_ok c p l : cache_ok c -> Z.of_nat (length (all c)) <= 2 ^ 31 -> lru_ c = p :: l ->
  exists c' e, mem c !! p = Some e /\ evict_oldest c p = Ret c' /\ cache_ok c' /\ capacity_ c' = capacity_ c /\ usage_ c' = u64 (usage_ c - charge e) /\ fresh c' = fresh c /\
    lru_ c' = l /\ in_use_ c' = in_use_ c /\ mem c' = delete p (mem c) /\ deleted c' = deleted c ++ [(key e, value e)].
Proof.
  intros Hok Hn Hlru. pose proof Hok as [Hl Ht]. assert (p ∈ lru_ c) as Hp by (rewrite Hlru; by left). destruct (lo_lru _ Hl p Hp) as (e & He & Hi & Hr).
  unfold evict_oldest, deref. rewrite He. cbn [mbind result_bind]. rewrite Hr. cbn [negb Z.eqb]. change (1 =? 1) with true. cbn [negb].
  assert (p ∈ all c) as Hpa by (apply elem_of_app; by left).
  assert (hash e = hf (key e)) as -> by (pose proof (table_holds hf _ _ _ Ht) as H; rewrite Forall_forall in H; destruct (H p Hpa) as (x & Hx & E); rewrite He in Hx; by injection Hx as <-).
  destruct (erase_ok c (key e) Hok Hn) as (c' & b & -> & Hok' & Hb). cbn [mbind result_bind fst snd]. destruct b.
  - destruct Hb as (q & x & Hq & Hx & Hk & Hcap & Hus & Hfr & Hl1 & Hl2 & Hm). assert (q = p) as -> by (by eapply (to_keys _ _ _ _ Ht q p x e)). rewrite He in Hx. injection Hx as <-.
    rewrite Hr in Hm. change (1 =? 1) with true in Hm. destruct Hm as [Hm Hd]. pose proof (lo_nodup _ Hl) as Hnd. unfold all in Hnd. rewrite Hlru in Hnd. cbn [app] in Hnd. apply NoDup_cons in Hnd as [Hni Hnd].
    rewrite elem_of_app in Hni. exists c', e. split_and!; try done.
    + rewrite Hl1, Hlru. unfold unlink. rewrite filter_cons_False by tauto. apply unlink_id. tauto.
    + rewrite Hl2. apply unlink_id. tauto.
  - destruct Hb as [_ Hb]. exfalso. by apply (Hb p e Hpa He).
Qed.

(** The oldest entries go, as many as necessary. *)
Lemma evict_ok fuel : forall c, cache_ok c -> Z.of_nat (length (all c)) <= 2 ^ 31 -> (length (lru_ c) <= fuel)%nat ->
  exists c' n, evict fuel c = Ret c' /\ cache_ok c' /\ capacity_ c' = capacity_ c /\ fresh c' = fresh c /\ lru_ c' = drop n (lru_ c) /\ in_use_ c' = in_use_ c /\
    (forall q, mem c' !! q = if decide (q ∈ take n (lru_ c)) then None else mem c !! q) /\ (usage_ c' <= capacity_ c \/ lru_ c' = []) /\ (n <= length (lru_ c))%nat /\
    (usage_ c <= capacity_ c -> n = O).
Proof.
  induction fuel as [|fuel IH]; intros c Hok Hn Hf; cbn [evict]; destruct (lru_ c) as [|p l] eqn:El.
  - exists c, O. split_and!; try done; rewrite ?El; auto.
  - cbn in Hf. lia.
  - exists c, O. split_and!; try done; rewrite ?El; auto.
  - destruct (Z.ltb_spec (capacity_ c) (usage_ c)) as [Hgt|Hle].
    2: { exists c, O. split_and!; try done; rewrite ?El; auto; lia. }
    destruct (evict_oldest_ok c p l Hok Hn El) as (c1 & e & He & -> & Hok1 & Hcap1 & Hus1 & Hfr1 & Hl1 & Hu1 & Hm1 & Hd1). cbn [mbind result_bind].
    destruct (IH c1 Hok1) as (c2 & n & -> & Hok2 & Hcap2 & Hfr2 & Hl2 & Hu2 & Hm2 & Hend & Hlen & _).
    { unfold all. rewrite Hl1, Hu1. unfold all in Hn. rewrite El in Hn. cbn [length app] in Hn. lia. }
    { rewrite Hl1. cbn in Hf. lia. }
    exists c2, (S n). rewrite Hl1 in Hl2, Hm2, Hlen. split_and!; try done; try congruence; try (rewrite Hcap1 in Hend; done); [|cbn; lia|lia]. intros q. rewrite Hm2, Hm1. cbn [take].
    destruct (decide (q = p)) as [->|Hne].
    + rewrite lookup_delete_eq. destruct (decide (p ∈ p :: take n l)) as [|Hp]; [by destruct (decide _)|]. exfalso. apply Hp. by left.
    + rewrite lookup_delete_ne by done. destruct (decide (q ∈ take n l)) as [H|H]; [by rewrite decide_True by (by right)|].
      rewrite decide_False; [done|]. intros [?|?]%elem_of_cons; done.
Qed.

(** *** The operations *)

Lemma hashes c p e : cache_ok c -> p ∈ all c -> mem c !! p = Some e -> hash e = hf (key e).
Proof. intros [_ Ht] Hp He. pose proof (table_holds hf _ _ _ Ht) as H. rewrite Forall_forall in H. destruct (H p Hp) as (x & Hx & E). rewrite He in Hx. by injection Hx as <-. Qed.

Lemma make_cache capacity : exists c : LRUCache V, make capacity = Ret c /\ cache_ok c /\ capacity_ c = capacity /\ mem c = ∅ /\ lru_ c = [] /\ in_use_ c = [].
Proof.
  unfold make. destruct (make_table hf Hhf (∅ : gmap nat (LRUHandle V))) as (t & -> & Ht). cbn [mbind result_bind]. eexists. split; [done|]. split; [|done]. split; [|done].
  split; cbn; try done; [constructor|by intros p ?%elem_of_nil|by intros p ?%elem_of_nil].
Qed.

(** The new entry is in the cache before anything is evicted. *)
Lemma insert_entry c k v ch : cache_ok c -> Z.of_nat (length (all c)) < 2 ^ 31 -> 0 <= ch ->
  let p := fresh c in let e := mkHandle v ch k true 2 (hf k) in
  let c1 := set_usage (append_in_use (store (mkCache (capacity_ c) (usage_ c) (lru_ c) (in_use_ c) (table_ c) (mem c) (S p) (deleted c)) p e) p) (u64 (usage_ c + ch)) in
  exists t o c2 b, HandleTable.Insert (mem c1) (table_ c1) p = Ret (t, o) /\ FinishErase (set_table c1 t) o = Ret (c2, b) /\ cache_ok c2 /\
    capacity_ c2 = capacity_ c /\ fresh c2 = S p /\ mem c2 !! p = Some e /\ p ∈ in_use_ c2 /\ (length (all c2) <= S (length (all c)))%nat /\
    (forall q x, q <> p -> mem c !! q = Some x -> (key x = k -> in_cache x = true -> refs x = 1 -> mem c2 !! q = None) /\
       (key x = k -> in_cache x = true -> 2 <= refs x -> mem c2 !! q = Some (set_in_cache (set_refs x (refs x - 1)) false)) /\
       (key x <> k \/ in_cache x = false -> mem c2 !! q = Some x)) /\
    (forall q, q <> p -> mem c !! q = None -> mem c2 !! q = None) /\
    (forall q, q ∈ all c2 <-> q = p \/ q ∈ all c /\ forall x, mem c !! q = Some x -> key x <> k) /\
    exists old, lru_ c2 = unlink old (lru_ c).
Proof.
  intros Hok Hn Hch p e c1. pose proof Hok as [Hl Ht]. pose proof Hl as [Hnd Hlru Huse Hc Hg Hf Hus].
  assert (mem c !! p = None) as Hnew by (destruct (mem c !! p) as [x|] eqn:Ex; [|done]; specialize (Hf p x Ex); unfold p in Hf; lia).
  assert (p ∉ all c) as Hpa by (intros Hpa; destruct (all_elem c p Hl Hpa) as (x & Hx & _); congruence).
  assert (forall q x, mem c !! q = Some x -> q <> p) as Hne by (intros q x Hx ->; congruence).
  assert (all c1 ≡ₚ p :: all c) as Eall by (unfold all, c1; cbn; solve_Permutation).
  assert (lists_ok c1) as Hl1.
  { split; cbn.
    - rewrite Eall. by constructor.
    - intros q Hq. destruct (Hlru q Hq) as (x & Hx & ?). rewrite lookup_insert_ne by (by apply not_eq_sym, (Hne q x)). by exists x.
    - intros q Hq. apply elem_of_app in Hq as [Hq| ->%list_elem_of_singleton]; [|rewrite lookup_insert_eq; by exists e]. destruct (Huse q Hq) as (x & Hx & ?).
      rewrite lookup_insert_ne by (by apply not_eq_sym, (Hne q x)). by exists x.
    - intros q x. rewrite Eall, elem_of_cons, lookup_insert_Some. intros [[<- _]|[_ Hx]] Hi; [by left|right; by eapply Hc].
    - intros q x. rewrite lookup_insert_Some. intros [[<- <-]|[_ Hx]]; cbn; [done|by eapply Hg].
    - intros q x. rewrite lookup_insert_Some. intros [[<- _]|[_ Hx]]; [unfold p; lia|]. specialize (Hf q x Hx). unfold p. lia.
    - rewrite (charges_perm _ _ _ Eall), (charges_cons _ _ e) by (by rewrite lookup_insert_eq). assert (charges (<[p := e]> (mem c)) (all c) = charges (mem c) (all c)) as ->.
      { apply charges_ext. intros q Hq. rewrite lookup_insert_ne; [done|]. intros <-. done. }
      rewrite Hus. unfold wrap. rewrite Zplus_mod_idemp_l. f_equal. cbn. lia. }
  assert (table_ok hf (mem c1) (table_ c) (all c)) as Ht1.
  { eapply table_mem; [exact Ht|]. intros q x Hq Hx. exists x. cbn. by rewrite lookup_insert_ne by (by apply not_eq_sym, (Hne q x)). }
  destruct (Insert_table hf Hhf (mem c1) (table_ c) (all c) p e Ht1 Hpa) as (t & o & Hins & Ho); [cbn; by rewrite lookup_insert_eq|done|done|]. exists t, o. change (table_ c1) with (table_ c).
  destruct o as [q|].
  - destruct Ho as (Hq & (x & Hx & Hkx) & Ht2). cbn in Hx. assert (q <> p) as Hqp by (intros ->; done). rewrite lookup_insert_ne in Hx by done.
    assert (unlink q (all c1) ≡ₚ p :: unlink q (all c)) as Eun by (unfold unlink; rewrite Eall; rewrite filter_cons_True by done; done).
    destruct (FinishErase_some (set_table c1 t) q x) as (c2 & Hfe & Hok2 & Hcap2 & Hus2 & Hfr2 & Hl2 & Hu2 & Hm2).
    { by destruct Hl1. } { change (all (set_table c1 t)) with (all c1). rewrite Eall. by right. } { cbn. by rewrite lookup_insert_ne by done. }
    { change (all (set_table c1 t)) with (all c1). apply (table_perm hf _ _ (p :: unlink q (all c))); [by rewrite Eun|exact Ht2]. }
    exists c2, true. split; [done|]. split; [done|]. split; [done|]. split; [done|]. split; [done|].
    assert (all c2 ≡ₚ p :: unlink q (all c)) as Eall2 by (unfold all at 1; rewrite Hl2, Hu2, <- unlink_app; exact Eun).
    destruct (all_elem c q Hl Hq) as (x' & Hx' & Hix & Hrx). rewrite Hx in Hx'. injection Hx' as <-. cbn in Hkx.
    assert (forall q', q' <> q -> mem c2 !! q' = mem c1 !! q') as Hother.
    { intros q' Hq'. destruct (refs x =? 1); destruct Hm2 as [-> _]; cbn; [by rewrite lookup_delete_ne by done|by rewrite lookup_insert_ne by done]. }
    assert (forall q' y, q' <> q -> mem c !! q' = Some y -> key y = k -> in_cache y = true -> False) as Huniq.
    { intros q' y Hq' Hy Hk Hi. apply Hq'. apply (to_keys _ _ _ _ Ht q' q y x); try done; [by eapply Hc|congruence]. }
    split_and!.
    + rewrite Hother by done. cbn. by rewrite lookup_insert_eq.
    + rewrite Hu2. apply elem_unlink. split; [|done]. cbn. apply elem_of_app. right. by left.
    + rewrite (Permutation_length Eall2). cbn [length]. pose proof (Permutation_length (unlink_perm q (all c) Hnd Hq)) as El. cbn [length] in El. lia.
    + intros q' y Hq'p Hy. destruct (decide (q' = q)) as [->|Hq'].
      * rewrite Hx in Hy. injection Hy as <-. split_and!.
        -- intros _ _ Hr1. rewrite Hr1 in Hm2. change (1 =? 1) with true in Hm2. destruct Hm2 as [-> _]. by rewrite lookup_delete_eq.
        -- intros _ _ Hr2. destruct (Z.eqb_spec (refs x) 1); [lia|]. destruct Hm2 as [-> _]. by rewrite lookup_insert_eq.
        -- intros [?|?]; congruence.
      * rewrite Hother by done. cbn. rewrite lookup_insert_ne by done. split_and!; [intros Hk Hi; exfalso; by eapply Huniq..|done].
    + intros q' Hq'p Hy. rewrite Hother by congruence. cbn. by rewrite lookup_insert_ne by done.
    + intros q'. rewrite Eall2, elem_of_cons, elem_unlink. split.
      * intros [->|[Hq' Hne']]; [by left|right]. split; [done|]. intros y Hy Hk. destruct (all_elem c q' Hl Hq') as (z & Hz & Hi & _). rewrite Hy in Hz. injection Hz as <-. by eapply Huniq.
      * intros [->|[Hq' Hk]]; [by left|right]. split; [done|]. intros ->. by apply (Hk x).
    + by exists q.
  - destruct Ho as [Hno Ht2]. exists (set_table c1 t), false. split; [done|]. split; [done|].
    assert (forall q x, mem c !! q = Some x -> in_cache x = true -> key x <> k) as Hno'.
    { intros q x Hx Hi. apply (Hno q x); [by eapply Hc|]. cbn. by rewrite lookup_insert_ne by (by apply not_eq_sym, (Hne q x)). }
    split; [split; [by destruct Hl1|]; change (all (set_table c1 t)) with (all c1); apply (table_perm hf _ _ (p :: all c)); [by rewrite Eall|exact Ht2]|]. change (all (set_table c1 t)) with (all c1). split_and!; try done.
    + cbn. by rewrite lookup_insert_eq.
    + cbn. apply elem_of_app. right. by left.
    + rewrite (Permutation_length Eall). done.
    + intros q x Hqp Hx. cbn. rewrite lookup_insert_ne by done. split_and!; [intros Hk Hi; exfalso; by apply (Hno' q x)..|done].
    + intros q Hqp Hx. cbn. by rewrite lookup_insert_ne by done.
    + intros q. rewrite Eall, elem_of_cons. split; [|naive_solver]. intros [->|Hq]; [by left|right]. split; [done|]. intros x Hx. destruct (all_elem c q Hl Hq) as (y & Hy & Hi & _).
      rewrite Hx in Hy. injection Hy as <-. by apply (Hno' q x).
    + exists p. cbn. symmetry. apply unlink_id. intros Hp. apply Hpa. apply elem_of_app. by left.
Qed.

(** What an operation may do to the entries: an entry that a client holds stays, with
    the same number of clients. *)
Definition keeps (m m' : gmap nat (LRUHandle V)) : Prop := forall q,
  match m !! q, m' !! q with
  | Some x, Some y => clients y = clients x /\ key y = key x /\ value y = value x /\ charge y = charge x /\ refs y <= refs x
  | Some x, None => clients x = 0
  | None, o => o = None
  end.

Lemma keeps_refl m : keeps m m.
Proof. intros q. by destruct (m !! q). Qed.

Lemma keeps_trans m1 m2 m3 : keeps m1 m2 -> keeps m2 m3 -> keeps m1 m3.
Proof.
  intros H1 H2 q. specialize (H1 q). specialize (H2 q). destruct (m1 !! q) as [x|]; [|rewrite H1 in H2; done]. destruct (m2 !! q) as [y|], (m3 !! q) as [z|]; try done; [|lia].
  destruct H1 as (? & ? & ? & ? & ?), H2 as (? & ? & ? & ? & ?). split_and!; congruence || lia.
Qed.

(** Entries on the LRU list have no client. *)
Lemma keeps_evicted c n m' : lists_ok c -> (forall q, m' !! q = if decide (q ∈ take n (lru_ c)) then None else mem c !! q) -> keeps (mem c) m'.
Proof.
  intros Hl Hm q. rewrite Hm. destruct (decide (q ∈ take n (lru_ c))) as [Hq|]; [|by apply keeps_refl]. apply subseteq_take in Hq. destruct (lo_lru _ Hl q Hq) as (e & -> & Hi & Hr). unfold clients. rewrite Hi. lia.
Qed.

Lemma keeps_erased (m : gmap nat (LRUHandle V)) q e m' : m !! q = Some e -> in_cache e = true ->
  (if refs e =? 1 then m' = delete q m else m' = <[q := set_in_cache (set_refs e (refs e - 1)) false]> m) -> keeps m m'.
Proof.
  intros He Hi Hm x. destruct (Z.eqb_spec (refs e) 1) as [Hr|Hr]; subst m'.
  - destruct (decide (x = q)) as [->|]; [rewrite lookup_delete_eq, He; unfold clients; rewrite Hi; lia|]. rewrite lookup_delete_ne by done. by apply keeps_refl.
  - destruct (decide (x = q)) as [->|]; [|rewrite lookup_insert_ne by done; by apply keeps_refl]. rewrite lookup_insert_eq, He. unfold clients. cbn. rewrite Hi. split_and!; try done; lia.
Qed.

Lemma Insert_cache c k v ch : cache_ok c -> Z.of_nat (length (all c)) < 2 ^ 31 -> 0 <= ch -> (capacity_ c <= 0 -> all c = []) ->
  exists c' e, Insert c k (hf k) v ch = Ret (fresh c, c') /\ cache_ok c' /\ capacity_ c' = capacity_ c /\ (usage_ c' <= capacity_ c \/ lru_ c' = []) /\
    mem c' !! fresh c = Some e /\ key e = k /\ value e = v /\ clients e = 1 /\ refs e <= 2 /\ (0 < capacity_ c -> fresh c ∈ all c') /\ (capacity_ c <= 0 -> all c' = []) /\
    mem c !! fresh c = None /\ keeps (mem c) (delete (fresh c) (mem c')) /\
    (forall q, q ∈ all c' -> q = fresh c \/ q ∈ all c /\ forall x, mem c !! q = Some x -> key x <> k) /\ (length (all c') <= S (length (all c)))%nat /\ charge e = ch.
Proof.
  intros Hok Hn Hch H0. pose proof Hok as [Hl Ht]. set (p := fresh c).
  assert (mem c !! p = None) as Hnew by (destruct (mem c !! p) as [x|] eqn:Ex; [|done]; pose proof (lo_fresh _ Hl p x Ex); unfold p in *; lia).
  unfold Insert. cbn [capacity_]. destruct (Z.ltb_spec 0 (capacity_ c)) as [Hcap|Hcap].
  - destruct (insert_entry c k v ch Hok Hn Hch) as (t & o & c2 & b & Hins & Hfin & Hok2 & Hcap2 & Hfr2 & He & Hpu & Hlen & Hold & Hnone & Hall & _). fold p in Hins, Hfin, He, Hpu, Hold, Hnone, Hall.
    match type of Hins with ?lhs = _ => change (HandleTable.Insert _ _ _) with lhs end. rewrite Hins. cbn [mbind result_bind fst snd].
    match type of Hfin with ?lhs = _ => change (FinishErase _ _) with lhs end. rewrite Hfin. cbn [mbind result_bind fst snd].
    destruct (evict_ok (length (lru_ c2)) c2 Hok2) as (c' & n & -> & Hok' & Hcap' & Hfr' & Hl' & Hu' & Hm' & Hend & _ & _); [lia|lia|]. cbn [mbind result_bind].
    assert (p ∉ lru_ c2) as Hpl by (intros Hpl; by apply (proj1 (proj2 (proj1 (NoDup_app _ _) (lo_nodup _ (proj1 Hok2)))) p)).
    assert (mem c' !! p = mem c2 !! p) as Hp' by (rewrite Hm'; destruct (decide (p ∈ take n (lru_ c2))) as [H|]; [by apply subseteq_take in H|done]).
    assert (forall q, q ∈ all c' -> q ∈ all c2) as Hsub by (intros q; unfold all; rewrite !elem_of_app, Hl', Hu'; intros [H|H]; [left; by apply subseteq_drop in H|by right]).
    eexists c', _. split; [done|]. split; [done|]. split; [congruence|]. split; [by rewrite <- Hcap2|]. split; [by rewrite Hp'|]. split; [done|]. split; [done|]. split; [done|]. split; [done|].
    split; [intros _; apply elem_of_app; right; by rewrite Hu'|]. split; [lia|]. split; [done|]. split_and!.
    + intros q. destruct (decide (q = p)) as [->|Hne]; [by rewrite Hnew, lookup_delete_eq|]. rewrite lookup_delete_ne by done. pose proof (keeps_evicted c2 n (mem c') (proj1 Hok2) Hm' q) as Hev.
      destruct (mem c !! q) as [x|] eqn:Ex; [|by rewrite (Hnone q Hne Ex) in Hev]. destruct (Hold q x Hne Ex) as (H1 & H2 & H3).
      destruct (decide (key x = k)) as [Hk|Hk]; [|by rewrite H3 in Hev by (by left)]. destruct (in_cache x) eqn:Hi; [|by rewrite H3 in Hev by (by right)].
      pose proof (lo_cached _ Hl q x Ex Hi) as Hqa. destruct (all_elem c q Hl Hqa) as (y & Hy & _ & Hr). rewrite Ex in Hy. injection Hy as <-.
      destruct (decide (refs x = 1)) as [Hr1|Hr1].
      * rewrite (H1 Hk eq_refl Hr1) in Hev. rewrite Hev. unfold clients. rewrite Hi. lia.
      * rewrite (H2 Hk eq_refl ltac:(lia)) in Hev. destruct (mem c' !! q) as [y|]; unfold clients in *; cbn in Hev; rewrite Hi; [|lia]. destruct Hev as (? & ? & ? & ? & ?). split_and!; try done; lia.
    + intros q Hq. apply Hall. by apply Hsub.
    + transitivity (length (all c2)); [|done]. unfold all. rewrite !length_app, Hl', Hu', length_drop. lia.
    + done.
  - cbn [mbind result_bind]. set (e := mkHandle v ch k false 1 (hf k)). set (c1 := store _ _ _). specialize (H0 Hcap).
    assert (cache_ok c1) as Hok1.
    { destruct Hl as [Hnd Hlru Huse Hc Hg Hf Hus]. split; [split; cbn; change (all c1) with (all c)|].
      - done.
      - intros q Hq. destruct (Hlru q Hq) as (x & Hx & ?). exists x. rewrite lookup_insert_ne; [done|]. intros <-. unfold p in Hnew. congruence.
      - intros q Hq. destruct (Huse q Hq) as (x & Hx & ?). exists x. rewrite lookup_insert_ne; [done|]. intros <-. unfold p in Hnew. congruence.
      - intros q x. rewrite lookup_insert_Some. intros [[<- <-]|[_ Hx]]; [done|by eapply Hc].
      - intros q x. rewrite lookup_insert_Some. intros [[<- <-]|[_ Hx]]; [done|by eapply Hg].
      - intros q x. rewrite lookup_insert_Some. intros [[<- _]|[_ Hx]]; [lia|]. specialize (Hf q x Hx). lia.
      - rewrite Hus, H0. done.
      - change (all c1) with (all c). rewrite H0. rewrite H0 in Ht. eapply table_mem; [exact Ht|]. intros q x Hq. by apply elem_of_nil in Hq. }
    assert (lru_ c1 = []) as Hl0 by (unfold all in H0; by apply app_eq_nil in H0 as [? _]). rewrite Hl0. cbn [length evict]. rewrite Hl0. cbn [mbind result_bind].
    exists c1, e. split_and!; try done; try lia.
    + by right.
    + cbn. by rewrite lookup_insert_eq.
    + cbn. rewrite delete_insert_id by done. apply keeps_refl.
    + intros q Hq. change (all c1) with (all c) in Hq. rewrite H0 in Hq. by apply elem_of_nil in Hq.
    + change (all c1) with (all c). lia.
Qed.

Lemma Lookup_cache c k : cache_ok c -> (forall p e, mem c !! p = Some e -> refs e < 2 ^ 32 - 1) ->
  exists o c', Lookup c k (hf k) = Ret (o, c') /\ cache_ok c' /\ capacity_ c' = capacity_ c /\ all c' ≡ₚ all c /\
    match o with
    | Some p => p ∈ all c /\ exists e, mem c !! p = Some e /\ key e = k /\ mem c' = <[p := set_refs e (refs e + 1)]> (mem c)
    | None => c' = c /\ forall p e, p ∈ all c -> mem c !! p = Some e -> key e <> k
    end.
Proof.
  intros Hok Hr. pose proof Hok as [Hl Ht]. unfold Lookup. destruct (Lookup_table hf Hhf (mem c) (table_ c) (all c) k Ht) as (o & -> & Ho). cbn [mbind result_bind]. destruct o as [p|].
  - destruct Ho as (Hp & e & He & Hk). destruct (Ref_ok c p e Hok He Hp (Hr p e He)) as (c' & -> & Hok' & Hm & Hall & _ & Hcap & _). cbn [mbind result_bind].
    exists (Some p), c'. split_and!; try done. by exists e.
  - by exists None, c.
Qed.

Lemma prune_ok fuel : forall c, cache_ok c -> Z.of_nat (length (all c)) <= 2 ^ 31 -> (length (lru_ c) <= fuel)%nat ->
  exists c', prune fuel c = Ret c' /\ cache_ok c' /\ capacity_ c' = capacity_ c /\ lru_ c' = [] /\ in_use_ c' = in_use_ c /\ keeps (mem c) (mem c').
Proof.
  induction fuel as [|fuel IH]; intros c Hok Hn Hf; cbn [prune]; destruct (lru_ c) as [|p l] eqn:El.
  - exists c. split_and!; try done. apply keeps_refl.
  - cbn in Hf. lia.
  - exists c. split_and!; try done. apply keeps_refl.
  - destruct (evict_oldest_ok c p l Hok Hn El) as (c1 & e & He & -> & Hok1 & Hcap1 & Hus1 & Hfr1 & Hl1 & Hu1 & Hm1 & Hd1). cbn [mbind result_bind].
    destruct (IH c1 Hok1) as (c2 & -> & Hok2 & Hcap2 & Hl2 & Hu2 & Hk2).
    { unfold all. rewrite Hl1, Hu1. unfold all in Hn. rewrite El in Hn. cbn [length app] in Hn. lia. }
    { rewrite Hl1. cbn in Hf. lia. }
    exists c2. split_and!; try done; try congruence. eapply keeps_trans; [|exact Hk2]. destruct (lo_lru _ (proj1 Hok) p) as (x & Hx & Hi & Hr); [rewrite El; by left|].
    rewrite He in Hx. injection Hx as <-. apply (keeps_erased _ p e); try done. by rewrite Hr.
Qed.
(** *** Deletion *)

Lemma destroy_entry_ok c p e : mem c !! p = Some e -> in_cache e = true -> refs e = 1 ->
  exists c', destroy_entry c p = Ret c' /\ mem c' = delete p (mem c).
Proof.
  intros He Hi Hr. unfold destroy_entry, Unref, deref. rewrite He. cbn [mbind result_bind]. rewrite Hi, Hr. cbn [andb]. change (1 =? 1) with true. cbv iota.
  cbn [mem store]. rewrite lookup_insert_eq. cbn [mbind result_bind refs set_in_cache set_refs in_cache negb]. rewrite Hr. change (0 <? 1) with true. change (1 - 1 =? 0) with true. cbn [negb].
  eexists. split; [done|]. cbn. by rewrite !delete_insert_eq.
Qed.

Lemma destroy_entries l : forall c, NoDup l -> (forall p, p ∈ l -> exists e, mem c !! p = Some e /\ in_cache e = true /\ refs e = 1) ->
  exists c', foldR destroy_entry c l = Ret c' /\ forall q, mem c' !! q = if decide (q ∈ l) then None else mem c !! q.
Proof.
  induction l as [|p l IH]; intros c Hnd Hl; cbn [foldR]; [by exists c|]. apply NoDup_cons in Hnd as [Hp Hnd]. destruct (Hl p ltac:(by left)) as (e & He & Hi & Hr).
  destruct (destroy_entry_ok c p e He Hi Hr) as (c1 & -> & Hm). cbn [mbind result_bind]. destruct (IH c1 Hnd) as (c2 & -> & Hm2).
  - intros q Hq. rewrite Hm, lookup_delete_ne by (intros <-; done). apply Hl. by right.
  - exists c2. split; [done|]. intros q. rewrite Hm2, Hm. destruct (decide (q = p)) as [->|Hne]; [rewrite lookup_delete_eq; repeat case_decide; set_solver|].
    rewrite lookup_delete_ne by done. repeat case_decide; set_solver.
Qed.

(** When no client holds an entry, the destructor frees them all. *)
Lemma destroy_ok c : cache_ok c -> in_use_ c = [] -> (forall p e, mem c !! p = Some e -> in_cache e = true) -> exists c', destroy c = Ret c' /\ mem c' = ∅.
Proof.
  intros [Hl _] Hu Hc. unfold destroy. rewrite Hu. pose proof (lo_nodup _ Hl) as Hnd. unfold all in Hnd. rewrite Hu, app_nil_r in Hnd.
  destruct (destroy_entries (lru_ c) c Hnd (lo_lru _ Hl)) as (c' & -> & Hm). exists c'. split; [done|]. apply map_eq. intros q. rewrite Hm, lookup_empty.
  case_decide as Hq; [done|]. destruct (mem c !! q) as [e|] eqn:He; [|done]. exfalso. apply Hq. pose proof (lo_cached _ Hl q e He (Hc q e He)) as H. unfold all in H. by rewrite Hu, app_nil_r in H.
Qed.
End cache.

(** ** Clients of a shard *)

Section clients.
Context {V : Type} (hf : str -> Z).
Hypothesis Hhf : forall k, 0 <= hf k < 2 ^ 32.
Import LRUCache.

(** A shard with the handles its clients have, once for each reference. *)
Record Clients := mkClients { cl_cache : LRUCache V; held : list nat }.

(** [OpRelease i] gives back the [i]-th handle that is held. *)
Inductive cache_op := OpInsert (k : str) (v : V) (charge : Z) | OpLookup (k : str) | OpRelease (i : nat) | OpErase (k : str) | OpPrune.

Implicit Types (s : Clients) (o : cache_op) (p : nat) (e : LRUHandle V) (latest : gmap str V).

Definition run_op s o : result Clients :=
  let c := cl_cache s in
  match o with
  | OpInsert k v ch => q ← Insert c k (hf k) v ch; Ret (mkClients (snd q) (fst q :: held s))
  | OpLookup k => q ← Lookup c k (hf k); Ret (mkClients (snd q) (option_list (fst q) ++ held s))
  | OpRelease i =>
      match held s !! i with
      | Some p => c ← Release c p; Ret (mkClients c (take i (held s) ++ drop (S i) (held s)))
      | None => Ret s
      end
  | OpErase k => c ← Erase c k (hf k); Ret (mkClients c (held s))
  | OpPrune => c ← Prune c; Ret (mkClients c (held s))
  end.

(** What was inserted last and not erased since. *)
Definition latest_after latest o : gmap str V :=
  match o with OpInsert k v _ => <[k := v]> latest | OpErase k => delete k latest | _ => latest end.

Definition op_ok o : Prop := match o with OpInsert _ _ ch => 0 <= ch | _ => True end.

Abbreviation times p l := (Z.of_nat (count_occ Nat.eq_dec l p)).

(** After [n] operations. *)
Record clients_ok (n : nat) s latest : Prop := {
  co_cache : cache_ok hf (cl_cache s);
  co_counts p e : mem (cl_cache s) !! p = Some e -> clients e = times p (held s);
  co_held p : p ∈ held s -> is_Some (mem (cl_cache s) !! p);
  co_all : (length (all (cl_cache s)) <= n)%nat;
  co_length : (length (held s) <= n)%nat;
  co_latest p e : p ∈ all (cl_cache s) -> mem (cl_cache s) !! p = Some e -> latest !! key e = Some (value e);
  co_off : capacity_ (cl_cache s) <= 0 -> all (cl_cache s) = []
}.

Lemma times_le p l : times p l <= Z.of_nat (length l).
Proof. induction l as [|q l IH]; cbn; [lia|]. destruct (Nat.eq_dec q p); lia. Qed.

Lemma times_pos p l : p ∈ l <-> 0 < times p l.
Proof. rewrite list_elem_of_In, (count_occ_In Nat.eq_dec). lia. Qed.

Lemma times_drop p q i l : l !! i = Some p -> times q l = times q (take i l ++ drop (S i) l) + (if decide (q = p) then 1 else 0).
Proof.
  intros Hi. rewrite <- (take_drop_middle _ _ _ Hi) at 1. rewrite !count_occ_app. cbn. destruct (Nat.eq_dec p q), (decide (q = p)); subst; try done; lia.
Qed.

Lemma refs_bound n s latest p e : clients_ok n s latest -> mem (cl_cache s) !! p = Some e -> refs e <= Z.of_nat n + 1.
Proof.
  intros H He. pose proof (co_counts _ _ _ H p e He) as Hc. pose proof (times_le p (held s)). pose proof (co_length _ _ _ H). unfold clients in Hc. destruct (in_cache e); lia.
Qed.

(** What an operation that keeps entries does to the invariant. *)
Lemma keeps_counts (m m' : gmap nat (LRUHandle V)) (l : list nat) : keeps m m' -> (forall p e, m !! p = Some e -> clients e = times p l) -> (forall p, p ∈ l -> is_Some (m !! p)) ->
  (forall p e, m' !! p = Some e -> clients e = times p l) /\ (forall p, p ∈ l -> is_Some (m' !! p)).
Proof.
  intros Hk Hc Hh. split.
  - intros p e He. specialize (Hk p). rewrite He in Hk. destruct (m !! p) as [x|] eqn:Ex; [|done]. destruct Hk as (-> & _). by apply Hc.
  - intros p Hp. specialize (Hk p). destruct (Hh p Hp) as [x Hx]. rewrite Hx in Hk. destruct (m' !! p) eqn:E; [done|]. rewrite (Hc p x Hx) in Hk. apply times_pos in Hp. lia.
Qed.

(** The entries that stay have the same keys and values. *)
Lemma keeps_latest (m m' : gmap nat (LRUHandle V)) latest (l : list nat) : keeps m m' -> (forall p e, p ∈ l -> m !! p = Some e -> latest !! key e = Some (value e)) ->
  forall p e, p ∈ l -> m' !! p = Some e -> latest !! key e = Some (value e).
Proof. intros Hk Hl p e Hp He. specialize (Hk p). rewrite He in Hk. destruct (m !! p) as [x|] eqn:Ex; [|done]. destruct Hk as (_ & -> & -> & _). by eapply Hl. Qed.

Lemma insert_step n s latest k v ch : clients_ok n s latest -> Z.of_nat n < 2 ^ 31 - 1 -> 0 <= ch ->
  exists s', run_op s (OpInsert k v ch) = Ret s' /\ clients_ok (S n) s' (<[k := v]> latest) /\ capacity_ (cl_cache s') = capacity_ (cl_cache s) /\
    (usage_ (cl_cache s') <= capacity_ (cl_cache s) \/ lru_ (cl_cache s') = []).
Proof.
  intros Hok Hn Hch. pose proof Hok as [Hc Hcnt Hheld Hall Hlen Hlat Hoff]. cbn [run_op].
  destruct (Insert_cache hf Hhf (cl_cache s) k v ch Hc ltac:(lia) Hch Hoff) as (c' & e & -> & Hc' & Hcap & Hus & He & Hk & Hv & Hcl & Hr & Hin & Hoff' & Hnone & Hkeeps & Hsub & Hlen' & _).
  cbn [mbind result_bind fst snd]. set (p := fresh (cl_cache s)) in *. eexists. split; [done|]. split; [|done]. destruct (keeps_counts _ _ _ Hkeeps Hcnt Hheld) as [Hcnt' Hheld'].
  assert (p ∉ held s) as Hpn by (intros Hp; destruct (Hheld p Hp); congruence). assert (times p (held s) = 0) as Hp0.
  { destruct (decide (0 < times p (held s))) as [H|]; [by apply times_pos in H|]. pose proof (Nat2Z.is_nonneg (count_occ Nat.eq_dec (held s) p)). lia. }
  split; cbn [cl_cache held]; try done; try lia.
  - intros q x Hx. cbn. destruct (Nat.eq_dec p q) as [->|Hne]; [rewrite He in Hx; injection Hx as <-; lia|]. apply Hcnt'. by rewrite lookup_delete_ne by done.
  - intros q [->|Hq]%elem_of_cons; [by exists e|]. destruct (Hheld' q Hq) as [x Hx]. apply lookup_delete_Some in Hx as [_ Hx]. by exists x.
  - cbn [length]. lia.
  - intros q x Hq Hx. destruct (Hsub q Hq) as [->|[Hq' Hkx]]; [rewrite He in Hx; injection Hx as <-; rewrite Hk, Hv; apply lookup_insert_eq|].
    assert (q <> p) as Hqp by (intros ->; destruct (all_elem _ p (proj1 Hc) Hq') as (y & Hy & _); congruence).
    specialize (Hkeeps q). rewrite lookup_delete_ne, Hx in Hkeeps by done. destruct (mem (cl_cache s) !! q) as [y|] eqn:Ey; [|done]. destruct Hkeeps as (_ & -> & -> & _).
    rewrite lookup_insert_ne by (apply not_eq_sym; by apply Hkx). by apply (Hlat q).
  - rewrite Hcap. done.
Qed.

Lemma run_op_ok n s latest o : clients_ok n s latest -> Z.of_nat n < 2 ^ 31 - 1 -> op_ok o -> exists s', run_op s o = Ret s' /\ clients_ok (S n) s' (latest_after latest o) /\
  capacity_ (cl_cache s') = capacity_ (cl_cache s).
Proof.
  intros Hok Hn Ho. pose proof Hok as [Hc Hcnt Hheld Hall Hlen Hlat Hoff]. destruct o as [k v ch|k|i|k|]; cbn [latest_after op_ok] in *.
  - destruct (insert_step n s latest k v ch Hok Hn Ho) as (s' & ? & ? & ? & _). by exists s'.
  - cbn [run_op]. destruct (Lookup_cache hf Hhf (cl_cache s) k Hc) as (o & c' & -> & Hc' & Hcap & Hperm & Hcase).
    { intros p e He. pose proof (refs_bound n s latest p e Hok He). lia. }
    cbn [mbind result_bind fst snd]. eexists. split; [done|]. split; [|done]. destruct o as [p|]; [change (option_list (Some p) ++ held s) with (p :: held s)|change (option_list None ++ held s) with (held s); destruct Hcase as [-> _]; split; cbn [cl_cache held]; try done; lia].
    destruct Hcase as (Hp & e & He & Hk & Hm). split; cbn [cl_cache held]; try done.
    + intros q x Hx. rewrite Hm in Hx. cbn. apply lookup_insert_Some in Hx as [[<- <-]|[Hne Hx]].
      * destruct (Nat.eq_dec p p); [|done]. pose proof (Hcnt p e He) as H. unfold clients in *. cbn. destruct (in_cache e); lia.
      * destruct (Nat.eq_dec p q); [done|]. by apply Hcnt.
    + rewrite Hm. intros q [->|Hq]%elem_of_cons; [by rewrite lookup_insert_eq|]. destruct (decide (p = q)) as [->|]; [by rewrite lookup_insert_eq|]. rewrite lookup_insert_ne by done. by apply Hheld.
    + rewrite (Permutation_length Hperm). lia.
    + cbn [length]. lia.
    + rewrite Hm. intros q x Hq Hx. rewrite Hperm in Hq. apply lookup_insert_Some in Hx as [[<- <-]|[_ Hx]]; [by apply (Hlat p e)|by apply (Hlat q)].
    + rewrite Hcap. intros H0. specialize (Hoff H0). rewrite Hoff in Hperm. symmetry in Hperm. by apply Permutation_nil in Hperm.
  - cbn [run_op]. destruct (held s !! i) as [p|] eqn:Ei; [|exists s; split; [done|]; split; [|done]; split; try done; lia]. assert (p ∈ held s) as Hp by (by eapply list_elem_of_lookup_2).
    destruct (Hheld p Hp) as [e He]. unfold Release. pose proof (proj1 (times_pos p (held s)) Hp) as Hpos. pose proof (Hcnt p e He) as Hce.
    destruct (Unref_ok hf (cl_cache s) p e Hc He) as (c' & -> & Hc' & Hcap & _ & _ & Hperm & Hmem & _); [lia|]. cbn [mbind result_bind]. eexists. split; [done|]. split; [|done].
    assert (forall q, q <> p -> mem c' !! q = mem (cl_cache s) !! q) as Hother.
    { intros q Hq. destruct (refs e =? 1); destruct Hmem as [-> _]; [by rewrite lookup_delete_ne by done|by rewrite lookup_insert_ne by done]. }
    split; cbn [cl_cache held]; try done.
    + intros q x Hx. pose proof (times_drop p q i (held s) Ei) as Ht. destruct (decide (q = p)) as [->|Hq]; [|rewrite Hother in Hx by done; rewrite (Hcnt q x Hx); lia].
      destruct (Z.eqb_spec (refs e) 1) as [Hr|Hr]; destruct Hmem as [Hm _]; rewrite Hm in Hx; [by rewrite lookup_delete_eq in Hx|]. rewrite lookup_insert_eq in Hx. injection Hx as <-.
      unfold clients in *. cbn. destruct (in_cache e); lia.
    + intros q Hq. apply elem_around in Hq as Hq0. destruct (decide (q = p)) as [->|Hne]; [|rewrite Hother by done; by apply Hheld].
      destruct (Z.eqb_spec (refs e) 1) as [Hr|Hr]; destruct Hmem as [Hm _]; rewrite Hm; [|by rewrite lookup_insert_eq].
      exfalso. apply times_pos in Hq. pose proof (times_drop p p i (held s) Ei) as Ht. rewrite decide_True in Ht by done. unfold clients in Hce. destruct (in_cache e); lia.
    + rewrite (Permutation_length Hperm). lia.
    + rewrite length_app, length_take, length_drop. apply lookup_lt_Some in Ei. lia.
    + intros q x Hq Hx. rewrite Hperm in Hq. destruct (decide (q = p)) as [->|Hne]; [|rewrite Hother in Hx by done; by apply (Hlat q)].
      destruct (refs e =? 1); destruct Hmem as [Hm _]; rewrite Hm in Hx; [by rewrite lookup_delete_eq in Hx|]. rewrite lookup_insert_eq in Hx. injection Hx as <-. by apply (Hlat p e).
    + rewrite Hcap. intros H0. specialize (Hoff H0). rewrite Hoff in Hperm. symmetry in Hperm. by apply Permutation_nil in Hperm.
  - cbn [run_op]. unfold Erase. destruct (erase_ok hf Hhf (cl_cache s) k Hc ltac:(lia)) as (c' & b & -> & Hc' & Hcase). cbn [mbind result_bind fst]. eexists. split; [done|]. destruct b.
    + destruct Hcase as (q & e & Hq & He & Hk & Hcap & _ & _ & Hl & Hu & Hmem). split; [|done]. destruct (all_elem _ q (proj1 Hc) Hq) as (x & Hx & Hi & _). rewrite He in Hx. injection Hx as <-.
      assert (keeps (mem (cl_cache s)) (mem c')) as Hkeeps by (apply (keeps_erased _ q e _ He Hi); destruct (refs e =? 1); by destruct Hmem).
      assert (all c' = unlink q (all (cl_cache s))) as Eall by (unfold all; rewrite Hl, Hu; by rewrite unlink_app). destruct (keeps_counts _ _ _ Hkeeps Hcnt Hheld) as [Hcnt' Hheld'].
      split; cbn [cl_cache held]; try done.
      * rewrite Eall. pose proof (Permutation_length (unlink_perm q _ (lo_nodup _ (proj1 Hc)) Hq)) as El. cbn [length] in El. lia.
      * lia.
      * intros y x Hy Hx. rewrite Eall in Hy. apply elem_unlink in Hy as [Hy Hne]. specialize (Hkeeps y). rewrite Hx in Hkeeps. destruct (mem (cl_cache s) !! y) as [z|] eqn:Ez; [|done].
        destruct Hkeeps as (_ & -> & -> & _). rewrite lookup_delete_ne; [by apply (Hlat y)|]. intros E. apply Hne. apply (to_keys _ _ _ _ (proj2 Hc) y q z e); congruence.
      * rewrite Hcap, Eall. intros H0. specialize (Hoff H0). by rewrite Hoff.
    + destruct Hcase as [-> Hno]. split; [|done]. split; cbn [cl_cache held]; try done; try lia. intros p e Hp He. rewrite lookup_delete_ne; [by apply (Hlat p)|]. intros E. by apply (Hno p e Hp He).
  - cbn [run_op]. unfold Prune. destruct (prune_ok hf Hhf (length (lru_ (cl_cache s))) (cl_cache s) Hc ltac:(lia) ltac:(lia)) as (c' & -> & Hc' & Hcap & Hl & Hu & Hkeeps). cbn [mbind result_bind].
    eexists. split; [done|]. split; [|done]. destruct (keeps_counts _ _ _ Hkeeps Hcnt Hheld) as [Hcnt' Hheld'].
    assert (forall q, q ∈ all c' -> q ∈ all (cl_cache s)) as Hsub by (intros q; unfold all; rewrite Hl, Hu; intros H; apply elem_of_app; by right).
    split; cbn [cl_cache held]; try done.
    + unfold all in *. rewrite length_app in Hall. rewrite Hl, Hu. cbn [app]. lia.
    + lia.
    + intros q x Hq. apply (keeps_latest _ _ latest (all (cl_cache s)) Hkeeps Hlat). by apply Hsub.
    + rewrite Hcap. intros H0. specialize (Hoff H0). unfold all in *. rewrite Hl, Hu. cbn [app]. by apply app_eq_nil in Hoff as [_ ?].
Qed.

Definition run_ops (capacity : Z) (ops : list cache_op) : result Clients := c ← make capacity; foldR run_op (mkClients c []) ops.

Definition latest_of (ops : list cache_op) : gmap str V := foldl latest_after ∅ ops.

Lemma run_ops_ok ops : forall n s latest, clients_ok n s latest -> Forall op_ok ops -> Z.of_nat (n + length ops) < 2 ^ 31 ->
  exists s', foldR run_op s ops = Ret s' /\ clients_ok (n + length ops) s' (foldl latest_after latest ops) /\ capacity_ (cl_cache s') = capacity_ (cl_cache s).
Proof.
  induction ops as [|o ops IH]; intros n s latest Hok Hops Hn; cbn [foldR foldl length] in *; [exists s; by rewrite Nat.add_0_r|].
  apply Forall_cons_1 in Hops as [Ho Hops]. destruct (run_op_ok n s latest o Hok ltac:(lia) Ho) as (s1 & -> & Hok1 & Hcap1). cbn [mbind result_bind].
  destruct (IH (S n) s1 _ Hok1 Hops ltac:(lia)) as (s2 & -> & Hok2 & Hcap2). exists s2. split; [done|]. split; [by rewrite Nat.add_succ_r|congruence].
Qed.

Lemma clients_start capacity : exists c, make capacity = Ret c /\ clients_ok 0 (mkClients c []) ∅ /\ capacity_ c = capacity.
Proof.
  destruct (make_cache (V := V) hf Hhf capacity) as (c & Hc & Hok & Hcap & Hm & Hl & Hu). exists c. split; [done|]. split; [|done]. assert (all c = []) as Ha by (unfold all; by rewrite Hl, Hu).
  split; cbn [cl_cache held]; try done; rewrite ?Ha; try done; [intros p e; by rewrite Hm|by intros p ?%elem_of_nil|by intros p e ?%elem_of_nil].
Qed.

(** C17: Whatever clients insert, look up, release, erase and prune, no operation of a
    shard fails an assertion or reads a freed entry.  An entry has as many references
    as clients hold, and one more while it is cached, so that no value is deleted while
    it is held and none is kept for nothing; a lookup finds a key only with the value
    that was inserted last and not erased since; after an insertion the usage is within
    the capacity, or every entry is in use; and the inserted key is found, if there is
    any capacity. *)
Theorem lru_cache_serves_clients capacity ops : Forall op_ok ops -> Z.of_nat (length ops) < 2 ^ 31 - 2 ->
  exists s, run_ops capacity ops = Ret s /\
    (forall p, p ∈ held s -> exists e, mem (cl_cache s) !! p = Some e) /\
    (forall p e, mem (cl_cache s) !! p = Some e -> refs e = times p (held s) + (if in_cache e then 1 else 0) /\ 0 < refs e) /\
    (forall k, exists r c', Lookup (cl_cache s) k (hf k) = Ret (r, c') /\
       forall p, r = Some p -> exists e, mem c' !! p = Some e /\ key e = k /\ latest_of ops !! k = Some (value e)) /\
    (forall k v ch, 0 <= ch -> exists p c', Insert (cl_cache s) k (hf k) v ch = Ret (p, c') /\ (usage_ c' <= capacity \/ lru_ c' = []) /\
       (0 < capacity -> exists c'' e, Lookup c' k (hf k) = Ret (Some p, c'') /\ mem c'' !! p = Some e /\ value e = v)).
Proof.
  intros Hops Hn. destruct (clients_start capacity) as (c0 & Hm & Hok0 & Hcap0). unfold run_ops. rewrite Hm. cbn [mbind result_bind].
  destruct (run_ops_ok ops 0 (mkClients c0 []) ∅ Hok0 Hops ltac:(cbn [Nat.add]; lia)) as (s & -> & Hok & Hcap). cbn [Nat.add cl_cache] in *. exists s. split; [done|].
  pose proof Hok as [Hc Hcnt Hheld Hall Hlen Hlat Hoff]. split_and!.
  - exact Hheld.
  - intros p e He. pose proof (Hcnt p e He) as H. unfold clients in H. split; [lia|]. destruct (in_cache e) eqn:Ei; [|pose proof (lo_gone _ (proj1 Hc) p e He Ei); lia].
    destruct (all_elem _ p (proj1 Hc) (lo_cached _ (proj1 Hc) p e He Ei)) as (x & Hx & _ & Hr). rewrite He in Hx. injection Hx as <-. lia.
  - intros k. destruct (Lookup_cache hf Hhf (cl_cache s) k Hc) as (o & c' & Hl & _ & _ & _ & Hcase); [intros p e He; pose proof (refs_bound _ s _ p e Hok He); lia|].
    exists o, c'. split; [done|]. intros p ->. destruct Hcase as (Hp & e & He & Hk & ->). eexists. rewrite lookup_insert_eq. split; [done|]. cbn. split; [done|]. rewrite <- Hk. by apply (Hlat p e).
  - intros k v ch Hch. destruct (Insert_cache hf Hhf (cl_cache s) k v ch Hc ltac:(lia) Hch Hoff) as (c' & e & Hins & Hc' & Hcap' & Hus & He & Hk & Hv & _ & Hr & Hin & _ & _ & Hkeeps & _).
    eexists _, c'. split; [done|]. rewrite Hcap, Hcap0 in *. split; [done|]. intros Hpos. specialize (Hin Hpos).
    destruct (Lookup_cache hf Hhf c' k Hc') as (o & c'' & Hl & _ & _ & _ & Hcase).
    { intros p x Hx. destruct (decide (p = fresh (cl_cache s))) as [->|Hne]; [rewrite He in Hx; injection Hx as <-; lia|]. specialize (Hkeeps p). rewrite lookup_delete_ne, Hx in Hkeeps by done.
      destruct (mem (cl_cache s) !! p) as [y|] eqn:Ey; [|done]. destruct Hkeeps as (_ & _ & _ & _ & ?). pose proof (refs_bound _ s _ p y Hok Ey). lia. }
    destruct o as [p|]; [|by destruct Hcase as [_ Hno]; exfalso; apply (Hno _ e Hin He)]. destruct Hcase as (Hp & x & Hx & Hkx & Hm'').
    assert (p = fresh (cl_cache s)) as -> by (apply (to_keys _ _ _ _ (proj2 Hc') p (fresh (cl_cache s)) x e); congruence). rewrite He in Hx. injection Hx as <-.
    eexists c'', _. split; [done|]. rewrite Hm'', lookup_insert_eq. done.
Qed.
End clients.

(** ** Witness *)

Lemma xor_shift_range h n : 0 <= n -> 0 <= Z.lxor (u32 h) (Z.shiftr (u32 h) n) < 2 ^ 32.
Proof.
  intros Hn. pose proof (Z.mod_pos_bound h (2 ^ 32) ltac:(lia)) as Hr. fold (wrap 32 h) in Hr. assert (0 <= Z.shiftr (u32 h) n < 2 ^ 32) as Hs.
  { rewrite Z.shiftr_div_pow2 by done. split; [apply Z.div_pos; lia|]. apply Z.le_lt_trans with (wrap 32 h); [|lia]. apply Z.div_le_upper_bound; [lia|]. nia. }
  by apply lxor_range.
Qed.

Lemma hash_tail_range h data : 0 <= h < 2 ^ 32 -> 0 <= hash_tail h data < 2 ^ 32.
Proof. intros Hh. destruct data as [|b0 data]; [done|]. by apply xor_shift_range. Qed.

Lemma hash_loop_range n : forall h data, (length data <= n)%nat -> 0 <= h < 2 ^ 32 -> 0 <= hash_loop h data < 2 ^ 32.
Proof.
  induction n as [|n IH]; intros h data Hn Hh; destruct data as [|b0 [|b1 [|b2 [|b3 data]]]]; cbn [length] in Hn; try lia; cbn [hash_loop]; try by apply hash_tail_range.
  apply IH; [lia|]. by apply xor_shift_range.
Qed.

Lemma HashSlice_range k : 0 <= ShardedLRUCache.HashSlice k < 2 ^ 32.
Proof. apply (hash_loop_range (length k)); [done|]. by apply wrap_range. Qed.

(** Three entries in a shard for two: the oldest that nobody holds is gone. *)
Lemma lru_cache_serves_clients_witness :
  let ops := [OpInsert ($"a") 1 1; OpInsert ($"b") 2 1; OpRelease 1; OpInsert ($"a") 3 1; OpLookup ($"b"); OpErase ($"b")] in
  exists s, run_ops ShardedLRUCache.HashSlice 2 ops = Ret s /\
    forall k, exists o c', LRUCache.Lookup (cl_cache s) k (ShardedLRUCache.HashSlice k) = Ret (o, c') /\
      forall p, o = Some p -> exists e, LRUCache.mem c' !! p = Some e /\ key e = k /\ latest_of ops !! k = Some (value e).
Proof.
  intros ops. destruct (lru_cache_serves_clients ShardedLRUCache.HashSlice HashSlice_range 2 ops) as (s & Hrun & _ & _ & Hl & _); [repeat constructor; vm_compute; discriminate|vm_compute; reflexivity|].
  exists s. split; [exact Hrun|exact Hl].
Defined.
