(* ===== verification/TableCache.v ===== *)
(** * leveldb: the table cache

    [db/table_cache.cc]: open tables under their file numbers in a [ShardedLRUCache].
    Opening a file is the operation of [RandomAccessEnv]; the environment, the block
    cache and the cache of tables are the state.  [DeleteEntry] is what the cache does
    with an entry that it frees. *)

From Stdlib Require Import ZArith Lia.
From S2P Require Import Prelude CString World Coding SliceStatus Logging FilterPolicy DbFormat Iterators TableBlock TwoLevelIterator Merger LogFile TableFormat FilterBlock TableBuilder Table Version LruCache.

(** [Env::NewRandomAccessFile] *)
Class RandomAccessEnv (E F : Type) := {
  env_NewRandomAccessFile : E -> str -> E * Status.Status * option F
}.

Module TableCache.

Section ops.
Context {E F K : Type} `{RE : !RandomAccessEnv E F, RF : !RandomAccessFile F, C : !Comparator, PT : !Port, CA : !Cache K Block.Block}.

Record TableAndFile := mkTableAndFile { tf_file : F; tf_table : option (Table.Rep F) }.

Record TableCache := mkTableCache {
  env_ : E;
  dbname_ : str;
  options_ : Options;
  block_cache_ : option K;
  cache_ : ShardedLRUCache.ShardedLRUCache TableAndFile
}.

Implicit Types (t : TableCache) (file_number file_size : Z).

Definition set_env t (env : E) : TableCache := mkTableCache env (dbname_ t) (options_ t) (block_cache_ t) (cache_ t).
Definition set_block_cache t (blocks : option K) : TableCache := mkTableCache (env_ t) (dbname_ t) (options_ t) blocks (cache_ t).
Definition set_cache t (cache : ShardedLRUCache.ShardedLRUCache TableAndFile) : TableCache :=
  mkTableCache (env_ t) (dbname_ t) (options_ t) (block_cache_ t) cache.

Definition make (env : E) (dbname : str) (options : Options) (blocks : option K) (entries : Z) : result TableCache :=
  cache ← ShardedLRUCache.NewLRUCache entries;
  Ret (mkTableCache env dbname options blocks cache).

(** The file of a table, under its name or its old name. *)
Definition open_file t file_number : result (Status.Status * option F * TableCache) :=
  fname ← TableFileName (dbname_ t) file_number;
  let '(env, s, file) := env_NewRandomAccessFile (env_ t) fname in
  let t := set_env t env in
  if negb (Status.ok s) then
    old_fname ← SSTTableFileName (dbname_ t) file_number;
    let '(env, s', file') := env_NewRandomAccessFile (env_ t) old_fname in
    let t := set_env t env in
    if Status.ok s' then Ret (Status.OK, file', t) else Ret (s, file, t)
  else Ret (s, file, t).

(** [Table::Open] of a file that was opened *)
Definition open_table t (file : option F) file_size : result (Status.Status * option (Table.Rep F) * TableCache) :=
  match file with
  | Some f =>
      q ← Table.Open (options_ t) f file_size (block_cache_ t);
      let '(s, table, blocks) := (q : Status.Status * option (Table.Rep F) * option K) in
      Ret (s, table, set_block_cache t blocks)
  | None => Crash NullDeref
  end.

Definition FindTable t file_number file_size : result (Status.Status * option ShardedLRUCache.Handle * TableCache) :=
  let key := EncodeFixed64 file_number in
  q ← ShardedLRUCache.Lookup (cache_ t) key;
  let '(handle, cache) := (q : option ShardedLRUCache.Handle * ShardedLRUCache.ShardedLRUCache TableAndFile) in
  let t := set_cache t cache in
  match handle with
  | Some h => Ret (Status.OK, Some h, t)
  | None =>
      q ← open_file t file_number;
      let '(s, file, t) := (q : Status.Status * option F * TableCache) in
      q ← (if Status.ok s then open_table t file file_size else Ret (s, None, t));
      let '(s, table, t) := (q : Status.Status * option (Table.Rep F) * TableCache) in
      if negb (Status.ok s) then
        match table with None => Ret (s, None, t) | Some _ => Crash AssertFailed end
      else
        match file with
        | Some f =>
            q ← ShardedLRUCache.Insert (cache_ t) key (mkTableAndFile f table) 1;
            let '(h, cache) := (q : ShardedLRUCache.Handle * ShardedLRUCache.ShardedLRUCache TableAndFile) in
            Ret (s, Some h, set_cache t cache)
        | None => Crash NullDeref
        end
  end.

(** [reinterpret_cast<TableAndFile*>(cache_->Value(handle))->table] *)
Definition table_of t (handle : option ShardedLRUCache.Handle) : result (Table.Rep F) :=
  match handle with
  | Some h =>
      tf ← ShardedLRUCache.Value (cache_ t) h;
      match tf_table tf with Some table => Ret table | None => Crash NullDeref end
  | None => Crash NullDeref
  end.

(** The cleanup of an iterator *)
Definition UnrefEntry t (handle : ShardedLRUCache.Handle) : result TableCache :=
  cache ← ShardedLRUCache.Release (cache_ t) handle;
  Ret (set_cache t cache).

(** An iterator with the handle its cleanup releases. *)
Record HandledIterator := mkHandled { hi_iter : Table.TableIterator F K; hi_handle : ShardedLRUCache.Handle }.

Definition on_iter (h : ShardedLRUCache.Handle) (r : result (Table.TableIterator F K)) : result HandledIterator :=
  it ← r; Ret (mkHandled it h).

#[global] Instance handled_iterator : Iterator HandledIterator := {
  it_Valid i := it_Valid (hi_iter i);
  it_key i := it_key (hi_iter i);
  it_value i := it_value (hi_iter i);
  it_status i := it_status (hi_iter i);
  it_SeekToFirst i := on_iter (hi_handle i) (it_SeekToFirst (hi_iter i));
  it_SeekToLast i := on_iter (hi_handle i) (it_SeekToLast (hi_iter i));
  it_Seek i k := on_iter (hi_handle i) (it_Seek (hi_iter i) k);
  it_Next i := on_iter (hi_handle i) (it_Next (hi_iter i));
  it_Prev i := on_iter (hi_handle i) (it_Prev (hi_iter i))
}.

(** The iterator and [*tableptr] *)
Definition NewIterator t (options : ReadOptions) file_number file_size :
    result ((EmptyIterator.EmptyIterator + HandledIterator) * option (Table.Rep F) * TableCache) :=
  q ← FindTable t file_number file_size;
  let '(s, handle, t) := (q : Status.Status * option ShardedLRUCache.Handle * TableCache) in
  if negb (Status.ok s) then Ret (inl (EmptyIterator.NewErrorIterator s), None, t)
  else
    table ← table_of t handle;
    iter ← Table.NewIterator table (block_cache_ t) options;
    match handle with
    | Some h => Ret (inr (mkHandled iter h), Some table, t)
    | None => Crash NullDeref
    end.

(** The status, and what [handle_result] is called with if it is *)
Definition Get t (options : ReadOptions) file_number file_size (k : str) : result (Status.Status * option entry * TableCache) :=
  q ← FindTable t file_number file_size;
  let '(s, handle, t) := (q : Status.Status * option ShardedLRUCache.Handle * TableCache) in
  if Status.ok s then
    table ← table_of t handle;
    q ← Table.InternalGet table (block_cache_ t) options k;
    let '(s, found, blocks) := (q : Status.Status * option entry * option K) in
    let t := set_block_cache t blocks in
    match handle with
    | Some h => t ← UnrefEntry t h; Ret (s, found, t)
    | None => Crash NullDeref
    end
  else Ret (s, None, t).

Definition Evict t file_number : result TableCache :=
  cache ← ShardedLRUCache.Erase (cache_ t) (EncodeFixed64 file_number);
  Ret (set_cache t cache).

(** [delete cache_] *)
Definition destroy t : result (list (LRUCache.LRUCache TableAndFile)) := ShardedLRUCache.destroy (cache_ t).

(** What the versions of a database call, with the read options of the caller *)
Definition table_cache (options : ReadOptions) : Version.TableCache TableCache HandledIterator := {|
  tc_Get t n size k := Get t options n size k;
  tc_NewIterator t n size := q ← NewIterator t options n size; Ret (fst (fst q), snd q);
  tc_Evict t n := match Evict t n with Ret t => t | _ => t end
|}.

End ops.
Arguments TableAndFile F : clear implicits.
Arguments TableCache E F K : clear implicits.
Arguments HandledIterator F K : clear implicits.
End TableCache.
