(* ===== verification/TableCacheSpec.v ===== *)
(** * The table cache serves the files

    What the sharded cache promises when every entry has the charge one: the entries of
    a client stay and it never grows beyond its capacity and the entries in use, so
    that no number of operations makes a counter overflow.  On top of it, the table
    cache answers from the table files ([tc_ok]), whatever is cached or was evicted. *)

From Stdlib Require Import ZArith Lia.
From S2P Require Import Prelude CString World Coding SliceStatus Logging FilterPolicy DbFormat Iterators TableBlock TableBlockSpec TwoLevelIterator Merger LogFile TableFormat FilterBlock TableBuilder Table TableSpec TableRead DbTable.
From S2P Require Import Version VersionSpec LruCache LruCacheSpec TableCache.

(** ** A shard with unit charges *)

Abbreviation hf := ShardedLRUCache.HashSlice.

Section shard.
Context {V : Type} (good : str -> V -> Prop).
Implicit Types (c : LRUCache.LRUCache V) (held : list nat) (p : nat) (k : str) (v : V).
Import LRUCache.

Definition unit_charges c : Prop := forall p e, mem c !! p = Some e -> charge e = 1.

(** Clients hold [held]; what is cached is good. *)
Definition shard_ok c held : Prop := exists n latest,
  clients_ok hf n (mkClients c held) latest /\ Z.of_nat n < 2 ^ 31 - 1 /\ (forall k v, latest !! k = Some v -> good k v) /\
  unit_charges c /\ 0 < capacity_ c < 2 ^ 31 - 1.

Lemma clients_rebase (n n' : nat) (s : Clients) (latest : gmap str V) : clients_ok hf n s latest -> (length (all (cl_cache s)) <= n')%nat -> (length (held s) <= n')%nat -> clients_ok hf n' s latest.
Proof. by intros [H1 H2 H3 _ _ H6 H7] Ha Hh. Qed.

Lemma shard_room c held : shard_ok c held -> Z.of_nat (length (all c)) < 2 ^ 31 - 1 /\ Z.of_nat (length held) < 2 ^ 31 - 1.
Proof. intros (n & latest & Hc & Hn & _). pose proof (co_all _ _ _ _ Hc). pose proof (co_length _ _ _ _ Hc). cbn in *. lia. Qed.

(** After an operation the bounds are those of the lists. *)
Lemma shard_intro n c held latest : clients_ok hf n (mkClients c held) latest -> Z.of_nat (length (all c)) < 2 ^ 31 - 1 -> Z.of_nat (length held) < 2 ^ 31 - 1 ->
  (forall k v, latest !! k = Some v -> good k v) -> unit_charges c -> 0 < capacity_ c < 2 ^ 31 - 1 -> shard_ok c held.
Proof.
  intros Hc Ha Hh Hg Hu Hcap. exists (Nat.max (length (all c)) (length held)), latest. split; [|split; [lia|done]]. eapply clients_rebase; [exact Hc| |]; cbn; lia.
Qed.

Lemma unit_keeps (m m' : gmap nat (LRUHandle V)) p e : keeps m m' -> (forall p e, m !! p = Some e -> charge e = 1) -> m' !! p = Some e -> charge e = 1.
Proof. intros Hk Hu He. specialize (Hk p). rewrite He in Hk. destruct (m !! p) as [x|] eqn:Ex; [|done]. destruct Hk as (_ & _ & _ & -> & _). by apply (Hu p). Qed.

(** *** The operations *)

Lemma shard_Lookup c held k : shard_ok c held -> Z.of_nat (length held) < 2 ^ 31 - 2 ->
  exists o c', Lookup c k (hf k) = Ret (o, c') /\ shard_ok c' (option_list o ++ held) /\
    match o with Some p => exists e, mem c' !! p = Some e /\ good k (value e) | None => True end.
Proof.
  intros Hok Hh. pose proof (shard_room _ _ Hok) as [Ha _]. destruct Hok as (n & latest & Hc & Hn & Hg & Hu & Hcap).
  destruct (run_op_ok hf HashSlice_range n (mkClients c held) latest (OpLookup k) Hc ltac:(lia) I) as (s' & Hrun & Hc' & Hcap'). cbn [run_op latest_after cl_cache] in *.
  destruct (Lookup_cache hf HashSlice_range c k (co_cache _ _ _ _ Hc)) as (o & c' & Hl & _ & _ & Hperm & Hcase).
  { intros p e He. pose proof (refs_bound hf n _ latest p e Hc He). lia. }
  rewrite Hl in Hrun. cbn [mbind result_bind fst snd LruCacheSpec.held] in Hrun. injection Hrun as <-. cbn [cl_cache] in *. exists o, c'. split; [done|]. split.
  - apply (shard_intro (S n) c' _ latest); [done|by rewrite (Permutation_length Hperm)|rewrite length_app; destruct o; simpl; lia|done| |by rewrite Hcap'].
    destruct o as [p|]; [|by destruct Hcase as [-> _]]. destruct Hcase as (_ & e & He & _ & Hm). intros q x. rewrite Hm. intros [[<- <-]|[_ Hx]]%lookup_insert_Some; [exact (Hu p e He)|by apply (Hu q)].
  - destruct o as [p|]; [|done]. destruct Hcase as (Hp & e & He & Hk & Hm). eexists. rewrite Hm, lookup_insert_eq. split; [done|]. cbn. rewrite <- Hk. apply Hg. by apply (co_latest _ _ _ _ Hc p e).
Qed.

(** All entries that are not on the LRU list are held. *)
Lemma in_use_held c held n latest : clients_ok hf n (mkClients c held) latest -> lru_ c = [] -> (length (all c) <= length held)%nat.
Proof.
  intros Hc Hl. pose proof (co_cache _ _ _ _ Hc) as [Hlists _]. cbn in Hlists. apply submseteq_length, NoDup_submseteq; [apply Hlists|].
  intros p Hp. unfold all in Hp. rewrite Hl in Hp. cbn [app] in Hp. destruct (lo_use _ Hlists p Hp) as (e & He & Hi & Hr).
  pose proof (co_counts _ _ _ _ Hc p e He) as Hcnt. unfold clients in Hcnt. rewrite Hi in Hcnt. cbn in Hcnt. apply times_pos. lia.
Qed.

Lemma unit_usage c : lists_ok c -> unit_charges c -> Z.of_nat (length (all c)) < 2 ^ 64 -> usage_ c = Z.of_nat (length (all c)).
Proof.
  intros Hl Hu Hn. rewrite (lo_usage _ Hl). assert (forall l, (forall p, p ∈ l -> is_Some (mem c !! p)) -> charges (mem c) l = Z.of_nat (length l)) as ->; [|by rewrite wrap_small by lia|].
  - intros l. induction l as [|p l IH]; intros H; [done|]. destruct (H p ltac:(by left)) as [e He]. rewrite (charges_cons _ _ e _ He), (Hu p e He), IH by (intros q Hq; apply H; by right). cbn [length]. lia.
  - intros p Hp. destruct (all_elem c p Hl Hp) as (e & He & _). by exists e.
Qed.

Lemma shard_Insert c held k v : shard_ok c held -> good k v -> Z.of_nat (length held) < 2 ^ 31 - 2 ->
  exists p c' e, Insert c k (hf k) v 1 = Ret (p, c') /\ shard_ok c' (p :: held) /\ mem c' !! p = Some e /\ value e = v.
Proof.
  intros Hok Hgood Hh. pose proof (shard_room _ _ Hok) as [Ha _]. destruct Hok as (n & latest & Hc & Hn & Hg & Hu & Hcap).
  destruct (run_op_ok hf HashSlice_range n (mkClients c held) latest (OpInsert k v 1) Hc ltac:(lia) ltac:(cbn; lia)) as (s' & Hrun & Hc' & Hcap'). cbn [run_op latest_after cl_cache] in *.
  destruct (Insert_cache hf HashSlice_range c k v 1 (co_cache _ _ _ _ Hc) ltac:(lia) ltac:(lia) (co_off _ _ _ _ Hc)) as (c' & e & Hi & Hok' & Hcap1 & Hus & He & Hk & Hv & _ & _ & _ & _ & _ & Hkeeps & _ & Hlen & Hch).
  rewrite Hi in Hrun. cbn [mbind result_bind fst snd LruCacheSpec.held] in Hrun. injection Hrun as <-. cbn [cl_cache] in *.
  assert (unit_charges c') as Hu'.
  { intros q x Hx. destruct (decide (q = fresh c)) as [->|Hne]; [rewrite He in Hx; by injection Hx as <-|]. apply (unit_keeps _ _ q x Hkeeps Hu). by rewrite lookup_delete_ne by done. }
  exists (fresh c), c', e. split; [done|]. split; [|done]. apply (shard_intro (S n) c' _ (<[k := v]> latest)); try done; [|cbn [length]; lia| |by rewrite Hcap'].
  - destruct Hus as [Hus|Hnil]; [rewrite (unit_usage c' (proj1 Hok') Hu') in Hus by lia; lia|]. pose proof (in_use_held c' _ _ _ Hc' Hnil) as H. cbn [length] in H. lia.
  - intros k' v' [[<- <-]|[_ H]]%lookup_insert_Some; [done|by apply Hg].
Qed.

Lemma shard_Release c l1 p l2 : shard_ok c (l1 ++ p :: l2) -> exists c', Release c p = Ret c' /\ shard_ok c' (l1 ++ l2).
Proof.
  intros Hok. pose proof (shard_room _ _ Hok) as [Ha Hh]. destruct Hok as (n & latest & Hc & Hn & Hg & Hu & Hcap). assert ((l1 ++ p :: l2) !! length l1 = Some p) as Hi by (by apply list_lookup_middle).
  destruct (run_op_ok hf HashSlice_range n (mkClients c (l1 ++ p :: l2)) latest (OpRelease (length l1)) Hc ltac:(lia) I) as (s' & Hrun & Hc' & Hcap'). cbn [run_op latest_after cl_cache LruCacheSpec.held] in *.
  rewrite Hi in Hrun. destruct (co_held _ _ _ _ Hc p) as [e He]; [cbn; set_solver|]. pose proof (co_counts _ _ _ _ Hc p e He) as Hcnt.
  assert (0 < Z.of_nat (count_occ Nat.eq_dec (l1 ++ p :: l2) p)) as Hpos by (apply times_pos; set_solver). cbn [LruCacheSpec.held cl_cache] in *. unfold Release in *.
  destruct (Unref_ok hf c p e (co_cache _ _ _ _ Hc) He) as (c' & Hun & _ & _ & _ & _ & Hperm & Hmem & _); [lia|]. rewrite Hun in Hrun |- *. cbn [mbind result_bind] in Hrun. injection Hrun as <-. cbn [cl_cache] in *.
  replace (take (length l1) (l1 ++ p :: l2) ++ drop (S (length l1)) (l1 ++ p :: l2)) with (l1 ++ l2) in Hc'.
  2:{ rewrite take_app_length. f_equal. replace (l1 ++ p :: l2) with ((l1 ++ [p]) ++ l2) by (by rewrite <- app_assoc). symmetry. apply drop_app_length'. rewrite length_app. cbn. lia. }
  exists c'. split; [done|]. rewrite length_app in Hh. cbn [length] in Hh.
  apply (shard_intro (S n) c' _ latest); [done|by rewrite (Permutation_length Hperm)|rewrite length_app; lia|done| |by rewrite Hcap'].
  intros q x Hx. destruct (refs e =? 1); destruct Hmem as [Hm _]; rewrite Hm in Hx; [apply lookup_delete_Some in Hx as [_ Hx]; by apply (Hu q)|].
  apply lookup_insert_Some in Hx as [[<- <-]|[_ Hx]]; [exact (Hu p e He)|by apply (Hu q)].
Qed.

End shard.

Lemma shard_mono {V} (good good' : str -> V -> Prop) c held : (forall k v, good k v -> good' k v) -> shard_ok good c held -> shard_ok good' c held.
Proof. intros Hg (n & latest & ? & ? & H & ?). exists n, latest. split_and!; try done; try tauto. intros k v Hk. by apply Hg, H. Qed.

Lemma shard_Erase {V} (good good' : str -> V -> Prop) (c : LRUCache.LRUCache V) (held : list nat) k :
  shard_ok good c held -> (forall k' v, k' <> k -> good k' v -> good' k' v) -> exists c', LRUCache.Erase c k (hf k) = Ret c' /\ shard_ok good' c' held.
Proof.
  intros Hok Hgood. pose proof (shard_room _ _ _ Hok) as [Ha Hh]. destruct Hok as (n & latest & Hc & Hn & Hg & Hu & Hcap).
  destruct (run_op_ok hf HashSlice_range n (mkClients c held) latest (OpErase k) Hc ltac:(lia) I) as (s' & Hrun & Hc' & Hcap'). cbn [run_op latest_after cl_cache] in *. unfold LRUCache.Erase in *.
  destruct (erase_ok hf HashSlice_range c k (co_cache _ _ _ _ Hc) ltac:(cbn; lia)) as (c' & b & He & _ & Hcase). rewrite He in Hrun |- *. cbn [mbind result_bind fst] in *. injection Hrun as <-. cbn [cl_cache] in *.
  exists c'. split; [done|]. apply (shard_intro good' (S n) c' _ (delete k latest)); [done| |done| | |by rewrite Hcap'].
  - destruct b; [|by destruct Hcase as [-> _]]. destruct Hcase as (q & e & _ & _ & _ & _ & _ & _ & Hl & Hus & _). unfold all in *. rewrite Hl, Hus, length_app in *. unfold LRUCache.unlink. pose proof (length_filter (fun x => x <> q) (LRUCache.lru_ c)). pose proof (length_filter (fun x => x <> q) (LRUCache.in_use_ c)). lia.
  - intros k' v [Hne H]%lookup_delete_Some. apply Hgood; [by apply not_eq_sym|by apply Hg].
  - destruct b; [|by destruct Hcase as [-> _]]. destruct Hcase as (q & e & Hq & He' & _ & _ & _ & _ & _ & _ & Hmem). destruct (all_elem _ q (proj1 (co_cache _ _ _ _ Hc)) Hq) as (x & Hx & Hi & _). cbn in Hx. rewrite He' in Hx. injection Hx as <-.
    intros p y Hy. apply (unit_keeps (LRUCache.mem c) (LRUCache.mem c') p y); [|exact Hu|done]. apply (keeps_erased _ q e _ He' Hi). destruct (refs e =? 1); by destruct Hmem.
Qed.

(** ** All the shards *)

Module Sharded.
Import ShardedLRUCache.

(** The handles of a shard among those that clients hold. *)
Definition ids (i : nat) (hs : list Handle) : list nat := map h_id (filter (fun r => Shard (h_hash r) = Z.of_nat i) hs).

(** A shard has the keys with its hashes. *)
Definition at_shard {V} (good : str -> V -> Prop) (i : nat) (k : str) (v : V) : Prop := Shard (HashSlice k) = Z.of_nat i /\ good k v.

Definition sharded_ok {V} (good : str -> V -> Prop) (c : ShardedLRUCache V) (hs : list Handle) : Prop :=
  length (shard_ c) = 16%nat /\ (forall i s, shard_ c !! i = Some s -> shard_ok (at_shard good i) s (ids i hs)) /\ Forall (fun r => 0 <= h_hash r < 2 ^ 32) hs.

Lemma Shard_range h : 0 <= h < 2 ^ 32 -> 0 <= Shard h < 16.
Proof.
  intros Hh. unfold Shard. change (32 - kNumShardBits) with 28. rewrite Z.shiftr_div_pow2 by lia. change (2 ^ 28) with 268435456.
  split; [apply Z.div_pos; lia|apply Z.div_lt_upper_bound; lia].
Qed.

Section ops.
Context {V : Type} (good : str -> V -> Prop).
Implicit Types (c : ShardedLRUCache V) (hs : list Handle) (k : str) (v : V) (h : Z).

Lemma shard_at c hs h : sharded_ok good c hs -> 0 <= h < 2 ^ 32 -> exists i s, Shard h = Z.of_nat i /\ shard_ c !! i = Some s /\ vec_at (shard_ c) (Shard h) = Ret s /\ shard_ok (at_shard good i) s (ids i hs).
Proof.
  intros (Hl & Hs & _) Hh. pose proof (Shard_range h Hh). destruct (lookup_lt_is_Some_2 (shard_ c) (Z.to_nat (Shard h))) as [s Hi]; [lia|].
  exists (Z.to_nat (Shard h)), s. split; [lia|]. split; [done|]. split; [apply vec_at_ok; [lia|done]|by apply Hs].
Qed.

Lemma shard_ids_length i hs : (length (ids i hs) <= length hs)%nat.
Proof. unfold ids. rewrite length_map. apply length_filter. Qed.

Lemma ids_app i hs hs' : ids i (hs ++ hs') = ids i hs ++ ids i hs'.
Proof. unfold ids. by rewrite filter_app, map_app. Qed.

Lemma ids_cons i r hs : ids i (r :: hs) = if decide (Shard (h_hash r) = Z.of_nat i) then h_id r :: ids i hs else ids i hs.
Proof. unfold ids. rewrite filter_cons. by case_decide. Qed.

(** One shard changes. *)
Lemma set_shard_ok good' c hs hs' h i s : Shard h = Z.of_nat i -> sharded_ok good c hs -> shard_ok (at_shard good' i) s (ids i hs') ->
  (forall j s, j <> i -> shard_ok (at_shard good j) s (ids j hs) -> shard_ok (at_shard good' j) s (ids j hs')) ->
  Forall (fun r => 0 <= h_hash r < 2 ^ 32) hs' -> sharded_ok good' (set_shard c (Shard h) s) hs'.
Proof.
  intros Hi (Hl & Hs & _) Hok Hother Hr. split; [cbn; by rewrite length_insert|]. split; [|done]. intros j x Hx. cbn in Hx. rewrite Hi, Nat2Z.id in Hx.
  destruct (decide (j = i)) as [->|Hne]; [|rewrite list_lookup_insert_ne in Hx by done; by apply Hother, Hs].
  rewrite list_lookup_insert_eq in Hx; [by injection Hx as <-|]. by apply list_lookup_insert_Some in Hx as [(_ & _ & ?)|[? _]].
Qed.

Lemma sharded_Lookup c hs k : sharded_ok good c hs -> Z.of_nat (length hs) < 2 ^ 31 - 2 ->
  exists o c', Lookup c k = Ret (o, c') /\ sharded_ok good c' (option_list o ++ hs) /\
    match o with Some r => exists v, Value c' r = Ret v /\ good k v | None => True end.
Proof.
  intros Hok Hh. destruct (shard_at c hs (HashSlice k) Hok (HashSlice_range k)) as (i & s & Hi & Hs & Hat & Hsk). unfold Lookup. rewrite Hat. cbn [mbind result_bind].
  destruct (shard_Lookup (at_shard good i) s (ids i hs) k Hsk) as (o & s' & Hl & Hsk' & Hv); [pose proof (shard_ids_length i hs); lia|]. rewrite Hl. cbn [mbind result_bind]. eexists _, _. split; [done|]. split.
  - apply (set_shard_ok good c hs _ _ i); [done|done| | |destruct o; [constructor; [apply HashSlice_range|apply Hok]|apply Hok]].
    + destruct o as [p|]; [|done]. cbn [fmap option_fmap option_map]. change (option_list (Some ?x) ++ hs) with (x :: hs). rewrite ids_cons, decide_True by done. exact Hsk'.
    + intros j x Hj Hx. destruct o as [p|]; [|done]. cbn [fmap option_fmap option_map]. change (option_list (Some ?x) ++ hs) with (x :: hs). rewrite ids_cons, decide_False; [done|cbn; lia].
  - destruct o as [p|]; [|done]. destruct Hv as (e & He & _ & Hg). cbn. unfold Value. cbn [h_hash h_id]. rewrite (vec_at_ok _ _ s'); [|rewrite Hi; lia|].
    + cbn. unfold deref. rewrite He. cbn. by exists (value e).
    + cbn. apply list_lookup_insert_eq. rewrite Hi, Nat2Z.id. by eapply lookup_lt_Some.
Qed.

Lemma sharded_Insert c hs k v : sharded_ok good c hs -> good k v -> Z.of_nat (length hs) < 2 ^ 31 - 2 ->
  exists r c', Insert c k v 1 = Ret (r, c') /\ sharded_ok good c' (r :: hs) /\ Value c' r = Ret v.
Proof.
  intros Hok Hg Hh. destruct (shard_at c hs (HashSlice k) Hok (HashSlice_range k)) as (i & s & Hi & Hs & Hat & Hsk). unfold Insert. rewrite Hat. cbn [mbind result_bind].
  destruct (shard_Insert (at_shard good i) s (ids i hs) k v Hsk (conj Hi Hg)) as (p & s' & e & Hl & Hsk' & He & Hv); [pose proof (shard_ids_length i hs); lia|]. rewrite Hl. cbn [mbind result_bind]. eexists _, _. split; [done|]. split.
  - apply (set_shard_ok good c hs _ _ i); [done|done|by rewrite ids_cons, decide_True by done| |constructor; [apply HashSlice_range|apply Hok]]. intros j x Hj Hx. rewrite ids_cons, decide_False; [done|cbn; lia].
  - unfold Value. cbn [h_hash h_id]. rewrite (vec_at_ok _ _ s'); [|rewrite Hi; lia|].
    + cbn. unfold deref. rewrite He. cbn. by rewrite Hv.
    + cbn. apply list_lookup_insert_eq. rewrite Hi, Nat2Z.id. by eapply lookup_lt_Some.
Qed.

Lemma sharded_Release c l1 r l2 : sharded_ok good c (l1 ++ r :: l2) -> exists c', Release c r = Ret c' /\ sharded_ok good c' (l1 ++ l2).
Proof.
  intros Hok. pose proof (proj2 (proj2 Hok)) as [Hr1 [Hh Hr2]%Forall_cons_1]%Forall_app. destruct (shard_at c _ (h_hash r) Hok Hh) as (i & s & Hi & Hs & Hat & Hsk). unfold Release. rewrite Hat. cbn [mbind result_bind].
  rewrite ids_app, ids_cons, decide_True in Hsk by done. destruct (shard_Release (at_shard good i) s _ _ _ Hsk) as (s' & Hl & Hsk'). rewrite Hl. cbn [mbind result_bind]. eexists. split; [done|].
  apply (set_shard_ok good c (l1 ++ r :: l2) _ _ i); [done|done|by rewrite ids_app| |by apply Forall_app_2]. intros j x Hj. rewrite !ids_app, ids_cons, decide_False by lia. done.
Qed.

Lemma sharded_Erase (good' : str -> V -> Prop) c hs k : sharded_ok good c hs -> (forall k' v, k' <> k -> good k' v -> good' k' v) ->
  exists c', Erase c k = Ret c' /\ sharded_ok good' c' hs.
Proof.
  intros Hok Hg. destruct (shard_at c hs (HashSlice k) Hok (HashSlice_range k)) as (i & s & Hi & Hs & Hat & Hsk). unfold Erase. rewrite Hat. cbn [mbind result_bind].
  destruct (shard_Erase (at_shard good i) (at_shard good' i) s (ids i hs) k Hsk) as (s' & Hl & Hsk'); [intros k' v Hne [? ?]; split; auto|].
  rewrite Hl. cbn [mbind result_bind]. eexists. split; [done|]. apply (set_shard_ok good' c hs _ _ i); [done|done|done| |apply Hok].
  intros j x Hj. apply shard_mono. intros k' v [Hk' Hv]. split; [done|]. apply Hg; [|done]. intros ->. lia.
Qed.

Lemma sharded_start capacity : 0 < capacity < 2 ^ 31 - 1 -> exists c, NewLRUCache capacity = Ret c /\ sharded_ok good c [].
Proof.
  intros Hcap. unfold NewLRUCache. change kNumShards with 16. rewrite wrap_small by lia. set (n := (capacity + (16 - 1)) / 16).
  assert (0 < n < 2 ^ 31 - 1) as Hn by (unfold n; split; [apply Z.div_str_pos; lia|apply Z.div_lt_upper_bound; lia]).
  destruct (clients_start (V := V) HashSlice HashSlice_range n) as (c & -> & Hc & Hcn). cbn [mbind result_bind]. eexists. split; [done|].
  split; [apply length_replicate|]. split; [|done]. intros i s [-> _]%lookup_replicate. exists O, ∅. split; [done|]. split; [lia|]. split; [by intros k v|]. rewrite Hcn. split; [|done].
  intros p e He. pose proof (co_cache _ _ _ _ Hc) as [Hl _]. pose proof (lo_cached _ Hl p e He) as H. pose proof (co_all _ _ _ _ Hc) as Ha. cbn in Ha.
  pose proof (co_counts _ _ _ _ Hc p e He) as Hcnt. unfold clients in Hcnt. cbn in Hcnt. destruct (in_cache e) eqn:Hi; [|pose proof (lo_gone _ Hl p e He Hi); lia].
  specialize (H eq_refl). cbn in H. destruct (all c); [by apply elem_of_nil in H|cbn in Ha; lia].
Qed.
End ops.

Lemma sharded_mono {V} (good good' : str -> V -> Prop) c hs : (forall k v, good k v -> good' k v) -> sharded_ok good c hs -> sharded_ok good' c hs.
Proof. intros Hg (Hl & Hs & Hr). split; [done|]. split; [|done]. intros i s Hi. apply (shard_mono (at_shard good i)); [|by apply Hs]. intros k v [? ?]. split; auto. Qed.
End Sharded.

(** ** Open tables *)

(** The keys are internal keys. *)
Definition tagged_keys (es : list entry) : Prop := Forall (fun e => 8 <= str_size (fst e)) es.

Section tables.
Context {F : Type} {RF : RandomAccessFile F} {RL : RandomAccessFileLaws RF} {PT : Port} {PL : PortLaws PT}.
Context (C : Comparator) {HC : ComparatorLaws C} {K : Type} {CA : Cache K Block.Block} {CL : CacheLaws CA}.
Hypothesis Hinj : forall a b : str, Compare a b = Eq -> a = b.
Implicit Types (opt : Options) (es : list entry) (bs : list dblock) (tb : Table.Rep F) (cache : option K).

Abbreviation icmp := (internal_comparator C).

(** The filter policy is that of internal keys. *)
Definition user_policy opt : Prop := match filter_policy opt with Some (_, p) => exists P, p = internal_policy P | None => True end.

(** [tb] is what [Table::Open] makes of a file with the entries [es]. *)
Definition opened opt es bs tb : Prop := exists seps fc mb ib,
  table_layout (raf_contents (Table.file tb)) bs seps fc mb ib /\ entries_of bs = es /\ seps_ok (C := icmp) bs seps [] /\
  Table.index_block tb = Block.make (db_raw ib) /\ filter_sound bs tb /\ Table.options tb = opt.

Lemma opened_serves opt es bs tb cache : opened opt es bs tb -> coherent bs tb cache -> serves bs tb cache.
Proof. intros (seps & fc & mb & ib & L & _) Hc. split; [|apply L|apply L|done]. rewrite (tl_data _ _ _ _ _ _ L). by eexists. Qed.

Lemma Open_built opt es f cache : buildable (C := icmp) opt es -> build_table (C := icmp) opt es = Ret (raf_contents f, Status.OK) -> cache_fresh cache ->
  exists tb cache' bs, Table.Open (C := icmp) opt f (str_size (raf_contents f)) cache = Ret (Status.OK, Some tb, cache') /\ opened opt es bs tb /\ coherent bs tb cache' /\
    match cache with Some k => (Table.cache_id tb, cache') = (fst (cache_NewId k), Some (snd (cache_NewId k))) | None => cache' = None end.
Proof.
  intros [Hi Hp Hn Hs Hr Hk Hf] Hb' Hfresh. destruct (build_table_layout (C := icmp) opt Hi Hp Hn es Hs Hr Hk Hf) as (data & bs & seps & fc & mb & ib & Hb & L & He & Hseps & Hfc).
  rewrite Hb in Hb'. injection Hb' as Ed. symmetry in Ed. rewrite Ed.
  destruct (Open_layout (C := icmp) data bs seps fc mb ib L f Ed opt cache Hfresh) as (tb & cache' & Ho & Hopt & Hfile & Hflt & _ & Hib & S & Hid).
  exists tb, cache', bs. split; [done|]. split; [|split; [apply S|done]]. exists seps, fc, mb, ib. rewrite Hfile, Ed. split_and!; try done.
  eapply (built_filter_sound (C := icmp)); [exact Hp|exact Hk|done|apply L|done|done|done].
Qed.

(** Filters of user keys do not see the tag. *)
Lemma may_match_user bs tb i k k' : user_policy (Table.options tb) -> user_part k = user_part k' -> may_match bs tb i k = may_match bs tb i k'.
Proof.
  unfold user_policy, may_match. intros Hp Hu. destruct (Table.filter tb); [|done]. destruct (filter_policy (Table.options tb)) as [[name p]|]; [|done]. destruct Hp as [P ->].
  unfold FilterBlockReader.KeyMayMatch. cbn [fp_KeyMayMatch internal_policy]. by rewrite Hu.
Qed.

(** No key of the user key of [e] lies between a block that ends before [e] and its
    index key. *)
Lemma separator_user l e sep k : 8 <= str_size l -> 8 <= str_size e -> 8 <= str_size k -> Compare (Comparator := icmp) l e = Lt ->
  FindShortestSeparator (Comparator := icmp) l e = Ret sep -> Compare (Comparator := icmp) l k = Lt -> Compare (Comparator := icmp) sep k <> Lt -> user_part e <> user_part k.
Proof.
  intros (u & n & -> & Hn)%key_shape (v & m & -> & Hm)%key_shape (w & o & -> & Ho)%key_shape Hle Hsep Hlk Hsk. rewrite (proj1 (parts v m Hm)), (proj1 (parts w o Ho)). intros <-.
  rewrite internal_compare_parts in Hle, Hlk by done. destruct (internal_sep_cases u n v m Hn Hm) as (s & Hs & Hcase); [by rewrite Hle|].
  cbn [FindShortestSeparator internal_comparator] in Hsep. assert (forall x y, 0 <= y < 2 ^ 64 -> tagged (x ++ EncodeFixed64 y) = true) as Htag.
  { intros x y _. apply Z.leb_le. unfold str_size. rewrite length_app. change (length (EncodeFixed64 y)) with 8%nat. lia. }
  rewrite !Htag in Hsep by done. cbn [andb] in Hsep. rewrite Hs in Hsep. injection Hsep as <-. destruct Hcase as [->|(tmp & -> & Hut & Htv & _)].
  - rewrite internal_compare_parts in Hsk by done. done.
  - apply Hsk. rewrite internal_compare_parts by (done || apply seek_tag). unfold ikey_order. by rewrite Htv.
Qed.

(** A lookup finds the entry for the user key of the target, if there is one. *)
Lemma InternalGet_user opt es bs tb cache rd k : opened opt es bs tb -> keys_sorted (C := icmp) es -> tagged_keys es -> user_policy opt -> coherent bs tb cache -> 8 <= str_size k ->
  exists r cache', Table.InternalGet (C := icmp) tb cache rd k = Ret (Status.OK, r, cache') /\ coherent bs tb cache' /\ reads (Table.cache_id tb) cache cache' /\
    (r = None \/ r = es !! seek_pos (C := icmp) k es) /\
    (forall e, es !! seek_pos (C := icmp) k es = Some e -> Compare (user_part (fst e)) (user_part k) = Eq -> r = Some e).
Proof.
  intros Hop Hs Htag Hpol Hco Hk. pose proof (opened_serves _ _ _ _ _ Hop Hco) as S. destruct Hop as (seps & fc & mb & ib & L & <- & Hseps & Hib & Hfs & <-).
  destruct (InternalGet_block (C := icmp) _ bs seps fc mb ib L Hs Hseps tb cache rd k S Hib Hfs) as (r & cache' & Hg & S' & Hrd & Hr).
  exists r, cache'. split; [done|]. split; [apply S'|]. split; [done|]. set (j := seek_pos (C := icmp) k (index_entries bs seps)) in *.
  destruct (bs !! j) as [d|] eqn:Hd.
  2:{ split; [by left|]. intros e He. pose proof (no_block_seek (C := icmp) _ bs seps fc mb ib L Hseps k Hd) as H. by rewrite H in He. }
  destruct Hr as (b & Hb & ->). destruct (db_es d !! seek_pos (C := icmp) k (db_es d)) as [x|] eqn:Ex.
  - pose proof (block_entry_seek (C := icmp) _ bs seps fc mb ib L Hseps k d x Hd Ex) as Hx. rewrite Hx. split; [destruct b; [by right|by left]|]. intros e [= <-] Hu%Hinj.
    destruct (may_match_sound bs tb j d (fst x) Hfs Hd) as (b' & Hb' & Ht). rewrite (may_match_user bs tb j _ k Hpol Hu), Hb in Hb'. injection Hb' as <-.
    rewrite (Ht (snd x)); [done|]. destruct x. by eapply list_elem_of_lookup_2.
  - split; [by destruct b; left|]. intros e He Hu%Hinj. exfalso.
    destruct (next_block_seek (C := icmp) _ bs seps fc mb ib L (Table.file tb) eq_refl Hs Hseps k d e Hd Ex He) as (sep & Hsep & Hsk & Hlk & Hle & (v & Hv) & Hin). unfold tagged_keys in Htag. rewrite Forall_forall in Htag.
    apply (separator_user _ (fst e) sep k) with (5 := Hsep); try done; [|by apply Htag]. apply (Htag (last_of (db_es d), v)). by eapply elem_entries_of.
Qed.

End tables.

(** ** The cache of tables *)

(** What the environment promises of files that are opened for reading: the contents,
    and an error when there is no such file. *)
Class RandomAccessEnvLaws {E F : Type} {RF : RandomAccessFile F} (RL : RandomAccessFileLaws RF) (RE : RandomAccessEnv E F) := {
  re_data : E -> str -> option str;
  re_open e name d : re_data e name = Some d -> exists f e', env_NewRandomAccessFile e name = (e', Status.OK, Some f) /\ raf_contents f = d /\ forall x, re_data e' x = re_data e x;
  re_missing e name : re_data e name = None -> exists s e', env_NewRandomAccessFile e name = (e', s, None) /\ Status.ok s = false /\ forall x, re_data e' x = re_data e x
}.

(** The block cache numbers its clients. *)
Class CacheIds {K V : Type} (CA : Cache K V) := {
  cache_last : K -> Z;
  last_newid k : 0 <= cache_last k < 2 ^ 64 - 1 -> fst (cache_NewId k) = cache_last k + 1 /\ cache_last (snd (cache_NewId k)) = cache_last k + 1;
  last_lookup k key : cache_last (snd (cache_Lookup k key)) = cache_last k;
  last_insert k key v charge : cache_last (cache_Insert k key v charge) = cache_last k
}.

Section blocks.
Context {F : Type} {RF : RandomAccessFile F} {K : Type} {CA : Cache K Block.Block} {CL : CacheLaws CA} {CI : CacheIds CA}.
Implicit Types (cache : option K) (G : gmap Z (list dblock)) (tb : Table.Rep F).

(** The blocks in the cache are blocks of the tables with their ids. *)
Definition blocks_ok G cache : Prop :=
  match cache with
  | None => True
  | Some k => 0 <= cache_last k < 2 ^ 64 /\ (forall id bs, G !! id = Some bs -> 0 <= id <= cache_last k) /\
      (forall id off b, 0 <= id < 2 ^ 64 -> cache_get k (Table.cache_key id off) = Some b -> exists bs, G !! id = Some bs /\
         (0 <= off < 2 ^ 64 -> exists i d, bs !! i = Some d /\ off = str_size (images (take i bs)) /\ b = Block.make (db_raw d)))
  end.

(** The table with the id of [tb] has the blocks [bs], if blocks are cached. *)
Definition numbered G cache bs tb : Prop := is_Some cache -> G !! Table.cache_id tb = Some bs.

Lemma numbered_coherent G cache bs tb : blocks_ok G cache -> numbered G cache bs tb -> coherent bs tb cache.
Proof.
  intros HG Hn k off b -> Hoff Hb. destruct HG as (Hl & Hid & Hc). specialize (Hn ltac:(done)). specialize (Hid _ _ Hn).
  destruct (Hc (Table.cache_id tb) off b ltac:(lia) Hb) as (bs' & Hbs & H). rewrite Hn in Hbs. injection Hbs as <-. by apply H.
Qed.

Lemma steps_gets id k k' : cache_steps id k k' -> cache_last k' = cache_last k /\
  forall key b, cache_get k' key = Some b -> cache_get k key = Some b \/ exists off, key = Table.cache_key id off.
Proof.
  induction 1 as [k|k key k' _ [IHl IH]|k off b charge k' _ [IHl IH]]; [split; auto| |].
  - split; [by rewrite IHl, last_lookup|]. intros key' b Hb. destruct (IH key' b Hb) as [H|H]; [left|by right]. destruct (cache_lookup k key) as (k1 & E & Hk). rewrite E in H. by apply Hk.
  - split; [by rewrite IHl, last_insert|]. intros key' b' Hb. destruct (IH key' b' Hb) as [H|H]; [|by right]. apply cache_insert in H as [[-> _]|H]; [right; by exists off|by left].
Qed.

Lemma cache_key_id id id' off off' : 0 <= id < 2 ^ 64 -> 0 <= id' < 2 ^ 64 -> Table.cache_key id off = Table.cache_key id' off' -> id = id'.
Proof. intros H H' E. unfold Table.cache_key in E. apply app_inj_1 in E as [E _]; [by apply fixed64_inj|done]. Qed.

(** Reading the blocks of a table keeps the cache in order. *)
Lemma blocks_reads G cache cache' bs tb : blocks_ok G cache -> numbered G cache bs tb -> reads (Table.cache_id tb) cache cache' -> coherent bs tb cache' -> blocks_ok G cache'.
Proof.
  intros HG Hn Hr Hco. destruct cache as [k|], cache' as [k'|]; try done. destruct HG as (Hl & Hid & Hc). specialize (Hn ltac:(done)). pose proof (Hid _ _ Hn) as Hidr.
  destruct (steps_gets _ _ _ Hr) as [El Hg]. cbn. rewrite El. split; [done|]. split; [done|]. intros id off b Hrange Hb. destruct (Hg _ _ Hb) as [Hold|[off' E]]; [by apply Hc|].
  apply cache_key_id in E as ->; [|lia|lia]. exists bs. split; [done|]. intros Hoff. by apply (Hco k' off b).
Qed.

(** Another table is opened. *)
Lemma blocks_open G cache bs tb : blocks_ok G cache -> match cache with Some k => cache_last k < 2 ^ 64 - 1 | None => True end ->
  cache_fresh cache /\
  forall cache', match cache with Some k => (Table.cache_id tb, cache') = (fst (cache_NewId k), Some (snd (cache_NewId k))) | None => cache' = None end ->
    exists G', G ⊆ G' /\ blocks_ok G' cache' /\ numbered G' cache' bs tb.
Proof.
  intros HG Hleft. destruct cache as [k|]; [|split; [done|]; intros cache' ->; exists G; by split; [|split; [|by intros []]]]. destruct HG as (Hl & Hid & Hc).
  destruct (last_newid k) as [Ef El]; [lia|]. split.
  - intros k0 off [= <-]. rewrite Ef. destruct (cache_get k _) as [b|] eqn:Eb; [|done]. destruct (Hc (cache_last k + 1) off b) as (bs' & Hbs & _); [lia|done|]. specialize (Hid _ _ Hbs). lia.
  - intros cache' [= Eid ->]. assert (G !! Table.cache_id tb = None) as Hnone.
    { destruct (G !! Table.cache_id tb) as [x|] eqn:Ex; [|done]. specialize (Hid _ _ Ex). lia. }
    exists (<[Table.cache_id tb := bs]> G). split; [by apply insert_subseteq|]. split; [|intros _; by rewrite lookup_insert_eq]. cbn. rewrite El. split; [lia|]. split.
    + intros id x [[<- <-]|[_ Hx]]%lookup_insert_Some; [lia|]. specialize (Hid _ _ Hx). lia.
    + intros id off b Hrange Hb. apply cache_newid in Hb. destruct (Hc id off b Hrange Hb) as (bs' & Hbs & H). exists bs'. split; [|done]. rewrite lookup_insert_ne; [done|congruence].
Qed.

End blocks.

Section cached.
Context {E F : Type} {RF : RandomAccessFile F} {RL : RandomAccessFileLaws RF} {RE : RandomAccessEnv E F} {REL : RandomAccessEnvLaws RL RE} {PT : Port} {PL : PortLaws PT}.
Context (C : Comparator) {HC : ComparatorLaws C} {K : Type} {CA : Cache K Block.Block} {CL : CacheLaws CA} {CI : CacheIds CA}.
Hypothesis Hinj : forall a b : str, Compare a b = Eq -> a = b.
Import TableCache Sharded.
Implicit Types (t : TableCache E F K) (G : gmap Z (list dblock)) (contents : Z -> list entry) (hs : list ShardedLRUCache.Handle) (n size : Z).

Abbreviation icmp := (internal_comparator C).

(** The bytes of the table file with a number, and that they hold its contents. *)
Definition table_data t n : option str :=
  match re_data (env_ t) (MakeFileName (dbname_ t) n ($"ldb")) with
  | Some d => Some d
  | None => re_data (env_ t) (MakeFileName (dbname_ t) n ($"sst"))
  end.

Definition file_ok contents t n size : Prop := 0 < n < 2 ^ 64 /\ exists d,
  table_data t n = Some d /\ size = str_size d /\ build_table (C := icmp) (options_ t) (contents n) = Ret (d, Status.OK) /\
  buildable (C := icmp) (options_ t) (contents n) /\ tagged_keys (contents n).

(** What is cached under a number is a table of its contents. *)
Definition cached_table contents (opt : Options) (blocks : option K) G (key : str) (tf : TableAndFile F) : Prop := exists n tb bs,
  key = EncodeFixed64 n /\ 0 < n < 2 ^ 64 /\ tf_table tf = Some tb /\ opened C opt (contents n) bs tb /\ numbered G blocks bs tb /\
  keys_sorted (C := icmp) (contents n) /\ tagged_keys (contents n).

Definition tc_ok contents G hs t : Prop :=
  blocks_ok G (block_cache_ t) /\ sharded_ok (cached_table contents (options_ t) (block_cache_ t) G) (cache_ t) hs /\ user_policy (options_ t).

Definition ids_left t : Prop := match block_cache_ t with Some k => cache_last k < 2 ^ 64 - 1 | None => True end.

(** The same files and options; at most one id more is in use. *)
Record frame t t' : Prop := {
  fr_options : options_ t' = options_ t;
  fr_name : dbname_ t' = dbname_ t;
  fr_data x : re_data (env_ t') x = re_data (env_ t) x;
  fr_ids : match block_cache_ t, block_cache_ t' with
           | Some k, Some k' => cache_last k <= cache_last k' <= cache_last k + 1
           | None, None => True
           | _, _ => False
           end
}.

Lemma frame_file contents t t' n size : frame t t' -> file_ok contents t n size -> file_ok contents t' n size.
Proof. intros [Ho Hn Hd _] (Hr & d & Htd & H). split; [done|]. exists d. unfold table_data in *. by rewrite Ho, Hn, !Hd. Qed.

Lemma cached_mono contents opt blocks blocks' G G' key tf : G ⊆ G' -> (is_Some blocks' -> is_Some blocks) -> cached_table contents opt blocks G key tf -> cached_table contents opt blocks' G' key tf.
Proof.
  intros HG Hb (n & tb & bs & Hk & Hn & Htf & Hop & Hnum & Hs & Ht). exists n, tb, bs. split_and!; try done; try lia. intros H. eapply lookup_weaken; [|exact HG]. by apply Hnum, Hb.
Qed.

(** [FindTable] opens the file, under one of its names. *)
Lemma open_file_found t n d : 0 < n < 2 ^ 64 -> table_data t n = Some d ->
  exists f env, open_file t n = Ret (Status.OK, Some f, set_env t env) /\ raf_contents f = d /\ forall x, re_data env x = re_data (env_ t) x.
Proof.
  intros Hn Hd. unfold open_file, TableFileName, SSTTableFileName. rewrite !assert_positive_ok by lia. cbn [mbind result_bind]. unfold table_data in Hd.
  destruct (re_data (env_ t) (MakeFileName (dbname_ t) n ($"ldb"))) as [d'|] eqn:E1.
  - injection Hd as ->. destruct (re_open _ _ _ E1) as (f & e' & -> & Hf & Hk). cbn. by exists f, e'.
  - destruct (re_missing _ _ E1) as (s & e' & -> & Hs & Hk). rewrite Hs. cbn [negb set_env env_ dbname_]. rewrite assert_positive_ok by lia. cbn [mbind result_bind].
    rewrite <- Hk in Hd. destruct (re_open _ _ _ Hd) as (f & e'' & -> & Hf & Hk'). cbn. exists f, e''. split; [done|]. split; [done|]. intros x. by rewrite Hk', Hk.
Qed.

Lemma ret_bind {A B} (a : A) (f : A -> result B) : (Ret a ≫= f) = f a.
Proof. reflexivity. Qed.

Lemma FindTable_hit t n size r c' : ShardedLRUCache.Lookup (cache_ t) (EncodeFixed64 n) = Ret (Some r, c') -> FindTable (C := icmp) t n size = Ret (Status.OK, Some r, set_cache t c').
Proof. intros H. unfold FindTable. by rewrite H. Qed.

Lemma FindTable_miss t n size c' f t1 tb t2 r c'' : ShardedLRUCache.Lookup (cache_ t) (EncodeFixed64 n) = Ret (None, c') -> open_file (set_cache t c') n = Ret (Status.OK, Some f, t1) ->
  open_table (C := icmp) t1 (Some f) size = Ret (Status.OK, Some tb, t2) -> ShardedLRUCache.Insert (cache_ t2) (EncodeFixed64 n) (mkTableAndFile f (Some tb)) 1 = Ret (r, c'') ->
  FindTable (C := icmp) t n size = Ret (Status.OK, Some r, set_cache t2 c'').
Proof.
  intros H1 H2 H3 H4. unfold FindTable. rewrite H1, ret_bind, H2, ret_bind. cbv beta iota.
  change (Status.ok Status.OK) with true. cbv iota. rewrite H3, ret_bind. change (negb (Status.ok Status.OK)) with false. cbv beta iota. by rewrite H4, ret_bind.
Qed.

Lemma table_of_value t c r tf tb : ShardedLRUCache.Value c r = Ret tf -> tf_table tf = Some tb -> table_of (set_cache t c) (Some r) = Ret tb.
Proof. intros Hv Htf. unfold table_of. cbn [set_cache cache_]. rewrite Hv. cbn [mbind result_bind]. by rewrite Htf. Qed.

(** A file that is opened becomes a table of the cache. *)
Lemma open_table_ok contents G t n f : blocks_ok G (block_cache_ t) -> ids_left t -> buildable (C := icmp) (options_ t) (contents n) ->
  build_table (C := icmp) (options_ t) (contents n) = Ret (raf_contents f, Status.OK) ->
  exists tb blocks bs G', open_table (C := icmp) t (Some f) (str_size (raf_contents f)) = Ret (Status.OK, Some tb, set_block_cache t blocks) /\
    opened C (options_ t) (contents n) bs tb /\ G ⊆ G' /\ blocks_ok G' blocks /\ numbered G' blocks bs tb /\ (is_Some blocks -> is_Some (block_cache_ t)) /\ frame t (set_block_cache t blocks).
Proof.
  intros HG Hids Hbd Hb. destruct (blocks_open (F := F) G (block_cache_ t) [] (Table.mkRep (options_ t) f 0 None BlockHandle.make (Block.make [])) HG Hids) as [Hfresh _].
  destruct (Open_built C (options_ t) (contents n) f (block_cache_ t) Hbd Hb Hfresh) as (tb & blocks & bs & Ho & Hop & Hco & Hid).
  destruct (blocks_open G (block_cache_ t) bs tb HG Hids) as [_ Hopen]. destruct (Hopen blocks Hid) as (G' & HGG & HG' & Hnum).
  exists tb, blocks, bs, G'. split; [unfold open_table; by rewrite Ho|]. split; [done|]. split; [done|]. split; [done|]. split; [done|].
  split; [destruct (block_cache_ t); [by eexists|by rewrite Hid; intros []]|]. split; cbn; try done.
  unfold ids_left in Hids. destruct (block_cache_ t) as [k|]; [|by rewrite Hid]. destruct HG as [Hl _]. injection Hid as _ ->. destruct (last_newid k) as [_ ->]; lia.
Qed.

Lemma FindTable_ok contents G hs t n size : tc_ok contents G hs t -> file_ok contents t n size -> Z.of_nat (length hs) < 2 ^ 31 - 2 -> ids_left t ->
  exists r t' G' tb bs, FindTable (C := icmp) t n size = Ret (Status.OK, Some r, t') /\ tc_ok contents G' (r :: hs) t' /\ table_of t' (Some r) = Ret tb /\
    opened C (options_ t) (contents n) bs tb /\ numbered G' (block_cache_ t') bs tb /\ frame t t'.
Proof.
  intros (HG & Hsh & Hpol) (Hn & d & Hd & -> & Hb & Hbd & Htag) Hh Hids.
  destruct (sharded_Lookup _ (cache_ t) hs (EncodeFixed64 n) Hsh Hh) as (o & c' & Hl & Hsh' & Ho). destruct o as [r|].
  - destruct Ho as (tf & Hv & n' & tb & bs & Hk & Hn' & Htf & Hop & Hnum & _). apply fixed64_inj in Hk as <-; [|lia|lia]. exists r, (set_cache t c'), G, tb, bs.
    split; [by apply FindTable_hit|]. split; [done|]. split; [by eapply table_of_value|]. split; [done|]. split; [done|]. split; cbn; try done. destruct (block_cache_ t); [lia|done].
  - change (option_list None ++ hs) with hs in Hsh'. destruct (open_file_found (set_cache t c') n d Hn Hd) as (f & env & Hof & Hf & Hdata). rewrite <- Hf in Hb |- *.
    set (t1 := set_env (set_cache t c') env) in *. destruct (open_table_ok contents G t1 n f HG Hids Hbd Hb) as (tb & blocks & bs & G' & Hot & Hop & HGG & HG' & Hnum & Hsome & Hfr).
    destruct (sharded_Insert (cached_table contents (options_ t) blocks G') c' hs (EncodeFixed64 n) (mkTableAndFile f (Some tb))) as (r & c'' & Hi & Hsh'' & Hv).
    + eapply sharded_mono; [|exact Hsh']. intros k v. by apply cached_mono.
    + exists n, tb, bs. pose proof (bd_sorted _ _ Hbd). split_and!; first [assumption|reflexivity|lia].
    + done.
    + exists r, (set_cache (set_block_cache t1 blocks) c''), G', tb, bs. split; [exact (FindTable_miss t n _ c' f t1 tb _ r c'' Hl Hof Hot Hi)|].
      split; [split; [exact HG'|split; [exact Hsh''|exact Hpol]]|]. split; [exact (table_of_value _ _ _ _ tb Hv eq_refl)|]. split; [exact Hop|]. split; [exact Hnum|].
      destruct Hfr as [Hfo Hfn Hfd Hfi]. split; [exact Hfo|exact Hfn|exact Hdata|exact Hfi].
Qed.

Lemma UnrefEntry_ok contents G l1 r l2 t : tc_ok contents G (l1 ++ r :: l2) t -> exists t', UnrefEntry t r = Ret t' /\ tc_ok contents G (l1 ++ l2) t' /\ block_cache_ t' = block_cache_ t /\ options_ t' = options_ t /\ dbname_ t' = dbname_ t /\ env_ t' = env_ t.
Proof. intros (HG & Hsh & Hpol). destruct (sharded_Release _ _ _ _ _ Hsh) as (c' & Hr & Hsh'). unfold UnrefEntry. rewrite Hr. cbn [mbind result_bind]. by eexists. Qed.

Lemma reads_last id (blocks blocks' : option K) : reads id blocks blocks' ->
  match blocks, blocks' with Some k, Some k' => cache_last k' = cache_last k | None, None => True | _, _ => False end.
Proof. destruct blocks, blocks'; cbn; try done. by intros [? _]%steps_gets. Qed.

(** What a lookup of [k] in a table may give, and must give. *)
Definition lookup_answer (es : list entry) (k : str) (r : option entry) : Prop :=
  (r = None \/ r = es !! seek_pos (C := icmp) k es) /\
  (forall e, es !! seek_pos (C := icmp) k es = Some e -> Compare (user_part (fst e)) (user_part k) = Eq -> r = Some e).

Lemma table_Get_ok contents G hs t n size rd k : tc_ok contents G hs t -> file_ok contents t n size -> Z.of_nat (length hs) < 2 ^ 31 - 2 -> ids_left t -> 8 <= str_size k ->
  exists r t' G', Get (C := icmp) t rd n size k = Ret (Status.OK, r, t') /\ tc_ok contents G' hs t' /\ frame t t' /\ lookup_answer (contents n) k r.
Proof.
  intros Hok Hfile Hh Hids Hk. destruct (FindTable_ok contents G hs t n size Hok Hfile Hh Hids) as (h & t1 & G' & tb & bs & Hfind & (HG & Hsh & Hpol) & Htab & Hop & Hnum & Hfr).
  destruct Hfile as (_ & d & _ & _ & _ & Hbd & Htag). pose proof (fr_options _ _ Hfr) as Eo. rewrite <- Eo in Hop.
  destruct (InternalGet_user C Hinj _ _ bs tb (block_cache_ t1) rd k Hop (bd_sorted _ _ Hbd) Htag Hpol (numbered_coherent _ _ _ _ HG Hnum) Hk) as (r & blocks & Hg & Hco & Hrd & Hr).
  pose proof (reads_last _ _ _ Hrd) as Hlast. assert (is_Some blocks -> is_Some (block_cache_ t1)) as Hsome by (intros [? ->]; destruct (block_cache_ t1); done).
  assert (tc_ok contents G' ([] ++ h :: hs) (set_block_cache t1 blocks)) as Hok2.
  { split; [by eapply blocks_reads|]. split; [|done]. eapply sharded_mono; [|exact Hsh]. intros key v. by apply cached_mono. }
  destruct (UnrefEntry_ok contents G' [] h hs _ Hok2) as (t2 & Hun & Hok3 & Hb2 & Ho2 & Hn2 & He2). exists r, t2, G'. split; [|split; [done|split; [|done]]].
  - unfold Get. rewrite Hfind, ret_bind. cbv beta iota. change (Status.ok Status.OK) with true. cbv iota. rewrite Htab, ret_bind, Hg, ret_bind. cbv beta iota. by rewrite Hun, ret_bind.
  - destruct Hfr as [F1 F2 F3 F4]. split; [by rewrite Ho2|by rewrite Hn2|intros x; by rewrite He2|]. rewrite Hb2. cbn [set_block_cache block_cache_].
    destruct (block_cache_ t), (block_cache_ t1), blocks; try done. by rewrite Hlast.
Qed.

(** *** Iterators *)

(** The two-level iterator of a table with the blocks [bs], with the internal order. *)
Abbreviation table_at bs := (at2 (LI := BlockIterator_laws icmp) (BL := table_block_laws (C := icmp) bs)).

(** An iterator over the blocks of a table, in the order of the keys. *)
Definition handled_at (it : HandledIterator F K) (es : list entry) (i : nat) : Prop := exists bs blk ies,
  es = all_of blk ies /\ table_at bs blk ies (hi_iter it) i /\ keys_sorted (C := icmp) ies /\ separated (C := icmp) blk ies.

Lemma handled_step (it : HandledIterator F K) es i (op : Table.TableIterator F K -> result (Table.TableIterator F K)) j :
  handled_at it es i -> (forall bs blk ies, es = all_of blk ies -> table_at bs blk ies (hi_iter it) i -> keys_sorted (C := icmp) ies -> separated (C := icmp) blk ies ->
    exists x, op (hi_iter it) = Ret x /\ table_at bs blk ies x j) ->
  exists it', on_iter (hi_handle it) (op (hi_iter it)) = Ret it' /\ handled_at it' es j.
Proof. intros (bs & blk & ies & E1 & Hat & Hs & Hsep) Hop. destruct (Hop bs blk ies E1 Hat Hs Hsep) as (x & -> & Hat'). eexists. split; [done|]. by exists bs, blk, ies. Qed.

#[local] Program Instance handled_laws : IteratorLaws (handled_iterator (F := F) (K := K) (C := icmp)) := { it_at := handled_at }.
Next Obligation. intros it es i (bs & blk & ies & -> & Hat & _). exact (at2_le (LI := BlockIterator_laws icmp) (BL := table_block_laws (C := icmp) bs) blk ies _ _ Hat). Qed.
Next Obligation. intros it es i (bs & blk & ies & -> & Hat & _). exact (at2_valid (LI := BlockIterator_laws icmp) (BL := table_block_laws (C := icmp) bs) blk ies _ _ Hat). Qed.
Next Obligation. intros it es i k v (bs & blk & ies & -> & Hat & _) He. exact (at2_entry (LI := BlockIterator_laws icmp) (BL := table_block_laws (C := icmp) bs) blk ies _ _ _ _ Hat He). Qed.
Next Obligation. intros it es i (bs & blk & ies & -> & Hat & _). exact (at2_status (LI := BlockIterator_laws icmp) (BL := table_block_laws (C := icmp) bs) blk ies _ _ Hat). Qed.
Next Obligation. intros it es i Hat. apply (handled_step it es i _ _ Hat). intros bs blk ies E1 H _ _. exact (at2_first (LI := BlockIterator_laws icmp) (BL := table_block_laws (C := icmp) bs) _ _ _ _ H). Qed.
Next Obligation. intros it es i Hat. apply (handled_step it es i _ _ Hat). intros bs blk ies -> H _ _. exact (at2_last (LI := BlockIterator_laws icmp) (BL := table_block_laws (C := icmp) bs) _ _ _ _ H). Qed.
Next Obligation. intros it es i Hat Hi. apply (handled_step it es i _ _ Hat). intros bs blk ies -> H _ _. exact (at2_next (LI := BlockIterator_laws icmp) (BL := table_block_laws (C := icmp) bs) _ _ _ _ H Hi). Qed.
Next Obligation. intros it es i Hat Hi. apply (handled_step it es i _ _ Hat). intros bs blk ies -> H _ _. exact (at2_prev (LI := BlockIterator_laws icmp) (BL := table_block_laws (C := icmp) bs) _ _ _ _ H Hi). Qed.

#[local] Instance handled_seek : SeekLaws icmp handled_laws.
Proof.
  split. intros it es i target Hat Hs. apply (handled_step it es i (fun x => it_Seek (Iterator := Table.TableIterator_ops (C := icmp)) x target) _ Hat). intros bs blk ies -> H Hk Hsep.
  exact (at2_seek (LI := BlockIterator_laws icmp) (BL := table_block_laws (C := icmp) bs) _ _ _ _ target H Hk Hs Hsep).
Qed.

Lemma NewIterator_ok contents G hs t n size rd : tc_ok contents G hs t -> file_ok contents t n size -> Z.of_nat (length hs) < 2 ^ 31 - 2 -> ids_left t ->
  exists it tb t' G', NewIterator (C := icmp) t rd n size = Ret (inr it, Some tb, t') /\ tc_ok contents G' (hi_handle it :: hs) t' /\ frame t t' /\ handled_at it (contents n) (length (contents n)).
Proof.
  intros Hok Hfile Hh Hids. destruct (FindTable_ok contents G hs t n size Hok Hfile Hh Hids) as (h & t1 & G' & tb & bs & Hfind & Hok' & Htab & Hop & Hnum & Hfr).
  destruct Hfile as (_ & d & _ & _ & _ & Hbd & Htag). pose proof (opened_serves C _ _ _ _ _ Hop (numbered_coherent _ _ _ _ (proj1 Hok') Hnum)) as S.
  destruct Hop as (seps & fc & mb & ib & L & He & Hseps & Hib & _). destruct (NewIterator_at (C := icmp) _ bs seps fc mb ib L tb (block_cache_ t1) rd S Hib) as (x & Hn & Hat).
  exists (mkHandled x h), tb, t1, G'. split; [|split; [done|split; [done|]]].
  - unfold NewIterator. rewrite Hfind, ret_bind. cbv beta iota. change (negb (Status.ok Status.OK)) with false. cbv iota. rewrite Htab, ret_bind. by rewrite Hn, ret_bind.
  - pose proof (bd_sorted _ _ Hbd) as Hs. rewrite <- He in Hs |- *. exists bs, (block_at_handle bs), (index_entries bs seps). split; [symmetry; by eapply all_of_index|]. split; [done|].
    split; [exact (index_sorted (C := icmp) _ bs seps fc mb ib L Hseps)|exact (index_separated (C := icmp) _ bs seps fc mb ib L Hseps)].
Qed.

Lemma Evict_ok contents contents' G hs t n : tc_ok contents G hs t -> (forall m, m <> n -> contents' m = contents m) ->
  exists t', Evict t n = Ret t' /\ tc_ok contents' G hs t' /\ frame t t'.
Proof.
  intros (HG & Hsh & Hpol) Hc. unfold Evict. destruct (sharded_Erase _ (cached_table contents' (options_ t) (block_cache_ t) G) (cache_ t) hs (EncodeFixed64 n) Hsh) as (c' & -> & Hsh').
  { intros k v Hne (m & tb & bs & -> & H). exists m, tb, bs. rewrite (Hc m) by congruence. done. }
  rewrite ret_bind. eexists. split; [done|]. split; [done|]. split; cbn; try done. destruct (block_cache_ t); [lia|done].
Qed.

(** *** What versions rely on *)

(** Without a block cache, whose ids are bounded, any number of lookups is answered: the
    table cache is one that the lookups of a version may use. *)
Definition plain_cache contents t : Prop := block_cache_ t = None /\ exists G hs, tc_ok contents G hs t /\ Z.of_nat (length hs) < 2 ^ 31 - 2.

#[global] Program Instance table_cache_laws contents rd : TableCacheLaws C (table_cache (E := E) (F := F) (K := K) (C := icmp) rd) := {
  tc_holds t n size es := plain_cache contents t /\ file_ok contents t n size /\ es = contents n
}.
Next Obligation.
  intros contents rd t n size es ikey ((Hb & G & hs & Hok & Hh) & Hf & ->) Hk.
  destruct (table_Get_ok contents G hs t n size rd ikey Hok Hf Hh) as (r & t' & G' & Hg & Hok' & Hfr & Ha & Hs); [by unfold ids_left; rewrite Hb|done|].
  exists r, t'. split; [exact Hg|]. split; [|done]. intros m size' es ((_ & _) & Hf' & ->). split; [|split; [by eapply frame_file|done]].
  split; [|by exists G', hs]. pose proof (fr_ids _ _ Hfr) as Hi. rewrite Hb in Hi. by destruct (block_cache_ t').
Qed.

(** *** Clients *)

(** [OpFree i] deletes the [i]-th iterator that is alive. *)
Inductive table_op := OpGet (n : Z) (k : str) | OpIter (n : Z) | OpFree (i : nat) | OpEvict (n : Z).
Inductive answer := AGet (s : Status.Status) (r : option entry) | AIter (it : EmptyIterator.EmptyIterator + HandledIterator F K) | ADone.

Section clients.
Context (contents : Z -> list entry) (sizes : Z -> Z) (rd : ReadOptions).
Implicit Types (live : list (HandledIterator F K)) (o : table_op).

Definition run_table_op t live o : result (answer * TableCache E F K * list (HandledIterator F K)) :=
  match o with
  | OpGet n k => q ← Get (C := icmp) t rd n (sizes n) k; Ret (AGet (fst (fst q)) (snd (fst q)), snd q, live)
  | OpIter n => q ← NewIterator (C := icmp) t rd n (sizes n); Ret (AIter (fst (fst q)), snd q, match fst (fst q) with inr it => it :: live | inl _ => live end)
  | OpFree i =>
      match live !! i with
      | Some it => t ← UnrefEntry t (hi_handle it); Ret (ADone, t, take i live ++ drop (S i) live)
      | None => Ret (ADone, t, live)
      end
  | OpEvict n => t ← Evict t n; Ret (ADone, t, live)
  end.

Definition run_next (s : list answer * TableCache E F K * list (HandledIterator F K)) o : result (list answer * TableCache E F K * list (HandledIterator F K)) :=
  q ← run_table_op (snd (fst s)) (snd s) o; Ret (fst (fst s) ++ [fst (fst q)], snd (fst q), snd q).

Definition run_table_ops t (ops : list table_op) : result (list answer * TableCache E F K * list (HandledIterator F K)) := foldR run_next ([], t, []) ops.

Definition table_op_ok t o : Prop :=
  match o with OpGet n k => file_ok contents t n (sizes n) /\ 8 <= str_size k | OpIter n => file_ok contents t n (sizes n) | _ => True end.

Definition right_answer o (a : answer) : Prop :=
  match o, a with
  | OpGet n k, AGet s r => s = Status.OK /\ lookup_answer (contents n) k r
  | OpIter n, AIter (inr it) => handled_at it (contents n) (length (contents n))
  | OpFree _, ADone | OpEvict _, ADone => True
  | _, _ => False
  end.

Lemma frame_refl t : frame t t.
Proof. split; try done. destruct (block_cache_ t); [lia|done]. Qed.

Lemma run_table_op_ok G t live o : tc_ok contents G (map hi_handle live) t -> table_op_ok t o -> Z.of_nat (length live) < 2 ^ 31 - 2 -> ids_left t ->
  exists a t' live' G', run_table_op t live o = Ret (a, t', live') /\ right_answer o a /\ tc_ok contents G' (map hi_handle live') t' /\ frame t t' /\ (length live' <= S (length live))%nat.
Proof.
  intros Hok Ho Hn Hids. rewrite <- (length_map hi_handle) in Hn. destruct o as [n k|n|i|n]; cbn [run_table_op table_op_ok] in *.
  - destruct Ho as [Hf Hk]. destruct (table_Get_ok contents G _ t n (sizes n) rd k Hok Hf Hn Hids Hk) as (r & t' & G' & -> & Hok' & Hfr & Hr). rewrite ret_bind. exists (AGet Status.OK r), t', live, G'. split; [done|]. split; [done|]. auto.
  - destruct (NewIterator_ok contents G _ t n (sizes n) rd Hok Ho Hn Hids) as (it & tb & t' & G' & -> & Hok' & Hfr & Hat). rewrite ret_bind. exists (AIter (inr it)), t', (it :: live), G'. split; [done|]. split; [done|]. auto.
  - destruct (live !! i) as [it|] eqn:Ei; [|exists ADone, t, live, G; split; [done|]; split; [done|]; auto using frame_refl]. rewrite <- (take_drop_middle live i it Ei), map_app in Hok.
    destruct (UnrefEntry_ok contents G _ (hi_handle it) _ t Hok) as (t' & -> & Hok' & Hb & Hopt & Hdb & He). rewrite ret_bind. exists ADone, t', (take i live ++ drop (S i) live), G. split; [done|]. split; [done|].
    split; [by rewrite map_app|]. split; [split; try done; [intros x; by rewrite He|rewrite Hb; destruct (block_cache_ t); [lia|done]]|]. rewrite length_app, length_take, length_drop. lia.
  - destruct (Evict_ok contents contents G _ t n Hok) as (t' & -> & Hok' & Hfr); [done|]. rewrite ret_bind. exists ADone, t', live, G. split; [done|]. split; [done|]. auto.
Qed.

Lemma run_table_ops_ok ops : forall G l0 t live, tc_ok contents G (map hi_handle live) t -> Forall (table_op_ok t) ops -> Z.of_nat (length live + length ops) < 2 ^ 31 - 2 ->
  match block_cache_ t with Some k => cache_last k + Z.of_nat (length ops) < 2 ^ 64 | None => True end ->
  exists l t' live' G', foldR run_next (l0, t, live) ops = Ret (l0 ++ l, t', live') /\ Forall2 right_answer ops l /\ tc_ok contents G' (map hi_handle live') t'.
Proof.
  induction ops as [|o ops IH]; intros G l0 t live Hok Hops Hn Hids; cbn [foldR]; [exists [], t, live, G; rewrite app_nil_r; auto|]. apply Forall_cons_1 in Hops as [Ho Hops]. cbn [length] in *.
  destruct (run_table_op_ok G t live o Hok Ho) as (a & t1 & live1 & G1 & Hrun & Ha & Hok1 & Hfr & Hl1); [lia|unfold ids_left; destruct (block_cache_ t); [lia|done]|].
  assert (run_next (l0, t, live) o = Ret (l0 ++ [a], t1, live1)) as -> by (unfold run_next; cbn [fst snd]; by rewrite Hrun). rewrite ret_bind.
  destruct (IH G1 (l0 ++ [a]) t1 live1 Hok1) as (l & t2 & live2 & G2 & -> & Hall & Hok2); [|lia| |].
  - eapply Forall_impl; [exact Hops|]. intros o' Ho'. destruct o'; cbn in *; try done; [destruct Ho'; split; [|done]|]; by eapply frame_file.
  - pose proof (fr_ids _ _ Hfr) as Hi. destruct (block_cache_ t), (block_cache_ t1); try done. lia.
  - exists (a :: l), t2, live2, G2. split; [by rewrite <- app_assoc|]. auto.
Qed.

(** Without clients the cache can be deleted, and every entry is freed. *)
Lemma shards_destroy (ss : list (LRUCache.LRUCache (TableAndFile F))) : Forall (fun s => shard_ok (fun _ _ => True) s []) ss -> forall l0, Forall (fun s => LRUCache.mem s = ∅) l0 ->
  exists l, foldR (fun l s => s ← LRUCache.destroy s; Ret (l ++ [s])) l0 ss = Ret l /\ Forall (fun s => LRUCache.mem s = ∅) l.
Proof.
  induction 1 as [|s ss (n & latest & Hc & _) _ IH]; intros l0 H0; cbn [foldR]; [by exists l0|]. pose proof (co_cache _ _ _ _ Hc) as Hok. cbn in Hok.
  assert (forall p e, LRUCache.mem s !! p = Some e -> clients e = 0) as Hcl by (intros p e He; exact (co_counts _ _ _ _ Hc p e He)).
  destruct (destroy_ok hf HashSlice_range s Hok) as (s' & -> & Hm).
  - destruct (LRUCache.in_use_ s) as [|p l] eqn:Eu; [done|]. destruct (lo_use _ (proj1 Hok) p) as (e & He & Hin & Hr); [rewrite Eu; by left|].
    specialize (Hcl p e He). unfold clients in Hcl. rewrite Hin in Hcl. lia.
  - intros p e He. specialize (Hcl p e He). unfold clients in Hcl. destruct (in_cache e) eqn:Hi; [done|]. pose proof (lo_gone _ (proj1 Hok) p e He Hi). lia.
  - rewrite !ret_bind. apply IH. apply Forall_app_2; [done|by constructor].
Qed.

Lemma sharded_destroy (good : str -> TableAndFile F -> Prop) c : sharded_ok good c [] -> exists l, ShardedLRUCache.destroy c = Ret l /\ Forall (fun s => LRUCache.mem s = ∅) l.
Proof.
  intros (_ & Hs & _). apply shards_destroy; [|constructor]. apply Forall_lookup. intros i s Hi. by apply (shard_mono (at_shard good i)), (Hs i s Hi).
Qed.

(** C16: A database that reads its tables through the table cache gets what is in the
    files.  From an empty cache, whatever tables are looked up in, iterated over and
    evicted, in any order and however many iterators are kept, no operation fails: a
    lookup ends with the status OK and gives nothing or the first entry at or after the
    target, and surely that entry if it has the user key of the target, although an
    index key may end the block before it; a new iterator ranges over the entries of its
    file.  Blocks that tables share in the block cache are not mixed up.  When all
    iterators are deleted, deleting the cache fails no assertion and frees every table. *)
Theorem table_cache_serves env dbname opt (blocks : option K) (entries : Z) ops :
  0 < entries < 2 ^ 31 - 1 -> user_policy opt -> Z.of_nat (length ops) < 2 ^ 31 - 2 ->
  match blocks with Some k => 0 <= cache_last k < 2 ^ 63 /\ forall key, cache_get k key = None | None => True end ->
  exists t0, make env dbname opt blocks entries = Ret t0 /\
    (Forall (table_op_ok t0) ops ->
     exists answers t live, run_table_ops t0 ops = Ret (answers, t, live) /\ Forall2 right_answer ops answers /\
       (live = [] -> exists shards, destroy t = Ret shards /\ Forall (fun s => LRUCache.mem s = ∅) shards)).
Proof.
  intros Hent Hpol Hn Hblocks. destruct (sharded_start (cached_table contents opt blocks ∅) entries Hent) as (c & Hc & Hsh). unfold make. rewrite Hc, ret_bind. eexists. split; [done|]. intros Hops.
  destruct (run_table_ops_ok ops ∅ [] (mkTableCache env dbname opt blocks c) []) as (l & t & live & G & Hrun & Hall & Hok); try done.
  - split; [|done]. cbn [block_cache_]. destruct blocks as [k|]; [|done]. destruct Hblocks as [Hl He]. split; [lia|]. split; [by intros id bs ?|]. intros id off b _ Hb. by rewrite He in Hb.
  - cbn [block_cache_]. destruct blocks; [lia|done].
  - exists l, t, live. split; [done|]. split; [done|]. intros ->. destruct Hok as (_ & Hs & _). by eapply sharded_destroy.
Qed.

End clients.
End cached.

(** ** An example *)

Module CacheDemo.
#[local] Existing Instance port_plain.

(** A map of files as the environment, and a map of blocks as the block cache. *)
#[export] Instance map_files : RandomAccessEnv (gmap str str) PosixRandomAccessFile.PosixRandomAccessFile := {|
  env_NewRandomAccessFile e name :=
    match e !! name with Some d => (e, Status.OK, Some (PosixRandomAccessFile.mkFile name d)) | None => (e, Status.IOError name [], None) end
|}.

#[export] Program Instance map_files_laws : RandomAccessEnvLaws pread_file_laws map_files := {| re_data e name := e !! name |}.
Next Obligation. intros e name d H. cbn. rewrite H. by eexists _, e. Qed.
Next Obligation. intros e name H. cbn. rewrite H. by eexists _, e. Qed.

Definition block_map : Type := Z * gmap str Block.Block.
#[export] Instance map_cache : Cache block_map Block.Block := {|
  cache_NewId k := (fst k + 1, (fst k + 1, snd k));
  cache_Lookup k key := (snd k !! key, k);
  cache_Insert k key b _ := (fst k, <[key := b]> (snd k))
|}.
#[export] Program Instance map_cache_laws : CacheLaws map_cache := {| cache_get k key := snd k !! key |}.
Next Obligation. intros k key. by exists k. Qed.
Next Obligation. intros k key v charge key' v'. cbn. rewrite lookup_insert_Some. naive_solver. Qed.
Next Obligation. done. Qed.
#[export] Program Instance map_cache_ids : CacheIds map_cache := {| cache_last k := fst k |}.
Solve All Obligations with done.

Definition opt : Options :=
  mkOptions true 30 2 kSnappyCompression (Some ($"leveldb.BuiltinBloomFilter2", internal_policy (bloom_policy (BloomFilterPolicy.mkPolicy 10 6)))).

Definition other_versions : list entry := [($"fig" ++ EncodeFixed64 (packed 9 kTypeValue), $"blue")].
Definition contents (n : Z) : list entry := if n =? 5 then demo_versions else other_versions.
Definition data (n : Z) : str := match build_table (C := internal_comparator BytewiseComparator) opt (contents n) with Ret (d, _) => d | _ => [] end.

(** A table under each of the two names. *)
Definition files : gmap str str := {[MakeFileName ($"/db") 5 ($"ldb") := data 5; MakeFileName ($"/db") 7 ($"sst") := data 7]}.

Lemma opt_buildable n : buildable (C := internal_comparator BytewiseComparator) opt (contents n).
Proof.
  unfold contents. destruct (n =? 5); (split; [split; vm_compute; discriminate|apply internal_policy_laws, bloom_policy_laws; done|vm_compute; done|repeat constructor|vm_compute; done|vm_compute; discriminate|vm_compute; done]).
Qed.

Lemma data_built n : n = 5 \/ n = 7 -> build_table (C := internal_comparator BytewiseComparator) opt (contents n) = Ret (data n, Status.OK).
Proof. intros [->| ->]; vm_compute; reflexivity. Qed.

Lemma contents_tagged n : tagged_keys (contents n).
Proof. unfold contents. destruct (n =? 5); repeat constructor; vm_compute; discriminate. Qed.

Lemma cache_demo_file_ok t n : n = 5 \/ n = 7 -> TableCache.env_ t = files -> TableCache.dbname_ t = $"/db" -> TableCache.options_ t = opt ->
  file_ok (K := block_map) BytewiseComparator contents t n (str_size (data n)).
Proof.
  intros Hn He Hd Ho. split; [lia|]. exists (data n). unfold table_data. rewrite He, Hd, Ho. split; [by destruct Hn as [->| ->]|].
  split; [done|]. split; [by apply data_built|]. split; [apply opt_buildable|apply contents_tagged].
Qed.

Lemma make_fields {E F K} env dbname o (blocks : option K) entries (t : TableCache.TableCache E F K) : TableCache.make env dbname o blocks entries = Ret t ->
  TableCache.env_ t = env /\ TableCache.dbname_ t = dbname /\ TableCache.options_ t = o.
Proof. unfold TableCache.make. intros (c & _ & [= <-])%result_bind_Ret_inv. done. Qed.

Definition target (k : str) : str := k ++ EncodeFixed64 (packed kMaxSequenceNumber kTypeValue).

Definition ops : list table_op := [OpIter 5; OpGet 5 (target ($"apple")); OpEvict 5; OpGet 7 (target ($"fig")); OpFree 0].

Lemma bytewise_eq (a b : str) : Compare (Comparator := BytewiseComparator) a b = Eq -> a = b.
Proof. cbn. unfold Bytewise.Compare. rewrite slice_compare_lex. apply str_compare_eq. Qed.

Lemma demo_ops_ok t : TableCache.env_ t = files -> TableCache.dbname_ t = $"/db" -> TableCache.options_ t = opt ->
  Forall (table_op_ok (K := block_map) BytewiseComparator contents (fun n => str_size (data n)) t) ops.
Proof. intros He Hd Ho. repeat constructor; try (apply cache_demo_file_ok; auto); vm_compute; discriminate. Qed.

(** The run: the newest version of a key, from a table that an iterator pins, and from
    one under its old name. *)
Example table_cache_run : match TableCache.make files ($"/db") opt (Some ((0, ∅) : block_map)) 990 with
  | Ret t0 => match run_table_ops BytewiseComparator (fun n => str_size (data n)) default_read_options t0 ops with
      | Ret ([AIter (inr _); AGet s r; ADone; AGet s' r'; ADone], _, []) => (s, r, s', r') = (Status.OK, demo_versions !! 0%nat, Status.OK, other_versions !! 0%nat)
      | _ => False
      end
  | _ => False
  end.
Proof. vm_compute. reflexivity. Qed.

End CacheDemo.

Import CacheDemo.
#[local] Existing Instance port_plain.

Lemma table_cache_serves_witness :
  exists t0, TableCache.make files ($"/db") opt (Some ((0, ∅) : block_map)) 990 = Ret t0 /\
    exists answers t live, run_table_ops BytewiseComparator (fun n => str_size (data n)) default_read_options t0 ops = Ret (answers, t, live) /\
      Forall2 (right_answer BytewiseComparator contents) ops answers /\
      (live = [] -> exists shards, TableCache.destroy t = Ret shards /\ Forall (fun s => LRUCache.mem s = ∅) shards).
Proof.
  destruct (table_cache_serves BytewiseComparator bytewise_eq contents (fun n => str_size (data n)) default_read_options files ($"/db") opt (Some ((0, ∅) : block_map)) 990 ops) as (t0 & Hm & H).
  - lia.
  - cbn. by eexists.
  - vm_compute. reflexivity.
  - split; [cbn; lia|]. intros key. apply lookup_empty.
  - exists t0. split; [exact Hm|]. apply H. destruct (make_fields _ _ _ _ _ _ Hm) as (He & Hd & Ho). apply demo_ops_ok; assumption.
Defined.
