(* ===== verification/BuildTable.v ===== *)
(** * leveldb: writing a table

    [BuildTable] of [db/builder.cc]: the entries of an iterator are written with
    [TableBuilder] to a new file of the environment, which is removed again when it is
    empty or something fails; [close_file] and [verify_table] are shared with the
    tables that compactions write. *)

From Stdlib Require Import ZArith Lia.
From S2P Require Import Prelude CString World Coding SliceStatus FilterPolicy Logging DbFormat LogFile Iterators TwoLevelIterator Merger TableFormat TableBuilder.
From S2P Require Import DbTable DbWrite VersionEdit Version VersionSet.

Section build.
Context {E T D F : Type} `{EN : !Env E F, WF : !WritableFile F, SyF : !SyncFile F, TC : !TableCache T D, ITD : !Iterator D}.
Context `{C : !Comparator, PT : !Port} (options : Options) (dbname : str).

(** [s = outfile->Sync(); s = outfile->Close()] *)
Definition close_file (env : E) (file : F) (s : Status.Status) : E * Status.Status :=
  if Status.ok s then
    let '(file, s) := wf_Sync file in
    if Status.ok s then env_Close env file else (env, s)
  else (env, s).

(** [table_cache->NewIterator(...)->status()] *)
Definition verify_table (tc : T) (number size : Z) : result (T * Status.Status) :=
  q ← tc_NewIterator tc number size;
  let '(it, tc) := (q : (EmptyIterator.EmptyIterator + D) * T) in
  Ret (tc, it_status it).

(** [for (; iter->Valid(); iter->Next())]: the builder, the last key and the iterator. *)
Fixpoint build_entries {I : Type} `{IT : !Iterator I} (fuel : nat) (b : TableBuilder.Rep F) (key : str) (it : I) :
    result (TableBuilder.Rep F * str * I) :=
  if it_Valid it then
    match fuel with
    | O => Crash OutOfFuel
    | S fuel =>
        key ← it_key it;
        value ← it_value it;
        b ← TableBuilder.Add (C := internal_comparator C) b key value;
        it ← it_Next it;
        build_entries fuel b key it
    end
  else Ret (b, key, it).

(** The environment, the table cache, [*meta], the iterator and the status. *)
Definition BuildTable {I : Type} `{IT : !Iterator I} (fuel : nat) (env : E) (tc : T) (it : I) (meta : FileMetaData) :
    result (E * T * FileMetaData * Status.Status) :=
  let with_range size small large := mkMeta (refs meta) (allowed_seeks meta) (VersionEdit.number meta) size small large in
  let meta := with_range 0 (VersionEdit.smallest meta) (VersionEdit.largest meta) in
  it ← it_SeekToFirst it;
  fname ← TableFileName dbname (VersionEdit.number meta);
  q ← (if it_Valid it then
         let '(env, s, file) := env_NewWritableFile env fname in
         match file, Status.ok s with
         | _, false => Ret (inl (env, s))
         | None, true => Crash NullDeref
         | Some file, true =>
             b ← TableBuilder.make options file;
             first ← it_key it;
             q ← build_entries fuel b [] it;
             let '(b, key, it) := (q : TableBuilder.Rep F * str * I) in
             let large := match key with [] => VersionEdit.largest meta | _ => key end in
             q ← TableBuilder.Finish (C := internal_comparator C) b;
             let '(b, s) := (q : TableBuilder.Rep F * Status.Status) in
             let size := if Status.ok s then TableBuilder.FileSize b else 0 in
             if Status.ok s && (size <=? 0) then Crash AssertFailed
             else
               _ ← TableBuilder.destroy b;
               let '(env, s) := close_file env (TableBuilder.file b) s in
               q ← (if Status.ok s then verify_table tc (VersionEdit.number meta) size else Ret (tc, s));
               let '(tc, s) := (q : T * Status.Status) in
               Ret (inr (env, tc, with_range size first large, it, s))
         end
       else Ret (inr (env, tc, meta, it, Status.OK)));
  match q with
  | inl (env, s) => Ret (env, tc, meta, s)
  | inr (env, tc, meta, it, s) =>
      let s := if Status.ok (it_status it) then s else it_status it in
      if Status.ok s && (0 <? VersionEdit.file_size meta) then Ret (env, tc, meta, s)
      else Ret (fst (env_RemoveFile env fname), tc, meta, s)
  end.

End build.
