(* ===== verification/DbState.v ===== *)
(** * leveldb: the state of a database, and writing out a memtable

    The members of [DBImpl] ([db/db_impl.h]) that compactions and recovery change, and
    the operations that turn a memtable into a table and tidy up: [WriteLevel0Table],
    [CompactMemTable], [RemoveObsoleteFiles], [RecordBackgroundError] and [NewDB] of
    [db/db_impl.cc], with [AddLiveFiles] of [db/version_set.cc].  A function argument
    [meanwhile] stands for what other threads do to the database while the mutex is
    released. *)

From Stdlib Require Import ZArith Lia.
From S2P Require Import Prelude CString World Coding SliceStatus FilterPolicy Logging DbFormat LogFile Iterators TwoLevelIterator Merger TableFormat TableBuilder.
From S2P Require Import SkipList DbTable MemTable DbWrite VersionEdit Version DbRead VersionSet BuildTable.

Module DBState.

(** [begin] and [end] are null at the ends of the key range; [done_] is set when
    nothing is left to do. *)
Record ManualCompaction := mkManual { m_level : Z; m_done : bool; m_begin : option str; m_end : option str }.

Record CompactionStats := mkStats { micros : Z; bytes_read : Z; bytes_written : Z }.

Definition no_stats : CompactionStats := mkStats 0 0 0.

Definition Add (s c : CompactionStats) : CompactionStats :=
  mkStats (int64 (micros s + micros c)) (int64 (bytes_read s + bytes_read c)) (int64 (bytes_written s + bytes_written c)).

(** [log_] is the log with its file [logfile_], [has_imm_] tells whether [imm_] is
    there.  [readers_] are the versions that iterators and lookups hold a reference
    to, [compacting_] the one that the running compaction holds; together with
    [current_] they are the list of versions of [VersionSet].  [background_calls_]
    counts the calls of [BGWork] that were scheduled and have not begun. *)
Record DBImpl (E T F : Type) := mkDB {
  env_ : E;
  table_cache_ : T;
  shutting_down_ : bool;
  mem_ : option MemTable.MemTable;
  imm_ : option MemTable.MemTable;
  log_ : option (Writer.Writer F);
  logfile_number_ : Z;
  snapshots_ : SnapshotList.SnapshotList;
  pending_outputs_ : gset Z;
  background_compaction_scheduled_ : bool;
  background_calls_ : nat;
  manual_compaction_ : option ManualCompaction;
  versions_ : VersionSet.VersionSet F;
  readers_ : list Version.Version;
  compacting_ : option Version.Version;
  bg_error_ : Status.Status;
  stats_ : list CompactionStats
}.
Arguments mkDB {E T F} _ _ _ _ _ _ _ _ _ _ _ _ _ _ _ _ _.
Arguments env_ {E T F} _.
Arguments table_cache_ {E T F} _.
Arguments shutting_down_ {E T F} _.
Arguments mem_ {E T F} _.
Arguments imm_ {E T F} _.
Arguments log_ {E T F} _.
Arguments logfile_number_ {E T F} _.
Arguments snapshots_ {E T F} _.
Arguments pending_outputs_ {E T F} _.
Arguments background_compaction_scheduled_ {E T F} _.
Arguments background_calls_ {E T F} _.
Arguments manual_compaction_ {E T F} _.
Arguments versions_ {E T F} _.
Arguments readers_ {E T F} _.
Arguments compacting_ {E T F} _.
Arguments bg_error_ {E T F} _.
Arguments stats_ {E T F} _.

Section setters.
Context {E T F : Type}.
Implicit Types (db : DBImpl E T F).

Definition set_env db (x : E) : DBImpl E T F :=
  mkDB x (table_cache_ db) (shutting_down_ db) (mem_ db) (imm_ db) (log_ db) (logfile_number_ db) (snapshots_ db) (pending_outputs_ db)
    (background_compaction_scheduled_ db) (background_calls_ db) (manual_compaction_ db) (versions_ db) (readers_ db) (compacting_ db) (bg_error_ db) (stats_ db).

Definition set_table_cache db (x : T) : DBImpl E T F :=
  mkDB (env_ db) x (shutting_down_ db) (mem_ db) (imm_ db) (log_ db) (logfile_number_ db) (snapshots_ db) (pending_outputs_ db)
    (background_compaction_scheduled_ db) (background_calls_ db) (manual_compaction_ db) (versions_ db) (readers_ db) (compacting_ db) (bg_error_ db) (stats_ db).

Definition set_shutting_down db (x : bool) : DBImpl E T F :=
  mkDB (env_ db) (table_cache_ db) x (mem_ db) (imm_ db) (log_ db) (logfile_number_ db) (snapshots_ db) (pending_outputs_ db)
    (background_compaction_scheduled_ db) (background_calls_ db) (manual_compaction_ db) (versions_ db) (readers_ db) (compacting_ db) (bg_error_ db) (stats_ db).

Definition set_mem db (x : option MemTable.MemTable) : DBImpl E T F :=
  mkDB (env_ db) (table_cache_ db) (shutting_down_ db) x (imm_ db) (log_ db) (logfile_number_ db) (snapshots_ db) (pending_outputs_ db)
    (background_compaction_scheduled_ db) (background_calls_ db) (manual_compaction_ db) (versions_ db) (readers_ db) (compacting_ db) (bg_error_ db) (stats_ db).

Definition set_imm db (x : option MemTable.MemTable) : DBImpl E T F :=
  mkDB (env_ db) (table_cache_ db) (shutting_down_ db) (mem_ db) x (log_ db) (logfile_number_ db) (snapshots_ db) (pending_outputs_ db)
    (background_compaction_scheduled_ db) (background_calls_ db) (manual_compaction_ db) (versions_ db) (readers_ db) (compacting_ db) (bg_error_ db) (stats_ db).

Definition set_log db (x : option (Writer.Writer F)) : DBImpl E T F :=
  mkDB (env_ db) (table_cache_ db) (shutting_down_ db) (mem_ db) (imm_ db) x (logfile_number_ db) (snapshots_ db) (pending_outputs_ db)
    (background_compaction_scheduled_ db) (background_calls_ db) (manual_compaction_ db) (versions_ db) (readers_ db) (compacting_ db) (bg_error_ db) (stats_ db).

Definition set_logfile_number db (x : Z) : DBImpl E T F :=
  mkDB (env_ db) (table_cache_ db) (shutting_down_ db) (mem_ db) (imm_ db) (log_ db) x (snapshots_ db) (pending_outputs_ db)
    (background_compaction_scheduled_ db) (background_calls_ db) (manual_compaction_ db) (versions_ db) (readers_ db) (compacting_ db) (bg_error_ db) (stats_ db).

Definition set_snapshots db (x : SnapshotList.SnapshotList) : DBImpl E T F :=
  mkDB (env_ db) (table_cache_ db) (shutting_down_ db) (mem_ db) (imm_ db) (log_ db) (logfile_number_ db) x (pending_outputs_ db)
    (background_compaction_scheduled_ db) (background_calls_ db) (manual_compaction_ db) (versions_ db) (readers_ db) (compacting_ db) (bg_error_ db) (stats_ db).

Definition set_pending_outputs db (x : gset Z) : DBImpl E T F :=
  mkDB (env_ db) (table_cache_ db) (shutting_down_ db) (mem_ db) (imm_ db) (log_ db) (logfile_number_ db) (snapshots_ db) x
    (background_compaction_scheduled_ db) (background_calls_ db) (manual_compaction_ db) (versions_ db) (readers_ db) (compacting_ db) (bg_error_ db) (stats_ db).

Definition set_background_compaction_scheduled db (x : bool) : DBImpl E T F :=
  mkDB (env_ db) (table_cache_ db) (shutting_down_ db) (mem_ db) (imm_ db) (log_ db) (logfile_number_ db) (snapshots_ db) (pending_outputs_ db)
    x (background_calls_ db) (manual_compaction_ db) (versions_ db) (readers_ db) (compacting_ db) (bg_error_ db) (stats_ db).

Definition set_background_calls db (x : nat) : DBImpl E T F :=
  mkDB (env_ db) (table_cache_ db) (shutting_down_ db) (mem_ db) (imm_ db) (log_ db) (logfile_number_ db) (snapshots_ db) (pending_outputs_ db)
    (background_compaction_scheduled_ db) x (manual_compaction_ db) (versions_ db) (readers_ db) (compacting_ db) (bg_error_ db) (stats_ db).

Definition set_manual_compaction db (x : option ManualCompaction) : DBImpl E T F :=
  mkDB (env_ db) (table_cache_ db) (shutting_down_ db) (mem_ db) (imm_ db) (log_ db) (logfile_number_ db) (snapshots_ db) (pending_outputs_ db)
    (background_compaction_scheduled_ db) (background_calls_ db) x (versions_ db) (readers_ db) (compacting_ db) (bg_error_ db) (stats_ db).

Definition set_versions db (x : VersionSet.VersionSet F) : DBImpl E T F :=
  mkDB (env_ db) (table_cache_ db) (shutting_down_ db) (mem_ db) (imm_ db) (log_ db) (logfile_number_ db) (snapshots_ db) (pending_outputs_ db)
    (background_compaction_scheduled_ db) (background_calls_ db) (manual_compaction_ db) x (readers_ db) (compacting_ db) (bg_error_ db) (stats_ db).

Definition set_readers db (x : list Version.Version) : DBImpl E T F :=
  mkDB (env_ db) (table_cache_ db) (shutting_down_ db) (mem_ db) (imm_ db) (log_ db) (logfile_number_ db) (snapshots_ db) (pending_outputs_ db)
    (background_compaction_scheduled_ db) (background_calls_ db) (manual_compaction_ db) (versions_ db) x (compacting_ db) (bg_error_ db) (stats_ db).

Definition set_compacting db (x : option Version.Version) : DBImpl E T F :=
  mkDB (env_ db) (table_cache_ db) (shutting_down_ db) (mem_ db) (imm_ db) (log_ db) (logfile_number_ db) (snapshots_ db) (pending_outputs_ db)
    (background_compaction_scheduled_ db) (background_calls_ db) (manual_compaction_ db) (versions_ db) (readers_ db) x (bg_error_ db) (stats_ db).

Definition set_bg_error db (x : Status.Status) : DBImpl E T F :=
  mkDB (env_ db) (table_cache_ db) (shutting_down_ db) (mem_ db) (imm_ db) (log_ db) (logfile_number_ db) (snapshots_ db) (pending_outputs_ db)
    (background_compaction_scheduled_ db) (background_calls_ db) (manual_compaction_ db) (versions_ db) (readers_ db) (compacting_ db) x (stats_ db).

Definition set_stats db (x : list CompactionStats) : DBImpl E T F :=
  mkDB (env_ db) (table_cache_ db) (shutting_down_ db) (mem_ db) (imm_ db) (log_ db) (logfile_number_ db) (snapshots_ db) (pending_outputs_ db)
    (background_compaction_scheduled_ db) (background_calls_ db) (manual_compaction_ db) (versions_ db) (readers_ db) (compacting_ db) (bg_error_ db) x.

End setters.

Section ops.
Context {E T D F : Type} `{EN : !Env E F, WF : !WritableFile F, SyF : !SyncFile F, TC : !TableCache T D, ITD : !Iterator D}.
Context `{C : !Comparator, PT : !Port} (options : Options) (dbname comparator_name : str) (max_file_size : Z).
Implicit Types (db : DBImpl E T F) (vs : VersionSet.VersionSet F) (v : Version.Version).

Definition RecordBackgroundError db (s : Status.Status) : DBImpl E T F :=
  if Status.ok (bg_error_ db) then set_bg_error db s else db.

(** [stats_[level].Add(stats)] *)
Definition add_stats db (level : Z) (s : CompactionStats) : result (DBImpl E T F) :=
  stats ← vec_update (stats_ db) level (fun old => Add old s); Ret (set_stats db stats).

(** *** RemoveObsoleteFiles *)

Definition version_files v : list FileMetaData := concat (Version.files_ v).

Definition live_versions db : list Version.Version :=
  VersionSet.current_ (versions_ db) :: readers_ db ++ option_list (compacting_ db).

Definition AddLiveFiles db (live : gset Z) : gset Z :=
  live ∪ list_to_set (map number (concat (map version_files (live_versions db)))).

(** [keep] of a file with its number and type *)
Definition keep_file vs (live : gset Z) (n : Z) (type : FileType) : bool :=
  match type with
  | kLogFile => (VersionSet.log_number_ vs <=? n) || (n =? VersionSet.prev_log_number_ vs)
  | kDescriptorFile => VersionSet.manifest_file_number_ vs <=? n
  | kTableFile | kTempFile => bool_decide (n ∈ live)
  | kCurrentFile | kDBLockFile | kInfoLogFile => true
  end.

(** The files to delete, and the table cache without their tables. *)
Fixpoint files_to_delete vs (live : gset Z) (tc : T) (filenames : list str) : list str * T :=
  match filenames with
  | [] => ([], tc)
  | name :: filenames =>
      match ParseFileName name with
      | Some (n, type) =>
          if keep_file vs live n type then files_to_delete vs live tc filenames
          else
            let tc := match type with kTableFile => tc_Evict tc n | _ => tc end in
            let '(names, tc) := files_to_delete vs live tc filenames in
            (name :: names, tc)
      | None => files_to_delete vs live tc filenames
      end
  end.

Definition remove_file (env : E) (name : str) : E := fst (env_RemoveFile env (dbname ++ $"/" ++ name)).

Definition RemoveObsoleteFiles db : DBImpl E T F :=
  if negb (Status.ok (bg_error_ db)) then db
  else
    let live := AddLiveFiles db (pending_outputs_ db) in
    let filenames := snd (env_GetChildren (env_ db) dbname) in
    let '(names, tc) := files_to_delete (versions_ db) live (table_cache_ db) filenames in
    set_env (set_table_cache db tc) (foldl remove_file (env_ db) names).

(** *** WriteLevel0Table *)

(** The database, [*edit] and the status. *)
Definition WriteLevel0Table (meanwhile : DBImpl E T F -> DBImpl E T F) db (mem : MemTable.MemTable) (edit : VersionEdit) (base : option Version.Version) :
    result (DBImpl E T F * VersionEdit * Status.Status) :=
  let '(env, start_micros) := env_NowMicros (env_ db) in
  let '(n, vs) := VersionSet.NewFileNumber (versions_ db) in
  let db := set_pending_outputs (set_versions (set_env db env) vs) ({[n]} ∪ pending_outputs_ db) in
  q ← BuildTable (C := C) options dbname (IT := MemTable.MemTableIterator_ops) (length (SkipList.nodes mem)) (env_ db) (table_cache_ db)
        (MemTable.NewIterator mem) (new_meta n 0 [] []);
  let '(env, tc, meta, s) := (q : E * T * FileMetaData * Status.Status) in
  let db := meanwhile (set_env (set_table_cache db tc) env) in
  let db := set_pending_outputs db (pending_outputs_ db ∖ {[n]}) in
  q ← (if Status.ok s && (0 <? file_size meta) then
         level ← (match base with
                  | Some v => Version.PickLevelForMemTableOutput max_file_size v (user_part (smallest meta)) (user_part (largest meta))
                  | None => Ret 0
                  end);
         Ret (level, AddFile level n (file_size meta) (smallest meta) (largest meta) edit)
       else Ret (0, edit));
  let '(level, edit) := (q : Z * VersionEdit) in
  let '(env, now) := env_NowMicros (env_ db) in
  db ← add_stats (set_env db env) level (mkStats (int64 (u64 (now - start_micros))) 0 (int64 (file_size meta)));
  Ret (db, edit, s).

(** [versions_->LogAndApply(edit, &mutex_)] *)
Definition log_and_apply db (edit : VersionEdit) : result (DBImpl E T F * Status.Status) :=
  q ← VersionSet.LogAndApply (C := C) comparator_name (versions_ db) (env_ db) edit;
  let '(vs, env, s) := (q : VersionSet.VersionSet F * E * Status.Status) in
  Ret (set_env (set_versions db vs) env, s).

Definition CompactMemTable (meanwhile : DBImpl E T F -> DBImpl E T F) db : result (DBImpl E T F) :=
  match imm_ db with
  | None => Crash AssertFailed
  | Some imm =>
      q ← WriteLevel0Table meanwhile db imm VersionEdit.Clear (Some (VersionSet.current_ (versions_ db)));
      let '(db, edit, s) := (q : DBImpl E T F * VersionEdit * Status.Status) in
      let s := if Status.ok s && shutting_down_ db then Status.IOError ($"Deleting DB during memtable compaction") [] else s in
      q ← (if Status.ok s then log_and_apply db (SetLogNumber (logfile_number_ db) (SetPrevLogNumber 0 edit)) else Ret (db, s));
      let '(db, s) := (q : DBImpl E T F * Status.Status) in
      if Status.ok s then Ret (RemoveObsoleteFiles (set_imm db None)) else Ret (RecordBackgroundError db s)
  end.

(** *** NewDB *)

Definition new_db_edit : VersionEdit :=
  VersionEdit.SetLastSequence 0 (SetNextFile 2 (SetLogNumber 0 (SetComparatorName comparator_name VersionEdit.Clear))).

Definition NewDB db : result (DBImpl E T F * Status.Status) :=
  manifest ← DescriptorFileName dbname 1;
  let '(env, s, file) := env_NewWritableFile (env_ db) manifest in
  match file, Status.ok s with
  | None, true => Crash NullDeref
  | _, false => Ret (set_env db env, s)
  | Some file, true =>
      record ← VersionEdit.EncodeTo new_db_edit [];
      q ← Writer.AddRecord (Writer.make file) record;
      let '(log, s) := (q : Writer.Writer F * Status.Status) in
      let '(env, s) := close_file env (Writer.dest_ log) s in
      q ← (if Status.ok s then SetCurrentFile env dbname 1 else Ret (fst (env_RemoveFile env manifest), s));
      let '(env, s) := (q : E * Status.Status) in
      Ret (set_env db env, s)
  end.

End ops.
End DBState.
