(* ===== verification/BuildTableSpec.v ===== *)
(** * Tables written from an iterator

    [BuildTable] writes exactly the entries of the iterator, and [WriteLevel0Table]
    turns a memtable into a table of its updates. *)

From Stdlib Require Import ZArith Lia.
From S2P Require Import Prelude CString World Coding SliceStatus FilterPolicy Logging DbFormat LogFile Iterators TwoLevelIterator Merger TableFormat TableBuilder TableSpec TableRead.
From S2P Require Import SkipList SkipListSpec DbTable MemTable DbIter DbWrite VersionEdit Version VersionSpec DbRead DbReadSpec VersionSet BuildTable DbState.

(** What an environment promises for the files that are written one after the other:
    a new file is empty, and has the data that were appended once it is closed; a file
    that is removed is gone; other files are left alone. *)
Class TableFiles {E : Type} (EN : Env E str) := {
  env_writes : E -> str -> Prop;
  env_data : E -> str -> option str;
  new_file e name : exists e', env_NewWritableFile e name = (e', Status.OK, Some []) /\ env_writes e' name /\
    forall n, n <> name -> env_data e' n = env_data e n;
  close_new e name data : env_writes e name -> exists e', env_Close e data = (e', Status.OK) /\ env_data e' name = Some data /\
    forall n, n <> name -> env_data e' n = env_data e n;
  now_data e n : env_data (fst (env_NowMicros e)) n = env_data e n;
  remove_data e name n : env_data (fst (env_RemoveFile e name)) n = if decide (n = name) then None else env_data e n
}.

(** The tables that are written can be opened. *)
Class TableCacheOpens {T D : Type} (TC : TableCache T D) {ITD : Iterator D} := {
  tc_opens t n size : exists (it : EmptyIterator.EmptyIterator + D) t', tc_NewIterator t n size = Ret (it, t') /\ it_status it = Status.OK
}.

Lemma sublist_sorted {A} (R : A -> A -> Prop) l l' : sublist l' l -> StronglySorted R l -> StronglySorted R l'.
Proof.
  induction 1 as [|x l1 l2 Hsub IH|x l1 l2 Hsub IH]; [done| |]; intros [Hs Hf]%StronglySorted_inv; [|by apply IH]. constructor; [by apply IH|].
  rewrite Forall_forall in *. intros y Hy. apply Hf. by eapply elem_of_sublist.
Qed.

(** The number of a table file is in its name. *)
Lemma table_file_name dbname n : 0 < n <= kMaxUint64 -> exists b, TableFileName dbname n = Ret (dbname ++ $"/" ++ b) /\ ParseFileName b = Some (n, kTableFile).
Proof.
  intros Hn. unfold TableFileName, MakeFileName. rewrite assert_positive_ok by lia. eexists (dec06 n ++ _). split; [reflexivity|].
  by rewrite ParseFileName_numbered by (lia || apply not_digit_dot).
Qed.

Lemma table_file_name_inj dbname n m name : 0 < n <= kMaxUint64 -> 0 < m <= kMaxUint64 ->
  TableFileName dbname n = Ret name -> TableFileName dbname m = Ret name -> n = m.
Proof.
  intros Hn Hm H1 H2. destruct (table_file_name dbname n Hn) as (b & E1 & P1), (table_file_name dbname m Hm) as (b' & E2 & P2). rewrite E1 in H1. rewrite E2 in H2.
  injection H1 as <-. injection H2 as E%app_inv_head. injection E as ->. rewrite P2 in P1. by injection P1 as ->.
Qed.

(** ** Filling a builder *)

Section filling.
Context {C : Comparator} {HC : ComparatorLaws C} {SH : ShorteningLaws C} {PT : Port} {PL : PortLaws PT} (opt : Options).
Implicit Types (es : list entry) (r : TableBuilder.Rep str).

Lemma buildable_keys es : buildable opt es -> 0 <= policy_keys opt.
Proof. intros [_ _ _ _ _ H _]. lia. Qed.

Lemma buildable_make es : buildable opt es -> exists r, TableBuilder.make opt ([] : str) = Ret r /\ filled opt r [].
Proof. intros Hb. pose proof (buildable_keys es Hb). destruct Hb. by apply filled_make. Qed.

Lemma table_room_app es es' : table_room es <= table_room (es ++ es').
Proof.
  induction es as [|[k v] es IH]; cbn [app table_room foldr]; [apply table_room_ge|]. fold (table_room es) (table_room (es ++ es')). lia.
Qed.

(** One more entry of a list that a table can be built from. *)
Lemma buildable_add r es k v rest : filled opt r es -> buildable opt (es ++ (k, v) :: rest) ->
  TableBuilder.NumEntries r = Z.of_nat (length es) /\
  exists r', TableBuilder.Add r k v = Ret r' /\ filled opt r' (es ++ [(k, v)]).
Proof.
  intros Hf [Hi Hp Hn Hs Hr Hk _]. rewrite (cons_middle (k, v)), app_assoc in Hs, Hr, Hk. pose proof (table_room_app (es ++ [(k, v)]) rest). rewrite length_app in Hk.
  apply StronglySorted_app_1_l in Hs. split.
  - pose proof (table_room_app es [(k, v)]). rewrite length_app in Hk. apply StronglySorted_app_1_l in Hs. eapply (filled_num opt Hi Hp Hn); [exact Hf|exact Hs|lia|cbn [length] in Hk; lia].
  - apply (filled_add opt Hi Hp Hn); [done|done|lia|lia].
Qed.

Lemma buildable_finish r es : filled opt r es -> buildable opt es ->
  TableBuilder.NumEntries r = Z.of_nat (length es) /\
  exists r', TableBuilder.Finish r = Ret (r', Status.OK) /\ build_table opt es = Ret (TableBuilder.file r', Status.OK) /\
    TableBuilder.FileSize r' = str_size (TableBuilder.file r') /\ TableBuilder.destroy r' = Ret tt /\ 0 < str_size (TableBuilder.file r').
Proof.
  intros Hf [Hi Hp Hn Hs Hr Hk Hfits]. split; [by apply (filled_num opt Hi Hp Hn)|].
  destruct (filled_finish opt Hi Hp Hn r es Hf Hs Hr Hk Hfits) as (r' & Hfin & Hb & Hsz & Hc). exists r'. split; [done|]. split; [done|]. split; [done|].
  split; [unfold TableBuilder.destroy; by rewrite Hc|].
  destruct (build_table_layout opt Hi Hp Hn es Hs Hr Hk Hfits) as (data & bs & seps & fc & mb & ib & Hb' & L & _). rewrite Hb in Hb'. injection Hb' as ->.
  rewrite (tl_data _ _ _ _ _ _ L), !str_size_app. unfold str_size at 5. rewrite enc_footer_length.
  pose proof (str_size_nonneg (images bs)). pose proof (str_size_nonneg (filter_image fc)). pose proof (str_size_nonneg (images [mb])). pose proof (str_size_nonneg (images [ib])). lia.
Qed.

(** Sublists of the entries can be built, if their filters fit. *)
Lemma buildable_sublist es es' : buildable opt es -> sublist es' es -> filter_fits opt es' = true -> buildable opt es'.
Proof.
  intros [Hi Hp Hn Hs Hr Hk _] Hsub Hfits. split; try done.
  - by eapply sublist_sorted.
  - assert (table_room es' <= table_room es); [|lia]. clear - Hsub. induction Hsub as [|[k v] l l' _ IH|[k v] l l' _ IH]; cbn [table_room foldr]; [done|fold (table_room l) (table_room l'); lia|].
    fold (table_room l) (table_room l'). unfold entry_cost. cbn [fst snd]. pose proof (str_size_nonneg k). pose proof (str_size_nonneg v). lia.
  - apply sublist_length in Hsub. lia.
Qed.
End filling.

(** ** BuildTable *)

Section build.
Context {E T D : Type} {EN : Env E str} {TF : TableFiles EN} {TC : TableCache T D} {ITD : Iterator D} {TO : TableCacheOpens TC}.
Context (C : Comparator) {HC : ComparatorLaws C} {PT : Port} {PL : PortLaws PT} (options : Options) (dbname : str) (max_file_size : Z).
Implicit Types (es : list entry).

Lemma close_ok (e : E) name data : env_writes e name -> exists e', close_file e data Status.OK = (e', Status.OK) /\ env_data e' name = Some data /\
  forall n, n <> name -> env_data e' n = env_data e n.
Proof. intros H. unfold close_file. cbn [Status.ok wf_Sync mem_sync]. by apply close_new. Qed.

Lemma verify_ok (t : T) n size : exists t', verify_table t n size = Ret (t', Status.OK).
Proof. unfold verify_table. destruct (tc_opens t n size) as (it & t' & -> & Hs). cbn [mbind result_bind]. exists t'. by rewrite Hs. Qed.

Lemma build_entries_ok {I} {IT : Iterator I} {IL : IteratorLaws IT} fuel : forall es i (it : I) r key,
  it_at it es i -> (length es - i <= fuel)%nat -> buildable (C := internal_comparator C) options es -> filled (C := internal_comparator C) options r (take i es) ->
  key = last_of (take i es) ->
  exists r' it', build_entries (C := C) fuel r key it = Ret (r', last_of es, it') /\ filled (C := internal_comparator C) options r' es /\ it_at it' es (length es).
Proof.
  induction fuel as [|fuel IH]; intros es i it r key Hat Hfuel Hb Hf Hkey; pose proof (at_le _ _ _ Hat) as Hle; cbn [build_entries]; rewrite (at_valid _ _ _ Hat).
  - destruct (Nat.ltb_spec i (length es)); [lia|]. assert (i = length es) as -> by lia. rewrite firstn_all in *. subst. by exists r, it.
  - destruct (Nat.ltb_spec i (length es)) as [Hlt|]; [|assert (i = length es) as -> by lia; rewrite firstn_all in *; subst; by exists r, it].
    destruct (lookup_lt_is_Some_2 es i Hlt) as [[k v] He]. destruct (at_entry _ _ _ _ _ Hat He) as [-> ->]. cbn [mbind result_bind].
    assert (es = take i es ++ (k, v) :: drop (S i) es) as Es by (by rewrite <- (drop_S _ _ _ He), take_drop). rewrite Es in Hb at 1.
    destruct (buildable_add options r _ k v _ Hf Hb) as (_ & r1 & -> & Hf1). rewrite <- Es in Hb. cbn [mbind result_bind].
    destruct (at_next _ _ _ Hat Hlt) as (it1 & -> & Hat1). cbn [mbind result_bind]. rewrite <- (take_S_r _ _ _ He) in Hf1.
    apply (IH es (S i)); try done; [lia|]. by rewrite (take_S_r _ _ _ He), last_of_snoc.
Qed.

(** The table of the entries of an iterator. *)
Lemma BuildTable_ok {I} {IT : Iterator I} {IL : IteratorLaws IT} fuel es i (it : I) (e : E) (t : T) n name k v :
  it_at it es i -> es <> [] -> (length es <= fuel)%nat -> buildable (C := internal_comparator C) options es ->
  Forall (fun x => fst x <> []) es -> TableFileName dbname n = Ret name -> head es = Some (k, v) ->
  exists e' t' data, BuildTable (C := C) options dbname fuel e t it (new_meta n 0 [] []) =
      Ret (e', t', new_meta n (str_size data) k (last_of es), Status.OK) /\
    build_table (C := internal_comparator C) options es = Ret (data, Status.OK) /\ 0 < str_size data /\
    env_data e' name = Some data /\ (forall m, m <> name -> env_data e' m = env_data e m).
Proof.
  intros Hat Hne Hfuel Hb Hkeys Hname Hhead. unfold BuildTable. destruct (at_first _ _ _ Hat) as (it0 & -> & Hat0). cbn [mbind result_bind VersionEdit.number new_meta]. rewrite Hname.
  cbn [mbind result_bind]. rewrite (at_valid _ _ _ Hat0). destruct (Nat.ltb_spec 0 (length es)); [|destruct es; cbn in *; [done|lia]].
  destruct (new_file e name) as (e1 & -> & Hw & Hd1). change (Status.ok Status.OK) with true. cbv iota. destruct (buildable_make options es Hb) as (r0 & -> & Hf0). cbn [mbind result_bind].
  rewrite head_lookup in Hhead. destruct (at_entry _ _ _ _ _ Hat0 Hhead) as [-> _]. cbn [mbind result_bind].
  destruct (build_entries_ok fuel es 0 it0 r0 [] Hat0 ltac:(lia) Hb Hf0 eq_refl) as (r1 & it1 & -> & Hf1 & Hat1). cbn [mbind result_bind].
  destruct (buildable_finish options r1 es Hf1 Hb) as (_ & r2 & -> & Hbt & Hsz & Hdes & Hpos). cbn [mbind result_bind]. change (Status.ok Status.OK) with true. cbv iota. rewrite Hsz.
  destruct (Z.leb_spec (str_size (TableBuilder.file r2)) 0); [lia|]. cbn [andb]. rewrite Hdes. cbn [mbind result_bind].
  destruct (close_ok e1 name (TableBuilder.file r2) Hw) as (e2 & -> & Hdata & Hd2). change (Status.ok Status.OK) with true. cbv iota.
  destruct (verify_ok t n (str_size (TableBuilder.file r2))) as (t' & ->). cbn [mbind result_bind]. rewrite (at_status _ _ _ Hat1). change (Status.ok Status.OK) with true. cbn [VersionEdit.file_size andb].
  destruct (Z.ltb_spec 0 (str_size (TableBuilder.file r2))); [|lia]. exists e2, t', (TableBuilder.file r2). split; [|split_and!; try done].
  - unfold new_meta. repeat f_equal. destruct Hb as [Hi Hp Hn _ _ _ _]. destruct (last_of_elem options Hi Hp Hn es Hne) as [w Hw']. rewrite Forall_forall in Hkeys. specialize (Hkeys _ Hw'). cbn in Hkeys.
    by destruct (last_of es).
  - intros m Hm. by rewrite Hd2, Hd1.
Qed.
End build.

(** ** Witness: a disk *)

(** Files in memory, and the one that is being written. *)
Record Disk := mkDisk { disk_files : list (str * str); disk_open : str }.

Definition disk_data (e : Disk) (name : str) : option str := snd <$> List.find (fun p => bool_decide (fst p = name)) (disk_files e).
Definition disk_without (e : Disk) (name : str) : list (str * str) := List.filter (fun p => negb (bool_decide (fst p = name))) (disk_files e).

#[export] Instance disk_env : Env Disk str := {
  env_NewWritableFile e name := (mkDisk ((name, []) :: disk_files e) name, Status.OK, Some []);
  env_NewAppendableFile e name := (mkDisk (disk_files e) name, Status.OK, Some (default [] (disk_data e name)));
  env_Close e data := (mkDisk ((disk_open e, data) :: disk_files e) (disk_open e), Status.OK);
  env_NewSequentialFile e name := match disk_data e name with Some data => (Status.OK, Some data) | None => (Status.NotFound name [], None) end;
  env_GetFileSize e name := match disk_data e name with Some data => (Status.OK, str_size data) | None => (Status.NotFound name [], 0) end;
  env_RenameFile e name name' :=
    match disk_data e name with
    | Some data => (mkDisk ((name', data) :: disk_without e name) (disk_open e), Status.OK)
    | None => (e, Status.NotFound name [])
    end;
  env_RemoveFile e name := (mkDisk (disk_without e name) (disk_open e), Status.OK);
  env_GetChildren e dir := (Status.OK, map (fun p => drop (length dir + 1) (fst p)) (List.filter (fun p => starts_with (fst p) (dir ++ $"/")) (disk_files e)));
  env_FileExists e name := bool_decide (is_Some (disk_data e name));
  env_CreateDir e _ := (e, Status.OK);
  env_RemoveDir e _ := (e, Status.OK);
  env_LockFile e _ := (e, Status.OK);
  env_UnlockFile e _ := (e, Status.OK);
  env_NowMicros e := (e, 0)
}.

Lemma disk_data_other files o o' name name' data : name' <> name -> disk_data (mkDisk ((name, data) :: files) o) name' = disk_data (mkDisk files o') name'.
Proof. intros H. unfold disk_data. cbn. by rewrite bool_decide_eq_false_2 by congruence. Qed.

#[export] Program Instance disk_table_files : TableFiles disk_env := { env_writes e name := disk_open e = name; env_data := disk_data }.
Next Obligation. intros e name. eexists. split; [done|]. split; [done|]. intros n Hn. destruct e as [files o]. exact (disk_data_other files name o name n [] Hn). Qed.
Next Obligation.
  intros e name data <-. eexists. split; [done|]. unfold disk_data at 1. cbn. rewrite bool_decide_eq_true_2 by done. split; [done|].
  intros n Hn. destruct e as [files o]. exact (disk_data_other files o o o n data Hn).
Qed.
Next Obligation. done. Qed.
Next Obligation.
  intros [files o] name n. cbn [fst env_RemoveFile disk_env]. unfold disk_data, disk_without. cbn [disk_files]. induction files as [|[x data] files IH]; cbn [List.filter List.find fst]; [by destruct (decide _)|].
  destruct (bool_decide_reflect (x = name)) as [->|Hx]; cbn [negb List.find fst]; [rewrite IH; destruct (decide (n = name)) as [->|]; [done|]; by rewrite bool_decide_eq_false_2 by done|].
  destruct (bool_decide_reflect (x = n)) as [->|]; [by destruct (decide (n = name))|exact IH].
Qed.

#[export] Instance memory_tables_open : TableCacheOpens memory_tables.
Proof. split. intros t n size. by eexists _, t. Qed.

(** Blocks of an entry or two, and no filter. *)
Definition small_blocks : Options := mkOptions true 40 2 kSnappyCompression None.
