(* ===== verification/FlushSpec.v ===== *)
(** * Flushing a memtable

    [WriteLevel0Table] writes a table of exactly the updates of the memtable, and the
    version its edit leads to is well formed and holds them besides the old ones. *)

From Stdlib Require Import ZArith Lia Permutation SpecFloat.
From S2P Require Import Prelude CString World Coding SliceStatus FilterPolicy Logging DbFormat LogFile Iterators TwoLevelIterator Merger TableFormat TableBuilder TableSpec TableRead.
From S2P Require Import SkipList SkipListSpec DbTable MemTable DbIter DbWrite VersionEdit Version VersionSpec OverlapSpec DbRead DbReadSpec VersionSet VersionSetSpec BuildTable DbState BuildTableSpec.

(** ** Levels of disjoint files *)

Section levels.
Context {T D : Type} (C : Comparator) {HC : ComparatorLaws C} {TC : TableCache T D} {TL : TableCacheLaws C TC}.
Context (contents : Z -> list update).
Implicit Types (f g : FileMetaData) (fs : list FileMetaData) (a b : update).

Abbreviation ilt x y := (Compare (Comparator := internal_comparator C) x y = Lt).

(** The keys of [g] come behind those of [f]. *)
Definition follows f g : Prop := ilt (largest f) (smallest g).

Lemma file_bounds tc f a : file_ok C contents tc f -> a ∈ contents (number f) ->
  Compare (Comparator := internal_comparator C) (smallest f) (fst (update_entry a)) <> Gt /\ Compare (Comparator := internal_comparator C) (fst (update_entry a)) (largest f) <> Gt.
Proof.
  intros [[_ Hs] _ (a0 & Hh & ->) (a1 & Hl & ->) _] Ha. apply list_elem_of_lookup in Ha as [i Hi]. rewrite head_lookup in Hh. rewrite last_lookup in Hl.
  assert (forall j k x y, (j <= k)%nat -> contents (number f) !! j = Some x -> contents (number f) !! k = Some y ->
    Compare (Comparator := internal_comparator C) (fst (update_entry x)) (fst (update_entry y)) <> Gt) as H.
  { intros j k x y Hjk Hx Hy. destruct (decide (j = k)) as [->|]; [rewrite Hx in Hy; injection Hy as ->; by rewrite (cmp_refl (C := internal_comparator C))|].
    rewrite (sorted_lt (C := internal_comparator C) (map update_entry (contents (number f))) j k (update_entry x) (update_entry y));
      [done|done|by rewrite list_lookup_fmap, Hx|by rewrite list_lookup_fmap, Hy|lia]. }
  pose proof (lookup_lt_Some _ _ _ Hi). split; [apply (H 0%nat i)|apply (H i (pred (length (contents (number f)))))]; done || lia.
Qed.

Lemma ilt_le_l x y z : Compare (Comparator := internal_comparator C) x y <> Gt -> ilt y z -> ilt x z.
Proof.
  intros H1 H2. destruct (Compare (Comparator := internal_comparator C) x y) eqn:E; [by rewrite (cmp_eq_l (C := internal_comparator C) _ _ _ E)|by apply (cmp_trans (C := internal_comparator C) _ _ _ E)|done].
Qed.

Lemma ilt_le_r x y z : ilt x y -> Compare (Comparator := internal_comparator C) y z <> Gt -> ilt x z.
Proof.
  intros H1 H2. destruct (Compare (Comparator := internal_comparator C) y z) eqn:E; [by rewrite <- (cmp_eq_r (C := internal_comparator C) _ _ _ E)|by apply (cmp_trans (C := internal_comparator C) _ _ _ H1)|done].
Qed.

(** A level is in order when each file follows the ones before it. *)
Lemma level_follows tc fs : Forall (file_ok C contents tc) fs -> ordered C (level_updates contents fs) <-> StronglySorted follows fs.
Proof.
  induction 1 as [|f fs Hf Hfs IH]; [split; [constructor|split; constructor]|]. unfold level_updates. cbn [map concat]. fold (level_updates contents fs). split.
  - intros Ho. destruct (ordered_app _ _ _ Ho) as [_ Ho2]. constructor; [by apply IH|]. apply Forall_forall. intros g Hg. rewrite Forall_forall in Hfs.
    destruct (fo_last _ _ _ _ Hf) as (a & Ha & Ea). destruct (fo_first _ _ _ _ (Hfs g Hg)) as (b & Hb & Eb). unfold follows. rewrite Ea, Eb.
    apply (ordered_app_lt C _ _ _ _ Ho); [by apply last_elem|]. apply elem_level_updates. exists g. split; [done|]. rewrite head_lookup in Hb. by eapply list_elem_of_lookup_2.
  - intros [Hs Hfol]%StronglySorted_inv. apply IH in Hs as [Hok Hs]. destruct (fo_ordered _ _ _ _ Hf) as [Hokf Hsf]. split; [by apply Forall_app|].
    rewrite map_app. apply StronglySorted_app. split; [|done]. intros x y (a & -> & Ha)%list_elem_of_fmap (b & -> & Hb)%list_elem_of_fmap.
    apply elem_level_updates in Hb as (g & Hg & Hb). rewrite Forall_forall in Hfol, Hfs. specialize (Hfol g Hg).
    eapply ilt_le_l; [apply (file_bounds tc f a Hf Ha)|]. eapply ilt_le_r; [exact Hfol|]. apply (file_bounds tc g b (Hfs g Hg) Hb).
Qed.

Lemma follows_no_overlap fs : StronglySorted follows fs -> Builder.no_overlap (C := C) fs = true.
Proof.
  induction 1 as [|f fs Hs IH Hf]; [done|]. cbn [Builder.no_overlap]. destruct fs as [|g fs]; [done|]. apply Forall_cons_1 in Hf as [Hf _]. unfold icompare. by rewrite Hf.
Qed.

Lemma file_key_range tc f : file_ok C contents tc f -> Compare (Comparator := internal_comparator C) (smallest f) (largest f) <> Gt.
Proof.
  intros Hf. pose proof Hf as [_ _ (a & Ha & Ea) _ _]. rewrite head_lookup in Ha. apply list_elem_of_lookup_2 in Ha. rewrite Ea. apply (file_bounds tc f a Hf Ha).
Qed.

Lemma follows_sorted tc fs : Forall (file_ok C contents tc) fs -> StronglySorted follows fs -> file_sorted C fs.
Proof.
  induction 1 as [|f fs Hf Hfs IH]; [constructor|]. intros [Hs Hfol]%StronglySorted_inv. constructor; [by apply IH|]. eapply Forall_impl; [exact Hfol|]. intros g Hg.
  unfold before, Builder.BySmallestKey, icompare. by rewrite (ilt_le_l _ _ _ (file_key_range tc f Hf) Hg).
Qed.

(** User keys decide. *)
Lemma follows_keys tc f g : file_ok C contents tc f -> file_ok C contents tc g -> Compare (limit f) (start g) = Lt -> follows f g.
Proof.
  intros [Hof _ _ (a & Ha & Ea) _] [Hog _ (b & Hb & Eb) _ _]. rewrite last_lookup in Ha. rewrite head_lookup in Hb. pose proof (ok_at C _ Hof _ _ Ha) as Hoa. pose proof (ok_at C _ Hog _ _ Hb) as Hob.
  unfold limit, start, follows. rewrite Ea, Eb, (user_part_update a), (user_part_update b) by done. destruct b as [[[s t] k] v]. intros H. cbn [update_entry fst].
  rewrite entry_compare by (done || apply Hob). unfold ikey_order. cbn in H. by rewrite H.
Qed.

Lemma before_starts tc f g : file_ok C contents tc f -> file_ok C contents tc g -> before C f g -> Compare (start f) (start g) <> Gt.
Proof.
  intros [Hof _ (a & Ha & Ea) _ _] [Hog _ (b & Hb & Eb) _ _] Hbef. rewrite head_lookup in Ha, Hb. pose proof (ok_at C _ Hof _ _ Ha) as Hoa. pose proof (ok_at C _ Hog _ _ Hb) as Hob.
  unfold start. rewrite Ea, Eb, (user_part_update a), (user_part_update b) by done. unfold before, Builder.BySmallestKey, icompare in Hbef. rewrite Ea, Eb in Hbef.
  destruct b as [[[s t] k] v]. cbn [update_entry fst] in Hbef. rewrite entry_compare in Hbef by (done || apply Hob). unfold ikey_order in Hbef. cbn [update_key].
  by destruct (Compare (update_key a) k).
Qed.

Lemma start_le_limit tc f : file_ok C contents tc f -> Compare (start f) (limit f) <> Gt.
Proof.
  intros Hf. pose proof Hf as [_ _ (a & Ha & _) _ _]. rewrite head_lookup in Ha. apply list_elem_of_lookup_2 in Ha. destruct (key_in_file C contents tc f a Hf Ha) as [H1 H2].
  by eapply cmp_le_trans.
Qed.
End levels.

(** ** A version with one more file *)

Definition with_file (contents : Z -> list update) (n : Z) (us : list update) : Z -> list update := fun m => if m =? n then us else contents m.

Section put.
Context {T D : Type} (C : Comparator) {HC : ComparatorLaws C} {TC : TableCache T D} {TL : TableCacheLaws C TC}.
Context (contents : Z -> list update) (tc tc' : T) (v : Version.Version) (f : FileMetaData) (us : list update) (l : nat) (fs l1 r1 : list FileMetaData).
Implicit Types (g : FileMetaData) (gs : list FileMetaData) (a b : update).

Abbreviation contents' := (with_file contents (number f) us).

Hypothesis Hv : version_ok C contents tc v.
Hypothesis Hmono : forall g, file_ok C contents tc g -> file_ok C contents tc' g.
Hypothesis Hf : file_ok C contents' tc' f.
Hypothesis Hfresh : forall g, g ∈ concat (Version.files_ v) -> number g < number f.
Hypothesis Hlev : Version.files_ v !! l = Some fs.
Hypothesis Hsplit : Builder.smaller_files (C := C) f fs = (l1, r1).
Hypothesis Hnew : newer C us (version_updates contents v).
Hypothesis Hroom : Z.of_nat (length fs) + 1 < 2 ^ 31.
Hypothesis Hapart : (0 < l)%nat -> forall i gs, (i <= l)%nat -> Version.files_ v !! i = Some gs -> apart C (start f) (limit f) gs.

Lemma smaller_files_app base : forall x y, Builder.smaller_files (C := C) f base = (x, y) -> base = x ++ y.
Proof.
  induction base as [|g base IH]; intros x y; cbn [Builder.smaller_files]; [by intros [= <- <-]|]. destruct (Builder.BySmallestKey f g); [by intros [= <- <-]|].
  destruct (Builder.smaller_files f base) as [x' y']. intros [= <- <-]. by rewrite (IH x' y').
Qed.

Lemma fs_split : fs = l1 ++ r1.
Proof. by apply smaller_files_app. Qed.

Definition new_files : list (list FileMetaData) := <[l := l1 ++ f :: r1]> (Version.files_ v).

Lemma level_elem i gs g : Version.files_ v !! i = Some gs -> g ∈ gs -> g ∈ concat (Version.files_ v).
Proof. intros Hi Hg. apply list_elem_of_In, in_concat. exists gs. rewrite <- !list_elem_of_In. split; [by eapply list_elem_of_lookup_2|done]. Qed.

Lemma old_contents g : g ∈ concat (Version.files_ v) -> contents' (number g) = contents (number g).
Proof. intros Hg. unfold with_file. destruct (Z.eqb_spec (number g) (number f)); [|done]. specialize (Hfresh g Hg). lia. Qed.

Lemma new_contents : contents' (number f) = us.
Proof. unfold with_file. by rewrite Z.eqb_refl. Qed.

Lemma old_updates gs : (forall g, g ∈ gs -> g ∈ concat (Version.files_ v)) -> level_updates contents' gs = level_updates contents gs.
Proof. intros H. unfold level_updates. f_equal. apply map_ext_in. intros g Hg. apply old_contents, H. by apply list_elem_of_In. Qed.

Lemma old_file_ok g : g ∈ concat (Version.files_ v) -> file_ok C contents' tc' g.
Proof.
  intros Hg. pose proof (vo_files _ _ _ _ Hv) as Hfs. rewrite Forall_forall in Hfs. destruct (Hmono g (Hfs g Hg)) as [H1 H2 H3 H4 H5]. pose proof (old_contents g Hg) as E.
  split; rewrite ?E; done.
Qed.

(** The new version's levels are the old ones but for one. *)
Lemma new_lookup i gs : new_files !! i = Some gs -> (i = l /\ gs = l1 ++ f :: r1) \/ (i <> l /\ Version.files_ v !! i = Some gs).
Proof.
  unfold new_files. intros H. destruct (decide (i = l)) as [->|Hne]; [|right; by rewrite list_lookup_insert_ne in H by done]. left. split; [done|].
  rewrite list_lookup_insert_eq in H; [by injection H as <-|]. by apply lookup_lt_Some in Hlev.
Qed.

(** What a level of the new version holds. *)
Lemma new_level_updates i gs b : new_files !! i = Some gs -> b ∈ level_updates contents' gs ->
  (i = l /\ b ∈ us) \/ exists gs', Version.files_ v !! i = Some gs' /\ b ∈ level_updates contents gs'.
Proof.
  intros Hi Hb. destruct (new_lookup i gs Hi) as [[-> ->]|[Hne Hi']].
  - apply elem_level_updates in Hb as (g & Hg & Hb). apply elem_of_app in Hg as [Hg|[->|Hg]%elem_of_cons]; [right|left|right].
    2: { split; [done|]. by rewrite new_contents in Hb. }
    all: exists fs; split; [done|]; apply elem_level_updates; exists g; assert (g ∈ fs) as Hin by (rewrite fs_split; apply elem_of_app; auto);
      rewrite old_contents in Hb by (by eapply level_elem); done.
  - right. exists gs. split; [done|]. rewrite old_updates in Hb; [done|]. intros g. by eapply level_elem.
Qed.

Lemma level_in_version i gs b : Version.files_ v !! i = Some gs -> b ∈ level_updates contents gs -> b ∈ version_updates contents v.
Proof. intros Hi (g & Hg & Hb)%elem_level_updates. apply elem_level_updates. exists g. split; [by eapply level_elem|done]. Qed.

(** Keys of the new file and of the levels down to its own never meet. *)
Lemma apart_new i gs a b : (0 < l)%nat -> (i <= l)%nat -> Version.files_ v !! i = Some gs -> a ∈ level_updates contents gs -> b ∈ us -> Compare (update_key a) (update_key b) <> Eq.
Proof.
  intros Hl Hi Hgs Ha Hb E. assert (Forall (file_ok C contents tc) gs) as Hok.
  { pose proof (vo_files _ _ _ _ Hv) as H. rewrite Forall_concat, Forall_lookup in H. by eapply H. }
  rewrite <- new_contents in Hb. destruct (key_in_file C contents' tc' f b Hf Hb) as [H1 H2].
  destruct (apart_updates C contents tc _ _ gs a Hok (Hapart Hl i gs Hi Hgs) Ha) as [H|H].
  - rewrite (cmp_eq_l _ _ _ E) in H. rewrite cmp_antisym, H in H1. done.
  - rewrite (cmp_eq_r _ _ _ E) in H. rewrite cmp_antisym, H in H2. done.
Qed.

(** The level with the new file is in order. *)
Lemma new_level_follows : (0 < l)%nat -> StronglySorted (follows C) (l1 ++ f :: r1).
Proof.
  intros Hl. destruct (vo_sorted _ _ _ _ Hv (pred l) fs) as [Ho _]; [by rewrite (Nat.lt_succ_pred 0 l Hl)|].
  assert (Forall (file_ok C contents' tc') fs) as Hok' by (apply Forall_forall; intros g Hg; by eapply old_file_ok, level_elem).
  assert (Forall (file_ok C contents tc) fs) as Hok by (pose proof (vo_files _ _ _ _ Hv) as H; rewrite Forall_concat, Forall_lookup in H; by eapply H).
  apply (level_follows C contents tc fs Hok) in Ho.
  pose proof (follows_sorted C contents tc fs Hok Ho) as Hsorted.
  destruct (smaller_files_ok C f fs l1 r1 Hsorted Hsplit) as (_ & Hb & Ha).
  { intros (g & E & Hg)%list_elem_of_fmap. pose proof (Hfresh g (level_elem _ _ _ Hlev Hg)). lia. }
  pose proof (Hapart Hl l fs ltac:(lia) Hlev) as Hap. rewrite fs_split in Ho, Hok', Hap. apply StronglySorted_app in Ho as (H12 & H1 & H2).
  rewrite Forall_forall in Hb, Ha, Hok'. apply StronglySorted_app.
  assert (forall g, g ∈ l1 -> follows C g f) as Hbefore.
  { intros g Hg. assert (g ∈ l1 ++ r1) as Hin by (apply elem_of_app; by left). apply (follows_keys C contents' tc'); [by apply Hok'|done|].
    destruct (Hap g Hin) as [H|H]; [done|exfalso]. pose proof (before_starts C contents' tc' g f (Hok' g Hin) Hf (Hb g Hg)) as H3.
    pose proof (start_le_limit C contents' tc' f Hf) as H4. pose proof (cmp_le_trans C _ _ _ H3 H4) as H5. rewrite cmp_antisym, H in H5. done. }
  assert (forall g, g ∈ r1 -> follows C f g) as Hafter.
  { intros g Hg. assert (g ∈ l1 ++ r1) as Hin by (apply elem_of_app; by right). apply (follows_keys C contents' tc'); [done|by apply Hok'|].
    destruct (Hap g Hin) as [H|H]; [exfalso|done]. pose proof (before_starts C contents' tc' f g Hf (Hok' g Hin) (Ha g Hg)) as H3.
    pose proof (start_le_limit C contents' tc' g (Hok' g Hin)) as H4. pose proof (cmp_le_trans C _ _ _ H3 H4) as H5. rewrite cmp_antisym, H in H5. done. }
  split; [|split; [done|]].
  - intros g h Hg [->|Hh]%elem_of_cons; [by apply Hbefore|]. by apply H12.
  - constructor; [done|]. by apply Forall_forall.
Qed.

Lemma new_files_perm : concat new_files ≡ₚ f :: concat (Version.files_ v).
Proof.
  unfold new_files. pose proof (lookup_lt_Some _ _ _ Hlev). rewrite insert_take_drop by done. rewrite <- (take_drop_middle _ _ _ Hlev) at 3. rewrite !concat_app. cbn [concat].
  rewrite fs_split. solve_Permutation.
Qed.

Lemma new_updates_perm : level_updates contents' (concat new_files) ≡ₚ us ++ version_updates contents v.
Proof.
  unfold version_updates. rewrite <- (old_updates (concat (Version.files_ v))) by done. unfold level_updates. rewrite new_files_perm. cbn [map concat]. by rewrite new_contents.
Qed.

Hypothesis Hdist : ForallOrdPairs (distinct C) us.

Lemma FOP_newer us1 us2 : ForallOrdPairs (distinct C) us1 -> ForallOrdPairs (distinct C) us2 -> newer C us1 us2 -> ForallOrdPairs (distinct C) (us1 ++ us2).
Proof.
  intros H1 H2. induction H1 as [|a us1 Ha H1 IH]; intros Hn; [done|]. cbn [app]. constructor.
  - apply List.Forall_app. split; [done|]. apply Forall_forall. intros b Hb E. specialize (Hn a b ltac:(by left) Hb E). lia.
  - apply IH. intros x y Hx. apply Hn. by right.
Qed.

Lemma put_file_ok s n : version_ok C contents' tc' (Version.mkVersion new_files s n).
Proof.
  split; cbn [Version.files_].
  - unfold new_files. rewrite length_insert. apply Hv.
  - rewrite new_files_perm. constructor; [done|]. apply Forall_forall. apply old_file_ok.
  - intros gs H0. destruct (new_lookup _ _ H0) as [[<- ->]|[_ H]]; [|by apply Hv in H]. rewrite map_app. cbn [map]. rewrite <- Permutation_middle, <- map_app, <- fs_split.
    constructor; [|by apply (vo_numbers _ _ _ _ Hv)]. intros (g & E & Hg)%list_elem_of_fmap. pose proof (Hfresh g (level_elem _ _ _ Hlev Hg)). lia.
  - intros gs g h H0 Hg Hh Hlt. assert (forall x, x ∈ gs -> x = f \/ x ∈ concat (Version.files_ v) /\ exists gs', Version.files_ v !! 0%nat = Some gs' /\ x ∈ gs') as Hin.
    { intros x Hx. destruct (new_lookup _ _ H0) as [[E ->]|[_ H]]; [|right; split; [by eapply level_elem|by exists gs]]. rewrite <- E in Hlev.
      apply elem_of_app in Hx as [Hx|[->|Hx]%elem_of_cons]; [right|by left|right]; (assert (x ∈ fs) by (rewrite fs_split; apply elem_of_app; auto); split; [by eapply level_elem|by exists fs]). }
    destruct (Hin h Hh) as [->|[Hh1 (hs & Hh2 & Hh3)]], (Hin g Hg) as [->|[Hg1 (gs' & Hg2 & Hg3)]]; [lia|specialize (Hfresh g Hg1); lia| |].
    + rewrite new_contents, old_contents by done. intros a b Ha Hb. apply Hnew; [done|]. apply elem_level_updates. by exists h.
    + rewrite !old_contents by done. rewrite Hg2 in Hh2. injection Hh2 as <-. by apply (vo_level0 _ _ _ _ Hv gs').
  - intros i gs Hi. destruct (new_lookup _ _ Hi) as [[El ->]|[_ H]].
    + split.
      * apply (level_follows C contents' tc'); [|apply new_level_follows; lia]. apply Forall_app.
        assert (forall x, x ∈ l1 ++ r1 -> file_ok C contents' tc' x) as Hx by (intros x Hx; rewrite <- fs_split in Hx; by eapply old_file_ok, level_elem).
        split; [apply Forall_forall; intros x ?; apply Hx, elem_of_app; by left|constructor; [done|apply Forall_forall; intros x ?; apply Hx, elem_of_app; by right]].
      * rewrite length_app. cbn [length]. pose proof (f_equal length fs_split) as E. rewrite length_app in E. lia.
    + destruct (vo_sorted _ _ _ _ Hv i gs H) as [Ho Hn]. split; [|done]. rewrite old_updates; [done|]. intros g. by eapply level_elem.
  - intros i j gs hs Hij Hi Hj a b Ha Hb E.
    destruct (new_level_updates i gs a Hi Ha) as [[-> Ha']|(gs' & Hgs' & Ha')], (new_level_updates j hs b Hj Hb) as [[-> Hb']|(hs' & Hhs' & Hb')]; [lia| | |].
    + apply Hnew; [done| |done]. by eapply level_in_version.
    + exfalso. by apply (apart_new i gs' a b ltac:(lia) ltac:(lia) Hgs' Ha' Hb').
    + by apply (vo_newer _ _ _ _ Hv i j gs' hs').
  - assert (ForallOrdPairs (distinct C) (us ++ version_updates contents v)) as H by (by apply FOP_newer; [done|apply Hv|]).
    apply (FOP_perm C (us ++ version_updates contents v)); [done|by rewrite new_updates_perm|by apply (FOP_NoDup C)].
Qed.

(** The edit with the new file leads there. *)
Lemma put_file_saved e f0 ps : f = norm f0 -> edit_ok e -> deleted_files_ e = [] -> new_files_ e = [(Z.of_nat l, f0)] -> length ps = Z.to_nat kNumLevels ->
  exists bd ps', Builder.Apply (C := C) (Builder.make v) ps e = Ret (bd, ps') /\ Builder.SaveTo (C := C) bd = Ret (Version.mkVersion new_files None (-1)).
Proof.
  intros Hnorm He Hdel Hadd Hps. pose proof (vo_levels _ _ _ _ Hv) as Hlen.
  destruct (Apply_ok C (Builder.make v) ps e He) as (bd & ps' & Hap & _ & _ & Hbase & Hlb & Hst); [apply length_replicate|done|]. exists bd, ps'. split; [done|].
  unfold Builder.SaveTo. rewrite Hbase. cbn [Builder.base_ Builder.make]. rewrite (proj2 (save_levels_ok C (Version.files_ v) 0 (Builder.levels_ bd) new_files)); [done|].
  split; [congruence|]. split; [unfold new_files; rewrite length_insert; congruence|]. intros i gs ls Hgs Hls.
  assert (i < Z.to_nat kNumLevels)%nat as Hi by (rewrite <- Hlb; by eapply lookup_lt_Some).
  destruct (Hst i _ (new_levels i Hi)) as (ls' & Hls' & [Hd Ha]). rewrite Hls in Hls'. injection Hls' as <-. rewrite Hadd, Hdel in *.
  assert (Builder.deleted_files ls = ∅) as Hd0 by (apply set_eq; intros x; rewrite Hd; set_solver).
  unfold level_result. rewrite Hd0. assert (forall xs, live ∅ xs = xs) as Hlive by (intros xs; clear; induction xs as [|x xs IH]; [done|]; unfold live in *; cbn [List.filter]; rewrite bool_decide_eq_false_2 by set_solver; cbn [negb]; by rewrite IH). rewrite Hlive. clear Hlive.
  destruct (decide (i = l)) as [->|Hne].
  - rewrite Hlev in Hgs. injection Hgs as <-. assert (items_at l [(Z.of_nat l, f0)] = [f0]) as Eit by (unfold items_at; cbn; by rewrite Z.eqb_refl). rewrite Eit in Ha. cbn in Ha.
    rewrite <- Hnorm in Ha. rewrite Ha. cbn [merged]. rewrite Hsplit. split; [unfold new_files; apply list_lookup_insert_eq; by eapply lookup_lt_Some|].
    intros Hl. apply follows_no_overlap, new_level_follows. lia.
  - assert (items_at i [(Z.of_nat l, f0)] = []) as Eit by (unfold items_at; cbn; destruct (Z.eqb_spec (Z.of_nat l) (Z.of_nat i)); [lia|done]). rewrite Eit in Ha. cbn in Ha. rewrite Ha.
    split; [unfold new_files; by rewrite list_lookup_insert_ne by done|]. intros Hl. destruct i as [|i]; [lia|]. destruct (vo_sorted _ _ _ _ Hv i gs Hgs) as [Ho _].
    apply follows_no_overlap. apply (level_follows C contents tc gs); [|done]. pose proof (vo_files _ _ _ _ Hv) as H. rewrite Forall_concat, Forall_lookup in H. by eapply H.
Qed.
End put.

(** ** WriteLevel0Table *)

Section flush.
Context {E T D : Type} {EN : Env E str} {TF : TableFiles EN} {TC : TableCache T D} {ITD : Iterator D} {TO : TableCacheOpens TC}.
Context (C : Comparator) {HC : ComparatorLaws C} {PT : Port} {PL : PortLaws PT} (options : Options) (dbname : str) (max_file_size : Z).
Context {TL : TableCacheLaws C TC} (contents : Z -> list update).
Implicit Types (db : DBState.DBImpl E T str) (us : list update) (v : Version.Version).
Import DBState.

Abbreviation key_of a := (fst (update_entry a)).
Abbreviation fits us := (buildable (C := internal_comparator C) options (map update_entry us)).

(** What other threads do while the table is written. *)
Record calm db db' : Prop := {
  cm_data name : env_data (env_ db') name = env_data (env_ db) name;
  cm_stats : stats_ db' = stats_ db
}.

Lemma mem_entries m us : mem_holds C m us -> ordered C us -> mem_rep C m (map update_entry us).
Proof.
  intros (es & Hm & Hp) [_ Hs]. assert (es = map update_entry us) as ->; [|done].
  apply (StronglySorted_unique_strong (fun a b => Compare (Comparator := internal_comparator C) (fst a) (fst b) = Lt)); [|apply (mem_sorted C m es Hm)|done|done].
  intros a b _ _ Hab Hba. pose proof (cmp_trans (C := internal_comparator C) _ _ _ Hab Hba) as H. by rewrite (cmp_refl (C := internal_comparator C)) in H.
Qed.

(** An entry per node is enough turns. *)
Lemma mem_nodes m es : mem_rep C m es -> (length es <= length (SkipList.nodes m))%nat.
Proof.
  intros [_ (ids & I)]. pose proof (Forall2_length _ _ _ (inv_keys _ _ _ I)) as Hl. rewrite length_map in Hl. rewrite <- Hl. destruct (inv_ids _ _ _ I) as [Hnd Hin].
  apply NoDup_cons in Hnd as [_ Hnd]. apply Nat.le_trans with (length (seq 0 (length (SkipList.nodes m)))); [|by rewrite length_seq].
  apply submseteq_length, NoDup_submseteq; [done|]. intros x Hx. apply elem_of_seq. split; [lia|]. apply Hin. by right.
Qed.

Lemma built_size us data : fits us -> build_table (C := internal_comparator C) options (map update_entry us) = Ret (data, Status.OK) -> str_size data < 2 ^ 64.
Proof.
  intros [Hi Hp Hn Hs Hr Hk Hfits] Hb. destruct (build_table_layout options Hi Hp Hn _ Hs Hr Hk Hfits) as (data' & bs & seps & fc & mb & ib & Hb' & L & _).
  rewrite Hb in Hb'. injection Hb' as ->. pose proof (tl_size _ _ _ _ _ _ L). lia.
Qed.

Lemma WriteLevel0Table_ok meanwhile db m us tc v : (forall db, calm db (meanwhile db)) -> mem_holds C m us -> ordered C us -> us <> [] -> fits us ->
  0 < VersionSet.next_file_number_ (versions_ db) <= kMaxUint64 -> length (stats_ db) = Z.to_nat kNumLevels -> version_ok C contents tc v ->
  let n := VersionSet.next_file_number_ (versions_ db) in
  exists db' l a0 a1 name data, head us = Some a0 /\ last us = Some a1 /\ TableFileName dbname n = Ret name /\
    WriteLevel0Table (C := C) options dbname max_file_size meanwhile db m VersionEdit.Clear (Some v) =
      Ret (db', AddFile l n (str_size data) (key_of a0) (key_of a1) VersionEdit.Clear, Status.OK) /\
    build_table (C := internal_comparator C) options (map update_entry us) = Ret (data, Status.OK) /\
    env_data (env_ db') name = Some data /\ (forall x, x <> name -> env_data (env_ db') x = env_data (env_ db) x) /\
    0 <= l <= Version.kMaxMemCompactLevel /\
    (0 < l -> forall i gs, (i <= Z.to_nat l)%nat -> Version.files_ v !! i = Some gs -> apart C (update_key a0) (update_key a1) gs).
Proof.
  intros Hcalm Hm Ho Hne Hfit Hn Hst Hv n. destruct us as [|a0 us'] eqn:Eus; [done|]. rewrite <- Eus in *. assert (head us = Some a0) as Hh by (by rewrite Eus).
  destruct (last us) as [a1|] eqn:Hl; [|by apply last_None in Hl]. destruct (table_file_name dbname n Hn) as (base & Hname & _). set (name := dbname ++ $"/" ++ base) in *.
  pose proof (mem_entries m us Hm Ho) as Hrep. assert (last_of (map update_entry us) = key_of a1) as El.
  { unfold last_of. rewrite fmap_last, Hl. cbn. by destruct (update_entry a1). }
  unfold WriteLevel0Table. destruct (env_NowMicros (env_ db)) as [e0 t0] eqn:E0. unfold VersionSet.NewFileNumber. fold n. cbn [env_ set_pending_outputs set_versions set_env table_cache_].
  destruct (BuildTable_ok C options dbname (IL := MemTableIterator_laws C) (length (SkipList.nodes m)) (map update_entry us) _ (MemTable.NewIterator m) e0 (table_cache_ db) n name (key_of a0) (snd (update_entry a0))
    (NewIterator_mem C m _ Hrep)) as (e1 & t1 & data & -> & Hbt & Hpos & Hdata & Hother); [by rewrite Eus|by apply mem_nodes|done| |done|by rewrite Eus; cbn; destruct (update_entry a0)|].
  { apply Forall_map, Forall_forall. intros a _. destruct a as [[[s t] k] x]. cbn. by destruct k. }
  cbn [mbind result_bind]. change (Status.ok Status.OK) with true. cbn [VersionEdit.file_size new_meta andb VersionEdit.smallest VersionEdit.largest]. destruct (Z.ltb_spec 0 (str_size data)); [|lia].
  rewrite El. pose proof (or_ok _ _ Ho) as Hok. rewrite Forall_forall in Hok. rewrite !user_part_update by (apply Hok; first [by apply last_elem|rewrite Eus; by left]).
  destruct (PickLevelForMemTableOutput_ok C contents tc v max_file_size (update_key a0) (update_key a1) Hv) as (l & -> & Hlr & Hap). cbn [mbind result_bind].
  set (db1 := meanwhile _). pose proof (Hcalm (set_env (set_table_cache (mkDB e0 (table_cache_ db) (shutting_down_ db) (mem_ db) (imm_ db) (log_ db) (logfile_number_ db) (snapshots_ db) ({[n]} ∪ pending_outputs_ db)
    (background_compaction_scheduled_ db) (background_calls_ db) (manual_compaction_ db) (snd (VersionSet.NewFileNumber (versions_ db))) (readers_ db) (compacting_ db) (bg_error_ db) (stats_ db)) t1) e1)) as Hc.
  change (meanwhile _) with db1 in Hc. clearbody db1. destruct Hc as [Hcd Hcs]. cbn in Hcd, Hcs.
  cbn [env_ set_pending_outputs]. destruct (env_NowMicros (env_ db1)) as [e2 t2] eqn:E2. unfold add_stats. cbn [stats_ set_env set_pending_outputs]. rewrite Hcs.
  destruct (vec_update_at (stats_ db) l (fun old => Add old (mkStats (int64 (u64 (t2 - t0))) 0 (int64 (str_size data))))) as (st' & -> & _); [rewrite Hst; unfold Version.kMaxMemCompactLevel, kNumLevels in *; lia|].
  cbn [mbind result_bind]. eexists _, l, a0, a1, name, data. split; [done|]. split; [done|]. split; [done|]. split; [done|]. split; [done|]. cbn [env_ set_stats set_env].
  assert (forall x, env_data e2 x = env_data e1 x) as Hd2 by (intros x; rewrite <- Hcd, <- (now_data (env_ db1) x), E2; done).
  assert (forall x, env_data e0 x = env_data (env_ db) x) as Hd0 by (intros x; rewrite <- (now_data (env_ db) x), E0; done).
  split; [by rewrite Hd2|]. split; [intros x Hx; by rewrite Hd2, Hother, Hd0|]. done.
Qed.

Lemma update_key_ok a : update_ok a -> key_ok (key_of a).
Proof.
  destruct a as [[[s t] k] x]. intros (_ & Hk & _). cbn. split; [by destruct k|]. rewrite str_size_app. change (str_size (EncodeFixed64 (packed s t))) with 8. lia.
Qed.

(** The edit of a flush is well formed. *)
Lemma flush_edit_ok l n size a0 a1 : 0 <= l <= Version.kMaxMemCompactLevel -> 0 < n <= kMaxUint64 -> 0 <= size < 2 ^ 64 -> update_ok a0 -> update_ok a1 ->
  edit_ok (AddFile l n size (key_of a0) (key_of a1) VersionEdit.Clear).
Proof.
  intros Hl Hn Hs H0 H1. split; cbn; try done. apply Forall_singleton. cbn. unfold level_ok, u64_ok, kMaxUint64, Version.kMaxMemCompactLevel, kNumLevels in *. split_and!; try lia; try done; by apply update_key_ok.
Qed.

End flush.

(** ** Witness: a memtable below which two levels have room *)

Section witness.
#[local] Existing Instance port_plain.
Import DBState.

Definition demo_flushed : list update := [(10, kTypeDeletion, $"yak", []); (9, kTypeValue, $"zebra", $"striped")].
Definition demo_cache : tables := fun n => map update_entry (demo_contents n).
Definition demo_cache' : tables := fun n => if n =? 5 then map update_entry demo_flushed else demo_cache n.
Definition demo_versions_5 : VersionSet.VersionSet str :=
  VersionSet.mkSet ($"/db") 5 1 10 0 0 None demo_version (SFopp (double_of_int 1)) (-1) (replicate (Z.to_nat kNumLevels) []).
Definition demo_flushing : DBImpl Disk tables str :=
  mkDB (mkDisk [] []) demo_cache false (Some MemTable.make) (Some (demo_memtable demo_flushed)) None 0 SnapshotList.make ∅ true 1 None demo_versions_5 [] None Status.OK
    (replicate (Z.to_nat kNumLevels) (mkStats 0 0 0)).

Lemma demo_cache_mono g : file_ok BytewiseComparator demo_contents demo_cache g -> file_ok BytewiseComparator demo_contents demo_cache' g.
Proof.
  intros [H1 H2 H3 H4 H5]. split; try done. unfold demo_cache'. cbn in H2 |- *. destruct (Z.eqb_spec (number g) 5) as [Eg|]; [|done]. exfalso. rewrite Eg in H3. by destruct H3 as (a & [=] & _).
Qed.

End witness.
