(* ===== verification/ObsoleteSpec.v ===== *)
(** * Removing obsolete files

    [RemoveObsoleteFiles] removes the files of the database that no live version, no
    compaction in progress and no recovery needs, and nothing else; the bloom files
    that lie beside the tables are not its own. *)

From Stdlib Require Import ZArith Lia SpecFloat.
From S2P Require Import Prelude CString World Coding SliceStatus FilterPolicy Logging DbFormat LogFile Iterators TwoLevelIterator Merger TableFormat TableBuilder TableSpec TableRead.
From S2P Require Import SkipList SkipListSpec DbTable MemTable DbIter DbWrite VersionEdit Version VersionSpec DbRead DbReadSpec VersionSet BuildTable DbState BuildTableSpec.

Section obsolete.
Context {E T D : Type} {EN : Env E str} {TF : TableFiles EN} {TC : TableCache T D} (dbname : str).
Implicit Types (db : DBState.DBImpl E T str) (b name : str) (names : list str).
Import DBState.

Definition path b : str := dbname ++ $"/" ++ b.

(** The numbers of the files in use. *)
Definition in_use db : gset Z := AddLiveFiles db (pending_outputs_ db).

Definition obsolete db b : bool :=
  match ParseFileName b with Some (n, type) => negb (keep_file (versions_ db) (in_use db) n type) | None => false end.

Lemma files_to_delete_ok db live names : forall tc, fst (files_to_delete (versions_ db) live tc names) =
  List.filter (fun b => match ParseFileName b with Some (n, type) => negb (keep_file (versions_ db) live n type) | None => false end) names.
Proof.
  induction names as [|b names IH]; intros tc; cbn [files_to_delete List.filter]; [done|]. destruct (ParseFileName b) as [[n type]|]; [|apply IH].
  destruct (keep_file (versions_ db) live n type); cbn [negb]; [apply IH|]. specialize (IH match type with kTableFile => tc_Evict tc n | _ => tc end).
  destruct (files_to_delete _ _ _ names) as [ns tc']. cbn [fst] in *. by rewrite IH.
Qed.

Lemma remove_all_data names : forall (e : E) b, env_data (foldl (remove_file dbname) e names) (path b) = if decide (b ∈ names) then None else env_data e (path b).
Proof.
  induction names as [|x names IH]; intros e b; cbn [foldl]; [by destruct (decide (b ∈ [])) as [?%elem_of_nil|]|]. rewrite IH. unfold remove_file. rewrite remove_data.
  fold (path x). destruct (decide (b ∈ names)) as [Hb|Hb]; [by rewrite decide_True by (by right)|]. destruct (decide (path b = path x)) as [Ep|Ep].
  - rewrite decide_True; [done|]. unfold path in Ep. apply app_inv_head in Ep. injection Ep as ->. by left.
  - rewrite decide_False; [done|]. intros [->|?]%elem_of_cons; done.
Qed.

(** Which files are there afterwards. *)
Lemma RemoveObsoleteFiles_data db b : Status.ok (bg_error_ db) = true ->
  env_data (env_ (RemoveObsoleteFiles dbname db)) (path b) =
  if decide (b ∈ snd (env_GetChildren (env_ db) dbname)) then if obsolete db b then None else env_data (env_ db) (path b) else env_data (env_ db) (path b).
Proof.
  intros Hok. unfold RemoveObsoleteFiles. rewrite Hok. cbn [negb]. pose proof (files_to_delete_ok db (in_use db) (snd (env_GetChildren (env_ db) dbname)) (table_cache_ db)) as H. fold (in_use db).
  destruct (files_to_delete _ _ _ _) as [names tc]. cbn [fst] in H. subst names. cbn [env_ set_env]. rewrite remove_all_data.
  destruct (decide (b ∈ List.filter _ _)) as [Hb|Hb]; rewrite list_elem_of_In, filter_In, <- list_elem_of_In in Hb.
  - destruct Hb as [Hb Ho]. rewrite decide_True by done. unfold obsolete. by rewrite Ho.
  - destruct (decide (b ∈ _)) as [Hc|]; [|done]. destruct (obsolete db b) eqn:Eo; [|done]. exfalso. apply Hb. by split.
Qed.

Lemma kept_data db b : obsolete db b = false -> env_data (env_ (RemoveObsoleteFiles dbname db)) (path b) = env_data (env_ db) (path b).
Proof.
  intros Ho. destruct (Status.ok (bg_error_ db)) eqn:Eb; [|unfold RemoveObsoleteFiles; by rewrite Eb]. rewrite RemoveObsoleteFiles_data by done. rewrite Ho. by destruct (decide _).
Qed.

Lemma live_in_use db v f : v ∈ live_versions db -> f ∈ version_files v -> number f ∈ in_use db.
Proof.
  intros Hv Hf. unfold in_use, AddLiveFiles. apply elem_of_union_r, elem_of_list_to_set, list_elem_of_fmap_2. apply list_elem_of_In, in_concat. exists (version_files v).
  rewrite <- !list_elem_of_In. split; [|done]. by apply list_elem_of_fmap_2.
Qed.

End obsolete.

(** ** Witness: an old table beside a live one and its bloom file *)

Section witness.
Import DBState.

Definition demo_dir : Disk :=
  mkDisk [($"/db/000001.ldb", $"one"); ($"/db/000001.bloom", $"bits"); ($"/db/000007.ldb", $"seven"); ($"/db/CURRENT", $"MANIFEST-000002")] [].
Definition demo_current : VersionSet.VersionSet str :=
  VersionSet.mkSet ($"/db") 9 2 10 8 0 None demo_version (SFopp (double_of_int 1)) (-1) (replicate (Z.to_nat kNumLevels) []).
Definition demo_cleaning : DBImpl Disk tables str :=
  mkDB demo_dir (fun _ => []) false (Some MemTable.make) None None 8 SnapshotList.make ∅ true 1 None demo_current [] None Status.OK [].

End witness.
