(* ===== verification/Compaction.v ===== *)
(** * leveldb: compactions

    Choosing the files of a compaction ([VersionSet::PickCompaction], [CompactRange],
    [SetupOtherInputs] and [class Compaction] of [db/version_set.cc]) and doing it
    ([DoCompactionWork] and the functions it calls in [db/db_impl.cc]): the inputs are
    merged, entries that no snapshot can see are dropped, and the rest is written to new
    tables of the next level.  The memtable compaction that may interrupt the loop works
    on other parts of the database and is not in it; what is written to the info log is
    not modelled. *)

From Stdlib Require Import ZArith Lia SpecFloat.
From S2P Require Import Prelude CString World Coding SliceStatus FilterPolicy Logging DbFormat LogFile Iterators TwoLevelIterator Merger TableFormat TableBuilder.
From S2P Require Import DbTable DbWrite VersionEdit Version DbRead VersionSet.

(** ** class Compaction *)

Record Compaction := mkCompaction {
  level_ : Z;
  max_output_file_size_ : Z;
  input_version_ : Version.Version;
  edit_ : VersionEdit;
  inputs_0 : list FileMetaData;
  inputs_1 : list FileMetaData;
  grandparents_ : list FileMetaData;
  grandparent_index_ : nat;
  seen_key_ : bool;
  overlapped_bytes_ : Z;
  level_ptrs_ : list nat
}.

Section compaction.
Context `{C : !Comparator} (max_file_size : Z).
Implicit Types (f : FileMetaData) (c : Compaction) (files : list FileMetaData).

(** [Compaction(options, level)] with its inputs and [input_version_] *)
Definition Compaction_make (level : Z) (v : Version.Version) (inputs : list FileMetaData) : Compaction :=
  mkCompaction level (MaxFileSizeForLevel max_file_size level) v VersionEdit.Clear inputs [] [] 0 false 0 (replicate (Z.to_nat kNumLevels) O).

Definition IsTrivialMove c : bool :=
  (Z.of_nat (length (inputs_0 c)) =? 1) && (Z.of_nat (length (inputs_1 c)) =? 0) &&
  (TotalFileSize (grandparents_ c) <=? MaxGrandParentOverlapBytes max_file_size).

Definition AddInputDeletions c (edit : VersionEdit) : VersionEdit :=
  let edit := foldl (fun e f => RemoveFile (level_ c) (number f) e) edit (inputs_0 c) in
  foldl (fun e f => RemoveFile (level_ c + 1) (number f) e) edit (inputs_1 c).

(** The files of a level from [ptr] on: where [level_ptrs_] stops, and whether the key
    is in the range of the file there. *)
Fixpoint base_scan (user_key : str) files (ptr : nat) : nat * bool :=
  match files with
  | [] => (ptr, false)
  | f :: files =>
      match Compare user_key (user_part (largest f)) with
      | Gt => base_scan user_key files (S ptr)
      | _ => (ptr, match Compare user_key (user_part (smallest f)) with Lt => false | _ => true end)
      end
  end.

(** [for (int lvl = level_ + 2; ...)], over the levels that are left and their pointers. *)
Fixpoint base_levels (user_key : str) (levels : list (list FileMetaData)) (ptrs : list nat) : bool * list nat :=
  match levels, ptrs with
  | files :: levels, ptr :: ptrs =>
      let '(ptr', inside) := base_scan user_key (drop ptr files) ptr in
      if inside then (false, ptr' :: ptrs)
      else let '(base, ptrs) := base_levels user_key levels ptrs in (base, ptr' :: ptrs)
  | _, ptrs => (true, ptrs)
  end.

Definition set_ptrs c (ptrs : list nat) : Compaction :=
  mkCompaction (level_ c) (max_output_file_size_ c) (input_version_ c) (edit_ c) (inputs_0 c) (inputs_1 c) (grandparents_ c)
    (grandparent_index_ c) (seen_key_ c) (overlapped_bytes_ c) ptrs.

Definition IsBaseLevelForKey c (user_key : str) : bool * Compaction :=
  let n := Z.to_nat (level_ c + 2) in
  let '(base, ptrs) := base_levels user_key (drop n (Version.files_ (input_version_ c))) (drop n (level_ptrs_ c)) in
  (base, set_ptrs c (take n (level_ptrs_ c) ++ ptrs)).

(** The [while] of [ShouldStopBefore] over the grandparents from [grandparent_index_] on. *)
Fixpoint pass_grandparents (internal_key : str) files (seen : bool) (index : nat) (overlapped : Z) : nat * Z :=
  match files with
  | [] => (index, overlapped)
  | f :: files =>
      match icompare internal_key (largest f) with
      | Gt => pass_grandparents internal_key files seen (S index) (if seen then int64 (u64 (overlapped + file_size f)) else overlapped)
      | _ => (index, overlapped)
      end
  end.

Definition set_grandparents c (index : nat) (seen : bool) (overlapped : Z) : Compaction :=
  mkCompaction (level_ c) (max_output_file_size_ c) (input_version_ c) (edit_ c) (inputs_0 c) (inputs_1 c) (grandparents_ c)
    index seen overlapped (level_ptrs_ c).

Definition ShouldStopBefore c (internal_key : str) : bool * Compaction :=
  let '(index, overlapped) := pass_grandparents internal_key (drop (grandparent_index_ c) (grandparents_ c)) (seen_key_ c) (grandparent_index_ c) (overlapped_bytes_ c) in
  if MaxGrandParentOverlapBytes max_file_size <? overlapped then (true, set_grandparents c index true 0)
  else (false, set_grandparents c index true overlapped).

(** ** Choosing the inputs *)

Definition smaller_key (a b : str) : str := match icompare a b with Lt => a | _ => b end.
Definition larger_key (a b : str) : str := match icompare a b with Gt => a | _ => b end.

(** [GetRange]: [*smallest] and [*largest] *)
Definition GetRange (inputs : list FileMetaData) : result (str * str) :=
  match inputs with
  | [] => Crash AssertFailed
  | f :: fs => Ret (foldl (fun r g => (smaller_key (smallest g) (fst r), larger_key (largest g) (snd r))) (smallest f, largest f) fs)
  end.

Definition GetRange2 (inputs1 inputs2 : list FileMetaData) : result (str * str) := GetRange (inputs1 ++ inputs2).

Definition FindLargestKey files : option str :=
  match files with
  | [] => None
  | f :: fs => Some (foldl (fun k g => larger_key (largest g) k) (largest f) fs)
  end.

Definition FindSmallestBoundaryFile (level_files : list FileMetaData) (largest_key : str) : option FileMetaData :=
  foldl (fun best f =>
    match icompare (smallest f) largest_key, Compare (user_part (smallest f)) (user_part largest_key) with
    | Gt, Eq =>
        match best with
        | None => Some f
        | Some b => match icompare (smallest f) (smallest b) with Lt => Some f | _ => best end
        end
    | _, _ => best
    end) None level_files.

(** [while (continue_searching)] *)
Fixpoint boundary_loop (fuel : nat) (level_files : list FileMetaData) (largest_key : str) (compaction_files : list FileMetaData) :
    result (list FileMetaData) :=
  match FindSmallestBoundaryFile level_files largest_key with
  | None => Ret compaction_files
  | Some b =>
      match fuel with
      | O => Crash OutOfFuel
      | S fuel => boundary_loop fuel level_files (largest b) (compaction_files ++ [b])
      end
  end.

Definition AddBoundaryInputs (level_files compaction_files : list FileMetaData) : result (list FileMetaData) :=
  match FindLargestKey compaction_files with
  | None => Ret compaction_files
  | Some largest_key => boundary_loop (length level_files) level_files largest_key compaction_files
  end.

Section choose.
Context {F : Type}.
Implicit Types (vs : VersionSet.VersionSet F).

Definition set_pointer_at vs (level : Z) (key : str) : result (VersionSet.VersionSet F) :=
  ps ← vec_update (VersionSet.compact_pointer_ vs) level (fun _ => key);
  Ret (VersionSet.mkSet (VersionSet.dbname_ vs) (VersionSet.next_file_number_ vs) (VersionSet.manifest_file_number_ vs) (VersionSet.last_sequence_ vs)
         (VersionSet.log_number_ vs) (VersionSet.prev_log_number_ vs) (VersionSet.descriptor_log_ vs) (VersionSet.current_ vs)
         (VersionSet.compaction_score_ vs) (VersionSet.compaction_level_ vs) ps).

(** The files of [level] that can be added without more files of the next level: the
    new inputs of both levels, and the range of the new inputs of [level]. *)
Definition expand_inputs (v : Version.Version) (level : Z) (inputs0 inputs1 : list FileMetaData) (all : str * str) :
    result (option (list FileMetaData * list FileMetaData * (str * str))) :=
  expanded0 ← Version.GetOverlappingInputs v level (Some (fst all)) (Some (snd all));
  files ← Version.level_files v level;
  expanded0 ← AddBoundaryInputs files expanded0;
  if (length inputs0 <? length expanded0)%nat &&
     (int64 (TotalFileSize inputs1 + TotalFileSize expanded0) <? ExpandedCompactionByteSizeLimit max_file_size) then
    new ← GetRange expanded0;
    expanded1 ← Version.GetOverlappingInputs v (level + 1) (Some (fst new)) (Some (snd new));
    next ← Version.level_files v (level + 1);
    expanded1 ← AddBoundaryInputs next expanded1;
    if (length expanded1 =? length inputs1)%nat then Ret (Some (expanded0, expanded1, new)) else Ret None
  else Ret None.

Definition SetupOtherInputs vs c : result (Compaction * VersionSet.VersionSet F) :=
  let v := VersionSet.current_ vs in
  let level := level_ c in
  files ← Version.level_files v level;
  inputs0 ← AddBoundaryInputs files (inputs_0 c);
  range ← GetRange inputs0;
  inputs1 ← Version.GetOverlappingInputs v (level + 1) (Some (fst range)) (Some (snd range));
  next ← Version.level_files v (level + 1);
  inputs1 ← AddBoundaryInputs next inputs1;
  all ← GetRange2 inputs0 inputs1;
  expanded ← (match inputs1 with [] => Ret None | _ => expand_inputs v level inputs0 inputs1 all end);
  let '(inputs0, inputs1, range) := match expanded with Some x => x | None => (inputs0, inputs1, range) end in
  all ← (match expanded with Some _ => GetRange2 inputs0 inputs1 | None => Ret all end);
  grandparents ← (if level + 2 <? kNumLevels then Version.GetOverlappingInputs v (level + 2) (Some (fst all)) (Some (snd all))
                  else Ret (grandparents_ c));
  vs ← set_pointer_at vs level (snd range);
  Ret (mkCompaction level (max_output_file_size_ c) (input_version_ c) (SetCompactPointer level (snd range) (edit_ c)) inputs0 inputs1 grandparents
         (grandparent_index_ c) (seen_key_ c) (overlapped_bytes_ c) (level_ptrs_ c), vs).

(** The first file after the compaction pointer, or the first one. *)
Definition pick_file files (pointer : str) : result FileMetaData :=
  match List.find (fun f => match pointer with [] => true | _ => match icompare (largest f) pointer with Gt => true | _ => false end end) files with
  | Some f => Ret f
  | None => vec_at files 0
  end.

(** The level and the file a compaction starts from. *)
Definition pick_start vs : result (option (Z * FileMetaData)) :=
  let v := VersionSet.current_ vs in
  if SFleb (double_of_int 1) (VersionSet.compaction_score_ vs) then
    let level := VersionSet.compaction_level_ vs in
    if (0 <=? level) && (level + 1 <? kNumLevels) then
      files ← Version.level_files v level;
      pointer ← vec_at (VersionSet.compact_pointer_ vs) level;
      f ← pick_file files pointer;
      Ret (Some (level, f))
    else Crash AssertFailed
  else Ret ((fun f => (Version.file_to_compact_level_ v, f)) <$> Version.file_to_compact_ v).

Definition PickCompaction vs : result (option Compaction * VersionSet.VersionSet F) :=
  start ← pick_start vs;
  match start with
  | None => Ret (None, vs)
  | Some (level, f) =>
      let v := VersionSet.current_ vs in
      inputs ← (if level =? 0 then
                  range ← GetRange [f];
                  inputs ← Version.GetOverlappingInputs v 0 (Some (fst range)) (Some (snd range));
                  match inputs with [] => Crash AssertFailed | _ => Ret inputs end
                else Ret [f]);
      q ← SetupOtherInputs vs (Compaction_make level v inputs);
      let '(c, vs) := (q : Compaction * VersionSet.VersionSet F) in
      Ret (Some c, vs)
  end.

(** The first inputs up to the size limit. *)
Fixpoint limit_inputs (limit total : Z) files : list FileMetaData :=
  match files with
  | [] => []
  | f :: files => let total := u64 (total + file_size f) in if limit <=? total then [f] else f :: limit_inputs limit total files
  end.

Definition CompactRange vs (level : Z) (begin_ end_ : option str) : result (option Compaction * VersionSet.VersionSet F) :=
  let v := VersionSet.current_ vs in
  inputs ← Version.GetOverlappingInputs v level begin_ end_;
  match inputs with
  | [] => Ret (None, vs)
  | _ =>
      let inputs := if 0 <? level then limit_inputs (MaxFileSizeForLevel max_file_size level) 0 inputs else inputs in
      q ← SetupOtherInputs vs (Compaction_make level v inputs);
      let '(c, vs) := (q : Compaction * VersionSet.VersionSet F) in
      Ret (Some c, vs)
  end.

(** The most bytes a file of one level overlaps in the next. *)
Fixpoint max_overlap (v : Version.Version) (level : Z) files (best : Z) : result Z :=
  match files with
  | [] => Ret best
  | f :: files =>
      overlaps ← Version.GetOverlappingInputs v (level + 1) (Some (smallest f)) (Some (largest f));
      let sum := TotalFileSize overlaps in
      max_overlap v level files (if best <? sum then sum else best)
  end.

Fixpoint max_overlap_levels (n : nat) (v : Version.Version) (level best : Z) : result Z :=
  match n with
  | O => Ret best
  | S n => files ← Version.level_files v level; best ← max_overlap v level files best; max_overlap_levels n v (level + 1) best
  end.

(** [for (int level = 1; level < config::kNumLevels - 1; level++)] *)
Definition MaxNextLevelOverlappingBytes vs : result Z := max_overlap_levels (Z.to_nat (kNumLevels - 2)) (VersionSet.current_ vs) 1 0.

End choose.

(** *** MakeInputIterator *)

Section input.
Context {T D : Type} `{TC : !TableCache T D, ITD : !Iterator D}.

Abbreviation TableIterator := (EmptyIterator.EmptyIterator + D)%type.
Abbreviation LevelIterator := (TwoLevelIterator.TwoLevelIterator LevelFileNumIterator TableIterator (FileArg T)).

(** The iterators of the inputs of one level. *)
Definition input_iterators (tc : T) (level : Z) files : result (list (TableIterator + LevelIterator) * T) :=
  match files with
  | [] => Ret ([], tc)
  | _ =>
      if level =? 0 then
        q ← table_iterators tc files;
        let '(its, tc) := (q : list TableIterator * T) in
        Ret (map inl its, tc)
      else it ← NewConcatenatingIterator files tc; Ret ([inr it], tc)
  end.

Definition MakeInputIterator (tc : T) c : result (MergingIterator.Merged (TableIterator + LevelIterator) * T) :=
  q ← input_iterators tc (level_ c) (inputs_0 c);
  let '(its0, tc) := (q : list (TableIterator + LevelIterator) * T) in
  q ← input_iterators tc (level_ c + 1) (inputs_1 c);
  let '(its1, tc) := (q : list (TableIterator + LevelIterator) * T) in
  m ← MergingIterator.NewMergingIterator (its0 ++ its1);
  Ret (m, tc).

Definition InputIterator_ops : Iterator (MergingIterator.Merged (TableIterator + LevelIterator)) :=
  either_iterator (A := EmptyIterator.EmptyIterator)
    (B := ((TableIterator + LevelIterator) + MergingIterator.MergingIterator (TableIterator + LevelIterator))%type)
    (IB := either_iterator (IB := MergingIterator.MergingIterator_ops (C := internal_comparator C))).
End input.

End compaction.
