(* ===== verification/CompactionWork.v ===== *)
(** * leveldb: doing a compaction

    [DoCompactionWork], [OpenCompactionOutputFile], [FinishCompactionOutputFile],
    [InstallCompactionResults] and [CleanupCompaction] of [db/db_impl.cc].  The tables
    are written with [TableBuilder] to files of the environment. *)

From Stdlib Require Import ZArith Lia SpecFloat.
From S2P Require Import Prelude CString World Coding SliceStatus FilterPolicy Logging DbFormat LogFile Iterators TwoLevelIterator Merger TableFormat TableBuilder.
From S2P Require Import DbTable MemTable DbWrite VersionEdit Version DbRead VersionSet BuildTable DbState Compaction.

Module CompactionState.

Record Output := mkOutput { number : Z; file_size : Z; smallest : str; largest : str }.

(** [outfile] is the file of the builder. *)
Record CompactionState (F : Type) := mkState {
  compaction : Compaction;
  smallest_snapshot : Z;
  outputs : list Output;
  builder : option (TableBuilder.Rep F);
  total_bytes : Z
}.
Arguments mkState {F} _ _ _ _ _.
Arguments compaction {F} _.
Arguments smallest_snapshot {F} _.
Arguments outputs {F} _.
Arguments builder {F} _.
Arguments total_bytes {F} _.

Definition make {F} (c : Compaction) : CompactionState F := mkState c 0 [] None 0.

End CompactionState.

Module DBCompact.
Import CompactionState.

Import DBState.

Section work.
Context {E T D F : Type} `{EN : !Env E F, WF : !WritableFile F, SyF : !SyncFile F, TC : !TableCache T D, ITD : !Iterator D}.
Context `{C : !Comparator, PT : !Port} (options : Options) (dbname comparator_name : str) (max_file_size : Z).
Implicit Types (db : DBImpl E T F) (cs : CompactionState F).

(** The tables are ordered by internal keys. *)
Abbreviation TB_make := (TableBuilder.make options).
Abbreviation TB_Add := (TableBuilder.Add (C := internal_comparator C)).
Abbreviation TB_Finish := (TableBuilder.Finish (C := internal_comparator C)).

Definition set_builder cs (b : option (TableBuilder.Rep F)) : CompactionState F :=
  mkState (compaction cs) (smallest_snapshot cs) (outputs cs) b (total_bytes cs).
Definition set_compaction cs (c : Compaction) : CompactionState F :=
  mkState c (smallest_snapshot cs) (outputs cs) (builder cs) (total_bytes cs).

(** [current_output()] is changed. *)
Definition on_output (f : Output -> Output) cs : result (CompactionState F) :=
  match last (outputs cs) with
  | None => Crash OutOfBounds
  | Some out =>
      Ret (mkState (compaction cs) (smallest_snapshot cs) (take (length (outputs cs) - 1) (outputs cs) ++ [f out]) (builder cs) (total_bytes cs))
  end.

Definition OpenCompactionOutputFile db cs : result (DBImpl E T F * CompactionState F * Status.Status) :=
  match builder cs with
  | Some _ => Crash AssertFailed
  | None =>
      let '(file_number, vs) := VersionSet.NewFileNumber (versions_ db) in
      let cs := mkState (compaction cs) (smallest_snapshot cs) (outputs cs ++ [mkOutput file_number 0 [] []]) None (total_bytes cs) in
      fname ← TableFileName dbname file_number;
      let '(env, s, file) := env_NewWritableFile (env_ db) fname in
      let db := set_pending_outputs (set_versions (set_env db env) vs) ({[file_number]} ∪ pending_outputs_ db) in
      match file, Status.ok s with
      | Some file, true => b ← TB_make file; Ret (db, set_builder cs (Some b), s)
      | None, true => Crash NullDeref
      | _, false => Ret (db, cs, s)
      end
  end.

(** [input] is the status of the input iterator. *)
Definition FinishCompactionOutputFile db cs (input : Status.Status) : result (DBImpl E T F * CompactionState F * Status.Status) :=
  match builder cs, last (outputs cs) with
  | Some b, Some out =>
      if number out =? 0 then Crash AssertFailed
      else
        let current_entries := TableBuilder.NumEntries b in
        q ← (if Status.ok input then TB_Finish b else b ← TableBuilder.Abandon b; Ret (b, input));
        let '(b, s) := (q : TableBuilder.Rep F * Status.Status) in
        let current_bytes := TableBuilder.FileSize b in
        cs ← on_output (fun out => mkOutput (number out) current_bytes (smallest out) (largest out)) cs;
        let cs := mkState (compaction cs) (smallest_snapshot cs) (outputs cs) None (u64 (total_bytes cs + current_bytes)) in
        _ ← TableBuilder.destroy b;
        let '(env, s) := close_file (env_ db) (TableBuilder.file b) s in
        let db := set_env db env in
        if Status.ok s && (0 <? current_entries) then
          q ← verify_table (table_cache_ db) (number out) current_bytes;
          let '(tc, s) := (q : T * Status.Status) in
          Ret (set_table_cache db tc, cs, s)
        else Ret (db, cs, s)
  | _, _ => Crash AssertFailed
  end.

(** *** Which entries are dropped *)

(** [current_user_key] if there is one, and [last_sequence_for_key]. *)
Record KeyState := mkKey { current_user_key : option str; last_sequence_for_key : Z }.

Definition no_key : KeyState := mkKey None kMaxSequenceNumber.

Definition drop_entry (smallest : Z) (c : Compaction) (ks : KeyState) (key : str) : bool * Compaction * KeyState :=
  match ParseInternalKey key with
  | None => (false, c, no_key)
  | Some ikey =>
      let ks :=
        match current_user_key ks with
        | Some k => match Compare (user_key ikey) k with Eq => ks | _ => mkKey (Some (user_key ikey)) kMaxSequenceNumber end
        | None => mkKey (Some (user_key ikey)) kMaxSequenceNumber
        end in
      let '(drop, c) :=
        if last_sequence_for_key ks <=? smallest then (true, c)
        else
          match type ikey with
          | kTypeDeletion => if sequence ikey <=? smallest then IsBaseLevelForKey c (user_key ikey) else (false, c)
          | kTypeValue => (false, c)
          end in
      (drop, c, mkKey (current_user_key ks) (sequence ikey))
  end.

(** An entry that is kept goes to the current output, which is opened if necessary and
    closed if it is big enough; false ends the loop. *)
Definition keep_entry db cs (key value : str) (input : Status.Status) : result (DBImpl E T F * CompactionState F * Status.Status * bool) :=
  q ← (match builder cs with
       | None => OpenCompactionOutputFile db cs
       | Some _ => Ret (db, cs, Status.OK)
       end);
  let '(db, cs, s) := (q : DBImpl E T F * CompactionState F * Status.Status) in
  if negb (Status.ok s) then Ret (db, cs, s, false)
  else
    match builder cs with
    | None => Crash NullDeref
    | Some b =>
        cs ← (if TableBuilder.NumEntries b =? 0
              then on_output (fun out => mkOutput (number out) (file_size out) key (largest out)) cs else Ret cs);
        cs ← on_output (fun out => mkOutput (number out) (file_size out) (smallest out) key) cs;
        b ← TB_Add b key value;
        let cs := set_builder cs (Some b) in
        if max_output_file_size_ (compaction cs) <=? TableBuilder.FileSize b then
          q ← FinishCompactionOutputFile db cs input;
          let '(db, cs, s) := (q : DBImpl E T F * CompactionState F * Status.Status) in
          Ret (db, cs, s, Status.ok s)
        else Ret (db, cs, s, true)
    end.

(** *** InstallCompactionResults *)

Definition add_output (level : Z) (e : VersionEdit) (out : Output) : VersionEdit :=
  AddFile (level + 1) (number out) (file_size out) (smallest out) (largest out) e.

Definition install_edit cs : VersionEdit :=
  let c := compaction cs in foldl (add_output (level_ c)) (AddInputDeletions c (edit_ c)) (outputs cs).

Definition InstallCompactionResults db cs : result (DBImpl E T F * Status.Status) :=
  log_and_apply (C := C) comparator_name db (install_edit cs).

(** *** The loop *)

Section loop.
Context {I : Type} `{IT : !Iterator I}.
(** What other threads do before each turn, while the mutex is released. *)
Context (others : nat -> DBImpl E T F -> DBImpl E T F).

(** An immutable memtable comes first; the time that takes is counted. *)
Definition compact_imm (meanwhile : DBImpl E T F -> DBImpl E T F) db (imm_micros : Z) : result (DBImpl E T F * Z) :=
  match imm_ db with
  | None => Ret (db, imm_micros)
  | Some _ =>
      let '(env, imm_start) := env_NowMicros (env_ db) in
      db ← CompactMemTable (C := C) options dbname comparator_name max_file_size meanwhile (set_env db env);
      let '(env, now) := env_NowMicros (env_ db) in
      Ret (set_env db env, int64 (imm_micros + (now - imm_start)))
  end.

(** [while (input->Valid() && !shutting_down_)]: the number of turns left is [fuel]. *)
Fixpoint compaction_loop (fuel : nat) db cs (ks : KeyState) (s : Status.Status) (imm_micros : Z) (input : I) :
    result (DBImpl E T F * CompactionState F * Status.Status * Z * I) :=
  let db := others fuel db in
  if it_Valid input && negb (shutting_down_ db) then
    match fuel with
    | O => Crash OutOfFuel
    | S n =>
        q ← compact_imm (others n) db imm_micros;
        let '(db, imm_micros) := (q : DBImpl E T F * Z) in
        key ← it_key input;
        let '(stop, c) := ShouldStopBefore max_file_size (compaction cs) key in
        let cs := set_compaction cs c in
        q ← (match builder cs, stop with
             | Some _, true => FinishCompactionOutputFile db cs (it_status input)
             | _, _ => Ret (db, cs, s)
             end);
        let '(db, cs, s) := (q : DBImpl E T F * CompactionState F * Status.Status) in
        if negb (Status.ok s) then Ret (db, cs, s, imm_micros, input)
        else
          let '(drop, c, ks) := drop_entry (smallest_snapshot cs) (compaction cs) ks key in
          let cs := set_compaction cs c in
          q ← (if (drop : bool) then Ret (db, cs, s, true)
               else value ← it_value input; keep_entry db cs key value (it_status input));
          let '(db, cs, s, go) := (q : DBImpl E T F * CompactionState F * Status.Status * bool) in
          if (go : bool) then input ← it_Next input; compaction_loop n db cs ks s imm_micros input
          else Ret (db, cs, s, imm_micros, input)
    end
  else Ret (db, cs, s, imm_micros, input).

(** [smallest_snapshot] *)
Definition oldest_snapshot db : result Z :=
  if SnapshotList.empty (snapshots_ db) then Ret (VersionSet.last_sequence_ (versions_ db))
  else s ← SnapshotList.oldest (snapshots_ db); Ret (SnapshotList.sequence_number_ s).

(** The part of [DoCompactionWork] without the mutex: the loop, and closing the last
    output; [input] is at its first entry.  The time is that of memtable compactions. *)
Definition compact_inputs (fuel : nat) db cs (input : I) : result (DBImpl E T F * CompactionState F * Status.Status * Z) :=
  input ← it_SeekToFirst input;
  q ← compaction_loop fuel db cs no_key Status.OK 0 input;
  let '(db, cs, s, imm_micros, input) := (q : DBImpl E T F * CompactionState F * Status.Status * Z * I) in
  let s := if Status.ok s && shutting_down_ db then Status.IOError ($"Deleting DB during compaction") [] else s in
  q ← (match builder cs, Status.ok s with
       | Some _, true => FinishCompactionOutputFile db cs (it_status input)
       | _, _ => Ret (db, cs, s)
       end);
  let '(db, cs, s) := (q : DBImpl E T F * CompactionState F * Status.Status) in
  Ret (db, cs, if Status.ok s then it_status input else s, imm_micros).

(** The bytes of [CompactionStats] *)
Definition compaction_stats cs (time : Z) : CompactionStats :=
  let c := compaction cs in
  mkStats time (foldl (fun n f => int64 (u64 (n + VersionEdit.file_size f))) 0 (inputs_0 c ++ inputs_1 c))
    (foldl (fun n out => int64 (u64 (n + file_size out))) 0 (outputs cs)).

(** [make_input] is [MakeInputIterator]. *)
Definition DoCompactionWork (fuel : nat) (make_input : T -> Compaction -> result (I * T)) db cs : result (DBImpl E T F * CompactionState F * Status.Status) :=
  let '(env, start_micros) := env_NowMicros (env_ db) in
  let db := set_env db env in
  n ← VersionSet.NumLevelFiles (versions_ db) (level_ (compaction cs));
  match builder cs with
  | Some _ => Crash AssertFailed
  | None =>
      if n <=? 0 then Crash AssertFailed
      else
        snapshot ← oldest_snapshot db;
        let cs := mkState (compaction cs) snapshot (outputs cs) None (total_bytes cs) in
        q ← make_input (table_cache_ db) (compaction cs);
        let '(input, tc) := (q : I * T) in
        q ← compact_inputs fuel (set_table_cache db tc) cs input;
        let '(db, cs, s, imm_micros) := (q : DBImpl E T F * CompactionState F * Status.Status * Z) in
        let '(env, now) := env_NowMicros (env_ db) in
        db ← add_stats (set_env db env) (level_ (compaction cs) + 1) (compaction_stats cs (int64 (u64 (now - start_micros - imm_micros))));
        q ← (if Status.ok s then InstallCompactionResults db cs else Ret (db, s));
        let '(db, s) := (q : DBImpl E T F * Status.Status) in
        Ret (if Status.ok s then db else RecordBackgroundError db s, cs, s)
  end.

End loop.

(** *** CleanupCompaction *)

Definition CleanupCompaction db cs : result (DBImpl E T F) :=
  _ ← (match builder cs with
       | Some b => b ← TableBuilder.Abandon b; TableBuilder.destroy b
       | None => Ret tt
       end);
  Ret (set_pending_outputs db (pending_outputs_ db ∖ list_to_set (map number (outputs cs)))).

End work.
End DBCompact.
