(* ===== verification/DbBackground.v ===== *)
(** * leveldb: scheduling compactions

    [MaybeScheduleCompaction], [BackgroundCall], [BackgroundCompaction] and
    [MakeRoomForWrite] of [db/db_impl.cc]: when a background compaction is scheduled and
    what it does, and how a write waits for room.  [others n] is what other threads do
    to the database when the mutex is released for the [n]th last time. *)

From Stdlib Require Import ZArith Lia.
From S2P Require Import Prelude CString World Coding SliceStatus FilterPolicy Logging DbFormat LogFile Iterators TwoLevelIterator Merger TableFormat TableBuilder.
From S2P Require Import DbTable MemTable DbWrite VersionEdit Version DbRead VersionSet BuildTable DbState Compaction CompactionWork.

Module DBBackground.
Import DBState DBCompact.

Definition kL0_SlowdownWritesTrigger : Z := 8.
Definition kL0_StopWritesTrigger : Z := 12.

Section ops.
Context {E T D F : Type} `{EN : !Env E F, WF : !WritableFile F, SyF : !SyncFile F, TC : !TableCache T D, ITD : !Iterator D}.
Context `{C : !Comparator, PT : !Port} (options : Options) (dbname comparator_name : str) (max_file_size : Z).
Context (others : nat -> DBImpl E T F -> DBImpl E T F).
Implicit Types (db : DBImpl E T F).

Definition MaybeScheduleCompaction db : DBImpl E T F :=
  if background_compaction_scheduled_ db then db
  else if shutting_down_ db then db
  else if negb (Status.ok (bg_error_ db)) then db
  else
    match imm_ db, manual_compaction_ db, VersionSet.NeedsCompaction (versions_ db) with
    | None, None, false => db
    | _, _, _ => set_background_calls (set_background_compaction_scheduled db true) (S (background_calls_ db))
    end.

(** *** BackgroundCompaction *)

(** The compaction that is to be done. *)
Definition choose_compaction db : result (option Compaction * DBImpl E T F) :=
  q ← (match manual_compaction_ db with
       | Some m => CompactRange (C := C) max_file_size (versions_ db) (m_level m) (m_begin m) (m_end m)
       | None => PickCompaction (C := C) max_file_size (versions_ db)
       end);
  let '(c, vs) := (q : option Compaction * VersionSet.VersionSet F) in
  Ret (c, set_versions db vs).

(** Moving the only input to the next level. *)
Definition move_file db (c : Compaction) : result (DBImpl E T F * Status.Status) :=
  match inputs_0 c with
  | [f] =>
      let edit := RemoveFile (level_ c) (number f) (edit_ c) in
      let edit := AddFile (level_ c + 1) (number f) (file_size f) (smallest f) (largest f) edit in
      q ← log_and_apply (C := C) comparator_name db edit;
      let '(db, s) := (q : DBImpl E T F * Status.Status) in
      Ret (if Status.ok s then db else RecordBackgroundError db s, s)
  | _ => Crash AssertFailed
  end.

(** Merging the inputs. *)
Definition merge_inputs (fuel : nat) db (c : Compaction) : result (DBImpl E T F * Status.Status) :=
  q ← DoCompactionWork (C := C) options dbname comparator_name max_file_size (IT := InputIterator_ops (C := C)) others fuel (MakeInputIterator (C := C))
        (set_compacting db (Some (input_version_ c))) (CompactionState.make c);
  let '(db, cs, s) := (q : DBImpl E T F * CompactionState.CompactionState F * Status.Status) in
  let db := if Status.ok s then db else RecordBackgroundError db s in
  db ← CleanupCompaction db cs;
  Ret (RemoveObsoleteFiles dbname (set_compacting db None), s).

(** The manual compaction as its owner finds it: done, or with the rest of its range. *)
Definition manual_rest (c : option Compaction) (s : Status.Status) (m : ManualCompaction) : result ManualCompaction :=
  match c with
  | None => Ret (mkManual (m_level m) true (m_begin m) (m_end m))
  | Some c =>
      match last (inputs_0 c) with
      | None => Crash OutOfBounds
      | Some f =>
          if Status.ok s then Ret (mkManual (m_level m) false (Some (largest f)) (m_end m))
          else Ret (mkManual (m_level m) true (m_begin m) (m_end m))
      end
  end.

(** The database, and the manual compaction if it was one. *)
Definition BackgroundCompaction (fuel : nat) db : result (DBImpl E T F * option ManualCompaction) :=
  match imm_ db with
  | Some _ => db ← CompactMemTable (C := C) options dbname comparator_name max_file_size (others fuel) db; Ret (db, None)
  | None =>
      let is_manual := match manual_compaction_ db with Some _ => true | None => false end in
      q ← choose_compaction db;
      let '(c, db) := (q : option Compaction * DBImpl E T F) in
      q ← (match c with
           | None => Ret (db, Status.OK)
           | Some c => if negb is_manual && IsTrivialMove max_file_size c then move_file db c else merge_inputs fuel db c
           end);
      let '(db, s) := (q : DBImpl E T F * Status.Status) in
      if is_manual then
        match manual_compaction_ db with
        | None => Crash NullDeref
        | Some m => m ← manual_rest c s m; Ret (set_manual_compaction db None, Some m)
        end
      else Ret (db, None)
  end.

(** [BGWork], which takes one of the scheduled calls *)
Definition BackgroundCall (fuel : nat) db : result (DBImpl E T F * option ManualCompaction) :=
  let db := set_background_calls db (pred (background_calls_ db)) in
  if negb (background_compaction_scheduled_ db) then Crash AssertFailed
  else
    q ← (if shutting_down_ db || negb (Status.ok (bg_error_ db)) then Ret (db, None) else BackgroundCompaction fuel db);
    let '(db, m) := (q : DBImpl E T F * option ManualCompaction) in
    Ret (MaybeScheduleCompaction (set_background_compaction_scheduled db false), m).

(** *** MakeRoomForWrite *)

(** [ApproximateMemoryUsage] of a memtable, and [options_.write_buffer_size] *)
Context (memory_usage : MemTable.MemTable -> Z) (write_buffer_size : Z).

(** A new log and memtable; the old memtable becomes [imm_].  Nothing is changed but
    the environment when the log cannot be opened. *)
Definition switch_memtable db : result (DBImpl E T F * Status.Status) :=
  if negb (VersionSet.prev_log_number_ (versions_ db) =? 0) then Crash AssertFailed
  else
    let '(n, vs) := VersionSet.NewFileNumber (versions_ db) in
    name ← LogFileName dbname n;
    let '(env, s, file) := env_NewWritableFile (env_ db) name in
    let db := set_env db env in
    match file, Status.ok s with
    | _, false => Ret (set_versions db (VersionSet.ReuseFileNumber vs n), s)
    | None, true => Crash NullDeref
    | Some file, true =>
        let db := set_logfile_number (set_log (set_versions db vs) (Some (Writer.make file))) n in
        Ret (MaybeScheduleCompaction (set_mem (set_imm db (mem_ db)) (Some MemTable.make)), s)
    end.

(** [while (true)]; the number of turns left is [fuel]. *)
Fixpoint make_room (fuel : nat) db (force allow_delay : bool) : result (DBImpl E T F * Status.Status) :=
  match fuel with
  | O => Crash OutOfFuel
  | S n =>
      if negb (Status.ok (bg_error_ db)) then Ret (db, bg_error_ db)
      else
        files ← VersionSet.NumLevelFiles (versions_ db) 0;
        match mem_ db with
        | None => Crash NullDeref
        | Some mem =>
            if allow_delay && (kL0_SlowdownWritesTrigger <=? files) then make_room n (others n db) force false
            else if negb force && (memory_usage mem <=? write_buffer_size) then Ret (db, Status.OK)
            else
              match imm_ db with
              | Some _ => make_room n (others n db) force allow_delay
              | None =>
                  if kL0_StopWritesTrigger <=? files then make_room n (others n db) force allow_delay
                  else
                    q ← switch_memtable db;
                    let '(db, s) := (q : DBImpl E T F * Status.Status) in
                    if Status.ok s then make_room n db false allow_delay else Ret (db, s)
              end
        end
  end.

Definition MakeRoomForWrite (fuel : nat) db (force : bool) : result (DBImpl E T F * Status.Status) := make_room fuel db force (negb force).

End ops.
End DBBackground.
