(* ===== verification/DbOpen.v ===== *)
(** * leveldb: opening and destroying a database

    [DB::Open], [DBImpl::Recover], [DBImpl::RecoverLogFile] and [DestroyDB] of
    [db/db_impl.cc].  The state is that of [DbState.v]. *)

From Stdlib Require Import ZArith Lia.
From S2P Require Import Prelude CString World Coding SliceStatus FilterPolicy Logging DbFormat LogFile Iterators TwoLevelIterator Merger TableFormat TableBuilder.
From S2P Require Import DbTable MemTable DbWrite VersionEdit Version DbRead VersionSet BuildTable DbState Compaction CompactionWork DbBackground.

Module DBOpen.
Import DBState.

Section ops.
Context {E T D F : Type} `{EN : !Env E F, WF : !WritableFile F, SyF : !SyncFile F, TC : !TableCache T D, ITD : !Iterator D}.
Context `{C : !Comparator, PT : !Port} (options : Options) (dbname comparator_name : str) (max_file_size : Z).
(** [options_.paranoid_checks], [reuse_logs], [create_if_missing], [error_if_exists],
    [write_buffer_size], and [ApproximateMemoryUsage] of a memtable *)
Context (paranoid_checks reuse_logs create_if_missing error_if_exists : bool) (write_buffer_size : Z) (memory_usage : MemTable.MemTable -> Z).
Implicit Types (db : DBImpl E T F).

(** [DBImpl(...)] *)
Definition make (env : E) (tc : T) : DBImpl E T F :=
  mkDB env tc false None None None 0 SnapshotList.make ∅ false 0 None (VersionSet.make dbname) [] None Status.OK
    (replicate (Z.to_nat kNumLevels) no_stats).

(** *** RecoverLogFile *)

(** [WriteLevel0Table(mem, edit, nullptr)]; the mutex is held by the thread that opens
    the database, which nobody else knows yet. *)
Definition write_recovered (st : DBImpl E T F * VersionEdit) (mem : MemTable.MemTable) : result (DBImpl E T F * VersionEdit * Status.Status) :=
  WriteLevel0Table (C := C) options dbname max_file_size (fun db => db) (fst st) mem (snd st) None.

(** [GetFileSize] and [NewAppendableFile] of the log *)
Definition reopen_log (log_number : Z) (fname : str) (st : DBImpl E T F * VersionEdit) : result (DBImpl E T F * VersionEdit * bool) :=
  let '(db, edit) := st in
  match log_ db, mem_ db with
  | None, None =>
      let '(s, size) := env_GetFileSize (env_ db) fname in
      if negb (Status.ok s) then Ret (db, edit, false)
      else
        match env_NewAppendableFile (env_ db) fname with
        | (env, s, Some file) =>
            if Status.ok s then Ret (set_logfile_number (set_log (set_env db env) (Some (Writer.make_at file size))) log_number, edit, true)
            else Ret (set_env db env, edit, false)
        | (env, _, None) => Ret (set_env db env, edit, false)
        end
  | _, _ => Crash AssertFailed
  end.

(** The database and the edit, [*save_manifest], [*max_sequence] and the status. *)
Definition RecoverLogFile (log_number : Z) (last_log : bool) (st : DBImpl E T F * VersionEdit) (save_manifest : bool) (max_sequence : Z) :
    result (DBImpl E T F * VersionEdit * bool * Z * Status.Status) :=
  fname ← LogFileName dbname log_number;
  q ← DBImpl.RecoverLogFile (C := C) write_recovered (reopen_log log_number fname) (fun m => write_buffer_size <? memory_usage m) paranoid_checks
        (env_NewSequentialFile (env_ (fst st)) fname) (reuse_logs && last_log) st max_sequence;
  let '(db, edit, kept, max_sequence, save, s) := (q : DBImpl E T F * VersionEdit * option MemTable.MemTable * Z * bool * Status.Status) in
  let db := match kept with Some mem => set_mem db (Some mem) | None => db end in
  Ret (db, edit, save_manifest || save, max_sequence, s).

(** *** Recover *)

(** The files that should be there and are not, and the logs to recover, over the names
    of the directory. *)
Fixpoint check_files (vs : VersionSet.VersionSet F) (expected : gset Z) (logs : list Z) (filenames : list str) : gset Z * list Z :=
  match filenames with
  | [] => (expected, logs)
  | name :: filenames =>
      match ParseFileName name with
      | Some (n, type) =>
          let needed := match type with kLogFile => (VersionSet.log_number_ vs <=? n) || (n =? VersionSet.prev_log_number_ vs) | _ => false end in
          check_files vs (expected ∖ {[n]}) (if needed then logs ++ [n] else logs) filenames
      | None => check_files vs expected logs filenames
      end
  end.

(** [for (size_t i = 0; i < logs.size(); i++)] *)
Fixpoint recover_logs (logs : list Z) (st : DBImpl E T F * VersionEdit) (save_manifest : bool) (max_sequence : Z) :
    result (DBImpl E T F * VersionEdit * bool * Z * Status.Status) :=
  match logs with
  | [] => Ret (fst st, snd st, save_manifest, max_sequence, Status.OK)
  | n :: logs =>
      q ← RecoverLogFile n (match logs with [] => true | _ => false end) st save_manifest max_sequence;
      let '(db, edit, save_manifest, max_sequence, s) := (q : DBImpl E T F * VersionEdit * bool * Z * Status.Status) in
      if Status.ok s then recover_logs logs (set_versions db (VersionSet.MarkFileNumberUsed (versions_ db) n), edit) save_manifest max_sequence
      else Ret (db, edit, save_manifest, max_sequence, s)
  end.

(** [*(expected.begin())] *)
Definition smallest_of (s : gset Z) : option Z := head (merge_sort Z.le (elements s)).

(** The part of [Recover] behind [versions_->Recover]. *)
Definition recover_files db (edit : VersionEdit) (save_manifest : bool) : result (DBImpl E T F * VersionEdit * bool * Status.Status) :=
  let '(s, filenames) := env_GetChildren (env_ db) dbname in
  if negb (Status.ok s) then Ret (db, edit, save_manifest, s)
  else
    let '(expected, logs) := check_files (versions_ db) (AddLiveFiles db ∅) [] filenames in
    match smallest_of expected with
    | Some n =>
        name ← TableFileName dbname n;
        Ret (db, edit, save_manifest, Status.Corruption (to_string (Z.of_nat (size expected)) ++ $" missing files; e.g.") name)
    | None =>
        q ← recover_logs (merge_sort Z.le logs) (db, edit) save_manifest 0;
        let '(db, edit, save_manifest, max_sequence, s) := (q : DBImpl E T F * VersionEdit * bool * Z * Status.Status) in
        if negb (Status.ok s) then Ret (db, edit, save_manifest, s)
        else
          vs ← (if VersionSet.last_sequence_ (versions_ db) <? max_sequence then VersionSet.SetLastSequence (versions_ db) max_sequence
                else Ret (versions_ db));
          Ret (set_versions db vs, edit, save_manifest, Status.OK)
    end.

(** The database, [*edit], [*save_manifest] and the status. *)
Definition Recover db (edit : VersionEdit) : result (DBImpl E T F * VersionEdit * bool * Status.Status) :=
  let db := set_env db (fst (env_CreateDir (env_ db) dbname)) in
  let '(env, s) := env_LockFile (env_ db) (LockFileName dbname) in
  let db := set_env db env in
  if negb (Status.ok s) then Ret (db, edit, false, s)
  else
    q ← (if negb (env_FileExists (env_ db) (CurrentFileName dbname)) then
           if create_if_missing then NewDB dbname comparator_name db
           else Ret (db, Status.InvalidArgument dbname ($"does not exist (create_if_missing is false)"))
         else if error_if_exists then Ret (db, Status.InvalidArgument dbname ($"exists (error_if_exists is true)"))
         else Ret (db, Status.OK));
    let '(db, s) := (q : DBImpl E T F * Status.Status) in
    if negb (Status.ok s) then Ret (db, edit, false, s)
    else
      q ← VersionSet.Recover (C := C) comparator_name reuse_logs max_file_size (versions_ db) (env_ db);
      let '(vs, env, s, save_manifest) := (q : VersionSet.VersionSet F * E * Status.Status * bool) in
      let db := set_env (set_versions db vs) env in
      if negb (Status.ok s) then Ret (db, edit, save_manifest, s) else recover_files db edit save_manifest.

(** *** DB::Open *)

(** A new log and memtable, if recovery has not kept one. *)
Definition new_log db (edit : VersionEdit) : result (DBImpl E T F * VersionEdit * Status.Status) :=
  match mem_ db with
  | Some _ => Ret (db, edit, Status.OK)
  | None =>
      let '(n, vs) := VersionSet.NewFileNumber (versions_ db) in
      name ← LogFileName dbname n;
      let '(env, s, file) := env_NewWritableFile (env_ db) name in
      let db := set_env (set_versions db vs) env in
      match file, Status.ok s with
      | _, false => Ret (db, edit, s)
      | None, true => Crash NullDeref
      | Some file, true =>
          Ret (set_mem (set_logfile_number (set_log db (Some (Writer.make file))) n) (Some MemTable.make), SetLogNumber n edit, s)
      end
  end.

(** The database, and the status; with an error the database is deleted. *)
Definition Open (env : E) (tc : T) : result (DBImpl E T F * Status.Status) :=
  q ← Recover (make env tc) VersionEdit.Clear;
  let '(db, edit, save_manifest, s) := (q : DBImpl E T F * VersionEdit * bool * Status.Status) in
  q ← (if Status.ok s then new_log db edit else Ret (db, edit, s));
  let '(db, edit, s) := (q : DBImpl E T F * VersionEdit * Status.Status) in
  q ← (if Status.ok s && save_manifest then log_and_apply (C := C) comparator_name db (SetLogNumber (logfile_number_ db) (SetPrevLogNumber 0 edit))
       else Ret (db, s));
  let '(db, s) := (q : DBImpl E T F * Status.Status) in
  if Status.ok s then
    let db := DBBackground.MaybeScheduleCompaction (RemoveObsoleteFiles dbname db) in
    match mem_ db with None => Crash AssertFailed | Some _ => Ret (db, s) end
  else Ret (db, s).

(** *** DestroyDB *)

Definition destroy_file (q : E * Status.Status) (name : str) : E * Status.Status :=
  match ParseFileName name with
  | Some (_, kDBLockFile) | None => q
  | Some _ =>
      let '(env, del) := env_RemoveFile (fst q) (dbname ++ $"/" ++ name) in
      (env, if Status.ok (snd q) && negb (Status.ok del) then del else snd q)
  end.

Definition DestroyDB (env : E) : E * Status.Status :=
  let '(s, filenames) := env_GetChildren env dbname in
  if negb (Status.ok s) then (env, Status.OK)
  else
    let '(env, s) := env_LockFile env (LockFileName dbname) in
    if negb (Status.ok s) then (env, s)
    else
      let '(env, s) := foldl destroy_file (env, s) filenames in
      let env := fst (env_UnlockFile env (LockFileName dbname)) in
      let env := fst (env_RemoveFile env (LockFileName dbname)) in
      (fst (env_RemoveDir env dbname), s).

End ops.
End DBOpen.
