(* ===== verification/CompactionSpec.v ===== *)
(** * Compactions: what they keep

    Dropping entries in [DoCompactionWork] changes no answer at a snapshot that is
    still in use, and the tables it writes hold the entries that are kept. *)

From Stdlib Require Import ZArith Lia Permutation SpecFloat.
From S2P Require Import Prelude CString World Coding SliceStatus FilterPolicy Logging DbFormat LogFile Iterators TwoLevelIterator Merger TableFormat TableBuilder TableSpec TableRead.
From S2P Require Import DbTable MemTable DbIter DbWrite VersionEdit Version VersionSpec DbRead DbReadSpec VersionSet BuildTable DbState Compaction CompactionWork.

Section drops.
Context {T D : Type} (C : Comparator) {HC : ComparatorLaws C} {TC : TableCache T D} {TL : TableCacheLaws C TC} (max_file_size : Z).
Context (contents : Z -> list update).
Implicit Types (f : FileMetaData) (c : Compaction) (us : list update) (k : str) (s : Z).
Import DBCompact.

(** *** IsBaseLevelForKey *)

(** The files that were passed lie before the key. *)
Definition passed k (fs : list FileMetaData) (p : nat) : Prop :=
  forall j f, (j < p)%nat -> fs !! j = Some f -> Compare k (user_part (largest f)) = Gt.

Lemma passed_mono k k' fs p : passed k fs p -> Compare k k' <> Gt -> passed k' fs p.
Proof.
  intros Hp Hk j f Hj Hf. specialize (Hp j f Hj Hf). destruct (Compare k k') eqn:E; [by rewrite <- (cmp_eq_l _ _ _ E)| |done].
  rewrite cmp_antisym in Hp. apply CompOpp_iff in Hp. cbn in Hp. rewrite cmp_antisym. by rewrite (cmp_trans _ _ _ Hp E).
Qed.

Lemma base_scan_ok k fs : forall p, passed k fs p -> let '(p', inside) := base_scan (C := C) k (drop p fs) p in
  passed k fs p' /\ (inside = false -> forall f, fs !! p' = Some f -> Compare k (user_part (smallest f)) = Lt) /\
  (forall f, fs !! p' = Some f -> Compare k (user_part (largest f)) <> Gt).
Proof.
  assert (forall n p, (length fs - p <= n)%nat -> passed k fs p -> let '(p', inside) := base_scan (C := C) k (drop p fs) p in
    passed k fs p' /\ (inside = false -> forall f, fs !! p' = Some f -> Compare k (user_part (smallest f)) = Lt) /\
    (forall f, fs !! p' = Some f -> Compare k (user_part (largest f)) <> Gt)) as H; [|by intros p; apply (H (length fs)); lia].
  induction n as [|n IH]; intros p Hn Hp.
  - rewrite drop_ge by lia. cbn. rewrite lookup_ge_None_2 by lia. done.
  - destruct (fs !! p) as [f|] eqn:Ef; [|rewrite drop_ge by (by apply lookup_ge_None); cbn; by rewrite Ef].
    rewrite (drop_S _ _ _ Ef). cbn [base_scan]. destruct (Compare k (user_part (largest f))) eqn:E.
    + rewrite Ef. split; [done|]. split; [|by intros g [= <-]; rewrite E]. intros Hin g [= <-]. by destruct (Compare k (user_part (smallest f))).
    + rewrite Ef. split; [done|]. split; [|by intros g [= <-]; rewrite E]. intros Hin g [= <-]. by destruct (Compare k (user_part (smallest f))).
    + apply IH; [apply lookup_lt_Some in Ef; lia|]. intros j g Hj Hg. destruct (decide (j = p)) as [->|]; [by rewrite Ef in Hg; injection Hg as <-|]. apply (Hp j); [lia|done].
Qed.

Lemma head_elem {A} (l : list A) x : head l = Some x -> x ∈ l.
Proof. intros H. rewrite head_lookup in H. by eapply list_elem_of_lookup_2. Qed.

(** A level whose files are in order holds no update of a key between two files. *)
Lemma gap_no_update tc k fs p : Forall (file_ok C contents tc) fs -> ordered C (level_updates contents fs) -> passed k fs p ->
  (forall f, fs !! p = Some f -> Compare k (user_part (smallest f)) = Lt) ->
  forall b, b ∈ level_updates contents fs -> Compare (update_key b) k <> Eq.
Proof.
  intros Hfs Ho Hp Hat b Hb E. apply elem_level_updates in Hb as (f & Hf & Hb). apply list_elem_of_lookup in Hf as [j Hj]. rewrite Forall_lookup in Hfs.
  pose proof (Hfs j f Hj) as Hok. assert (Version.in_range (C := C) k f = true) as Hin.
  { destruct (Version.in_range k f) eqn:Er; [done|]. pose proof (newest_spec C k (update_seq b) (contents (number f))) as Hn.
    rewrite (newest_out_of_range C contents tc f k (update_seq b) Hok Er) in Hn. specialize (Hn b Hb). unfold visible in Hn. rewrite E in Hn. apply Z.leb_gt in Hn. lia. }
  unfold Version.in_range in Hin. destruct (decide (j < p)%nat) as [Hlt|Hge].
  - rewrite (Hp j f Hlt Hj) in Hin. by destruct (Compare k (user_part (smallest f))).
  - destruct (lookup_lt_is_Some_2 fs p) as [g Hg]; [apply lookup_lt_Some in Hj; lia|]. specialize (Hat g Hg).
    destruct (decide (j = p)) as [->|]; [rewrite Hj in Hg; injection Hg as ->; by rewrite Hat in Hin|].
    destruct (Hfs p g Hg) as [Hog _ (a & Ha & Ea) _ _]. rewrite Ea, user_part_update in Hat by (rewrite head_lookup in Ha; by eapply ok_at).
    assert (Compare (update_key a) (update_key b) <> Gt) as Hab.
    { assert (a ∈ level_updates contents (take (S p) fs)) as Hal.
      { apply elem_level_updates. exists g. split; [apply (list_elem_of_lookup_2 _ p); by rewrite lookup_take_lt by lia|by apply head_elem]. }
      assert (b ∈ level_updates contents (drop (S p) fs)) as Hbl.
      { apply elem_level_updates. exists f. split; [|done]. apply (list_elem_of_lookup_2 _ (j - S p)). rewrite lookup_drop. rewrite <- Hj. f_equal. lia. }
      assert (level_updates contents fs = level_updates contents (take (S p) fs) ++ level_updates contents (drop (S p) fs)) as Es.
      { unfold level_updates. by rewrite <- concat_app, <- map_app, take_drop. }
      rewrite Es in Ho. apply list_elem_of_lookup in Hal as [i1 H1]. apply list_elem_of_lookup in Hbl as [i2 H2].
      pose proof (lookup_lt_Some _ _ _ H1). apply (key_order_at C _ Ho i1 (length (level_updates contents (take (S p) fs)) + i2)); [lia|by rewrite lookup_app_l|].
      rewrite lookup_app_r by lia. rewrite <- H2. f_equal. lia. }
    rewrite (cmp_eq_r _ _ _ E), cmp_antisym in Hab. by rewrite Hat in Hab.
Qed.

Lemma base_levels_ok tc k levels : forall ptrs, Forall2 (passed k) levels ptrs ->
  Forall (fun fs => Forall (file_ok C contents tc) fs /\ ordered C (level_updates contents fs)) levels ->
  let '(base, ptrs') := base_levels (C := C) k levels ptrs in
  Forall2 (passed k) levels ptrs' /\ (base = true -> forall b, b ∈ level_updates contents (concat levels) -> Compare (update_key b) k <> Eq).
Proof.
  induction levels as [|fs levels IH]; intros [|p ptrs] Hp Hl; inversion Hp as [|? ? ? ? Hp1 Hp2]; subst; cbn [base_levels].
  { split; [done|]. by intros _ b ?%elem_of_nil. }
  apply Forall_cons_1 in Hl as [[Hfs Ho] Hl]. pose proof (base_scan_ok k fs p Hp1) as Hs. destruct (base_scan k (drop p fs) p) as [p' inside]. destruct Hs as (Hp' & Hat & _).
  destruct inside; [split; [by constructor|done]|]. specialize (IH ptrs Hp2 Hl). destruct (base_levels k levels ptrs) as [base ptrs']. destruct IH as [IHp IHb].
  split; [by constructor|]. intros Hb b Hin. cbn [concat] in Hin. unfold level_updates in Hin. rewrite map_app, concat_app in Hin. apply elem_of_app in Hin as [Hin|Hin].
  - by apply (gap_no_update tc k fs p' Hfs Ho Hp' (Hat eq_refl)).
  - by apply IHb.
Qed.

(** The levels below the output. *)
Definition deep_levels c : list (list FileMetaData) := drop (Z.to_nat (level_ c + 2)) (Version.files_ (input_version_ c)).
Definition deep c : list update := level_updates contents (concat (deep_levels c)).

(** What a compaction keeps while it runs: its level and version, and pointers below a key. *)
Record compacting (tc : T) (c0 c : Compaction) k : Prop := {
  cp_level : level_ c = level_ c0;
  cp_version : input_version_ c = input_version_ c0;
  cp_range : 0 <= level_ c0 <= kNumLevels - 2;
  cp_ptrs : length (level_ptrs_ c) = Z.to_nat kNumLevels;
  cp_passed : Forall2 (passed k) (deep_levels c0) (drop (Z.to_nat (level_ c0 + 2)) (level_ptrs_ c));
  cp_files : Forall (fun fs => Forall (file_ok C contents tc) fs /\ ordered C (level_updates contents fs)) (deep_levels c0)
}.

Lemma compacting_mono tc c0 c k k' : compacting tc c0 c k -> Compare k k' <> Gt -> compacting tc c0 c k'.
Proof. intros [? ? ? ? Hp ?] Hk. split; try done. eapply Forall2_impl; [exact Hp|]. intros fs p H. by eapply passed_mono. Qed.

Lemma IsBaseLevelForKey_ok tc c0 c k : compacting tc c0 c k ->
  let '(base, c') := IsBaseLevelForKey (C := C) c k in
  compacting tc c0 c' k /\ (base = true -> forall b, b ∈ deep c0 -> Compare (update_key b) k <> Eq).
Proof.
  intros [Hl Hv Hr Hn Hp Hf]. unfold IsBaseLevelForKey. rewrite Hl, Hv. fold (deep_levels c0).
  pose proof (base_levels_ok tc k _ _ Hp Hf) as H. destruct (base_levels k (deep_levels c0) _) as [base ptrs]. destruct H as [Hp' Hb]. split; [|exact Hb].
  assert (length (take (Z.to_nat (level_ c0 + 2)) (level_ptrs_ c)) = Z.to_nat (level_ c0 + 2)) as Ht by (rewrite length_take; unfold kNumLevels in *; lia).
  split; cbn [level_ input_version_ level_ptrs_ set_ptrs]; try done.
  - rewrite length_app, Ht, <- (Forall2_length _ _ _ Hp'), (Forall2_length _ _ _ Hp), length_drop, Hn. unfold kNumLevels in *. lia.
  - by rewrite (drop_app_length' _ _ _ (eq_sym Ht)).
Qed.

Lemma ShouldStopBefore_ok tc c0 c k key : compacting tc c0 c k -> compacting tc c0 (snd (ShouldStopBefore (C := C) max_file_size c key)) k.
Proof.
  intros [? ? ? ? ? ?]. unfold ShouldStopBefore. destruct (pass_grandparents _ _ _ _ _) as [index overlapped]. destruct (_ <? overlapped); by split.
Qed.

(** *** The updates that are kept *)

Fixpoint kept (S : Z) c (ks : KeyState) us : list update :=
  match us with
  | [] => []
  | a :: us =>
      let key := fst (update_entry a) in
      let c := snd (ShouldStopBefore (C := C) max_file_size c key) in
      let '(drop, c, ks) := drop_entry (C := C) S c ks key in
      if (drop : bool) then kept S c ks us else a :: kept S c ks us
  end.

Lemma kept_sublist S us : forall c ks, sublist (kept S c ks us) us.
Proof.
  induction us as [|a us IH]; intros c ks; cbn [kept]; [constructor|]. destruct (drop_entry _ _ _ _) as [[drop c'] ks']. destruct drop; by constructor.
Qed.

(** [answer] as a reader sees it: a deleted key is not there. *)
Definition shown_value (a : option update) : option str := match answer <$> a with Some (inl v) => Some v | _ => None end.

(** The rest of a key is hidden by an entry that every snapshot sees. *)
Definition hidden (S : Z) (ks : KeyState) k : Prop :=
  exists k0, current_user_key ks = Some k0 /\ Compare k0 k = Eq /\ last_sequence_for_key ks <= S.

(** The rest of the input comes behind the current key. *)
Definition behind (ks : KeyState) us : Prop :=
  forall k0, current_user_key ks = Some k0 -> forall b, b ∈ us -> Compare k0 (update_key b) <> Gt /\
    (Compare k0 (update_key b) = Eq -> update_seq b <= last_sequence_for_key ks).

Lemma find_none us k s : (forall b, b ∈ us -> Compare (update_key b) k <> Eq) -> List.find (visible C k s) us = None.
Proof.
  intros H. destruct (List.find (visible C k s) us) as [b|] eqn:Ef; [|done]. apply find_some in Ef as [Hb Hv]. rewrite <- list_elem_of_In in Hb.
  exfalso. apply (H b Hb). unfold visible in Hv. by destruct (Compare (update_key b) k).
Qed.

Lemma ordered_head a us : ordered C (a :: us) -> ordered C us /\ update_ok a /\
  forall b, b ∈ us -> Compare (update_key a) (update_key b) <> Gt /\ (Compare (update_key a) (update_key b) = Eq -> update_seq b <= update_seq a).
Proof.
  intros [Hok Hs]. apply Forall_cons_1 in Hok as [Ha Hok]. cbn [map] in Hs. apply StronglySorted_inv in Hs as [Hs Hf]. split; [by split|]. split; [done|].
  intros b Hb. rewrite Forall_map in Hf. rewrite Forall_forall in Hf, Hok. specialize (Hf b Hb). specialize (Hok b Hb). cbv beta in Hf. destruct b as [[[sb tb] kb] vb].
  cbn [update_entry fst] in Hf. rewrite entry_compare in Hf by (done || apply Hok). unfold ikey_order in Hf. cbn [update_key update_seq].
  destruct (Compare (update_key a) kb); [|split; congruence|done]. split; [done|]. intros _. rewrite Z.compare_lt_iff in Hf. unfold packed in Hf.
  destruct tb, (update_type a); cbn in Hf; lia.
Qed.

(** The state after an update. *)
Lemma drop_entry_ok tc c0 S c ks a : update_ok a -> compacting tc c0 c (update_key a) -> S < kMaxSequenceNumber ->
  let same := match current_user_key ks with Some k0 => match Compare (update_key a) k0 with Eq => true | _ => false end | None => false end in
  let last := if same then last_sequence_for_key ks else kMaxSequenceNumber in
  exists dropped c' k1, drop_entry (C := C) S c ks (fst (update_entry a)) = (dropped, c', mkKey (Some k1) (update_seq a)) /\
    Compare k1 (update_key a) = Eq /\ compacting tc c0 c' (update_key a) /\
    (last <= S -> dropped = true) /\
    (S < last -> dropped = true -> update_type a = kTypeDeletion /\ update_seq a <= S /\ forall b, b ∈ deep c0 -> Compare (update_key b) (update_key a) <> Eq).
Proof.
  intros Ha Hc HS same last. unfold drop_entry. destruct (update_parts a Ha) as (Hp & _). rewrite Hp. cbn [user_key type sequence].
  set (ks1 := match current_user_key ks with Some k => _ | None => _ end).
  assert (exists k1, ks1 = mkKey (Some k1) last /\ Compare k1 (update_key a) = Eq) as (k1 & -> & Hk1).
  { unfold ks1, last, same. destruct ks as [[k0|] q]; cbn [current_user_key last_sequence_for_key]; [|exists (update_key a); split; [done|apply cmp_refl]].
    destruct (Compare (update_key a) k0) eqn:E; [exists k0; split; [done|exact (cmp_flip _ _ _ E)]|exists (update_key a); split; [done|apply cmp_refl]..]. }
  cbn [last_sequence_for_key current_user_key]. pose proof (IsBaseLevelForKey_ok tc c0 c (update_key a) Hc) as Hb.
  destruct (Z.leb_spec last S) as [Hle|Hgt]; [by exists true, c, k1; split_and!; auto; lia|].
  destruct (update_type a) eqn:Et; [|exists false, c, k1; by split_and!; auto; lia].
  destruct (Z.leb_spec (update_seq a) S); [|exists false, c, k1; by split_and!; auto; lia].
  destruct (IsBaseLevelForKey c (update_key a)) as [base c']. destruct Hb as [Hc' Hb]. exists base, c', k1. split_and!; auto; lia.
Qed.

(** Dropping changes no answer: the rest of a key that is hidden disappears, and any
    other key reads as before. *)
Lemma kept_lookups tc c0 S s k us : S < kMaxSequenceNumber -> S <= s -> forall c ks, ordered C us -> behind ks us ->
  Forall (fun a => compacting tc c0 c (update_key a)) us ->
  (hidden S ks k -> List.find (visible C k s) (kept S c ks us) = None) /\
  (~ hidden S ks k ->
   shown_value (match List.find (visible C k s) (kept S c ks us) with Some a => Some a | None => newest C k s (deep c0) end) =
   shown_value (match List.find (visible C k s) us with Some a => Some a | None => newest C k s (deep c0) end)).
Proof.
  intros HS Hs. induction us as [|a us IH]; intros c ks Ho Hbehind Hcs; cbn [kept List.find]; [done|].
  destruct (ordered_head a us Ho) as (Ho' & Ha & Hhead). apply Forall_cons_1 in Hcs as [Hca Hcs]. set (c1 := snd (ShouldStopBefore max_file_size c (fst (update_entry a)))).
  pose proof (ShouldStopBefore_ok tc c0 c (update_key a) (fst (update_entry a)) Hca) as Hc1. fold c1 in Hc1.
  destruct (drop_entry_ok tc c0 S c1 ks a Ha Hc1 HS) as (dropped & c' & k1 & -> & Hk1 & Hc' & Hdrop & Hkeep).
  set (same := match current_user_key ks with Some k0 => _ | None => false end) in *. set (last := if same then _ else _) in *.
  assert (behind (mkKey (Some k1) (update_seq a)) us) as Hbehind'.
  { intros k0 [= <-] b Hb. cbn [last_sequence_for_key]. rewrite (cmp_eq_l _ _ _ Hk1). by apply Hhead. }
  assert (Forall (fun b => compacting tc c0 c' (update_key b)) us) as Hcs'.
  { apply Forall_forall. intros b Hb. apply (compacting_mono tc c0 c' (update_key a)); [done|by apply Hhead]. }
  destruct (IH c' (mkKey (Some k1) (update_seq a)) Ho' Hbehind' Hcs') as [IHh IHn]. clear IH.
  assert (hidden S (mkKey (Some k1) (update_seq a)) k <-> Compare (update_key a) k = Eq /\ update_seq a <= S) as Hhid.
  { unfold hidden. cbn [current_user_key last_sequence_for_key]. rewrite <- (cmp_eq_l _ _ _ Hk1). naive_solver. }
  (* a key that is not this one *)
  destruct (Compare (update_key a) k) eqn:Ek.
  2-3: assert (visible C k s a = false) as Hv by (unfold visible; by rewrite Ek);
    assert (List.find (visible C k s) (if dropped then kept S c' (mkKey (Some k1) (update_seq a)) us else a :: kept S c' (mkKey (Some k1) (update_seq a)) us) =
            List.find (visible C k s) (kept S c' (mkKey (Some k1) (update_seq a)) us)) as -> by (destruct dropped; [done|]; cbn [List.find]; by rewrite Hv);
    rewrite Hv; split; [|intros _; apply IHn; rewrite Hhid; naive_solver];
    intros (k0 & Hk0 & E0 & _); apply find_none; intros b Hb E; pose proof (elem_of_sublist _ _ _ Hb (kept_sublist S us _ _)) as Hb1;
    pose proof (proj1 (Hbehind k0 Hk0 a ltac:(by left))) as H1; rewrite (cmp_eq_l _ _ _ E0) in H1;
    pose proof (proj1 (Hhead b Hb1)) as H2; rewrite (cmp_eq_r _ _ _ E), Ek in H2; try done;
    rewrite cmp_antisym, Ek in H1; done.
  assert (forall k0, current_user_key ks = Some k0 -> (Compare (update_key a) k0 = Eq <-> Compare k0 k = Eq)) as Hsame.
  { intros k0 _. rewrite (cmp_eq_l _ _ _ Ek). split; intros E; exact (cmp_flip _ _ _ E). }
  assert (hidden S ks k <-> last <= S) as Hh.
  { unfold hidden, last, same. destruct (current_user_key ks) as [k0|]; [|split; [naive_solver|lia]]. specialize (Hsame k0 eq_refl).
    destruct (Compare (update_key a) k0); [split; [naive_solver|intros; exists k0; naive_solver]|split; [|lia]; naive_solver..]. }
  assert (last <= S -> update_seq a <= S) as Hlast.
  { unfold last, same. destruct (current_user_key ks) as [k0|] eqn:Ec; [|lia]. destruct (Compare (update_key a) k0) eqn:E; [|lia..]. intros.
    pose proof (proj2 (Hbehind k0 Ec a ltac:(by left)) (cmp_flip _ _ _ E)). lia. }
  split.
  - intros H%Hh. rewrite (Hdrop H). apply IHh, Hhid. split; [done|by apply Hlast].
  - intros H. assert (S < last) as Hgt by (rewrite Hh in H; lia). destruct dropped.
    + destruct (Hkeep Hgt eq_refl) as (Ht & Hsq & Hno). rewrite IHh by (by apply Hhid).
      assert (visible C k s a = true) as -> by (unfold visible; rewrite Ek; apply Z.leb_le; lia).
      destruct (newest C k s (deep c0)) as [b|] eqn:En.
      * apply newest_elem in En as (Hb & _ & Eb). exfalso. apply (Hno b Hb). by rewrite (cmp_eq_r _ _ _ Ek).
      * unfold shown_value. destruct a as [[[sa ta] ka] va]. cbn in Ht. by rewrite Ht.
    + cbn [List.find]. destruct (visible C k s a) eqn:Ev; [done|]. apply IHn. rewrite Hhid. intros [_ Hle]. unfold visible in Ev. rewrite Ek in Ev. apply Z.leb_gt in Ev. lia.
Qed.

End drops.
