(* ===== verification/CompactionWorkSpec.v ===== *)
(** * Compactions: the tables they write

    The loop of [DoCompactionWork] reads every input, and writes the entries that are
    kept to new tables in order; by [kept_lookups] no snapshot in use sees a
    difference. *)

From Stdlib Require Import ZArith Lia Permutation SpecFloat.
From S2P Require Import Prelude CString World Coding SliceStatus FilterPolicy Logging DbFormat LogFile Iterators TwoLevelIterator Merger TableFormat TableBuilder TableSpec TableRead.
From S2P Require Import DbTable MemTable DbIter DbWrite VersionEdit Version VersionSpec DbRead DbReadSpec VersionSet VersionSetSpec BuildTable DbState BuildTableSpec Compaction CompactionWork CompactionSpec.

Section outputs.
Context {E T D : Type} {EN : Env E str} {TF : TableFiles EN} {TC : TableCache T D} {ITD : Iterator D} {TO : TableCacheOpens TC}.
Context (C : Comparator) {HC : ComparatorLaws C} {PT : Port} {PL : PortLaws PT} (options : Options) (dbname comparator_name : str) (max_file_size : Z).
Implicit Types (db : DBState.DBImpl E T str) (us g : list update) (a : update).
Import DBState CompactionState DBCompact.

Abbreviation key_of a := (fst (update_entry a)).
Abbreviation fits us := (buildable (C := internal_comparator C) options (map update_entry us)).

(** The table of an output holds the updates, and the output describes it. *)
Record written (e : E) (out : Output) g : Prop := {
  wt_number : 0 < number out <= kMaxUint64;
  wt_first : exists a, head g = Some a /\ smallest out = key_of a;
  wt_last : exists a, last g = Some a /\ largest out = key_of a;
  wt_data : exists name data, TableFileName dbname (number out) = Ret name /\ env_data e name = Some data /\
    build_table (C := internal_comparator C) options (map update_entry g) = Ret (data, Status.OK) /\ file_size out = str_size data
}.

(** The output that is being written. *)
Record open_output (e : E) (b : TableBuilder.Rep str) (out : Output) g : Prop := {
  oo_number : 0 < number out <= kMaxUint64;
  oo_filled : filled (C := internal_comparator C) options b (map update_entry g);
  oo_file : exists name, TableFileName dbname (number out) = Ret name /\ env_writes e name;
  oo_range : g <> [] -> (exists a, head g = Some a /\ smallest out = key_of a) /\ (exists a, last g = Some a /\ largest out = key_of a)
}.

(** The state of the loop: closed outputs with their groups, and the current one. *)
Record writing_groups db (cs : CompactionState str) (n0 : Z) (gs : list (list update)) g : Prop := {
  wg_next : VersionSet.next_file_number_ (versions_ db) = n0 + Z.of_nat (length (outputs cs));
  wg_numbers : map number (outputs cs) = seqZ n0 (Z.of_nat (length (outputs cs)));
  wg_outputs : match builder cs with
    | None => g = [] /\ Forall2 (written (env_ db)) (outputs cs) gs
    | Some b => exists outs out, outputs cs = outs ++ [out] /\ Forall2 (written (env_ db)) outs gs /\ open_output (env_ db) b out g
    end
}.

(** What writing a table leaves alone. *)
Definition steady db (cs : CompactionState str) db' (cs' : CompactionState str) : Prop :=
  compaction cs' = compaction cs /\ smallest_snapshot cs' = smallest_snapshot cs /\ imm_ db' = imm_ db /\ shutting_down_ db' = shutting_down_ db.

Lemma on_output_snoc f (cs : CompactionState str) outs out : outputs cs = outs ++ [out] ->
  on_output f cs = Ret (mkState (compaction cs) (smallest_snapshot cs) (outs ++ [f out]) (builder cs) (total_bytes cs)).
Proof.
  intros Ho. unfold on_output. rewrite Ho, last_snoc, length_app. cbn [length]. replace (length outs + 1 - 1)%nat with (length outs) by lia. by rewrite take_app_length.
Qed.

(** Writing another table leaves the ones that are written. *)
Lemma written_kept e e' outs gs n name : Forall2 (written e) outs gs -> TableFileName dbname n = Ret name -> 0 < n <= kMaxUint64 ->
  n ∉ map number outs -> (forall m, m <> name -> env_data e' m = env_data e m) -> Forall2 (written e') outs gs.
Proof.
  intros Hw Hname Hn Hnot Hsame. induction Hw as [|out g outs gs [Hr Hf Hl (nm & data & H1 & H2 & H3)] Hw IH]; constructor.
  - split; [done..|]. exists nm, data. split; [done|]. split; [|done]. rewrite Hsame; [done|]. intros ->. apply Hnot. cbn [map]. rewrite (table_file_name_inj dbname n (number out) name); [left|done..].
  - apply IH. intros Hin. apply Hnot. by right.
Qed.

(** Closing the current output. *)
Lemma Finish_ok db cs n0 gs g b : writing_groups db cs n0 gs g -> builder cs = Some b -> g <> [] -> fits g ->
  exists db' cs', FinishCompactionOutputFile (C := C) db cs Status.OK = Ret (db', cs', Status.OK) /\ writing_groups db' cs' n0 (gs ++ [g]) [] /\
    builder cs' = None /\ length (outputs cs') = length (outputs cs) /\ steady db cs db' cs'.
Proof.
  intros [Hnext Hnums Hout] Hb Hne Hfit. rewrite Hb in Hout. destruct Hout as (outs & out & Ho & Hw & [Hn Hf (name & Hname & Hwr) Hr]). destruct (Hr Hne) as [Hfirst Hlast].
  unfold FinishCompactionOutputFile. rewrite Hb. assert (last (outputs cs) = Some out) as -> by (by rewrite Ho, last_snoc). destruct (Z.eqb_spec (number out) 0); [lia|].
  destruct (buildable_finish options b _ Hf Hfit) as (Hnum & b' & Hfin & Hbt & Hsz & Hdes & Hpos). rewrite Hnum. change (Status.ok Status.OK) with true. cbv iota. rewrite Hfin.
  cbn [mbind result_bind]. rewrite (on_output_snoc _ cs outs out Ho). cbn [mbind result_bind]. rewrite Hdes. cbn [mbind result_bind].
  destruct (close_ok (env_ db) name (TableBuilder.file b') Hwr) as (e' & -> & Hdata & Hsame). change (Status.ok Status.OK) with true. rewrite length_map.
  assert ((0 <? Z.of_nat (length g)) = true) as -> by (apply Z.ltb_lt; destruct g; [done|cbn [length]; lia]). cbn [andb]. cbn [table_cache_ set_env].
  destruct (verify_ok (table_cache_ db) (number out) (TableBuilder.FileSize b')) as (t' & ->). cbn [mbind result_bind].
  eexists _, _. split; [done|]. split; [|split; [done|]; split; [cbn; by rewrite Ho, !length_app|done]].
  assert (number out ∉ map number outs) as Hnot.
  { rewrite Ho, map_app in Hnums. cbn [map] in Hnums. pose proof (NoDup_seqZ n0 (Z.of_nat (length (outs ++ [out])))) as Hnd. rewrite <- Hnums in Hnd.
    apply NoDup_app in Hnd as (_ & Hnd & _). intros Hin. apply (Hnd _ Hin). by left. }
  split; cbn.
  - rewrite Hnext, Ho, !length_app. done.
  - rewrite Ho, map_app, length_app in Hnums. rewrite map_app, length_app. done.
  - split; [done|]. apply Forall2_app; [by eapply written_kept|]. constructor; [|done]. split; cbn; [done..|]. exists name, (TableBuilder.file b'). by split_and!.
Qed.

(** Opening an output. *)
Lemma Open_ok db cs n0 gs us : writing_groups db cs n0 gs [] -> builder cs = None -> 0 < n0 -> n0 + Z.of_nat (length (outputs cs)) < kMaxUint64 -> fits us ->
  exists db' cs' b, OpenCompactionOutputFile options dbname db cs = Ret (db', cs', Status.OK) /\ writing_groups db' cs' n0 gs [] /\
    builder cs' = Some b /\ length (outputs cs') = S (length (outputs cs)) /\ steady db cs db' cs'.
Proof.
  intros [Hnext Hnums Hout] Hb Hn0 Hbound Hfit. rewrite Hb in Hout. destruct Hout as [_ Hw]. unfold OpenCompactionOutputFile. rewrite Hb. cbn [VersionSet.NewFileNumber].
  unfold VersionSet.NewFileNumber. rewrite Hnext. set (n := n0 + Z.of_nat (length (outputs cs))) in *.
  assert (0 < n <= kMaxUint64) as Hn by (unfold n in *; lia). destruct (table_file_name dbname n Hn) as (base & Hname & _). rewrite Hname. cbn [mbind result_bind].
  set (name := dbname ++ $"/" ++ base) in *. destruct (new_file (env_ db) name) as (e' & -> & Hwr & Hsame). change (Status.ok Status.OK) with true. cbv iota.
  destruct (buildable_make options _ Hfit) as (b & -> & Hf). cbn [mbind result_bind]. eexists _, _, b. split; [done|].
  split; [|split; [done|]; split; [cbn; rewrite length_app; cbn; lia|done]].
  assert (n ∉ map number (outputs cs)) as Hnot by (rewrite Hnums, elem_of_seqZ; unfold n; lia).
  split; cbn.
  - rewrite length_app. cbn. rewrite wrap_small; unfold n, kMaxUint64 in *; lia.
  - rewrite map_app, length_app, Hnums. cbn [map number length]. rewrite Nat2Z.inj_add, seqZ_app by lia. by f_equal.
  - exists (outputs cs), (mkOutput n 0 [] []). split; [done|]. split; [by eapply written_kept|]. split; cbn; [done|done| |done]. by exists name.
Qed.

(** The entry is the last one of the current output. *)
Lemma add_entry_ok db cs n0 gs g b a : writing_groups db cs n0 gs g -> builder cs = Some b -> fits (g ++ [a]) ->
  TableBuilder.NumEntries b = Z.of_nat (length g) /\
  exists cs1 cs2 b', (if TableBuilder.NumEntries b =? 0 then on_output (fun out => mkOutput (number out) (file_size out) (key_of a) (largest out)) cs else Ret cs) = Ret cs1 /\
    on_output (fun out => mkOutput (number out) (file_size out) (smallest out) (key_of a)) cs1 = Ret cs2 /\
    TableBuilder.Add (C := internal_comparator C) b (key_of a) (snd (update_entry a)) = Ret b' /\
    writing_groups db (set_builder cs2 (Some b')) n0 gs (g ++ [a]) /\ length (outputs cs2) = length (outputs cs) /\ steady db cs db cs2.
Proof.
  intros [Hnext Hnums Hout] Hb Hfit. rewrite Hb in Hout. destruct Hout as (outs & out & Ho & Hw & [Hn Hf Hfile Hr]). rewrite map_app in Hfit. cbn [map] in Hfit.
  rewrite (surjective_pairing (update_entry a)) in Hfit. destruct (buildable_add options b _ _ _ [] Hf Hfit) as (Hnum & b' & Hadd & Hf'). rewrite length_map in Hnum. split; [done|].
  set (first := fun o => mkOutput (number o) (file_size o) (key_of a) (largest o)).
  assert (exists out1, (if TableBuilder.NumEntries b =? 0 then on_output first cs else Ret cs) =
      Ret (mkState (compaction cs) (smallest_snapshot cs) (outs ++ [out1]) (builder cs) (total_bytes cs)) /\ number out1 = number out /\
      exists x, head (g ++ [a]) = Some x /\ smallest out1 = key_of x) as (out1 & -> & Hn1 & Hs1).
  { rewrite Hnum. destruct (Z.eqb_spec (Z.of_nat (length g)) 0) as [Eg|Eg].
    - rewrite (on_output_snoc first cs outs out Ho). exists (first out). destruct g; [|cbn in Eg; lia]. split_and!; [done..|]. by exists a.
    - exists out. split; [destruct cs; cbn in *; by subst|]. split; [done|]. destruct Hr as [(x & Hx & Es) _]; [by intros ->|]. exists x. split; [|done]. by destruct g. }
  eexists _, _, b'. split; [done|]. rewrite (on_output_snoc _ _ outs out1) by done. split; [done|]. split; [done|].
  split; [|split; [cbn; by rewrite Ho, !length_app|done]]. rewrite Ho, map_app, length_app in Hnums. split; cbn.
  - rewrite Hnext, Ho, !length_app. done.
  - rewrite map_app, length_app. cbn [map number]. by rewrite Hn1.
  - eexists outs, _. split; [done|]. split; [done|]. split; cbn; rewrite ?Hn1; [done| |done|].
    + rewrite map_app. cbn [map]. by rewrite (surjective_pairing (update_entry a)).
    + intros _. split; [done|]. exists a. by rewrite last_snoc.
Qed.

(** An entry that is kept is written. *)
Lemma keep_entry_ok db cs n0 gs g a : writing_groups db cs n0 gs g -> 0 < n0 -> n0 + Z.of_nat (length (outputs cs)) < kMaxUint64 -> fits (g ++ [a]) ->
  exists db' cs' gs' g', keep_entry (C := C) options dbname db cs (key_of a) (snd (update_entry a)) Status.OK = Ret (db', cs', Status.OK, true) /\
    writing_groups db' cs' n0 gs' g' /\ concat gs' ++ g' = concat gs ++ g ++ [a] /\ (g' = g ++ [a] \/ g' = []) /\ (is_Some (builder cs') -> g' <> []) /\
    (length (outputs cs') <= S (length (outputs cs)))%nat /\ steady db cs db' cs'.
Proof.
  intros Hw Hn0 Hbound Hfit. unfold keep_entry.
  assert (exists db1 cs1 b, match builder cs with None => OpenCompactionOutputFile options dbname db cs | Some _ => Ret (db, cs, Status.OK) end = Ret (db1, cs1, Status.OK) /\
    writing_groups db1 cs1 n0 gs g /\ builder cs1 = Some b /\ (length (outputs cs1) <= S (length (outputs cs)))%nat /\ steady db cs db1 cs1) as (db1 & cs1 & b & -> & Hw1 & Hb1 & Hl1 & Hs1).
  { destruct (builder cs) as [b|] eqn:Eb; [exists db, cs, b; split_and!; try done; lia|]. assert (g = []) as -> by (destruct Hw as [_ _ Hw]; rewrite Eb in Hw; by destruct Hw).
    destruct (Open_ok db cs n0 gs [a] Hw Eb Hn0 Hbound Hfit) as (db1 & cs1 & b & -> & Hw1 & Hb1 & Hl1 & Hs1). exists db1, cs1, b. split_and!; try done; lia. }
  cbn [mbind result_bind]. change (Status.ok Status.OK) with true. cbn [negb]. cbv iota. rewrite Hb1.
  destruct (add_entry_ok db1 cs1 n0 gs g b a Hw1 Hb1 Hfit) as (Hnum & cs2 & cs3 & b' & -> & H3 & Hadd & Hw3 & Hl3 & Hs3). cbn [mbind result_bind]. rewrite H3. cbn [mbind result_bind].
  rewrite Hadd. cbn [mbind result_bind]. destruct Hs1 as (Hc1 & Hsm1 & Hi1 & Hd1), Hs3 as (Hc3 & Hsm3 & Hi3 & Hd3). destruct (_ <=? TableBuilder.FileSize b').
  - destruct (Finish_ok db1 (set_builder cs3 (Some b')) n0 gs (g ++ [a]) b' Hw3) as (db4 & cs4 & -> & Hw4 & Hb4 & Hl4 & Hc4 & Hsm4 & Hi4 & Hd4); [done|by destruct g|done|].
    cbn [mbind result_bind]. exists db4, cs4, (gs ++ [g ++ [a]]), []. split; [done|]. split; [done|]. split; [by rewrite concat_app; cbn; rewrite !app_nil_r|]. rewrite Hb4. split; [by right|].
    split; [by intros []|]. cbn in Hl4, Hc4, Hsm4. split; [lia|]. split_and!; congruence.
  - eexists db1, _, gs, (g ++ [a]). split; [done|]. split; [done|]. split; [done|]. split; [by left|]. split; [by destruct g|]. cbn. split; [lia|]. split_and!; cbn; congruence.
Qed.

(** *** The loop *)

(** What other threads may do meanwhile: they leave the new files alone, and neither
    switch memtables nor close the database. *)
Record quiet db db' : Prop := {
  qt_writes name : env_writes (env_ db) name -> env_writes (env_ db') name;
  qt_data name : env_data (env_ db') name = env_data (env_ db) name;
  qt_imm : imm_ db' = imm_ db;
  qt_shutting : shutting_down_ db' = shutting_down_ db;
  qt_next : VersionSet.next_file_number_ (versions_ db') = VersionSet.next_file_number_ (versions_ db)
}.

Lemma writing_groups_quiet db db' cs n0 gs g : quiet db db' -> writing_groups db cs n0 gs g -> writing_groups db' cs n0 gs g.
Proof.
  intros [Hqw Hqd _ _ Hqn] [Hnext Hnums Hout].
  assert (forall outs gs, Forall2 (written (env_ db)) outs gs -> Forall2 (written (env_ db')) outs gs) as Hkeep.
  { intros outs gs' H. eapply Forall2_impl; [exact H|]. intros out g' [? ? ? (nm & data & ? & ? & ?)]. split; [done..|]. exists nm, data. by rewrite Hqd. }
  split; [congruence|done|]. destruct (builder cs) as [b|]; [|naive_solver]. destruct Hout as (outs & out & Ho & Hw & [? ? (nm & ? & ?) ?]).
  exists outs, out. split_and!; [done|by apply Hkeep|]. split; [done..| |done]. exists nm. auto.
Qed.

Section loop.
Context {I : Type} {IT : Iterator I} {IL : IteratorLaws IT} (others : nat -> DBImpl E T str -> DBImpl E T str).
Hypothesis Hquiet : forall n db, quiet db (others n db).

Abbreviation loop := (compaction_loop (C := C) options dbname comparator_name max_file_size others).

(** The current output is closed before an entry that overlaps too much. *)
Lemma stop_before_ok db cs n0 gs g c (stop : bool) : writing_groups db cs n0 gs g -> (is_Some (builder cs) -> g <> []) -> fits g ->
  exists db' cs' gs' g', (match builder (set_compaction cs c), stop with
       | Some _, true => FinishCompactionOutputFile (C := C) db (set_compaction cs c) Status.OK
       | _, _ => Ret (db, set_compaction cs c, Status.OK) end) = Ret (db', cs', Status.OK) /\
    writing_groups db' cs' n0 gs' g' /\ concat gs' ++ g' = concat gs ++ g /\ (g' = g \/ g' = []) /\ (is_Some (builder cs') -> g' <> []) /\
    length (outputs cs') = length (outputs cs) /\ steady db (set_compaction cs c) db' cs'.
Proof.
  intros Hw Hne Hfit. assert (writing_groups db (set_compaction cs c) n0 gs g) as Hw' by (by destruct Hw). change (builder (set_compaction cs c)) with (builder cs).
  destruct (builder cs) as [b|] eqn:Eb; [|exists db, (set_compaction cs c), gs, g; split_and!; auto; cbn; rewrite ?Eb; by try intros []].
  destruct stop; [|exists db, (set_compaction cs c), gs, g; by split_and!; auto].
  destruct (Finish_ok db _ n0 gs g b Hw' Eb) as (db1 & cs1 & -> & Hw1 & Hb1 & Hl1 & Hs1); [by apply Hne|done|].
  exists db1, cs1, (gs ++ [g]), []. split_and!; auto; [by rewrite concat_app; cbn; rewrite !app_nil_r|rewrite Hb1; by intros []|apply Hs1..].
Qed.

Lemma compaction_loop_ok all us : (forall g, sublist g all -> fits g) -> forall fuel i it db cs ks n0 gs g m,
  it_at it (map update_entry us) i -> (length us - i <= fuel)%nat -> writing_groups db cs n0 gs g -> (is_Some (builder cs) -> g <> []) ->
  imm_ db = None -> shutting_down_ db = false -> 0 < n0 -> n0 + Z.of_nat (length (outputs cs) + (length us - i)) < kMaxUint64 -> sublist (g ++ drop i us) all ->
  exists db' cs' it' m' gs' g', loop fuel db cs ks Status.OK m it = Ret (db', cs', Status.OK, m', it') /\ writing_groups db' cs' n0 gs' g' /\
    concat gs' ++ g' = concat gs ++ g ++ kept C max_file_size (smallest_snapshot cs) (compaction cs) ks (drop i us) /\
    (is_Some (builder cs') -> g' <> []) /\ sublist g' all /\ it_at it' (map update_entry us) (length us) /\ shutting_down_ db' = false.
Proof.
  intros Hall. induction fuel as [|fuel IH]; intros i it db0 cs ks n0 gs g m Hat Hfuel Hw0 Hne Himm0 Hshut0 Hn0 Hbound Hsub; cbn [compaction_loop];
    rewrite (at_valid _ _ _ Hat), length_map; pose proof (at_le _ _ _ Hat) as Hle; rewrite length_map in Hle;
    match goal with |- context [others ?n db0] => pose proof (Hquiet n db0) as Hq; set (db := others n db0) in * end;
    pose proof (writing_groups_quiet _ _ _ _ _ _ Hq Hw0) as Hw; assert (imm_ db = None) as Himm by (rewrite (qt_imm _ _ Hq); done);
    assert (shutting_down_ db = false) as Hshut by (rewrite (qt_shutting _ _ Hq); done); clearbody db; clear db0 Hq Hw0 Himm0 Hshut0;
    (destruct (Nat.ltb_spec i (length us)) as [Hlt|Hge]; [|assert (i = length us) as -> by lia; rewrite drop_all in *; cbn [kept andb]; rewrite !app_nil_r in *;
      exists db, cs, it, m, gs, g; by split_and!]); [lia|].
  rewrite Hshut. cbn [negb andb]. unfold compact_imm. rewrite Himm. cbn [mbind result_bind].
  destruct (lookup_lt_is_Some_2 us i Hlt) as [a Ha]. assert (map update_entry us !! i = Some (update_entry a)) as He by (by rewrite list_lookup_fmap, Ha).
  rewrite (surjective_pairing (update_entry a)) in He. destruct (at_entry _ _ _ _ _ Hat He) as [Hkey Hval]. rewrite Hkey. cbn [mbind result_bind]. rewrite (at_status _ _ _ Hat).
  rewrite (drop_S _ _ _ Ha) in *. cbn [kept]. destruct (ShouldStopBefore max_file_size (compaction cs) (key_of a)) as [stop c1]. cbn [snd].
  destruct (stop_before_ok db cs n0 gs g c1 stop Hw Hne) as (db1 & cs1 & gs1 & g1 & -> & Hw1 & Hc1 & Hg1 & Hne1 & Hl1 & Hcomp1 & Hsm1 & Hi1 & Hd1).
  { apply Hall. etrans; [|exact Hsub]. apply sublist_inserts_r. reflexivity. }
  cbn [mbind result_bind]. change (Status.ok Status.OK) with true. cbn [negb]. cbv iota. cbn in Hcomp1, Hsm1. rewrite Hcomp1, Hsm1.
  destruct (drop_entry (smallest_snapshot cs) c1 ks (key_of a)) as [[dropped c2] ks2]. destruct (at_next _ _ _ Hat ltac:(by rewrite length_map)) as (it2 & Hnx & Hat2).
  assert (sublist (g1 ++ a :: drop (S i) us) all) as Hsub1.
  { etrans; [|exact Hsub]. destruct Hg1 as [->| ->]; [reflexivity|]. apply sublist_inserts_l. reflexivity. }
  assert (writing_groups db1 (set_compaction cs1 c2) n0 gs1 g1) as Hw2 by (by destruct Hw1). destruct dropped.
  - cbn [mbind result_bind]. rewrite Hnx. cbn [mbind result_bind].
    destruct (IH (S i) it2 db1 (set_compaction cs1 c2) ks2 n0 gs1 g1 m) as (db' & cs' & it' & m' & gs' & g' & -> & Hw' & Hc' & Hrest); try done; try lia; cbn; try congruence; try lia.
    { etrans; [|exact Hsub1]. apply sublist_app; [reflexivity|]. by apply sublist_cons. }
    exists db', cs', it', m', gs', g'. split; [done|]. split; [done|]. split; [|done]. rewrite Hc'. cbn. by rewrite Hsm1, !app_assoc, Hc1.
  - rewrite Hval. cbn [mbind result_bind].
    destruct (keep_entry_ok db1 (set_compaction cs1 c2) n0 gs1 g1 a) as (db3 & cs3 & gs3 & g3 & -> & Hw3 & Hc3 & Hg3 & Hne3 & Hl3 & Hcomp3 & Hsm3 & Hi3 & Hd3); try done; [cbn; lia| |].
    { apply Hall. etrans; [|exact Hsub1]. apply sublist_app; [reflexivity|]. apply sublist_skip, sublist_nil_l. }
    cbn [mbind result_bind]. rewrite Hnx. cbn [mbind result_bind]. cbn in Hl3, Hcomp3, Hsm3.
    destruct (IH (S i) it2 db3 cs3 ks2 n0 gs3 g3 m) as (db' & cs' & it' & m' & gs' & g' & -> & Hw' & Hc' & Hrest); try done; try lia; try congruence.
    { etrans; [|exact Hsub1]. destruct Hg3 as [->| ->]; [by rewrite <- app_assoc|]. apply sublist_inserts_l. by apply sublist_cons. }
    exists db', cs', it', m', gs', g'. split; [done|]. split; [done|]. split; [|done]. rewrite Hc', Hcomp3, Hsm3, Hsm1, app_assoc, Hc3, <- !app_assoc, (app_assoc (concat gs1)), Hc1, <- app_assoc. done.
Qed.

(** The inputs are read to the end, and the last output is closed. *)
Lemma compact_inputs_ok fuel us i (it : I) db cs : it_at it (map update_entry us) i -> (length us <= fuel)%nat -> (forall g, sublist g us -> fits g) ->
  outputs cs = [] -> builder cs = None -> imm_ db = None -> shutting_down_ db = false ->
  0 < VersionSet.next_file_number_ (versions_ db) -> VersionSet.next_file_number_ (versions_ db) + Z.of_nat (length us) < kMaxUint64 ->
  exists db' cs' m gs, compact_inputs (C := C) options dbname comparator_name max_file_size others fuel db cs it = Ret (db', cs', Status.OK, m) /\
    builder cs' = None /\ Forall2 (written (env_ db')) (outputs cs') gs /\
    map number (outputs cs') = seqZ (VersionSet.next_file_number_ (versions_ db)) (Z.of_nat (length (outputs cs'))) /\
    concat gs = kept C max_file_size (smallest_snapshot cs) (compaction cs) no_key us.
Proof.
  intros Hat Hfuel Hfit Ho Hb Himm Hshut Hn0 Hbound. unfold compact_inputs. destruct (at_first _ _ _ Hat) as (it0 & -> & Hat0). cbn [mbind result_bind].
  set (n0 := VersionSet.next_file_number_ (versions_ db)) in *. assert (writing_groups db cs n0 [] []) as Hw by (split; rewrite ?Hb, ?Ho; cbn; [lia|done|done]).
  destruct (compaction_loop_ok us us Hfit fuel 0 it0 db cs no_key n0 [] [] 0 Hat0) as (db1 & cs1 & it1 & m & gs & g & -> & Hw1 & Hc1 & Hne1 & Hsub1 & Hat1 & Hshut1); try done; try lia.
  { rewrite Hb. by intros []. } { rewrite Ho. cbn [length]. lia. }
  cbn [mbind result_bind]. rewrite Hshut1, (at_status _ _ _ Hat1). change (Status.ok Status.OK) with true. cbn [andb]. cbv iota. change (Status.ok Status.OK) with true. cbv iota.
  cbn [app concat drop] in Hc1. rewrite drop_0 in Hc1. destruct (builder cs1) as [b|] eqn:Eb.
  - destruct (Finish_ok db1 cs1 n0 gs g b Hw1 Eb) as (db2 & cs2 & -> & [_ Hnums Hout] & Hb2 & _); [by apply Hne1|by apply Hfit|]. cbn [mbind result_bind]. rewrite Hb2 in Hout.
    exists db2, cs2, m, (gs ++ [g]). split_and!; try done; [by destruct Hout|]. rewrite concat_app. cbn. by rewrite app_nil_r, Hc1.
  - destruct Hw1 as [_ Hnums Hout]. rewrite Eb in Hout. destruct Hout as [-> Hout]. rewrite app_nil_r in Hc1. cbn [mbind result_bind]. by exists db1, cs1, m, gs.
Qed.
End loop.

Lemma ordered_sublist us us' : ordered C us -> sublist us' us -> ordered C us'.
Proof.
  intros [Hok Hs] Hsub. split.
  - rewrite Forall_forall in *. intros a Ha. apply Hok. by eapply elem_of_sublist.
  - eapply sublist_sorted; [|exact Hs]. clear - Hsub. induction Hsub; cbn [map]; by constructor.
Qed.

Lemma newer_sublist us us' below : newer C us below -> sublist us' us -> newer C us' below.
Proof. intros Hn Hsub a b Ha Hb. apply Hn; [|done]. by eapply elem_of_sublist. Qed.

Lemma newer_nil below : newer C [] below.
Proof. intros a b Ha. by apply elem_of_nil in Ha. Qed.

(** *** The theorem *)

Context {TL : TableCacheLaws C TC} (contents : Z -> list update).

(** What the answers of lookups are before and after. *)
Lemma kept_answers tc c S us upper k s : S < kMaxSequenceNumber -> S <= s -> ordered C us -> (forall k, compacting C contents tc c c k) ->
  newer C us (deep contents c) -> newer C upper (us ++ deep contents c) ->
  shown_value (newest C k s (upper ++ kept C max_file_size S c no_key us ++ deep contents c)) = shown_value (newest C k s (upper ++ us ++ deep contents c)).
Proof.
  intros HS Hs Ho Hc Hn Hup. pose proof (kept_sublist C max_file_size S us c no_key) as Hsub.
  assert (newer C upper (kept C max_file_size S c no_key us ++ deep contents c)) as Hup'.
  { intros a b Ha Hb. apply Hup; [done|]. apply elem_of_app in Hb as [Hb|Hb]; apply elem_of_app; [left; by eapply elem_of_sublist|by right]. }
  rewrite (newest_app C _ _ k s Hup), (newest_app C _ _ k s Hup'). destruct (newest C k s upper); [done|].
  rewrite (newest_app C _ _ k s Hn), (newest_app C _ _ k s (newer_sublist _ _ _ Hn Hsub)), (newest_first C _ k s Ho), (newest_first C _ k s (ordered_sublist _ _ Ho Hsub)).
  apply (kept_lookups C max_file_size contents tc c S s k us HS Hs c no_key Ho); [by intros k0|by apply Forall_forall|]. intros (k0 & H0 & _). done.
Qed.

End outputs.

(** ** Witness: a compaction of level 0 *)

Section witness.
#[local] Existing Instance port_plain.
Import DBState CompactionState DBCompact.

Definition demo_inputs : list update :=
  [ (8, kTypeValue, $"apple", $"gold"); (7, kTypeDeletion, $"apple", []); (5, kTypeValue, $"apple", $"red"); (6, kTypeDeletion, $"pear", []);
    (4, kTypeValue, $"quince", $"yellow") ].
Definition demo_levels : Version.Version := Version.mkVersion [[]; []; [demo_file 1]; []; []; []; []] None (-1).
Definition demo_tables : tables := fun n => map update_entry (demo_contents n).
Definition demo_compaction : Compaction := Compaction_make 20 0 demo_levels [].
Definition demo_state : CompactionState str := mkState demo_compaction 7 [] None 0.
Definition demo_idle : DBImpl Disk tables str :=
  mkDB (mkDisk [] []) demo_tables false (Some MemTable.make) None None 0 SnapshotList.make ∅ true 1 None demo_start [] None Status.OK [].

Lemma demo_inputs_ordered : ordered BytewiseComparator demo_inputs.
Proof. split; repeat constructor; vm_compute; done || discriminate. Qed.

Lemma demo_inputs_fit g : sublist g demo_inputs -> buildable (C := internal_comparator BytewiseComparator) small_blocks (map update_entry g).
Proof.
  intros Hg. apply (buildable_sublist small_blocks (map update_entry demo_inputs)).
  - split; [split; vm_compute; discriminate|done|done|apply demo_inputs_ordered|vm_compute; done|vm_compute; discriminate|vm_compute; done].
  - induction Hg; cbn [map]; by constructor.
  - unfold filter_fits, filter_contents. cbn [filter_policy small_blocks]. destruct (fill_table _ _) as [r| |]; [|done..]. by destruct (TableBuilder.filter_block r).
Qed.

Lemma demo_compacting k : compacting BytewiseComparator demo_contents demo_tables demo_compaction demo_compaction k.
Proof.
  split; try done.
  - repeat constructor; intros j f Hj; lia.
  - apply Forall_forall. intros fs Hfs. change (fs ∈ [[demo_file 1]; []; []; []; []]) in Hfs.
    elems; (split; [|split; repeat constructor; vm_compute; done || discriminate]); [|apply Forall_nil; done..]. apply Forall_cons. split; [by apply demo_file_ok|by apply Forall_nil].
Qed.

Abbreviation demo_run := (compact_inputs (C := BytewiseComparator) small_blocks ($"/db") bytewise_name 20 (fun _ db => db) 5 demo_idle demo_state
  (mkListIter (map update_entry demo_inputs) 0)).

Lemma demo_run_numbers : (q ← demo_run; let '(_, cs, _, _) := q in Ret (map number (outputs cs))) = Ret [3; 4].
Proof. vm_compute. reflexivity. Qed.

End witness.
