(* ===== verification/DumpFile.v ===== *)
(** * leveldb: DumpFile

    [db/dumpfile.cc]: the text form of table, log and descriptor files, which
    [DBDumper] parses back.  Tables are opened and iterated by the code of
    [Table.v]; the destination is any [WritableFile]. *)

From Stdlib Require Import ZArith Lia.
From S2P Require Import Prelude CString World Coding SliceStatus Logging FilterPolicy DbFormat Iterators TableBlock TwoLevelIterator.
From S2P Require Import LogFile TableFormat TableBuilder Table TableSpec TableRead DbTable Batch VersionEdit.

(** ** util/env_posix.cc: opening a file for reading *)

(** [PosixEnv::NewRandomAccessFile] on a file that is there: the file is mapped
    while less than 1000 are (the programs that dump tables have the table open and
    no other), and a mapping of no bytes fails. *)
Definition NewRandomAccessFile (filename data : str) :
    Status.Status * option PosixMmapReadableFile.PosixMmapReadableFile :=
  match data with
  | [] => (PosixError_EINVAL filename, None)
  | _ => (Status.OK, Some (PosixMmapReadableFile.mkFile filename data))
  end.

(** ** The entries of a table file *)

(** [Table::Open] on the contents of a file, and the iteration
    [SeekToFirst(); Valid(); Next()] over the table: an error of [Open], or the
    entries in file order with the status the iterator ends in. *)
Inductive table_scan :=
  | OpenError (s : Status.Status)
  | Entries (kvs : list (str * str)) (status : Status.Status).

Section scan_table.
#[local] Existing Instance port_plain.
#[local] Existing Instance null_cache.
#[local] Existing Instance BytewiseComparator.

(** [Options()] has the bytewise comparator and no block cache.  An entry takes a
    byte at least, so that the length of the file bounds their number. *)
Definition scan_table (fname data : str) : result table_scan :=
  match NewRandomAccessFile fname data with
  | (s, None) => Ret (OpenError s)
  | (_, Some file) =>
      q ← Table.Open default_options file (str_size data) (None : option unit);
      let '(s, table, cache) := (q : Status.Status * option (Table.Rep _) * option unit) in
      match table with
      | None => Ret (OpenError s)
      | Some table =>
          if negb (Status.ok s) then Ret (OpenError s)
          else
            iter ← Table.NewIterator table cache (mkReadOptions false false);
            q ← scan_all (length data) iter;
            let '(kvs, iter) := (q : list entry * Table.TableIterator _ _) in
            Ret (Entries kvs (it_status iter))
      end
  end.

(** A file written by [TableBuilder], whatever the comparator it was built with. *)
Lemma scan_table_built (CB : Comparator) {HB : ComparatorLaws CB} {SB : ShorteningLaws CB} opt es fname data :
  buildable (C := CB) opt es -> build_table (C := CB) opt es = Ret (data, Status.OK) ->
  scan_table fname data = Ret (Entries es Status.OK).
Proof.
  intros [Hi Hp Hn Hs Hr Hk Hf] Hb.
  destruct (build_table_layout opt Hi Hp Hn es Hs Hr Hk Hf) as (d & bs & seps & fc & mb & ib & Hb' & L & <- & _).
  rewrite Hb in Hb'. injection Hb' as <-.
  assert (length (entries_of bs) <= length data)%nat as Hl.
  { pose proof (length_entries_of bs (tl_blocks _ _ _ _ _ _ L) (fun _ _ => eq_refl)).
    rewrite (tl_data _ _ _ _ _ _ L), length_app. lia. }
  set (file := PosixMmapReadableFile.mkFile fname data).
  assert (raf_contents file = data) as Ef by done.
  destruct (scan_layout (CR := BytewiseComparator) data bs seps fc mb ib default_options (mkReadOptions false false)
    file (None : option unit) (length data) L Ef no_cache_fresh Hl) as (t & cache' & it & it' & last & Ho & Hn' & Hsc & Hst & _).
  assert (NewRandomAccessFile fname data = (Status.OK, Some file)) as E.
  { unfold NewRandomAccessFile. destruct data; [discriminate Ho|done]. }
  unfold scan_table. rewrite E, Ho. cbn [mbind result_bind negb Status.ok]. rewrite Hn'. cbn [mbind result_bind].
  rewrite Hsc. cbn [mbind result_bind]. by rewrite Hst.
Qed.

End scan_table.

Section dump.
Context `{os : !OS, WF : !WritableFile F}.
Implicit Types (dst : F) (fs : filesystem).

Definition GuessType (fname : str) : option FileType :=
  let pos := rfind fname slash in
  let basename := if pos =? npos then fname else drop (Z.to_nat (pos + 1)) fname in
  snd <$> ParseFileName basename.

(** [CorruptionReporter::Corruption] *)
Definition Corruption dst (report : Z * Status.Status) : F :=
  let r := AppendNumberTo ($"corruption: ") (fst report) in
  fst (wf_Append dst (r ++ $" bytes; " ++ Status.ToString (snd report) ++ nl)).

(** *** PrintLogContents *)

(** The reporter writes to [dst] while [ReadRecord] runs, before [func] does. *)
Fixpoint print_records (fuel : nat) (func : F -> Z -> str -> F) (r : Reader.Reader str) dst : result F :=
  match fuel with
  | O => Crash OutOfFuel
  | S fuel' =>
      x ← Reader.ReadRecord fuel r;
      let '(r, record) := (x : Reader.Reader str * option str) in
      let '(r, reports) := take_reports r in
      let dst := foldl Corruption dst reports in
      match record with
      | Some record => print_records fuel' func r (func dst (Reader.LastRecordOffset r) record)
      | None => Ret dst
      end
  end.

Definition PrintLogContents fs (fname : str) (func : F -> Z -> str -> F) dst : result (F * Status.Status) :=
  match fs_read fs fname with
  | None => Ret (dst, PosixError_ENOENT fname)
  | Some data =>
      dst ← print_records (S (length data)) func (Reader.make data true true 0) dst;
      Ret (dst, Status.OK)
  end.

(** *** Log files *)

Definition WriteBatchItemPrinter : Handler F :=
  mkHandler
    (fun dst key value =>
       let r := AppendEscapedStringTo ($"  put '") key ++ $"' '" in
       fst (wf_Append dst (AppendEscapedStringTo r value ++ $"'" ++ nl)))
    (fun dst key => fst (wf_Append dst (AppendEscapedStringTo ($"  del '") key ++ $"'" ++ nl))).

Definition WriteBatchPrinter dst (pos : Z) (record : str) : F :=
  let r := AppendNumberTo ($"--- offset ") pos ++ $"; " in
  if str_size record <? 12 then
    fst (wf_Append dst (AppendNumberTo (r ++ $"log record length ") (str_size record)
                        ++ $" is too small" ++ nl))
  else
    let r := AppendNumberTo (r ++ $"sequence ") (WriteBatchInternal.Sequence record) ++ nl in
    let dst := fst (wf_Append dst r) in
    let '(dst, s) := WriteBatch.Iterate WriteBatchItemPrinter record dst in
    if negb (Status.ok s) then fst (wf_Append dst ($"  error: " ++ Status.ToString s ++ nl)) else dst.

Definition DumpLog fs (fname : str) dst : result (F * Status.Status) :=
  PrintLogContents fs fname WriteBatchPrinter dst.

(** *** Descriptor files *)

Definition VersionEditPrinter dst (pos : Z) (record : str) : F :=
  let r := AppendNumberTo ($"--- offset ") pos ++ $"; " in
  let '(edit, s) := VersionEdit.DecodeFrom record in
  let r := if negb (Status.ok s) then r ++ Status.ToString s ++ nl
           else r ++ VersionEdit.DebugString edit in
  fst (wf_Append dst r).

Definition DumpDescriptor fs (fname : str) dst : result (F * Status.Status) :=
  PrintLogContents fs fname VersionEditPrinter dst.

(** *** Table files *)

(** The line of one entry; a parsed key is a deletion or a value. *)
Definition table_line (kv : str * str) : str :=
  let '(k, v) := kv in
  match ParseInternalKey k with
  | None =>
      let r := AppendEscapedStringTo ($"badkey '") k ++ $"' => '" in
      AppendEscapedStringTo r v ++ $"'" ++ nl
  | Some key =>
      let r := AppendEscapedStringTo ($"'") (user_key key) ++ $"' @ " in
      let r := AppendNumberTo r (sequence key) ++ $" : " in
      let r := r ++ match type key with kTypeDeletion => $"del" | kTypeValue => $"val" end in
      AppendEscapedStringTo (r ++ $" => '") v ++ $"'" ++ nl
  end.

Definition iterator_error (s : Status.Status) : str :=
  $"iterator error: " ++ Status.ToString s ++ nl.

(** The lines are appended as the iterator moves; nothing else looks at [dst]. *)
Definition DumpTable fs (fname : str) dst : result (F * Status.Status) :=
  match fs_read fs fname with
  | None => Ret (dst, PosixError_ENOENT fname)
  | Some data =>
      scan ← scan_table fname data;
      match scan with
      | OpenError s => Ret (dst, s)
      | Entries kvs s =>
          let dst := foldl (fun dst kv => fst (wf_Append dst (table_line kv))) dst kvs in
          let dst := if negb (Status.ok s) then fst (wf_Append dst (iterator_error s)) else dst in
          Ret (dst, Status.OK)
      end
  end.

Definition DumpFile fs (fname : str) dst : result (F * Status.Status) :=
  match GuessType fname with
  | None => Ret (dst, Status.InvalidArgument (fname ++ $": unknown file type") [])
  | Some kLogFile => DumpLog fs fname dst
  | Some kDescriptorFile => DumpDescriptor fs fname dst
  | Some kTableFile => DumpTable fs fname dst
  | Some _ => Ret (dst, Status.InvalidArgument (fname ++ $": not a dump-able file type") [])
  end.

End dump.

(** ** Lemmas *)

Lemma rfind_split d b : slash ∉ b -> rfind (d ++ slash :: b) slash = str_size d.
Proof.
  intros Hb. unfold rfind.
  assert (list_find (fun x => x = slash) (reverse (d ++ slash :: b)) = Some (length b, slash)) as ->.
  { apply list_find_Some. rewrite reverse_app, reverse_cons, <- app_assoc. split_and!; [|done|].
    - simpl. rewrite lookup_app_r by (rewrite length_reverse; lia).
      by rewrite length_reverse, Nat.sub_diag.
    - intros j y Hj Hlt ->. rewrite lookup_app_l in Hj by (rewrite length_reverse; lia).
      apply list_elem_of_lookup_2 in Hj. rewrite elem_of_reverse in Hj. done. }
  rewrite str_size_app. unfold str_size. simpl length. lia.
Qed.

(** The type of a file is that of its base name. *)
Lemma GuessType_base d b :
  slash ∉ b -> str_size (d ++ slash :: b) < SIZE_MAX ->
  GuessType (d ++ slash :: b) = snd <$> ParseFileName b.
Proof.
  intros Hb Hs. unfold GuessType. rewrite rfind_split by done.
  rewrite str_size_app in Hs. unfold npos. pose proof (str_size_nonneg (slash :: b)).
  destruct (Z.eqb_spec (str_size d) SIZE_MAX); [lia|]. do 2 f_equal.
  replace (Z.to_nat (str_size d + 1)) with (length d + 1)%nat by (unfold str_size; lia).
  rewrite <- drop_drop, drop_app_length. done.
Qed.
