(* ===== verification/DBDumper.v ===== *)
(** * DBRecord and DBDumper

    [bloom_hierarchy/dbRecord.hpp] and [bloom_hierarchy/dbDumper.{hpp,cpp}]: the
    records of a table, recovered from the text that [leveldb::DumpFile] prints.
    [DBDumpFileBuffer] is an instance of leveldb's [WritableFile]; the positions
    it computes are [size_t] values that wrap around, and [dumpSSTable] is
    [noexcept]. *)

From Stdlib Require Import ZArith Lia.
From S2P Require Import Prelude CString World Coding SliceStatus Logging FilterPolicy DbFormat LogFile.
From S2P Require Import Iterators TableFormat TableBuilder TableSpec TableRead DbTable DumpFile.

(** ** DBRecord

    The slices [key] and [val] always refer to the record's own strings. *)

Record DBRecord := mkRecord { keyData : str; valData : str }.

Module DBRecordOps.

Definition getKey (r : DBRecord) : str := keyData r.
Definition getVal (r : DBRecord) : str := valData r.
Definition getKeySize (r : DBRecord) : Z := str_size (getKey r).
Definition getValSize (r : DBRecord) : Z := str_size (getVal r).
Definition getRecordSize (r : DBRecord) : Z := u64 (getKeySize r + getValSize r).

(** The copy constructor and the copy assignment (move is copy). *)
Definition copy (other : DBRecord) : DBRecord := mkRecord (getKey other) (getVal other).

(** [DBRecord()] *)
Definition default_record : DBRecord := mkRecord ($"key") ($"val").

Definition op_lt (a b : DBRecord) : bool := str_lt (keyData a) (getKey b).
Definition op_le (a b : DBRecord) : bool := str_le (keyData a) (getKey b).
Definition op_gt (a b : DBRecord) : bool := str_lt (getKey b) (keyData a).
Definition op_ge (a b : DBRecord) : bool := str_lt (keyData a) (getKey b).
Definition op_eq (a b : DBRecord) : bool := str_lt (keyData a) (getKey b).

End DBRecordOps.

(** ** DBDumpFileBuffer *)

Definition quote : byte := Byte.x27.

(** The positions and substrings [Append] computes from a line. *)
Definition parse_line (line : str) : result (str * str) :=
  let keyFirstPos := u64 (find_first_of line quote + 1) in
  s1 ← substr_from line keyFirstPos;
  let keyLastPos := u64 (find_first_of s1 quote - 1 + keyFirstPos) in
  key ← substr line keyFirstPos (u64 (keyLastPos - keyFirstPos + 1));
  s2 ← substr_from line (u64 (keyLastPos + 2));
  let valFirstPos := u64 (find_first_of s2 quote + 1 + keyLastPos + 2) in
  s3 ← substr_from line valFirstPos;
  let valLastPos := u64 (find_first_of s3 quote - 1 + valFirstPos) in
  val ← substr line valFirstPos (u64 (valLastPos - valFirstPos + 1));
  Ret (key, val).

(** [fileRecords], or the exception that left [Append]. *)
Definition DBDumpFileBuffer : Type := result (list DBRecord).

Definition Append (b : DBDumpFileBuffer) (data : str) : DBDumpFileBuffer * Status.Status :=
  (recs ← b; kv ← parse_line data; Ret (recs ++ [mkRecord (fst kv) (snd kv)]), Status.OK).

#[export] Instance DBDumpFileBuffer_writable : WritableFile DBDumpFileBuffer := {
  wf_Append := Append;
  wf_Flush b := (b, Status.OK)
}.

Section dump.
Context `{os : !OS}.

(** [dumpSSTable(ssTablePath) noexcept(true)]: an exception would end the
    process. *)
Definition dumpSSTable (ssTablePath : str) : M (list DBRecord) :=
  fs ← gets w_fs;
  match DumpFile fs ssTablePath (Ret [] : DBDumpFileBuffer) with
  | Ret (buffer, status) =>
      if negb (Status.ok status) then
        put_cerr ($"Cannot dump ssTable: " ++ ssTablePath ++ $" status: "
                  ++ Status.ToString status ++ nl) ;;
        mret []
      else
        match buffer with
        | Ret records => mret records
        | Throw _ => lift (Crash Terminate)
        | Crash f => lift (Crash f)
        end
  | Throw _ => lift (Crash Terminate)
  | Crash f => lift (Crash f)
  end.

End dump.

(** ** What a line means *)

(** The text after the first quote, or the text itself; the text before it. *)
Definition after_quote (s : str) : str :=
  match list_find (fun b => b = quote) s with Some (i, _) => drop (S i) s | None => s end.
Definition before_quote (s : str) : str :=
  match list_find (fun b => b = quote) s with Some (i, _) => take i s | None => s end.

Definition line_record (line : str) : str * str :=
  let s := after_quote line in
  (before_quote s, before_quote (after_quote (after_quote s))).

Lemma quote_cases s :
  ((quote ∉ s) /\ find_first_of s quote = npos /\ after_quote s = s /\ before_quote s = s) \/
  (exists a b, s = a ++ quote :: b /\ find_first_of s quote = str_size a /\
               after_quote s = b /\ before_quote s = a).
Proof.
  unfold find_first_of, after_quote, before_quote.
  destruct (list_find (fun b => b = quote) s) as [[i x]|] eqn:E.
  - right. apply list_find_Some in E as (Hi & -> & _).
    exists (take i s), (drop (S i) s). apply take_drop_middle in Hi as Hs.
    split_and!; [done| |done|done]. unfold str_size. rewrite length_take.
    apply lookup_lt_Some in Hi. lia.
  - left. apply list_find_None in E. split_and!; try done.
    intros Hin. rewrite Forall_forall in E. by apply (E quote).
Qed.

Lemma after_quote_app a b : quote ∉ a -> after_quote (a ++ quote :: b) = b /\ before_quote (a ++ quote :: b) = a.
Proof.
  intros Ha. destruct (quote_cases (a ++ quote :: b)) as [(Hn & _)|(a' & b' & Hs & Hf & -> & ->)].
  - set_solver.
  - rewrite find_first_of_app in Hf by done. unfold str_size in Hf.
    apply app_inj_1 in Hs as [-> [= ->]]; [done|lia].
Qed.

Lemma after_quote_suffix s : exists p, s = p ++ after_quote s.
Proof.
  destruct (quote_cases s) as [(_ & _ & -> & _)|(a & b & -> & _ & -> & _)].
  - by exists [].
  - exists (a ++ [quote]). by rewrite <- app_assoc.
Qed.

(** *** The size_t arithmetic of Append *)

Section positions.
Context (line : str) (Hsize : str_size line < 2 ^ 63).

(** [p] is the position of the suffix [s] of the line. *)
Definition at_pos (p : Z) (s : str) : Prop := exists pre, line = pre ++ s /\ p = str_size pre.

Lemma at_pos_range p s : at_pos p s -> 0 <= p /\ p + str_size s = str_size line.
Proof.
  intros (pre & -> & ->). rewrite str_size_app. pose proof (str_size_nonneg pre). lia.
Qed.

Lemma at_pos_start : at_pos 0 line.
Proof. by exists []. Qed.

Lemma at_pos_after p s :
  at_pos p s -> at_pos (u64 (find_first_of s quote + 1 + p)) (after_quote s).
Proof.
  intros Hp. pose proof (at_pos_range p s Hp) as [H0 H1]. destruct Hp as (pre & Hl & ->).
  destruct (quote_cases s) as [(_ & -> & -> & _)|(a & b & -> & -> & -> & _)].
  - exists pre. split; [done|]. unfold npos, SIZE_MAX, wrap.
    pose proof (str_size_nonneg s). change (2 ^ 64) with 18446744073709551616. lia_div.
  - exists (pre ++ a ++ [quote]). rewrite Hl, <- !app_assoc. split; [done|].
    pose proof (str_size_nonneg a). pose proof (str_size_nonneg (quote :: b)).
    rewrite str_size_app in H1. rewrite !str_size_app. change (str_size [quote]) with 1.
    rewrite wrap_small; lia.
Qed.

Lemma substr_at p s n : at_pos p s -> 0 <= n -> substr line p n = Ret (take (Z.to_nat n) s).
Proof. intros (pre & -> & ->) Hn. by apply substr_app. Qed.

Lemma substr_from_at p s : at_pos p s -> substr_from line p = Ret s.
Proof.
  intros Hp. unfold substr_from. rewrite (substr_at p s) by done.
  pose proof (at_pos_range p s Hp). f_equal. apply take_ge. unfold npos, SIZE_MAX, str_size in *. lia.
Qed.

(** The text up to the next quote, and the position after it. *)
Lemma field_at p s :
  at_pos p s ->
  let last := u64 (find_first_of s quote - 1 + p) in
  substr line p (u64 (last - p + 1)) = Ret (before_quote s) /\
  u64 (last + 2) = u64 (find_first_of s quote + 1 + p) /\
  forall k, u64 (k + last + 2) = u64 (k + u64 (find_first_of s quote + 1 + p)).
Proof.
  intros Hp last. pose proof (at_pos_range p s Hp) as [H0 H1]. split_and!.
  - rewrite (substr_at p s) by (done || by apply wrap_range). f_equal.
    destruct (quote_cases s) as [(_ & Hf & _ & ->)|(a & b & -> & Hf & _ & ->)].
    + apply take_ge. unfold last. rewrite Hf. unfold npos, SIZE_MAX, wrap, str_size in *.
      change (2 ^ 64) with 18446744073709551616. lia_div.
    + assert (u64 (last - p + 1) = str_size a) as ->.
      { unfold last. rewrite Hf. pose proof (str_size_nonneg a).
        rewrite str_size_app in H1. pose proof (str_size_nonneg (quote :: b)).
        unfold wrap. change (2 ^ 64) with 18446744073709551616. lia_div. }
      unfold str_size. by rewrite Nat2Z.id, take_app_length.
  - unfold last, wrap. rewrite Zplus_mod_idemp_l. f_equal. lia.
  - intros k. unfold last, wrap. rewrite <- Z.add_assoc, Zplus_mod_idemp_r.
    rewrite <- (Zplus_mod_idemp_r (_ mod _ + 2) k), Zplus_mod_idemp_l, Zplus_mod_idemp_r. f_equal. lia.
Qed.

End positions.

Lemma parse_line_spec line : str_size line < 2 ^ 63 -> parse_line line = Ret (line_record line).
Proof.
  intros Hs. unfold parse_line, line_record.
  pose proof (at_pos_after line Hs 0 line (at_pos_start line)) as P1. rewrite Z.add_0_r in P1.
  set (k := u64 (find_first_of line quote + 1)) in *. set (s1 := after_quote line) in *.
  rewrite (substr_from_at line Hs k s1 P1). cbn [mbind result_bind].
  destruct (field_at line Hs k s1 P1) as (-> & -> & Hk). cbn [mbind result_bind].
  pose proof (at_pos_after line Hs k s1 P1) as P2. set (s2 := after_quote s1) in *.
  rewrite (substr_from_at line Hs _ s2 P2). cbn [mbind result_bind].
  rewrite Hk. pose proof (at_pos_after line Hs _ s2 P2) as P3.
  set (v := u64 (find_first_of s2 quote + 1 + _)) in *. set (s3 := after_quote s2) in *.
  rewrite (substr_from_at line Hs v s3 P3). cbn [mbind result_bind].
  by destruct (field_at line Hs v s3 P3) as (-> & _).
Qed.

(** *** Lines of a table dump *)

Definition entry_user_key (k : str) : str :=
  match ParseInternalKey k with Some p => user_key p | None => k end.

(** The record of an entry: the escaped user key and value. *)
Definition entry_record (kv : str * str) : DBRecord :=
  mkRecord (EscapeString (entry_user_key (fst kv))) (EscapeString (snd kv)).

Definition quote_free (kv : str * str) : Prop := (quote ∉ entry_user_key (fst kv)) /\ quote ∉ snd kv.

(** Membership in a literal is decided by evaluation. *)
Ltac const_notin := apply (bool_decide_eq_true_1 _); vm_compute; reflexivity.

Lemma hex_digit_not_quote d : 0 <= d < 16 -> hex_digit d <> quote.
Proof.
  intros Hd H. apply (f_equal b2z) in H. unfold hex_digit in H. change (b2z quote) with 39 in H.
  destruct (d <? 10); rewrite b2z_z2b, Z.mod_small in H; lia.
Qed.

Lemma escape_char_quote c : c <> quote -> quote ∉ escape_char c.
Proof.
  intros Hc. unfold escape_char. case_match; [set_solver|]. unfold hex02.
  assert (0 <= Z.land (u32 (char_val c)) 255 < 256) as Hl.
  { change 255 with (Z.ones 8). rewrite Z.land_ones by lia. apply Z.mod_pos_bound. lia. }
  revert Hl. generalize (Z.land (u32 (char_val c)) 255) as x. intros x Hl.
  pose proof (hex_digit_not_quote (x / 16) ltac:(lia_div)).
  pose proof (hex_digit_not_quote (x mod 16) ltac:(lia_div)).
  rewrite not_elem_of_app. split; [const_notin|]. rewrite !not_elem_of_cons.
  split_and!; [done|done|apply not_elem_of_nil].
Qed.

Lemma EscapeString_quote s : quote ∉ s -> quote ∉ EscapeString s.
Proof.
  induction s as [|c s IH]; intros Hs; [set_solver|]. rewrite EscapeString_cons.
  intros [Hin|Hin]%elem_of_app.
  - revert Hin. apply escape_char_quote. set_solver.
  - revert Hin. apply IH. set_solver.
Qed.

Lemma dec_no_quote n : quote ∉ dec n.
Proof.
  intros Hin. pose proof (dec_is_digit n) as Hd. rewrite Forall_forall in Hd.
  specialize (Hd _ Hin). unfold is_digit in Hd. change (b2z quote) with 39 in Hd. lia.
Qed.

(** Three quoted pieces. *)
Lemma line_record_quoted a k m v t :
  quote ∉ a -> quote ∉ k -> quote ∉ m -> quote ∉ v ->
  line_record (a ++ quote :: k ++ quote :: m ++ quote :: v ++ quote :: t) = (k, v).
Proof.
  intros Ha Hk Hm Hv. unfold line_record.
  rewrite (proj1 (after_quote_app a _ Ha)). destruct (after_quote_app k (m ++ quote :: v ++ quote :: t) Hk) as [-> ->].
  rewrite (proj1 (after_quote_app m _ Hm)). by rewrite (proj2 (after_quote_app v _ Hv)).
Qed.

Lemma table_line_record kv :
  quote_free kv -> line_record (table_line kv) = (keyData (entry_record kv), valData (entry_record kv)).
Proof.
  destruct kv as [k v]. intros [Hk Hv]. unfold table_line, entry_record, entry_user_key in *. simpl in *.
  apply EscapeString_quote in Hk, Hv. destruct (ParseInternalKey k) as [p|]; simpl in *.
  - unfold AppendNumberTo. rewrite !AppendEscapedStringTo_app.
    replace (_ ++ $"'" ++ nl) with
      ([] ++ quote :: EscapeString (user_key p)
       ++ quote :: ($" @ " ++ dec (sequence p) ++ $" : "
                    ++ match type p with kTypeDeletion => $"del" | kTypeValue => $"val" end ++ $" => ")
       ++ quote :: EscapeString v ++ quote :: nl) by (rewrite <- !app_assoc; reflexivity).
    apply line_record_quoted; [set_solver|done| |done].
    pose proof (dec_no_quote (sequence p)). rewrite !not_elem_of_app.
    split_and!; try done; destruct (type p); const_notin.
  - rewrite !AppendEscapedStringTo_app.
    replace (_ ++ $"'" ++ nl) with
      ($"badkey " ++ quote :: EscapeString k ++ quote :: $" => " ++ quote :: EscapeString v ++ quote :: nl)
      by (rewrite <- !app_assoc; reflexivity).
    apply line_record_quoted; [|done| |done]; const_notin.
Qed.

(** ** Lemmas: dumping a table *)

Definition record_of (kv : str * str) : DBRecord := mkRecord (fst kv) (snd kv).

Lemma Append_ok recs line :
  str_size line < 2 ^ 63 ->
  wf_Append (Ret recs : DBDumpFileBuffer) line = (Ret (recs ++ [record_of (line_record line)]), Status.OK).
Proof. intros Hs. simpl. unfold Append. cbn [mbind result_bind]. by rewrite parse_line_spec. Qed.

Lemma Append_lines recs (kvs : list (str * str)) :
  Forall (fun kv => str_size (table_line kv) < 2 ^ 63) kvs ->
  foldl (fun dst kv => fst (wf_Append dst (table_line kv))) (Ret recs : DBDumpFileBuffer) kvs
  = Ret (recs ++ map (record_of ∘ line_record ∘ table_line) kvs).
Proof.
  intros Hs. revert recs. induction Hs as [|kv kvs Hkv Hs IH]; intros recs; cbn [foldl map].
  - by rewrite app_nil_r.
  - rewrite Append_ok by done. cbn [fst]. rewrite IH, <- app_assoc. done.
Qed.

(** The records of a scan that ends in status [s]. *)
Definition scan_records (kvs : list (str * str)) (s : Status.Status) : list DBRecord :=
  map (record_of ∘ line_record ∘ table_line) kvs
  ++ (if Status.ok s then [] else [record_of (line_record (iterator_error s))]).

Lemma scan_records_quote_free kvs :
  Forall quote_free kvs -> scan_records kvs Status.OK = map entry_record kvs.
Proof.
  intros Hq. unfold scan_records. simpl. rewrite app_nil_r.
  induction Hq as [|kv kvs Hkv Hq IH]; simpl; [done|]. rewrite IH, table_line_record by done. done.
Qed.

Section dump_lemmas.
Context `{os : !OS}.

Definition scan_small (kvs : list (str * str)) (s : Status.Status) : Prop :=
  Forall (fun kv => str_size (table_line kv) < 2 ^ 63) kvs /\ str_size (iterator_error s) < 2 ^ 63.

Lemma DumpTable_records fs path data kvs s :
  fs_read fs path = Some data -> scan_table path data = Ret (Entries kvs s) -> scan_small kvs s ->
  DumpTable fs path (Ret [] : DBDumpFileBuffer) = Ret (Ret (scan_records kvs s), Status.OK).
Proof.
  intros Hf Hs [Hk He]. unfold DumpTable. rewrite Hf, Hs. cbn [mbind result_bind]. rewrite Append_lines by done. cbn [app].
  unfold scan_records. destruct (Status.ok s); cbn [negb]; [by rewrite app_nil_r|].
  by rewrite Append_ok.
Qed.

(** [dumpSSTable] on a table that opens: its records, and no other effect. *)
Lemma dumpSSTable_ok path w data kvs s :
  GuessType path = Some kTableFile -> fs_read (w_fs w) path = Some data ->
  scan_table path data = Ret (Entries kvs s) -> scan_small kvs s ->
  dumpSSTable path w = (w, Ret (scan_records kvs s)).
Proof.
  intros Hg Hf Hs Hk. unfold dumpSSTable, mbind, M_bind, gets.
  unfold DumpFile. rewrite Hg, (DumpTable_records _ _ _ _ _ Hf Hs Hk). done.
Qed.

(** Whatever else happens to a table file, the result is an empty list and a line
    on the error stream. *)
Lemma dumpSSTable_error path w st :
  GuessType path = Some kTableFile -> Status.ok st = false ->
  (fs_read (w_fs w) path = None /\ st = PosixError_ENOENT path \/
   exists data, fs_read (w_fs w) path = Some data /\ scan_table path data = Ret (OpenError st)) ->
  dumpSSTable path w =
  (fst (put_cerr ($"Cannot dump ssTable: " ++ path ++ $" status: " ++ Status.ToString st ++ nl) w), Ret []).
Proof.
  intros Hg Hst Hc. unfold dumpSSTable, mbind, M_bind, gets. unfold DumpFile. rewrite Hg.
  unfold DumpTable. destruct Hc as [[-> ->]|(data & -> & ->)]; cbn [mbind result_bind]; [|rewrite Hst]; done.
Qed.

End dump_lemmas.

(** ** Properties *)

(** [Append] understands every line: for any line shorter than 2^63 bytes the
    wrapped positions stay inside the line, no [substr] throws (so the [noexcept]
    of [dumpSSTable] holds), and the record added is the text between the first two
    quotes and the text after the third, each extended to the end of the line when
    the closing quote is missing. *)
Theorem Append_never_throws recs line :
  str_size line < 2 ^ 63 ->
  Append (Ret recs) line = (Ret (recs ++ [record_of (line_record line)]), Status.OK).
Proof. apply Append_ok. Qed.



(** C40: a table whose scan ends with an error still dumps as a success, and the
    error message itself becomes a record: its key and its value are both the whole
    message line. *)
Theorem iterator_error_becomes_record `{os : !OS} path w data kvs s :
  GuessType path = Some kTableFile -> fs_read (w_fs w) path = Some data ->
  scan_table path data = Ret (Entries kvs s) -> scan_small kvs s -> Forall quote_free kvs ->
  Status.ok s = false -> quote ∉ Status.ToString s ->
  dumpSSTable path w =
  (w, Ret (map entry_record kvs ++ [mkRecord (iterator_error s) (iterator_error s)])).
Proof.
  intros Hg Hf Hs Hk Hq Hst Hns. rewrite (dumpSSTable_ok _ _ _ _ _ Hg Hf Hs Hk).
  unfold scan_records. rewrite Hst. do 3 f_equal.
  - rewrite <- (scan_records_quote_free kvs) by done. unfold scan_records. simpl. by rewrite app_nil_r.
  - assert (quote ∉ iterator_error s) as Hn.
    { unfold iterator_error. rewrite !not_elem_of_app. split_and!; [const_notin|done|const_notin]. }
    assert (after_quote (iterator_error s) = iterator_error s /\
            before_quote (iterator_error s) = iterator_error s) as [Ha Hb].
    { destruct (quote_cases (iterator_error s)) as [(_ & _ & -> & ->)|(a & b & E & _)]; [done|].
      exfalso. apply Hn. rewrite E. set_solver. }
    unfold line_record. rewrite !Ha, Hb. done.
Qed.

(** the comparison operators of [DBRecord]: [<], [<=] and [>] follow the byte
    order of the keys, but [==] and [>=] are written as [<], so that no record
    equals itself and [==] never holds between records with the same key. *)
Theorem DBRecord_operators a b :
  DBRecordOps.op_lt a b = match str_compare (keyData a) (keyData b) with Lt => true | _ => false end /\
  DBRecordOps.op_gt a b = DBRecordOps.op_lt b a /\
  DBRecordOps.op_le a b = negb (DBRecordOps.op_gt a b) /\
  DBRecordOps.op_eq a a = false /\ DBRecordOps.op_ge a a = false /\
  (DBRecordOps.op_eq a b = true -> keyData a <> keyData b).
Proof.
  unfold DBRecordOps.op_lt, DBRecordOps.op_gt, DBRecordOps.op_le, DBRecordOps.op_eq, DBRecordOps.op_ge,
    DBRecordOps.getKey, str_lt, str_le. rewrite !str_compare_refl.
  rewrite (str_compare_antisym (keyData a) (keyData b)).
  split_and!; try done; try by destruct (str_compare (keyData a) (keyData b)).
  intros H E. by rewrite E, str_compare_refl in H.
Qed.

(** ** Concrete runs *)

(** Tables for the runs: the entries [Key1 .. Keyn], in blocks of one entry. *)
Definition demo_entry (k : nat) : str * str :=
  (ikey ($"Key" ++ dec (Z.of_nat (S k))) (Z.of_nat (S k)), $"Value" ++ dec (Z.of_nat (S k))).

Definition demo_sst_options : Options := mkOptions false 1 16 kSnappyCompression None.

Definition demo_sst (n : nat) : str :=
  match build_table (C := internal_comparator BytewiseComparator) (PT := port_plain) demo_sst_options (demo_entry <$> seq 0 n) with
  | Ret (data, _) => data
  | _ => []
  end.

Definition demo_tables (name contents : str) : World :=
  demo_world (mkFS {[ $"../out/./db/t" := {[ name := contents ]} ]} ∅).

Section dumper_witnesses.
#[local] Existing Instance demo_os.

Lemma Append_never_throws_witness :
  Append (Ret []) ($"'Key1' @ 1 : val => 'Value1") =
  (Ret ([] ++ [record_of (line_record ($"'Key1' @ 1 : val => 'Value1"))]), Status.OK).
Proof. apply (Append_never_throws [] ($"'Key1' @ 1 : val => 'Value1")). vm_compute. reflexivity. Defined.

Definition demo_path : str := $"../out/./db/t/000005.ldb".
Definition demo_two : World := demo_tables ($"000005.ldb") (demo_sst 2).



(** A table of three blocks; the type of the second is not one of the format. *)
Definition demo_broken : World := demo_tables ($"000005.ldb") (<[63%nat := Byte.x07]> (demo_sst 3)).

Lemma iterator_error_becomes_record_witness :
  let s := Status.Corruption ($"bad block type") [] in
  dumpSSTable demo_path demo_broken
  = (demo_broken,
     Ret (map entry_record [demo_entry 0; demo_entry 2] ++ [mkRecord (iterator_error s) (iterator_error s)])).
Proof.
  intros s. apply (iterator_error_becomes_record demo_path demo_broken (<[63%nat := Byte.x07]> (demo_sst 3))
    [demo_entry 0; demo_entry 2] s).
  - vm_compute. reflexivity.
  - vm_compute. reflexivity.
  - vm_compute. reflexivity.
  - split; [repeat constructor|]; vm_compute; reflexivity.
  - repeat constructor; const_notin.
  - reflexivity.
  - const_notin.
Defined.

Example demo_dump :
  snd (dumpSSTable demo_path demo_two) = Ret [mkRecord ($"Key1") ($"Value1"); mkRecord ($"Key2") ($"Value2")].
Proof. vm_compute. reflexivity. Qed.

End dumper_witnesses.
