(* ===== verification/ThreadPool.v ===== *)
(** * thread_pool

    [bloom_hierarchy/threadPool.hpp] and [bloom_hierarchy/dbThreadPool.hpp].  The
    pool is a transition system: one step is one atomic action of a worker thread
    (a test of [running] or [paused], a [pop_task] under the mutex, the end of a
    task, the decrement of [tasks_total]) or of the thread that owns the pool
    ([push_task] in its two halves, [wait_for_tasks], [reset], the destructor).
    Tasks come from [submit], whose wrapper catches every exception, so a task
    always ends.  [std::uint_fast32_t] has 64 bits on the platforms the code is
    built for. *)

From Stdlib Require Import ZArith Lia.
From S2P Require Import Prelude World.

Section pool.
Context {T : Type}.
Implicit Types (t : T) (q : list T).

(** Where a worker is in its loop. *)
Inductive Worker :=
  | Idle            (* at [while (running)] *)
  | CheckPaused     (* [running] was true *)
  | Popping         (* [paused] was false *)
  | Running (t : T) (* in [task()] *)
  | Finished        (* before [tasks_total--] *)
  | Exited.         (* left the loop *)

(** What the owner waits for. *)
Inductive After := AfterWait | AfterReset (thread_count : nat) (was_paused : bool) | AfterDestroy.

Inductive Owner :=
  | Free
  | Pushing (t : T)     (* in [push_task], after [tasks_total++] *)
  | Waiting (k : After) (* in [wait_for_tasks] *)
  | Drained (k : After) (* [wait_for_tasks] returned *)
  | Joining (k : After) (* in [destroy_threads] *)
  | Destroyed.

Record Pool := mkPool {
  running : bool;
  paused : bool;
  tasks : list T;
  tasks_total : Z;
  workers : list Worker;
  owner : Owner;
  (* history *)
  submitted : list T;
  started : list T;
  finished : list T
}.

Definition get_tasks_queued (p : Pool) : Z := Z.of_nat (length (tasks p)).
Definition get_tasks_running (p : Pool) : Z := u64 (tasks_total p - get_tasks_queued p).

(** The test of [wait_for_tasks]. *)
Definition wait_done (p : Pool) : bool :=
  if negb (paused p) then tasks_total p =? 0 else get_tasks_running p =? 0.

(** [thread_count(_thread_count ? _thread_count : hardware_concurrency())] *)
Definition thread_count_of (hardware n : nat) : nat := if (n =? 0)%nat then hardware else n.

(** [thread_pool(_thread_count)] *)
Definition thread_pool (hardware n : nat) : Pool :=
  mkPool true false [] 0 (replicate (thread_count_of hardware n) Idle) Free [] [] [].

(** One action of a worker: its new place and the pool's new fields. *)
Inductive worker_step (p : Pool) : Worker -> Worker -> Pool -> Prop :=
  | ws_running : running p = true -> worker_step p Idle CheckPaused p
  | ws_stop : running p = false -> worker_step p Idle Exited p
  | ws_paused : paused p = true -> worker_step p CheckPaused Idle p
  | ws_unpaused : paused p = false -> worker_step p CheckPaused Popping p
  | ws_empty : tasks p = [] -> worker_step p Popping Idle p
  | ws_pop t q : tasks p = t :: q ->
      worker_step p Popping (Running t)
        (mkPool (running p) (paused p) q (tasks_total p) (workers p) (owner p)
           (submitted p) (started p ++ [t]) (finished p))
  | ws_finish t :
      worker_step p (Running t) Finished
        (mkPool (running p) (paused p) (tasks p) (tasks_total p) (workers p) (owner p)
           (submitted p) (started p) (finished p ++ [t]))
  | ws_count :
      worker_step p Finished Idle
        (mkPool (running p) (paused p) (tasks p) (u64 (tasks_total p - 1)) (workers p) (owner p)
           (submitted p) (started p) (finished p)).

Definition with_workers (ws : list Worker) (p : Pool) : Pool :=
  mkPool (running p) (paused p) (tasks p) (tasks_total p) ws (owner p)
    (submitted p) (started p) (finished p).
Definition with_owner (o : Owner) (p : Pool) : Pool :=
  mkPool (running p) (paused p) (tasks p) (tasks_total p) (workers p) o
    (submitted p) (started p) (finished p).
Definition with_flags (r z : bool) (p : Pool) : Pool :=
  mkPool r z (tasks p) (tasks_total p) (workers p) (owner p)
    (submitted p) (started p) (finished p).

(** One action of the owner. *)
Inductive owner_step (hardware : nat) (p : Pool) : Pool -> Prop :=
  | os_push t : owner p = Free ->
      owner_step hardware p
        (mkPool (running p) (paused p) (tasks p) (u64 (tasks_total p + 1)) (workers p) (Pushing t)
           (submitted p ++ [t]) (started p) (finished p))
  | os_pushed t : owner p = Pushing t ->
      owner_step hardware p
        (mkPool (running p) (paused p) (tasks p ++ [t]) (tasks_total p) (workers p) Free
           (submitted p) (started p) (finished p))
  | os_pause b : owner p = Free -> owner_step hardware p (with_flags (running p) b p)
  | os_wait : owner p = Free -> owner_step hardware p (with_owner (Waiting AfterWait) p)
  | os_reset n : owner p = Free ->
      owner_step hardware p (with_owner (Waiting (AfterReset n (paused p))) (with_flags (running p) true p))
  | os_destroy : owner p = Free -> owner_step hardware p (with_owner (Waiting AfterDestroy) p)
  | os_drained k : owner p = Waiting k -> wait_done p = true ->
      owner_step hardware p (with_owner (match k with AfterWait => Free | _ => Drained k end) p)
  | os_stop k : owner p = Drained k ->
      owner_step hardware p (with_owner (Joining k) (with_flags false (paused p) p))
  | os_restart n was_paused : owner p = Joining (AfterReset n was_paused) ->
      Forall (eq Exited) (workers p) ->
      owner_step hardware p
        (with_owner Free (with_flags true was_paused
           (with_workers (replicate (thread_count_of hardware n) Idle) p)))
  | os_destroyed : owner p = Joining AfterDestroy -> Forall (eq Exited) (workers p) ->
      owner_step hardware p (with_owner Destroyed p).

Inductive step (hardware : nat) (p : Pool) : Pool -> Prop :=
  | step_worker l1 a b l2 p' : workers p = l1 ++ a :: l2 -> worker_step p a b p' ->
      step hardware p (with_workers (l1 ++ b :: l2) p')
  | step_owner p' : owner_step hardware p p' -> step hardware p p'.

Inductive reachable (hardware n : nat) : Pool -> Prop :=
  | reach_init : reachable hardware n (thread_pool hardware n)
  | reach_step p p' : reachable hardware n p -> step hardware p p' -> reachable hardware n p'.

(** ** The invariant *)

Definition active_task (w : Worker) : list T := match w with Running t => [t] | _ => [] end.
Definition active_count (w : Worker) : Z := match w with Running _ | Finished => 1 | _ => 0 end.
Definition in_flight (ws : list Worker) : list T := concat (map active_task ws).
Definition active (ws : list Worker) : Z := foldr (fun w z => active_count w + z) 0 ws.
Definition pending (o : Owner) : list T := match o with Pushing t => [t] | _ => [] end.

(** The owner is past a [wait_for_tasks]. *)
Definition past_wait (o : Owner) : bool :=
  match o with Drained _ | Joining _ | Destroyed => true | _ => false end.

Record pool_inv (p : Pool) : Prop := {
  inv_total : tasks_total p = u64 (Z.of_nat (length (pending (owner p)))
                                   + get_tasks_queued p + active (workers p));
  inv_fifo : submitted p = started p ++ tasks p ++ pending (owner p);
  inv_once : started p ≡ₚ finished p ++ in_flight (workers p);
  inv_waited : past_wait (owner p) = true -> paused p = false ->
               tasks p = [] /\ active (workers p) = 0;
  inv_bound : active (workers p) <= Z.of_nat (length (started p));
  inv_alive : running p = true -> Forall (fun w => w <> Exited) (workers p)
}.

Lemma active_app l1 w l2 : active (l1 ++ w :: l2) = active l1 + active_count w + active l2.
Proof. induction l1 as [|a l1 IH]; simpl; [lia|]. rewrite IH. lia. Qed.

Lemma active_nonneg ws : 0 <= active ws.
Proof. induction ws as [|[] ws IH]; simpl; lia. Qed.

Lemma in_flight_app l1 w l2 : in_flight (l1 ++ w :: l2) = in_flight l1 ++ active_task w ++ in_flight l2.
Proof. unfold in_flight. by rewrite map_app, concat_app. Qed.

Lemma active_bound ws : active ws <= Z.of_nat (length ws).
Proof. induction ws as [|[] ws IH]; simpl length; simpl active; lia. Qed.

(** No active worker, no task in flight. *)
Lemma active_zero ws : active ws = 0 -> in_flight ws = [].
Proof.
  induction ws as [|w ws IH]; [done|]. simpl. pose proof (active_nonneg ws). intros H0.
  unfold in_flight. simpl. fold (in_flight ws). destruct w; simpl in *; try lia; apply IH; lia.
Qed.

(** The number of tasks that are not done. *)
Definition outstanding (p : Pool) : Z :=
  Z.of_nat (length (pending (owner p))) + get_tasks_queued p + active (workers p).

Lemma inactive_replicate n : active (replicate n Idle) = 0 /\ in_flight (replicate n Idle) = [].
Proof. induction n as [|n [IH1 IH2]]; [done|]. split; simpl; [lia|]. exact IH2. Qed.

Lemma exited_inactive ws : Forall (eq Exited) ws -> active ws = 0 /\ in_flight ws = [].
Proof. induction 1 as [|w ws <- Hws [IH1 IH2]]; [done|]. split; simpl; [lia|]. exact IH2. Qed.

Lemma inv_init hardware n : pool_inv (thread_pool hardware n).
Proof.
  destruct (inactive_replicate (thread_count_of hardware n)) as [Ha Hf].
  split; simpl; rewrite ?Ha, ?Hf; try done. intros _. by apply Forall_replicate.
Qed.

Ltac pool_simpl :=
  unfold get_tasks_queued in *;
  cbn [with_workers with_owner with_flags running paused tasks tasks_total workers owner
       submitted started finished pending past_wait length] in *.

Lemma u64_shift a b k : a = u64 b -> u64 (a + k) = u64 (b + k).
Proof. intros ->. unfold wrap. by rewrite Zplus_mod_idemp_l. Qed.

Lemma inv_worker p l1 a b l2 p' :
  pool_inv p -> workers p = l1 ++ a :: l2 -> worker_step p a b p' ->
  pool_inv (with_workers (l1 ++ b :: l2) p').
Proof.
  intros [Ht Hf Ho Hw Hb Hal] Hws Hs. rewrite Hws in Ht, Ho, Hw, Hb, Hal. rewrite active_app in Ht, Hw, Hb.
  rewrite in_flight_app in Ho. pose proof (active_nonneg l1). pose proof (active_nonneg l2).
  destruct Hs as [Hr|Hr|Hr|Hr|Hr|t q Hr|t|]; (split; pool_simpl; rewrite ?active_app, ?in_flight_app; cbn [active_count active_task] in *).
  all: try done; try (rewrite ?length_app; cbn [length]; lia).
  all: try (intros Hrun; specialize (Hal Hrun); apply Forall_app in Hal as [Hal1 Hal2];
            inversion Hal2; subst; apply Forall_app; split; [done|constructor; [done|done]]).
  all: try (intros Hrun; congruence).
  - rewrite Ht, Hr. f_equal. simpl. lia.
  - by rewrite Hf, Hr, <- !app_assoc.
  - rewrite Ho. simpl. rewrite <- app_assoc. apply Permutation_app_head. solve_Permutation.
  - rewrite Hr in Hw. intros H1 H2. by destruct (Hw H1 H2).
  - rewrite Ho. simpl. rewrite <- app_assoc. apply Permutation_app_head. solve_Permutation.
  - replace (tasks_total p - 1) with (tasks_total p + -1) by lia. rewrite (u64_shift _ _ (-1) Ht). f_equal. lia.
  - intros H1 H2. destruct (Hw H1 H2). lia.
Qed.

(** Submitted tasks that are queued or running are outstanding. *)
Lemma outstanding_bound p :
  pool_inv p -> 0 <= outstanding p <= Z.of_nat (length (submitted p)).
Proof.
  intros [Ht Hf Ho Hw Hb _]. unfold outstanding, get_tasks_queued. rewrite Hf, !length_app.
  pose proof (active_nonneg (workers p)). lia.
Qed.

(** A counter of zero means that nothing is outstanding. *)
Lemma total_zero p :
  pool_inv p -> Z.of_nat (length (submitted p)) < 2 ^ 64 -> tasks_total p = 0 ->
  pending (owner p) = [] /\ tasks p = [] /\ active (workers p) = 0.
Proof.
  intros Hi Hs H0. pose proof (outstanding_bound p Hi) as Hb. pose proof (inv_total _ Hi) as Ht.
  fold (outstanding p) in Ht. rewrite H0, wrap_small in Ht by lia. unfold outstanding, get_tasks_queued in Ht.
  pose proof (active_nonneg (workers p)).
  destruct (pending (owner p)), (tasks p); simpl in Ht; split_and!; try done; lia.
Qed.

Lemma all_finished p :
  pool_inv p -> pending (owner p) = [] -> tasks p = [] -> active (workers p) = 0 ->
  finished p ≡ₚ submitted p /\ started p = submitted p.
Proof.
  intros [Ht Hf Ho Hw Hb _] Hp Hq Ha. rewrite Hf, Hp, Hq, !app_nil_r. split; [|done].
  rewrite Ho, (active_zero _ Ha), app_nil_r. done.
Qed.

Lemma inv_owner hardware p p' :
  pool_inv p -> Z.of_nat (length (submitted p)) < 2 ^ 64 -> owner_step hardware p p' -> pool_inv p'.
Proof.
  intros Hi Hs Hstep. pose proof Hi as [Ht Hf Ho Hw Hb Hal].
  destruct Hstep as [t E|t E|b E|E|n E|E|k E Hd|k E|n z E Hx|E Hx];
    rewrite E in Ht, Hf, Hw; pool_simpl.
  - split; pool_simpl; try done.
    + rewrite (u64_shift _ _ 1 Ht). f_equal. lia.
    + by rewrite Hf, <- !app_assoc.
  - split; pool_simpl; try done.
    + rewrite Ht, length_app. simpl. f_equal. lia.
    + by rewrite Hf, !app_nil_r.
  - by split; pool_simpl; rewrite ?E; pool_simpl.
  - by split; pool_simpl; rewrite ?E; pool_simpl.
  - by split; pool_simpl; rewrite ?E; pool_simpl.
  - by split; pool_simpl; rewrite ?E; pool_simpl.
  - assert (past_wait (match k with AfterWait => Free | _ => Drained k end) = true ->
            paused p = false -> tasks p = [] /\ active (workers p) = 0) as Hnew.
    { intros _ Hp. unfold wait_done in Hd. rewrite Hp in Hd. apply Z.eqb_eq in Hd.
      by destruct (total_zero p Hi Hs Hd) as (_ & ? & ?). }
    by destruct k; split; pool_simpl.
  - by split; pool_simpl.
  - destruct (exited_inactive _ Hx) as [Ha Hfl].
    destruct (inactive_replicate (thread_count_of hardware n)) as [Ha' Hfl'].
    split; pool_simpl; try done; rewrite ?Ha', ?Hfl'; rewrite ?Ha, ?Hfl in *; try done; try lia.
    intros _. by apply Forall_replicate.
  - by split; pool_simpl.
Qed.

Lemma step_submitted hardware p p' :
  step hardware p p' -> (length (submitted p) <= length (submitted p'))%nat.
Proof.
  intros [l1 a b l2 p1 Hws Hs|p1 Hs]; destruct Hs; pool_simpl; rewrite ?length_app; lia.
Qed.

Lemma reachable_inv hardware n p :
  reachable hardware n p -> Z.of_nat (length (submitted p)) < 2 ^ 64 -> pool_inv p.
Proof.
  induction 1 as [|p p' Hr IH Hs]; [intros _; apply inv_init|]. intros Hlen.
  pose proof (step_submitted _ _ _ Hs).
  destruct Hs as [l1 a b l2 p1 Hws Hs|p1 Hs].
  - eapply inv_worker; eauto. apply IH. lia.
  - apply (inv_owner hardware p); [apply IH; lia|lia|done].
Qed.

(** ** Draining

    Worker steps alone empty an unpaused, running pool with a worker. *)

Definition weight (w : Worker) : nat := match w with Running _ => 2 | Finished => 1 | _ => 0 end.
Definition weights (ws : list Worker) : nat := foldr (fun w n => weight w + n)%nat O ws.
Definition work (p : Pool) : nat := (3 * length (tasks p) + weights (workers p))%nat.

Lemma weights_app l1 w l2 : weights (l1 ++ w :: l2) = (weights l1 + weight w + weights l2)%nat.
Proof. induction l1 as [|a l1 IH]; simpl; [lia|]. rewrite IH. lia. Qed.

(** What the steps of workers leave alone. *)
Definition same_pool (p p' : Pool) : Prop :=
  running p' = running p /\ paused p' = paused p /\ owner p' = owner p /\
  submitted p' = submitted p /\ length (workers p') = length (workers p).

Lemma worker_step_same p l1 a b l2 p' :
  workers p = l1 ++ a :: l2 -> worker_step p a b p' -> same_pool p (with_workers (l1 ++ b :: l2) p').
Proof.
  intros Hw Hs. unfold same_pool. rewrite Hw. pool_simpl. rewrite !length_app. by destruct Hs.
Qed.

Lemma same_pool_trans p1 p2 p3 : same_pool p1 p2 -> same_pool p2 p3 -> same_pool p1 p3.
Proof. unfold same_pool. intuition congruence. Qed.

(** An active worker. *)
Lemma active_split ws :
  0 < active ws -> exists l1 w l2, ws = l1 ++ w :: l2 /\ (w = Finished \/ exists t, w = Running t).
Proof.
  induction ws as [|w ws IH]; simpl; [lia|]. intros Ha.
  destruct w as [| | |t| |]; simpl in Ha;
    try (destruct IH as (l1 & w & l2 & -> & Hw); [lia|]; eexists (_ :: l1), w, l2; done).
  - exists [], (Running t), ws. eauto.
  - exists [], Finished, ws. eauto.
Qed.

(** The part of a drain that one task needs. *)
Definition drains (hardware : nat) (p p' : Pool) : Prop :=
  rtc (step hardware) p p' /\ same_pool p p' /\ pool_inv p'.

Lemma drains_step hardware p p1 l1 a b l2 p2 :
  drains hardware p p1 -> workers p1 = l1 ++ a :: l2 -> worker_step p1 a b p2 ->
  drains hardware p (with_workers (l1 ++ b :: l2) p2).
Proof.
  intros (Hr & Hs & Hi) Hw Hst. split_and!.
  - eapply rtc_r; [exact Hr|]. by eapply step_worker.
  - eapply same_pool_trans; [exact Hs|]. by eapply worker_step_same.
  - by eapply inv_worker.
Qed.

Lemma drain_active hardware p :
  pool_inv p -> 0 < active (workers p) ->
  exists p', drains hardware p p' /\ (work p' < work p)%nat.
Proof.
  intros Hi Ha. destruct (active_split _ Ha) as (l1 & w & l2 & Hw & Hc).
  assert (drains hardware p p) as Hp by (split_and!; [apply rtc_refl|done..]).
  destruct Hc as [->|[t ->]].
  - eexists. split; [eapply drains_step; [exact Hp|exact Hw|constructor]|].
    unfold work. cbn. rewrite Hw, !weights_app. simpl. lia.
  - eexists. split; [eapply drains_step; [exact Hp|exact Hw|constructor]|].
    unfold work. cbn. rewrite Hw, !weights_app. simpl. lia.
Qed.

(** A worker that is not in a task reaches the next one. *)
Lemma drain_pop hardware p w ws t q :
  pool_inv p -> running p = true -> paused p = false -> workers p = w :: ws ->
  active (workers p) = 0 -> tasks p = t :: q ->
  exists p', drains hardware p p' /\ (work p' < work p)%nat.
Proof.
  intros Hi Hr Hz Hw Ha Ht.
  assert (drains hardware p p) as Hp by (split_and!; [apply rtc_refl|done..]).
  assert (exists p1, drains hardware p p1 /\ workers p1 = Popping :: ws /\ tasks p1 = t :: q) as (p1 & Hd & Hw1 & Ht1).
  { pose proof (inv_alive _ Hi Hr) as Hal. rewrite Hw in Hal, Ha. inversion Hal as [|? ? Hne]; subst.
    simpl in Ha. pose proof (active_nonneg ws). destruct w as [| | |t'| |]; simpl in Ha; try lia; try done.
    - pose proof (drains_step hardware p p [] _ _ ws p Hp Hw (ws_running p Hr)) as Hd1.
      exists (with_workers ([] ++ Popping :: ws) (with_workers ([] ++ CheckPaused :: ws) p)).
      split_and!; [|done|done]. eapply (drains_step _ _ _ []); [exact Hd1|done|by apply ws_unpaused].
    - exists (with_workers ([] ++ Popping :: ws) p). split_and!; [|done|done].
      eapply (drains_step _ _ _ []); [exact Hp|exact Hw|by apply ws_unpaused].
    - exists p. done. }
  eexists. split; [eapply (drains_step _ _ _ []); [exact Hd|exact Hw1|by eapply ws_pop]|].
  assert (weights (workers p) = weights ws) as E.
  { rewrite Hw in Ha |- *. simpl in Ha. pose proof (active_nonneg ws).
    destruct w; simpl in *; try done; lia. }
  unfold work. rewrite E, Ht. pool_simpl. cbn [app]. change (weights (Running t :: ws)) with (2 + weights ws)%nat. lia.
Qed.

Lemma drain hardware p :
  pool_inv p -> running p = true -> paused p = false -> workers p <> [] ->
  exists p', drains hardware p p' /\ tasks p' = [] /\ active (workers p') = 0.
Proof.
  remember (work p) as m eqn:Em. revert p Em. induction m as [m IH] using lt_wf_ind.
  intros p -> Hi Hr Hz Hne.
  assert (forall p1, drains hardware p p1 -> (work p1 < work p)%nat ->
    exists p', drains hardware p p' /\ tasks p' = [] /\ active (workers p') = 0) as Hgo.
  { intros p1 (Hs1 & (H1 & H2 & H3 & H4 & H5) & Hi1) Hlt.
    destruct (IH (work p1) Hlt p1 eq_refl Hi1) as (p2 & (Hs2 & Hsame & Hi2) & Hq & Ha); [congruence|congruence| |].
    - intros E. rewrite E in H5. by destruct (workers p).
    - exists p2. split_and!; [|done|done]. split_and!; [by etrans|by eapply same_pool_trans|done]. }
  destruct (decide (active (workers p) = 0)) as [Ha|Ha].
  - destruct (tasks p) as [|t q] eqn:Ht.
    + exists p. split_and!; [|done|done]. split_and!; [apply rtc_refl|done|done].
    + destruct (workers p) as [|w ws] eqn:Hw; [done|].
      destruct (drain_pop hardware p w ws t q) as (p1 & Hd & Hlt); try done; [by rewrite Hw|]. eauto.
  - pose proof (active_nonneg (workers p)).
    destruct (drain_active hardware p Hi ltac:(lia)) as (p1 & Hd & Hlt). eauto.
Qed.

(** ** Properties *)

(** C29: in every reachable state of the pool, the counter [tasks_total] is the
    number of tasks pushed but not done; tasks are started in the order they were
    submitted, and no task is started twice or lost: the submitted tasks are those
    started, then those queued, then the one being pushed. *)
Theorem pool_counts_and_order hardware n p :
  reachable hardware n p -> Z.of_nat (length (submitted p)) < 2 ^ 64 ->
  tasks_total p = outstanding p /\
  submitted p = started p ++ tasks p ++ pending (owner p) /\
  started p ≡ₚ finished p ++ in_flight (workers p).
Proof.
  intros Hr Hs. pose proof (reachable_inv _ _ _ Hr Hs) as Hi.
  pose proof (outstanding_bound p Hi). split_and!; [|by apply inv_fifo|by apply inv_once].
  rewrite (inv_total _ Hi). apply wrap_small. unfold outstanding in *. lia.
Qed.


(** C31: the pool cannot get stuck: from every reachable state of a running,
    unpaused pool with at least one worker, the workers alone can finish all the
    tasks that were pushed, so that [wait_for_tasks] returns. *)
Theorem pool_drains hardware n p :
  reachable hardware n p -> Z.of_nat (length (submitted p)) < 2 ^ 64 ->
  running p = true -> paused p = false -> workers p <> [] -> pending (owner p) = [] ->
  exists p', rtc (step hardware) p p' /\ owner p' = owner p /\
             wait_done p' = true /\ finished p' ≡ₚ submitted p.
Proof.
  intros Hr Hs Hrun Hz Hne Hp. pose proof (reachable_inv _ _ _ Hr Hs) as Hi.
  destruct (drain hardware p Hi Hrun Hz Hne) as (p' & (Hsteps & (H1 & H2 & H3 & H4 & H5) & Hi') & Hq & Ha).
  exists p'. split_and!; [done|done| |].
  - unfold wait_done. rewrite H2, Hz. cbn [negb]. rewrite (inv_total _ Hi'). unfold get_tasks_queued.
    rewrite H3, Hp, Hq, Ha. done.
  - rewrite <- H4. apply all_finished; try done. by rewrite H3.
Qed.

End pool.
Arguments Pool T : clear implicits.
Arguments Worker T : clear implicits.
Arguments Owner T : clear implicits.

(** ** submit

    The wrapper that [submit] pushes: the task's value or exception goes to the
    promise, and the wrapper itself never throws.  [future::get] gives the value or
    rethrows; [future::wait] only waits. *)

Inductive promise (A : Type) := PValue (a : A) | PException (e : exn).
Arguments PValue {A} a.
Arguments PException {A} e.

Definition submit_wrapper {A} (task : M A) : M (promise A) := fun w =>
  match task w with
  | (w', Ret a) => (w', Ret (PValue a))
  | (w', Throw e) => (w', Ret (PException e))
  | (w', Crash f) => (w', Crash f)
  end.

(** The overload for tasks that return nothing sets the value [true]. *)
Definition submit_void (task : M unit) : M (promise bool) :=
  submit_wrapper (task ;; mret true).

Definition future_get {A} (p : promise A) : result A :=
  match p with PValue a => Ret a | PException e => Throw e end.
Definition future_wait {A} (p : promise A) : result unit := Ret tt.

(** [dbThreadPoolInit(maxThreads)]: a new pool takes the place of the old one. *)
Definition dbThreadPoolInit `{os : !OS} {T} (maxThreads : Z) : Pool T :=
  thread_pool (Z.to_nat hardware_concurrency) (Z.to_nat maxThreads).

(** ** parallelize_loop

    The blocks the loop is cut into; the index type is wide enough for the range. *)
Definition loop_blocks (first_index index_after_last num_blocks thread_count : Z) : result (list (Z * Z)) :=
  let the_first_index := first_index in
  let last_index := index_after_last in
  if the_first_index =? last_index then Ret []
  else
    let '(the_first_index, last_index) :=
      if last_index <? the_first_index then (last_index, the_first_index)
      else (the_first_index, last_index) in
    let last_index := last_index - 1 in
    let num_blocks := if num_blocks =? 0 then thread_count else num_blocks in
    let total_size := u64 (last_index - the_first_index + 1) in
    if num_blocks =? 0 then Crash DivByZero else
    let block_size := total_size / num_blocks in
    let '(block_size, num_blocks) :=
      if block_size =? 0 then (1, if 1 <? total_size then total_size else 1)
      else (block_size, num_blocks) in
    Ret (map (fun t => (t * block_size + the_first_index,
                        if t =? num_blocks - 1 then last_index + 1
                        else (t + 1) * block_size + the_first_index)) (seqZ 0 num_blocks)).

(** The indices of a block, in the order [loop(start, end)] visits them. *)
Definition block_indices (b : Z * Z) : list Z := seqZ (fst b) (snd b - fst b).

Lemma seqZ_split m n k : 0 <= k <= n -> seqZ m k ++ seqZ (m + k) (n - k) = seqZ m n.
Proof. intros Hk. rewrite <- seqZ_app by lia. f_equal. lia. Qed.

(** Equal blocks whose last one is stretched to the end. *)
Lemma blocks_cover (nb : nat) bs first last :
  (0 < nb)%nat -> 0 <= bs -> bs * Z.of_nat nb <= last - first ->
  concat (map block_indices
    (map (fun t => (t * bs + first, if t =? Z.of_nat nb - 1 then last else (t + 1) * bs + first))
       (seqZ 0 (Z.of_nat nb)))) = seqZ first (last - first).
Proof.
  intros Hnb Hbs Hsz.
  assert (forall k : nat, (k < nb)%nat ->
    concat (map block_indices
      (map (fun t => (t * bs + first, if t =? Z.of_nat nb - 1 then last else (t + 1) * bs + first))
         (seqZ 0 (Z.of_nat k)))) = seqZ first (bs * Z.of_nat k)) as Hpre.
  { induction k as [|k IH]; intros Hk.
    - change (seqZ 0 (Z.of_nat 0)) with (@nil Z). by rewrite Z.mul_0_r.
    - rewrite seqZ_S, !map_app, concat_app, IH by lia. cbn [map concat]. rewrite app_nil_r.
      unfold block_indices. cbn [fst snd].
      destruct (Z.eqb_spec (0 + Z.of_nat k) (Z.of_nat nb - 1)); [lia|].
      rewrite <- (seqZ_split first (bs * Z.of_nat (S k)) (bs * Z.of_nat k)) by nia.
      do 2 f_equal; nia. }
  destruct nb as [|nb]; [lia|]. rewrite seqZ_S, !map_app, concat_app, Hpre by lia.
  cbn [map concat]. rewrite app_nil_r. unfold block_indices. cbn [fst snd].
  rewrite (proj2 (Z.eqb_eq (0 + Z.of_nat nb) (Z.of_nat (S nb) - 1))) by lia.
  rewrite <- (seqZ_split first (last - first) (bs * Z.of_nat nb)) by nia. do 2 f_equal; lia.
Qed.

Lemma blocks_coverZ nb bs first last :
  0 < nb -> 0 <= bs -> bs * nb <= last - first ->
  concat (map block_indices
    (map (fun t => (t * bs + first, if t =? nb - 1 then last else (t + 1) * bs + first))
       (seqZ 0 nb))) = seqZ first (last - first).
Proof.
  intros Hnb Hbs Hsz. pose proof (blocks_cover (Z.to_nat nb) bs first last) as H.
  rewrite Z2Nat.id in H by lia. apply H; lia.
Qed.

(** The size and the number of the blocks of a range. *)
Lemma block_shape size n :
  0 < size -> 0 < n ->
  let '(bs, nb) := if size / n =? 0 then (1, if 1 <? size then size else 1) else (size / n, n) in
  0 < nb /\ 0 <= bs /\ bs * nb <= size.
Proof.
  intros Hs Hn. pose proof (Z.mul_div_le size n Hn). pose proof (Z.div_pos size n ltac:(lia) Hn).
  destruct (Z.eqb_spec (size / n) 0); [destruct (Z.ltb_spec 1 size)|]; lia.
Qed.


(** ** Concrete runs *)

Section pool_witnesses.

(** One worker, one task: push it, pop it, run it. *)
Definition demo_pool : Pool Z :=
  mkPool true false [] 1 [Running 7] Free [7] [7] [].

Lemma demo_reachable : reachable 4 1 demo_pool.
Proof.
  pose proof (reach_init (T := Z) 4 1) as H. unfold thread_pool in H. cbn in H.
  eapply reach_step in H; [|apply step_owner, (os_push 4 _ 7); reflexivity]. cbn in H.
  eapply reach_step in H; [|apply step_owner, (os_pushed 4 _ 7); reflexivity]. cbn in H.
  eapply reach_step in H; [|eapply (step_worker 4 _ []); [reflexivity|by apply ws_running]]. cbn in H.
  eapply reach_step in H; [|eapply (step_worker 4 _ []); [reflexivity|by apply ws_unpaused]]. cbn in H.
  eapply reach_step in H; [|eapply (step_worker 4 _ []); [reflexivity|by apply (ws_pop _ 7 [])]]. cbn in H.
  exact H.
Qed.

Definition demo_waiting : Pool Z := mkPool true false [] 0 [Idle] (Waiting AfterWait) [7] [7] [7].

Lemma demo_waiting_reachable : reachable 4 1 demo_waiting.
Proof.
  pose proof demo_reachable as H.
  eapply reach_step in H; [|eapply (step_worker 4 _ []); [reflexivity|by apply ws_finish]]. cbn in H.
  eapply reach_step in H; [|eapply (step_worker 4 _ []); [reflexivity|by apply ws_count]]. cbn in H.
  eapply reach_step in H; [|apply step_owner, (os_wait 4); reflexivity]. exact H.
Qed.

Lemma pool_counts_and_order_witness :
  tasks_total demo_pool = outstanding demo_pool /\
  submitted demo_pool = started demo_pool ++ tasks demo_pool ++ pending (owner demo_pool) /\
  started demo_pool ≡ₚ finished demo_pool ++ in_flight (workers demo_pool).
Proof. apply (pool_counts_and_order 4 1 demo_pool); [apply demo_reachable|done]. Defined.


Lemma pool_drains_witness :
  exists p', rtc (step 4) demo_pool p' /\ owner p' = owner demo_pool /\
             wait_done p' = true /\ finished p' ≡ₚ submitted demo_pool.
Proof. apply (pool_drains 4 1 demo_pool); [apply demo_reachable|done..]. Defined.


Example blocks_10_3 : loop_blocks 0 10 3 4 = Ret [(0, 3); (3, 6); (6, 10)].
Proof. reflexivity. Qed.

End pool_witnesses.
