(* ===== verification/DBOperation.v ===== *)
(** * DBOperation

    [bloom_hierarchy/dbOperation.{hpp,cpp}] and [bloom_hierarchy/test_params.hpp]:
    the operations the experiments are made of, in the world monad.  The database
    engine is the interface [LevelDB] (open, put, get, property, close); the
    program's thread pool is that of [ThreadPool.v].  Reference parameters
    [Result& res] and [bloomTree*] are returned with their new value. *)

From Stdlib Require Import ZArith Lia.
From S2P Require Import Prelude CString World BloomValue BloomTree SliceStatus FilterPolicy.
From S2P Require Import DumpFile DBDumper ThreadPool.
Import bloom_value (bloom_value, bloom_value_new, exists_, insert, saveToFile, loadFromFile, createFile).

(** ** test_params.hpp *)

Record TestParams := mkParams {
  p_dbName : str; p_numRecords : Z; p_bloomTreeRatio : Z; p_numberOfAttempts : Z;
  p_bloomSize : Z; p_numHashFunctions : Z
}.

Record Result := mkResult {
  dbCreationTime : Z;
  itemNumber : Z;
  hierarchyFilterNumber : Z;
  foundInLeafBloomNoHierarchy : Z;
  foundInSSTableNoHierarchy : Z;
  foundInLeafBloomWithHierarchy : Z;
  foundInSSTableWithHierarchy : Z;
  foundInLeafBloom : Z;
  foundInSSTable : Z;
  tScanningWithoutBloom : Z;
  tScanningWithBloom : Z;
  tCreatingLeafLevel : Z;
  tCreatingHierarchy : Z;
  tCreatingBloomExternally : Z;
  tCheckingInHierarchy : Z;
  accessedBloomFilter : Z;
  percentage : Z
}.

(** The members of a [Result] by position, for updates. *)
Inductive res_field :=
  | F_dbCreationTime | F_itemNumber | F_hierarchyFilterNumber
  | F_foundInLeafBloomNoHierarchy | F_foundInSSTableNoHierarchy
  | F_foundInLeafBloomWithHierarchy | F_foundInSSTableWithHierarchy
  | F_foundInLeafBloom | F_foundInSSTable
  | F_tScanningWithoutBloom | F_tScanningWithBloom | F_tCreatingLeafLevel | F_tCreatingHierarchy
  | F_tCreatingBloomExternally | F_tCheckingInHierarchy | F_accessedBloomFilter | F_percentage.

#[export] Instance res_field_eq_decision : EqDecision res_field.
Proof. solve_decision. Defined.

Definition get_res (f : res_field) (r : Result) : Z :=
  match f with
  | F_dbCreationTime => dbCreationTime r | F_itemNumber => itemNumber r
  | F_hierarchyFilterNumber => hierarchyFilterNumber r
  | F_foundInLeafBloomNoHierarchy => foundInLeafBloomNoHierarchy r
  | F_foundInSSTableNoHierarchy => foundInSSTableNoHierarchy r
  | F_foundInLeafBloomWithHierarchy => foundInLeafBloomWithHierarchy r
  | F_foundInSSTableWithHierarchy => foundInSSTableWithHierarchy r
  | F_foundInLeafBloom => foundInLeafBloom r | F_foundInSSTable => foundInSSTable r
  | F_tScanningWithoutBloom => tScanningWithoutBloom r | F_tScanningWithBloom => tScanningWithBloom r
  | F_tCreatingLeafLevel => tCreatingLeafLevel r | F_tCreatingHierarchy => tCreatingHierarchy r
  | F_tCreatingBloomExternally => tCreatingBloomExternally r
  | F_tCheckingInHierarchy => tCheckingInHierarchy r
  | F_accessedBloomFilter => accessedBloomFilter r | F_percentage => percentage r
  end.

(** [res.f = v]: the members are [int]s. *)
Definition set_res (f : res_field) (v : Z) (r : Result) : Result :=
  let g f' := if decide (f = f') then int_of v else get_res f' r in
  mkResult (g F_dbCreationTime) (g F_itemNumber) (g F_hierarchyFilterNumber)
    (g F_foundInLeafBloomNoHierarchy) (g F_foundInSSTableNoHierarchy)
    (g F_foundInLeafBloomWithHierarchy) (g F_foundInSSTableWithHierarchy)
    (g F_foundInLeafBloom) (g F_foundInSSTable)
    (g F_tScanningWithoutBloom) (g F_tScanningWithBloom) (g F_tCreatingLeafLevel)
    (g F_tCreatingHierarchy) (g F_tCreatingBloomExternally) (g F_tCheckingInHierarchy)
    (g F_accessedBloomFilter) (g F_percentage).

(** ** The database engine *)

Class LevelDB := {
  DB : Type;
  (* [leveldb::DB::Open] with [create_if_missing], and a filter policy or none *)
  db_Open : filesystem -> option BloomFilterPolicy.BloomFilterPolicy -> str ->
            filesystem * Status.Status * option DB;
  db_Put : DB -> filesystem -> str -> str -> DB * filesystem * Status.Status;
  (* the status and what [*value] holds afterwards *)
  db_Get : DB -> filesystem -> str -> DB * filesystem * Status.Status * str;
  db_GetProperty : DB -> filesystem -> str -> DB * filesystem * str;
  db_delete : DB -> filesystem -> filesystem
}.

(** ** Constants *)

Definition outDir : str := $"../out/".
Definition bloomExt : str := $".bloom".
Definition dataExt : str := $".ldb".
Definition dbDir : str := $"./db/".
Definition letters : str := $"ABCDEFGHIJKLMNOPQRSTUVWXYZ".

(** The directory the scans look in; the database is created in [dbDir + dbname],
    which is the same place when the program runs in the [out] directory. *)
Definition scan_directory (dbname : str) : str := outDir ++ dbDir ++ dbname.

Section ops.
Context `{os : !OS, sh : !StdHash, LD : !LevelDB}.

Definition set_files (fs : filesystem) : M unit := modify (set_fs (fun _ => fs)).

(** [(millisec_after - millisec_before) / 1000000] *)
Definition msec (before after : Z) : Z := Z.quot (after - before) 1000000.

(** [rand() % (sizeof(letters) - 1)] is one draw below 26. *)
Definition randomString (length : Z) : M str :=
  foldM (fun s _ =>
    r ← draw 0 INT_MAX;
    c ← lift (vec_at letters (r mod 26));
    mret (s ++ [c])) [] (seqZ 0 length).

(** ** Creating and querying the database *)

Definition open_db (policy : option BloomFilterPolicy.BloomFilterPolicy) (path : str) : M DB :=
  fs ← gets w_fs;
  let '(fs, status, db) := db_Open fs policy path in
  _ ← set_files fs;
  match Status.ok status, db with
  | true, Some db => mret db
  | _, _ => lift (Crash AssertFailed)
  end.

Definition put_db (db : DB) (key val : str) : M DB :=
  fs ← gets w_fs;
  let '(db, fs, _) := db_Put db fs key val in
  _ ← set_files fs; mret db.

Definition delete_db (db : DB) : M unit :=
  fs ← gets w_fs; set_files (db_delete db fs).

(** The distribution object is built before the percentage is looked at; only a
    draw from it needs a range that is not empty. *)
Definition DbCreation (dbname : str) (itemNumber percentageRandom : Z) (res : Result) : M Result :=
  before ← read_clock;
  db ← open_db None (dbDir ++ dbname);
  let p := Z.quot itemNumber 100 in
  max ← lift (int_check (p * percentageRandom));
  db ← foldM (fun db i =>
         let key := $"Key" ++ to_string i in
         if percentageRandom =? 0 then put_db db key ($"Value" ++ to_string i)
         else
           ran ← draw 1 max;
           put_db db key ($"Value" ++ to_string ran))
       db (seqZ 1 (itemNumber - 1));
  _ ← delete_db db;
  after ← read_clock;
  let d := msec before after in
  _ ← put_cout ($"DB Creation time (ms)" ++ to_string d ++ nl);
  _ ← put_log (to_string d ++ tab);
  mret (set_res F_dbCreationTime d res).

Definition RetrieveData (dbname key : str) : M unit :=
  db ← open_db None (dbDir ++ dbname);
  before ← read_clock;
  fs ← gets w_fs;
  let '(db, fs, _, document) := db_Get db fs key in
  _ ← set_files fs;
  after ← read_clock;
  _ ← put_cout (document ++ $"Time duration (micro seconds)"
                ++ to_string (Z.quot (after - before) 1000) ++ nl);
  delete_db db.

Definition Statistics (dbname : str) : M unit :=
  policy ← lift (BloomFilterPolicy.make 10);
  db ← open_db (Some policy) (dbDir ++ dbname);
  fs ← gets w_fs;
  let '(db, fs, propertyValue) := db_GetProperty db fs ($"leveldb.sstables") in
  _ ← set_files fs;
  _ ← put_cout propertyValue;
  delete_db db.

(** ** Files *)

(** [filename.length() >= extension.length() && filename.compare(filename.length() -
    extension.length(), extension.length(), extension) == 0] *)
Definition has_extension (extension filename : str) : bool :=
  (str_size extension <=? str_size filename) &&
  str_eqb (drop (length filename - length extension) filename) extension.

Definition listFilesWithExtension (directory extension : str) : M (list str) :=
  ents ← scan_dir directory;
  match ents with
  | Some names =>
      mret (map (fun filename => directory ++ $"/" ++ filename) (List.filter (has_extension extension) names))
  | None => _ ← put_cerr ($"Error opening directory" ++ nl); mret []
  end.

Definition transformFileName (filename from to : str) : result str :=
  s ← substr filename 0 (u64 (str_size filename - str_size from));
  Ret (s ++ to).

Definition RetrieveFromSStable (file valueToFind : str) : M Z :=
  ssTableRecords ← dumpSSTable file;
  foldM (fun foundValues r =>
    if str_eqb (valData r) valueToFind then lift (int_check (foundValues + 1)) else mret foundValues)
    0 ssTableRecords.

(** ** Scans *)

Definition ScanningWithoutBloom (dbname valuetofind : str) (res : Result) : M Result :=
  before ← read_clock;
  files ← listFilesWithExtension (scan_directory dbname) dataExt;
  _ ← foldM (fun foundInSSTable file =>
        nmbOfOccurences ← RetrieveFromSStable file valuetofind;
        lift (int_check (foundInSSTable + nmbOfOccurences))) 0 files;
  after ← read_clock;
  let d := msec before after in
  _ ← put_log (to_string d ++ tab);
  _ ← put_cout ($"Scanning without bloom (ms)" ++ to_string d ++ nl);
  mret (set_res F_tScanningWithoutBloom d res).

(** The body of the loop over bloom files. *)
Definition scan_bloom_file (valuetofind : str) (found : Z * Z) (file : str) : M (Z * Z) :=
  let '(foundinLeafBloom, foundInSSTable) := found in
  filter ← loadFromFile file;
  if exists_ filter valuetofind then
    leaf ← lift (int_check (foundinLeafBloom + 1));
    datafile ← lift (transformFileName file bloomExt dataExt);
    nmbOfOccurences ← RetrieveFromSStable datafile valuetofind;
    sst ← lift (int_check (foundInSSTable + nmbOfOccurences));
    mret (leaf, sst)
  else mret (foundinLeafBloom, foundInSSTable).

Definition ScanningInBloomFiles (bloomfiles : list str) (valuetofind : str) (res : Result) : M Result :=
  found ← foldM (scan_bloom_file valuetofind) (0, 0) bloomfiles;
  let '(foundinLeafBloom, foundInSSTable) := (found : Z * Z) in
  _ ← put_log (to_string foundinLeafBloom ++ tab);
  _ ← put_log (to_string foundInSSTable ++ tab);
  mret (set_res F_foundInSSTable foundInSSTable (set_res F_foundInLeafBloom foundinLeafBloom res)).

Definition ScanningInBloomFilesMultiplyValue (bloomfiles : list str) (valuetofind : str) : M unit :=
  forM bloomfiles (fun file =>
    filter ← loadFromFile file;
    if exists_ filter valuetofind then
      datafile ← lift (transformFileName file bloomExt dataExt);
      _ ← RetrieveFromSStable datafile valuetofind; mret ()
    else mret ()).

Definition ScanningWithBloom (dbname valuetofind : str) (res : Result) : M Result :=
  before ← read_clock;
  files ← listFilesWithExtension (scan_directory dbname) bloomExt;
  res ← ScanningInBloomFiles files valuetofind res;
  after ← read_clock;
  let d := msec before after in
  _ ← put_log (to_string d ++ tab);
  _ ← put_cout ($"Scanning with bloom  (ms)" ++ to_string d ++ nl);
  mret (set_res F_tScanningWithBloom d res).

(** ** Building filters and hierarchies *)

Definition CreateBloomValue (dbname : str) (res : Result) : M Result :=
  before ← read_clock;
  files ← listFilesWithExtension (scan_directory dbname) dataExt;
  _ ← forM files (fun file =>
        bloom_file ← lift (transformFileName file dataExt bloomExt);
        let filter := bloom_value_new in
        _ ← createFile bloom_file;
        ssTableRecords ← dumpSSTable file;
        let filter := foldl (fun filter r => insert filter (valData r)) filter ssTableRecords in
        saveToFile filter bloom_file);
  after ← read_clock;
  let d := msec before after in
  _ ← put_log (to_string d ++ tab);
  _ ← put_cout ($"Creating bloom externally  (ms)" ++ to_string d ++ nl);
  mret (set_res F_tCreatingBloomExternally d res).

Definition CreateLeafHierarchyLevel (dbname : str) (treeHierarchy : bloomTree) (res : Result)
    : M (bloomTree * Result) :=
  before ← read_clock;
  files ← listFilesWithExtension (scan_directory dbname) bloomExt;
  treeHierarchy ← foldM (fun tree file =>
                    filter ← loadFromFile file;
                    mret (createLeafLevel tree filter file)) treeHierarchy files;
  after ← read_clock;
  let d := msec before after in
  _ ← put_log (to_string d ++ tab);
  _ ← put_cout ($"Creating leaf level  (ms)" ++ to_string d ++ nl);
  mret (treeHierarchy, set_res F_tCreatingLeafLevel d res).

Definition CreateHierarchy (treeHierarchy : bloomTree) (res : Result) : M (bloomTree * Result) :=
  before ← read_clock;
  treeHierarchy ← lift (createTree treeHierarchy);
  after ← read_clock;
  let d := msec before after in
  _ ← put_log (to_string d ++ tab);
  _ ← put_cout ($"Creating hierarchy  (ms)" ++ to_string d ++ nl);
  mret (treeHierarchy, set_res F_tCreatingHierarchy d res).

Definition CheckInHierarchy (treeHierarchy : bloomTree) (valuetofind : str) (res : Result)
    : M (bloomTree * Result) :=
  before ← read_clock;
  q ← lift (checkExistance treeHierarchy valuetofind);
  let '(treeHierarchy, bloomFiles) := (q : bloomTree * list str) in
  res ← match bloomFiles with
        | [] => _ ← put_cout ($"Value not found in bloom" ++ nl); mret res
        | _ => ScanningInBloomFiles bloomFiles valuetofind res
        end;
  let c := GetScannedHierarchyFilters treeHierarchy in
  _ ← put_log (to_string c ++ tab);
  after ← read_clock;
  let d := msec before after in
  _ ← put_log (to_string d ++ tab);
  _ ← put_cout ($"Checking in hierarchy  (ms)" ++ to_string d ++ nl);
  let n := Z.of_nat (length bloomFiles) in
  _ ← put_log (to_string n ++ nl);
  mret (treeHierarchy,
        set_res F_accessedBloomFilter n
          (set_res F_hierarchyFilterNumber c (set_res F_tCheckingInHierarchy d res))).

(** ** Many values, with threads *)

Definition CreateMultiplyValue (itemNmb data_size : Z) : M (list str) :=
  foldM (fun valuesToFind _ =>
    ran ← draw 1 itemNmb;
    mret (valuesToFind ++ [$"Value" ++ to_string ran])) [] (seqZ 0 data_size).

(** The chunks of the values that the tasks get. *)
Definition chunk_ranges (data_size threadNmb : Z) : list (Z * Z) :=
  let chunk_size := Z.quot data_size threadNmb in
  map (fun i => let start := i * chunk_size in
                (start, if i =? threadNmb - 1 then data_size else start + chunk_size))
    (seqZ 0 threadNmb).

(** The lambda [f1]. *)
Definition check_chunk (treeHierarchy : bloomTree) (data : list str) (range : Z * Z) : M unit :=
  let '(start, end_) := range in
  forM (seqZ start (end_ - start)) (fun i =>
    value ← lift (vec_at data i);
    bloomFiles ← lift (checkExistanceThread treeHierarchy value);
    match bloomFiles with
    | [] => put_cout ($"Value not found in bloom" ++ nl)
    | _ => ScanningInBloomFilesMultiplyValue bloomFiles value
    end).

(** The futures are waited for, in the order the tasks were submitted; the model
    runs the tasks in that order.  [dbThreadPool] is the global pool, null before
    the first [dbThreadPoolInit]. *)
Definition CheckInHierarchyMultiplyValueForOneThread (dbThreadPool : option (Pool (M unit)))
    (treeHierarchy : bloomTree) (threadNmb : Z) (valuesToFind : list str) : M (list (promise bool)) :=
  _ ← put_cout ($"Number of threads: " ++ to_string threadNmb ++ nl);
  let data_size := Z.of_nat (length valuesToFind) in
  before ← read_clock;
  futures ← foldM (fun futures range =>
              match dbThreadPool with
              | None => lift (Crash NullDeref)
              | Some _ =>
                  f ← submit_void (check_chunk treeHierarchy valuesToFind range);
                  mret (futures ++ [f])
              end) [] (chunk_ranges data_size threadNmb);
  _ ← forM futures (fun task => lift (future_wait task));
  after ← read_clock;
  let d := msec before after in
  _ ← put_log (to_string threadNmb ++ tab);
  _ ← put_log (to_string d ++ nl);
  _ ← put_cout ($"Checking in hierarchy  (ms)" ++ to_string d ++ nl);
  mret futures.

Definition CheckInHierarchyMultiplyValueForThreads (treeHierarchy : bloomTree) (itemNmb data_size : Z)
    : M unit :=
  valuesToFind ← CreateMultiplyValue itemNmb data_size;
  let num_threads := hardware_concurrency in
  _ ← put_log ($"Multivalue for threads" ++ nl);
  forM [1; 2; 4; 8; 16; 32] (fun t =>
    if t <=? num_threads then
      let dbThreadPool := dbThreadPoolInit t in
      _ ← CheckInHierarchyMultiplyValueForOneThread (Some dbThreadPool) treeHierarchy t valuesToFind;
      mret ()
    else mret ()).

End ops.
