(* ===== verification/SearchSpec.v ===== *)
(** * What the scans compute

    Specifications of the file operations and of the searches of
    [DBOperation.v] on one database directory: which files a listing gives, the
    records and the filter of a table, what [CreateBloomValue] leaves on disk, and
    what a scan of a list of bloom files counts. *)

From Stdlib Require Import ZArith Lia.
From S2P Require Import Prelude CString World BloomValue BloomTree SliceStatus Logging.
From S2P Require Import DumpFile DBDumper DBOperation.
Import bloom_value (bloom_value, bloom_value_new, exists_, insert, saveToFile, loadFromFile, createFile).

(** ** Names and extensions *)

Lemma has_extension_spec ext n : has_extension ext n = true <-> exists b, n = b ++ ext.
Proof.
  unfold has_extension, str_size. rewrite andb_true_iff, Z.leb_le, str_eqb_eq. split.
  - intros [Hl Hd]. exists (take (length n - length ext) n). rewrite <- Hd at 2. by rewrite take_drop.
  - intros [b ->]. rewrite length_app. split; [lia|].
    by rewrite Nat.add_sub, drop_app_length.
Qed.

Lemma transformFileName_app x from to :
  str_size (x ++ from) <= SIZE_MAX -> transformFileName (x ++ from) from to = Ret (x ++ to).
Proof.
  intros Hs. unfold transformFileName. rewrite str_size_app in *.
  pose proof (str_size_nonneg x). pose proof (str_size_nonneg from).
  replace (str_size x + str_size from - str_size from) with (str_size x) by lia.
  unfold SIZE_MAX in Hs. rewrite wrap_small by lia.
  pose proof (substr_app [] (x ++ from) (str_size x) ltac:(lia)) as Hb. simpl app in Hb.
  change (str_size []) with 0 in Hb. rewrite Hb. cbn [mbind result_bind].
  unfold str_size. by rewrite Nat2Z.id, take_app_length.
Qed.

Lemma ext_inj (ext b b' : str) : b ++ ext = b' ++ ext -> b = b'.
Proof. apply app_inv_tail. Qed.

(** A name does not have both extensions. *)
Lemma ext_disjoint (b b' : str) : b ++ dataExt <> b' ++ bloomExt.
Proof.
  intros H. apply (f_equal last) in H. by rewrite !last_app in H.
Qed.

(** *** A file with the data extension is a table or unknown to leveldb *)

Lemma consume_digits_split v s v' rest :
  consume_digits v s = Some (v', rest) -> exists ds, s = ds ++ rest /\ Forall is_digit ds.
Proof.
  revert v. induction s as [|b s IH]; intros v; simpl; [intros [= <- <-]; by exists []|].
  destruct ((b2z b <? 48) || (57 <? b2z b)) eqn:E; [intros [= <- <-]; by exists []|].
  case_match; [done|]. intros (ds & -> & Hd)%IH. exists (b :: ds). split; [done|].
  constructor; [|done]. apply orb_false_iff in E as [E1%Z.ltb_ge E2%Z.ltb_ge]. unfold is_digit. lia.
Qed.

Lemma Consume_split s v rest :
  ConsumeDecimalNumber s = Some (v, rest) -> exists ds, s = ds ++ rest /\ Forall is_digit ds.
Proof.
  unfold ConsumeDecimalNumber. destruct (consume_digits 0 s) as [[v' r]|] eqn:E; [|done].
  case_match; [done|]. intros [= <- <-]. by eapply consume_digits_split.
Qed.

Lemma eqb_last s t : last s <> last t -> Slice.eqb s t = false.
Proof. intros H. apply not_true_is_false. rewrite slice_eqb_eq. by intros ->. Qed.

Lemma last_data b : last (b ++ dataExt) = Some Byte.x62.
Proof. by rewrite last_app. Qed.

Lemma last_drop_ne {A} k (s : list A) : drop k s <> [] -> last (drop k s) = last s.
Proof.
  intros Hne. pose proof (last_app (take k s) (drop k s)) as H. rewrite take_drop in H.
  rewrite H. destruct (last (drop k s)) eqn:E; [done|]. by apply last_None in E.
Qed.

(** What is left after the digits still ends with the extension. *)
Lemma Consume_last b k v rest :
  ConsumeDecimalNumber (drop k (b ++ dataExt)) = Some (v, rest) -> drop k (b ++ dataExt) <> [] ->
  last rest = Some Byte.x62.
Proof.
  intros (ds & Hd & Hds)%Consume_split Hne. pose proof (last_drop_ne k _ Hne) as Hl.
  rewrite last_data, Hd, last_app in Hl. destruct (last rest); [done|].
  exfalso. apply last_Some_elem_of in Hl. rewrite Forall_forall in Hds. specialize (Hds _ Hl).
  unfold is_digit in Hds. change (b2z Byte.x62) with 98 in Hds. lia.
Qed.

Lemma data_file_type b :
  ParseFileName (b ++ dataExt) = None \/ exists n, ParseFileName (b ++ dataExt) = Some (n, kTableFile).
Proof.
  unfold ParseFileName. pose proof (last_data b) as Hl.
  rewrite !eqb_last by (by rewrite Hl). cbn [orb].
  destruct (Slice.starts_with (b ++ dataExt) ($"MANIFEST-")) eqn:E.
  - apply starts_with_spec in E as [t Ht].
    destruct (ConsumeDecimalNumber _) as [[v rest]|] eqn:Ec; [|by left].
    destruct rest; [|by left]. exfalso.
    assert (drop (length ($"MANIFEST-")) (b ++ dataExt) <> []) as Hne.
    { rewrite Ht, drop_app_length. intros ->. by rewrite Ht, last_app in Hl. }
    by apply Consume_last in Ec.
  - destruct (ConsumeDecimalNumber (b ++ dataExt)) as [[v rest]|] eqn:Ec; [|by left].
    assert (last rest = Some Byte.x62) as Hr.
    { apply (Consume_last b 0 v); [by rewrite drop_0|]. rewrite drop_0. by destruct b. }
    rewrite !(eqb_last rest ($".log")), !(eqb_last rest ($".dbtmp")), !(eqb_last rest ($".sst")) by (by rewrite Hr).
    destruct (Slice.eqb rest ($".ldb")); simpl; eauto.
Qed.

(** ** Sums over files *)

Definition sumZ {A} (g : A -> Z) (l : list A) : Z := foldr (fun a z => g a + z) 0 l.

Lemma sumZ_app {A} (g : A -> Z) l1 l2 : sumZ g (l1 ++ l2) = sumZ g l1 + sumZ g l2.
Proof. induction l1 as [|a l1 IH]; simpl; [done|]. rewrite IH. lia. Qed.

Lemma sumZ_nonneg {A} (g : A -> Z) l : (forall a, a ∈ l -> 0 <= g a) -> 0 <= sumZ g l.
Proof.
  induction l as [|a l IH]; simpl; intros Hg; [lia|].
  pose proof (Hg a ltac:(set_solver)). assert (0 <= sumZ g l) by (apply IH; set_solver). lia.
Qed.

#[export] Instance sumZ_perm {A} (g : A -> Z) : Proper ((≡ₚ) ==> eq) (sumZ g).
Proof. intros l1 l2 Hp. induction Hp; simpl; lia. Qed.

Lemma sumZ_zero {A} (g : A -> Z) l : (forall a, a ∈ l -> g a = 0) -> sumZ g l = 0.
Proof. induction l as [|a l IH]; simpl; intros Hg; [done|]. rewrite Hg, IH; set_solver. Qed.

Lemma sumZ_ext {A} (g h : A -> Z) l : (forall a, a ∈ l -> g a = h a) -> sumZ g l = sumZ h l.
Proof. induction l as [|a l IH]; simpl; intros Hg; [done|]. rewrite Hg, IH; set_solver. Qed.

Lemma sumZ_map {A B} (g : B -> Z) (f : A -> B) l : sumZ g (map f l) = sumZ (g ∘ f) l.
Proof. induction l as [|a l IH]; simpl; [done|]. by rewrite IH. Qed.

(** Elements that contribute nothing can be left out. *)
Lemma sumZ_filter {A} (g : A -> Z) (P : A -> bool) l :
  (forall a, a ∈ l -> P a = false -> g a = 0) -> sumZ g (List.filter P l) = sumZ g l.
Proof.
  induction l as [|a l IH]; simpl; intros Hg; [done|].
  destruct (P a) eqn:E; simpl; rewrite IH by set_solver; [done|]. rewrite Hg; set_solver.
Qed.

Lemma sumZ_superset {A} (g : A -> Z) (l1 l2 : list A) :
  NoDup l1 -> NoDup l2 -> l2 ⊆ l1 -> (forall a, a ∈ l1 -> a ∉ l2 -> g a = 0) ->
  sumZ g l1 = sumZ g l2.
Proof.
  intros Hn1 Hn2 Hsub Hz. apply NoDup_submseteq in Hsub; [|done].
  apply submseteq_Permutation in Hsub as [k Hk]. rewrite Hk, sumZ_app.
  rewrite (sumZ_zero g k); [lia|]. intros a Ha. apply Hz; [rewrite Hk; set_solver|].
  rewrite Hk in Hn1. apply NoDup_app in Hn1 as (_ & Hd & _). set_solver.
Qed.

(** A subsequence that keeps every element a test accepts. *)
Lemma sublist_filter_complete {A} (P : A -> bool) (l1 l2 : list A) :
  l1 `sublist_of` l2 -> NoDup l2 -> (forall a, a ∈ l2 -> P a = true -> a ∈ l1) ->
  List.filter P l1 = List.filter P l2.
Proof.
  induction 1 as [|x l1 l2 Hs IH|x l1 l2 Hs IH]; intros Hn Hc; [done| |].
  - apply NoDup_cons in Hn as [Hx Hn]. simpl. rewrite IH; [done|done|].
    intros a Ha HP. destruct (proj1 (elem_of_cons _ _ _) (Hc a ltac:(set_solver) HP)) as [->|?]; [done|done].
  - apply NoDup_cons in Hn as [Hx Hn]. simpl. destruct (P x) eqn:E.
    + exfalso. apply Hx. eapply elem_of_sublist; [|exact Hs]. apply Hc; [set_solver|done].
    + apply IH; [done|]. intros a Ha HP. apply Hc; set_solver.
Qed.

(** ** One directory *)

Section directory.
Context `{os : !OS, sh : !StdHash}.
Context (D : str).
Implicit Types (fs : filesystem) (d : gmap str str) (n b v : str).

(** The path of a file of the directory, as [listFilesWithExtension] builds it. *)
Definition in_dir n : str := D ++ $"/" ++ n.

Definition dir_is fs d : Prop := dirs fs !! resolve_dir D = Some d.

Lemma in_dir_split n : slash ∉ n -> path_dir (in_dir n) = D /\ path_base (in_dir n) = n.
Proof. intros Hn. apply (path_split_app D n Hn). Qed.

Lemma in_dir_inj n n' : in_dir n = in_dir n' -> n = n'.
Proof. unfold in_dir. intros H. apply app_inv_head in H. by injection H. Qed.

Lemma read_in_dir fs d n : dir_is fs d -> slash ∉ n -> fs_read fs (in_dir n) = d !! n.
Proof.
  intros Hd Hn. unfold fs_read. destruct (in_dir_split n Hn) as [-> ->].
  unfold dir_is in Hd. by rewrite Hd.
Qed.

Lemma write_in_dir fs d n data :
  dir_is fs d -> slash ∉ n ->
  dir_is (fs_write fs (in_dir n) data) (<[n := data]> d) /\
  locked (fs_write fs (in_dir n) data) = locked fs.
Proof.
  intros Hd Hn. unfold dir_is, fs_write in *. destruct (in_dir_split n Hn) as [-> ->].
  simpl. rewrite lookup_insert_eq, Hd. done.
Qed.

Lemma can_write_in_dir fs d n :
  dir_is fs d -> slash ∉ n -> (resolve_dir D, n) ∉ locked fs -> fs_can_write fs (in_dir n) = true.
Proof.
  intros Hd Hn Hl. unfold fs_can_write. destruct (in_dir_split n Hn) as [-> ->].
  unfold dir_is in Hd. rewrite Hd. by apply bool_decide_eq_true.
Qed.

(** *** Listings *)

Definition files_with (ext : str) d : list str := List.filter (has_extension ext) ((map_to_list d).*1).

Lemma elem_of_files_with ext d n :
  n ∈ files_with ext d <-> is_Some (d !! n) /\ has_extension ext n = true.
Proof.
  unfold files_with. rewrite list_elem_of_In, filter_In, <- list_elem_of_In, list_elem_of_fmap.
  split.
  - intros [([n' x] & -> & Hin%elem_of_map_to_list) He]. simpl. eauto.
  - intros [[x Hx] He]. split; [|done]. exists (n, x). split; [done|]. by apply elem_of_map_to_list.
Qed.

Lemma NoDup_List_filter {A} (P : A -> bool) l : NoDup l -> NoDup (List.filter P l).
Proof.
  induction 1 as [|a l Ha Hl IH]; simpl; [constructor|]. destruct (P a); [|done].
  constructor; [|done]. rewrite list_elem_of_In, filter_In, <- list_elem_of_In. tauto.
Qed.

Lemma NoDup_files_with ext d : NoDup (files_with ext d).
Proof. apply NoDup_List_filter, NoDup_fst_map_to_list. Qed.

Lemma filter_perm {A} (P : A -> bool) (l1 l2 : list A) :
  l1 ≡ₚ l2 -> List.filter P l1 ≡ₚ List.filter P l2.
Proof.
  induction 1 as [|x l1 l2 H IH|x y l|l1 l2 l3 H1 IH1 H2 IH2]; simpl; [done| | |by etrans].
  - destruct (P x); [by constructor|done].
  - destruct (P x), (P y); done || constructor.
Qed.

Definition listed (ext : str) d (l : list str) : Prop := l ≡ₚ map in_dir (files_with ext d).

Lemma list_triple ext d fs :
  dir_is fs d -> has_extension ext ($".") = false -> has_extension ext ($"..") = false ->
  triple (listFilesWithExtension D ext) fs (fun l fs' => fs' = fs /\ listed ext d l).
Proof.
  intros Hd H1 H2. unfold listFilesWithExtension. eapply triple_bind.
  { apply (triple_scan_dir D fs (fun r fs' => fs' = fs /\ exists names, r = Some names /\
      names ≡ₚ $"." :: $".." :: (map_to_list d).*1)).
    intros k. split; [done|]. unfold fs_readdir, dir_is in *. rewrite Hd. simpl.
    eexists. split; [done|]. apply readdir_perm. }
  intros r fs' (-> & names & -> & Hp). apply triple_ret. split; [done|].
  unfold listed, files_with. rewrite (filter_perm _ _ _ Hp). simpl. by rewrite H1, H2.
Qed.

(** *** Tables *)

Definition table_fits (path data : str) : Prop :=
  match scan_table path data with
  | Ret (Entries kvs s) => scan_small kvs s
  | Ret (OpenError _) => True
  | _ => False
  end.

(** The records [dumpSSTable] gives for a path and the contents found there. *)
Definition file_records (path : str) (data : option str) : list DBRecord :=
  match GuessType path, data with
  | Some kTableFile, Some data =>
      match scan_table path data with Ret (Entries kvs s) => scan_records kvs s | _ => [] end
  | _, _ => []
  end.

Lemma dump_triple fs path :
  GuessType path = None \/ GuessType path = Some kTableFile ->
  (forall data, fs_read fs path = Some data -> table_fits path data) ->
  triple (dumpSSTable path) fs
    (fun recs fs' => fs' = fs /\ recs = file_records path (fs_read fs path)).
Proof.
  intros Hg Hfit w Hw. subst fs. unfold file_records.
  destruct Hg as [Hg|Hg].
  { unfold dumpSSTable, mbind, M_bind, gets, DumpFile. rewrite Hg. cbn. by eexists _, []. }
  rewrite Hg. destruct (fs_read (w_fs w) path) as [data|] eqn:Er.
  - specialize (Hfit data eq_refl). unfold table_fits in Hfit.
    destruct (scan_table path data) as [[s|kvs s]|e|e] eqn:Es; [| |done|done].
    + unfold dumpSSTable, mbind, M_bind, gets, DumpFile. rewrite Hg. unfold DumpTable.
      rewrite Er, Es. cbn [mbind result_bind]. destruct (Status.ok s); cbn; by eexists _, [].
    + rewrite (dumpSSTable_ok _ _ _ _ _ Hg Er Es Hfit). by eexists _, _.
  - unfold dumpSSTable, mbind, M_bind, gets, DumpFile. rewrite Hg. unfold DumpTable. rewrite Er.
    cbn. by eexists _, [].
Qed.

(** Number of records with a value. *)
Definition occ v (recs : list DBRecord) : Z :=
  Z.of_nat (length (List.filter (fun r => str_eqb (valData r) v) recs)).

Lemma retrieve_triple fs path v :
  GuessType path = None \/ GuessType path = Some kTableFile ->
  (forall data, fs_read fs path = Some data -> table_fits path data) ->
  occ v (file_records path (fs_read fs path)) <= INT_MAX ->
  triple (RetrieveFromSStable path v) fs
    (fun k fs' => fs' = fs /\ k = occ v (file_records path (fs_read fs path))).
Proof.
  intros Hg Hfit Hmax. unfold RetrieveFromSStable. eapply triple_bind; [by apply dump_triple|].
  intros recs fs' [-> ->]. revert Hmax. generalize (file_records path (fs_read fs path)). intros recs Hmax.
  eapply triple_conseq.
  - apply (triple_foldM _ (fun done k fs' => fs' = fs /\ k = occ v done)); [done|].
    intros done r k fs' [rest ->] [-> ->].
    assert (occ v (done ++ [r]) <= INT_MAX) as Hb.
    { etrans; [|exact Hmax]. unfold occ. rewrite !List.filter_app, !length_app. simpl.
      destruct (str_eqb (valData r) v); simpl; lia. }
    assert (occ v (done ++ [r]) = occ v done + (if str_eqb (valData r) v then 1 else 0)) as Ho.
    { unfold occ. rewrite List.filter_app, length_app. simpl. destruct (str_eqb (valData r) v); simpl; lia. }
    destruct (str_eqb (valData r) v).
    + eapply triple_lift; [apply int_check_ok|by rewrite Ho].
      unfold INT_MIN. rewrite <- Ho. unfold occ in *. lia.
    + apply triple_ret. by rewrite Ho, Z.add_0_r.
  - auto.
Qed.

(** ** Files by base name *)

Definition bases (ext : str) d (bs : list str) : Prop :=
  NoDup bs /\ forall b, b ∈ bs <-> is_Some (d !! (b ++ ext)).

Lemma list_map_inv {A B} (f : A -> B) l : Forall (fun y => exists x, y = f x) l -> exists xs, l = map f xs.
Proof.
  induction 1 as [|y l [x ->] Hl [xs ->]]; [by exists []|]. by exists (x :: xs).
Qed.

Lemma listed_bases ext d l :
  listed ext d l -> exists bs, l = map (fun b => in_dir (b ++ ext)) bs /\ bases ext d bs.
Proof.
  intros Hl. assert (forall f, f ∈ l <-> exists n, f = in_dir n /\ n ∈ files_with ext d) as He.
  { intros f. unfold listed in Hl. rewrite Hl, list_elem_of_In, in_map_iff.
    setoid_rewrite <- list_elem_of_In. naive_solver. }
  destruct (list_map_inv (fun b => in_dir (b ++ ext)) l) as [bs ->].
  { apply Forall_forall. intros f (n & -> & Hn%elem_of_files_with)%He.
    destruct Hn as [_ (b & ->)%has_extension_spec]. by exists b. }
  exists bs. split; [done|]. split.
  - assert (NoDup (map (fun b => in_dir (b ++ ext)) bs)) as Hnd.
    { rewrite Hl. apply NoDup_fmap_2; [intros ? ?; apply in_dir_inj|apply NoDup_files_with]. }
    by apply NoDup_fmap_1 in Hnd.
  - intros b. rewrite <- (elem_of_files_with ext d (b ++ ext)) || idtac. split.
    + intros Hb. destruct (proj1 (He (in_dir (b ++ ext)))) as (n & Hn%in_dir_inj & Hf).
      { by apply (list_elem_of_fmap_2 (fun b => in_dir (b ++ ext))). }
      subst n. by apply elem_of_files_with in Hf as [? _].
    + intros Hb. assert (in_dir (b ++ ext) ∈ map (fun b => in_dir (b ++ ext)) bs) as Hin.
      { apply He. exists (b ++ ext). split; [done|]. apply elem_of_files_with.
        split; [done|]. apply has_extension_spec. by exists b. }
      apply list_elem_of_fmap in Hin as (b' & Hb' & Hin).
      by apply in_dir_inj, ext_inj in Hb' as ->.
Qed.

(** *** What a directory must satisfy *)

Record dir_ok d : Prop := {
  do_slash n : is_Some (d !! n) -> slash ∉ n;
  do_size n : is_Some (d !! n) -> str_size (in_dir n) < 2 ^ 62;
  do_bloom_size b : is_Some (d !! (b ++ dataExt)) -> str_size (in_dir (b ++ bloomExt)) < 2 ^ 62;
  do_tables n data : d !! n = Some data -> has_extension dataExt n = true -> table_fits (in_dir n) data
}.

Definition bloom_writable fs : Prop := forall b, (resolve_dir D, b ++ bloomExt) ∉ locked fs.

(** The records of the table [b.ldb], and the filter of a list of records. *)
Definition table_records d b : list DBRecord :=
  file_records (in_dir (b ++ dataExt)) (d !! (b ++ dataExt)).

Definition filter_of (recs : list DBRecord) : bloom_value :=
  foldl (fun filter r => insert filter (valData r)) bloom_value_new recs.

Lemma filter_of_inserts recs : filter_of recs = foldl insert bloom_value_new (map valData recs).
Proof.
  unfold filter_of. generalize bloom_value_new as f. induction recs as [|r recs IH]; intros f; simpl; auto.
Qed.

Lemma filter_of_wf recs : bloom_wf (filter_of recs).
Proof. rewrite filter_of_inserts. apply inserts_wf, new_wf. Qed.

(** The filter of a table reports every value the table has. *)
Lemma filter_of_complete recs v : exists_ (filter_of recs) v = false -> occ v recs = 0.
Proof.
  intros Hf. unfold occ. destruct (List.filter _ recs) as [|r l] eqn:E; [done|]. exfalso.
  assert (r ∈ List.filter (fun r => str_eqb (valData r) v) recs) as Hr by (rewrite E; set_solver).
  rewrite list_elem_of_In, filter_In in Hr. destruct Hr as [Hin <-%str_eqb_eq].
  rewrite filter_of_inserts, inserts_exists in Hf; [done|].
  apply (list_elem_of_fmap_2 valData). by apply list_elem_of_In.
Qed.

Definition add_bloom d0 d b : gmap str str :=
  <[b ++ bloomExt := bloom_file (filter_of (table_records d0 b))]> d.
Definition bloomed d (bs : list str) : gmap str str := foldl (add_bloom d) d bs.

Lemma add_blooms_data d0 d bs b : foldl (add_bloom d0) d bs !! (b ++ dataExt) = d !! (b ++ dataExt).
Proof.
  revert d. induction bs as [|c bs IH]; intros d; simpl; [done|]. rewrite IH. unfold add_bloom.
  apply lookup_insert_ne. intros H. symmetry in H. by apply ext_disjoint in H.
Qed.

Lemma add_blooms_bloom d0 d bs b :
  foldl (add_bloom d0) d bs !! (b ++ bloomExt) =
  if decide (b ∈ bs) then Some (bloom_file (filter_of (table_records d0 b))) else d !! (b ++ bloomExt).
Proof.
  revert d. induction bs as [|c bs IH]; intros d; cbn [foldl]; [done|]. rewrite IH.
  destruct (decide (b ∈ bs)) as [Hb|Hb]; [by rewrite decide_True by set_solver|].
  unfold add_bloom. destruct (decide (b = c)) as [->|Hne].
  - rewrite lookup_insert_eq, decide_True by set_solver. done.
  - rewrite lookup_insert_ne by (intros H%ext_inj; done). rewrite decide_False by set_solver. done.
Qed.

Lemma bloomed_data d bs b : bloomed d bs !! (b ++ dataExt) = d !! (b ++ dataExt).
Proof. unfold bloomed. by rewrite add_blooms_data. Qed.

Lemma bloomed_bloom d bs b :
  bloomed d bs !! (b ++ bloomExt) =
  if decide (b ∈ bs) then Some (bloom_file (filter_of (table_records d b))) else d !! (b ++ bloomExt).
Proof. unfold bloomed. by rewrite add_blooms_bloom. Qed.

Lemma data_path_type b :
  slash ∉ b ++ dataExt -> str_size (in_dir (b ++ dataExt)) < 2 ^ 62 ->
  GuessType (in_dir (b ++ dataExt)) = None \/ GuessType (in_dir (b ++ dataExt)) = Some kTableFile.
Proof.
  intros Hs Hz. unfold in_dir. change (D ++ $"/" ++ b ++ dataExt) with (D ++ slash :: (b ++ dataExt)).
  rewrite GuessType_base; [|done|].
  2: { change (str_size (in_dir (b ++ dataExt)) < SIZE_MAX). unfold SIZE_MAX. lia. }
  destruct (data_file_type b) as [->|[n ->]]; [by left|by right].
Qed.

Lemma slash_ext b ext ext' : slash ∉ b ++ ext -> slash ∉ ext' -> slash ∉ b ++ ext'.
Proof. set_solver. Qed.

Lemma slash_bloomExt : slash ∉ bloomExt.
Proof. const_notin. Qed.

Lemma slash_dataExt : slash ∉ dataExt.
Proof. const_notin. Qed.

Lemma create_triple fs d n :
  dir_is fs d -> slash ∉ n -> (resolve_dir D, n) ∉ locked fs ->
  triple (createFile (in_dir n)) fs
    (fun _ fs' => dir_is fs' (<[n := []]> d) /\ locked fs' = locked fs).
Proof.
  intros Hd Hn Hl w <-. rewrite createFile_ok by (by eapply can_write_in_dir).
  eexists _, tt. split; [done|]. by apply write_in_dir.
Qed.

Lemma save_triple fs d n f :
  dir_is fs d -> slash ∉ n -> (resolve_dir D, n) ∉ locked fs ->
  triple (saveToFile f (in_dir n)) fs
    (fun _ fs' => dir_is fs' (<[n := bloom_file f]> d) /\ locked fs' = locked fs).
Proof.
  intros Hd Hn Hl w <-. rewrite saveToFile_ok by (by eapply can_write_in_dir).
  eexists _, tt. split; [done|]. by apply write_in_dir.
Qed.

(** One turn of the loop of [CreateBloomValue]. *)
Lemma create_bloom_turn d0 done b fs :
  dir_ok d0 -> is_Some (d0 !! (b ++ dataExt)) -> bloom_writable fs ->
  dir_is fs (bloomed d0 done) ->
  triple
    (bloom_file ← lift (transformFileName (in_dir (b ++ dataExt)) dataExt bloomExt);
     _ ← createFile bloom_file;
     ssTableRecords ← dumpSSTable (in_dir (b ++ dataExt));
     saveToFile (foldl (fun filter r => insert filter (valData r)) bloom_value_new ssTableRecords) bloom_file)
    fs (fun _ fs' => dir_is fs' (bloomed d0 (done ++ [b])) /\ locked fs' = locked fs).
Proof.
  intros Hok Hb Hw Hd. pose proof (do_slash _ Hok _ Hb) as Hs. pose proof (do_size _ Hok _ Hb) as Hz.
  pose proof (slash_ext b _ _ Hs slash_bloomExt) as Hsb.
  assert (transformFileName (in_dir (b ++ dataExt)) dataExt bloomExt = Ret (in_dir (b ++ bloomExt))) as Ht.
  { unfold in_dir in *. rewrite !app_assoc in *. apply transformFileName_app. unfold SIZE_MAX. lia. }
  eapply triple_bind; [eapply (triple_lift _ _ _ (fun p fs' => fs' = fs /\ p = _)); [exact Ht|done]|].
  intros p fs1 [-> ->]. eapply triple_bind; [eapply create_triple; [exact Hd|done|apply Hw]|].
  intros u fs2 [Hd2 Hl2].
  assert (fs_read fs2 (in_dir (b ++ dataExt)) = d0 !! (b ++ dataExt)) as Hr.
  { rewrite (read_in_dir _ _ _ Hd2 Hs). rewrite lookup_insert_ne by (intros H; symmetry in H; by apply ext_disjoint in H).
    apply bloomed_data. }
  eapply triple_bind.
  { apply dump_triple; [by apply data_path_type|]. rewrite Hr. intros data Hdata.
    apply (do_tables _ Hok _ _ Hdata). apply has_extension_spec. by exists b. }
  intros recs fs3 [-> ->]. rewrite Hr. eapply triple_conseq; [eapply save_triple; [exact Hd2|done|]|].
  - rewrite Hl2. apply Hw.
  - intros u' fs4 [Hd4 Hl4]. split; [|congruence]. unfold bloomed. rewrite foldl_app. cbn [foldl].
    unfold dir_is in Hd4. rewrite insert_insert_eq in Hd4. exact Hd4.
Qed.

End directory.
