(* ===== verification/Search.v ===== *)
(** * The searches agree

    What [CreateBloomValue] leaves on disk, what a scan of a list of bloom files
    counts, and what a query through the hierarchy counts: total-correctness
    specifications of the operations of [DBOperation.v] that [MainFlow] composes.
    The abstract search is [total]: the number of records of the tables of a
    directory whose value is the one looked for. *)

From Stdlib Require Import ZArith Lia.
From S2P Require Import Prelude CString World BloomValue BloomTree SliceStatus Logging.
From S2P Require Import DumpFile DBDumper ThreadPool DBOperation SearchSpec.
Import bloom_value (bloom_value, bloom_value_new, exists_, insert, saveToFile, loadFromFile, createFile).

(** ** Results *)

Lemma get_set_res f f' v r :
  get_res f' (set_res f v r) = if decide (f = f') then int_of v else get_res f' r.
Proof. by destruct f'. Qed.

Lemma get_set_eq f v r : INT_MIN <= v <= INT_MAX -> get_res f (set_res f v r) = v.
Proof. intros Hv. rewrite get_set_res, decide_True by done. by apply swrap32_small. Qed.

Lemma get_set_ne f f' v r : f <> f' -> get_res f' (set_res f v r) = get_res f' r.
Proof. intros Hf. by rewrite get_set_res, decide_False. Qed.

Section search.
Context `{os : !OS, sh : !StdHash}.
Context (D : str).
Implicit Types (fs : filesystem) (d : gmap str str) (n b v : str).

(** The path of [b.bloom]. *)
Definition bloom_path b : str := in_dir D (b ++ bloomExt).

(** ** Scanning bloom files *)

Definition bloom_of d b : bloom_value := decode_file (default [] (d !! (b ++ bloomExt))).
Definition hit d v b : bool := exists_ (bloom_of d b) v.
Definition hits d v (bs : list str) : list str := List.filter (hit d v) bs.

(** Occurrences of the value in the table [b.ldb]. *)
Definition matches d v b : Z := occ v (table_records D d b).

Lemma matches_nonneg d v b : 0 <= matches d v b.
Proof. unfold matches, occ. lia. Qed.

Lemma load_triple fs d b :
  dir_is D fs d -> slash ∉ b ++ bloomExt -> is_Some (d !! (b ++ bloomExt)) ->
  triple (loadFromFile (bloom_path b)) fs (fun f fs' => fs' = fs /\ f = bloom_of d b).
Proof.
  intros Hd Hs [data Hb] w <-.
  rewrite (loadFromFile_ok _ _ data) by (unfold bloom_path; by rewrite (read_in_dir _ _ _ _ Hd)).
  exists w, (decode_file data). unfold bloom_of. by rewrite Hb.
Qed.

Lemma bloom_base_ok d b :
  dir_ok D d -> is_Some (d !! (b ++ bloomExt)) ->
  (slash ∉ b ++ bloomExt) /\ (slash ∉ b ++ dataExt) /\ str_size (in_dir D (b ++ dataExt)) < 2 ^ 62 /\
  transformFileName (bloom_path b) bloomExt dataExt = Ret (in_dir D (b ++ dataExt)).
Proof.
  intros Hok Hb. pose proof (do_slash _ _ Hok _ Hb) as Hs. pose proof (do_size _ _ Hok _ Hb) as Hz.
  split_and!; [done|by eapply slash_ext, slash_dataExt| |].
  - unfold in_dir in *. rewrite !str_size_app in *.
    change (str_size dataExt) with 4. change (str_size bloomExt) with 6 in Hz. lia.
  - unfold bloom_path, in_dir in *. rewrite !app_assoc in *. apply transformFileName_app.
    unfold SIZE_MAX. lia.
Qed.

Lemma table_triple fs d v b :
  dir_ok D d -> dir_is D fs d -> slash ∉ b ++ dataExt ->
  str_size (in_dir D (b ++ dataExt)) < 2 ^ 62 -> matches d v b <= INT_MAX ->
  triple (RetrieveFromSStable (in_dir D (b ++ dataExt)) v) fs
    (fun k fs' => fs' = fs /\ k = matches d v b).
Proof.
  intros Hok Hd Hs Hz Hm. unfold matches, table_records in *.
  rewrite <- (read_in_dir _ _ _ _ Hd Hs) in *. apply retrieve_triple; [by apply data_path_type| |done].
  intros data Hr. rewrite (read_in_dir _ _ _ _ Hd Hs) in Hr. eapply do_tables; [done|exact Hr|].
  apply has_extension_spec. by exists b.
Qed.

Lemma hits_app d v bs bs' : hits d v (bs ++ bs') = hits d v bs ++ hits d v bs'.
Proof. apply List.filter_app. Qed.

(** One turn of the loop over bloom files. *)
Lemma scan_turn fs d v b (leaf sst : Z) :
  dir_ok D d -> dir_is D fs d -> is_Some (d !! (b ++ bloomExt)) ->
  0 <= leaf < INT_MAX -> 0 <= sst -> sst + sumZ (matches d v) (hits d v [b]) <= INT_MAX ->
  triple (scan_bloom_file v (leaf, sst) (bloom_path b)) fs
    (fun found fs' => fs' = fs /\
       found = (leaf + Z.of_nat (length (hits d v [b])), sst + sumZ (matches d v) (hits d v [b]))).
Proof.
  intros Hok Hd Hb Hl Hs Hm. destruct (bloom_base_ok d b Hok Hb) as (H1 & H2 & Hz & Ht).
  unfold scan_bloom_file. eapply triple_bind; [by apply (load_triple fs d b)|].
  intros f fs1 [-> ->]. unfold hits in *. cbn [List.filter] in *. unfold hit in *.
  destruct (exists_ (bloom_of d b) v).
  2: { apply triple_ret. simpl. by rewrite !Z.add_0_r. }
  cbn [sumZ foldr length] in *. pose proof (matches_nonneg d v b). assert (INT_MIN < 0) by done.
  apply triple_int_bind; [lia|]. eapply triple_lift_bind; [exact Ht|].
  eapply triple_bind; [apply (table_triple fs d v b); try done; lia|].
  intros k fs1 [-> ->]. apply triple_int_bind; [lia|].
  apply triple_ret. split; [done|]. f_equal; lia.
Qed.

Lemma sumZ_hits_mono d v bs bs' :
  sumZ (matches d v) (hits d v bs) <= sumZ (matches d v) (hits d v (bs ++ bs')).
Proof.
  rewrite hits_app, sumZ_app.
  pose proof (sumZ_nonneg (matches d v) (hits d v bs') (fun a _ => matches_nonneg d v a)). lia.
Qed.

Lemma length_hits d v bs : (length (hits d v bs) <= length bs)%nat.
Proof. unfold hits. apply filter_length_le. Qed.

Lemma scan_triple fs d v bs :
  dir_ok D d -> dir_is D fs d -> (forall b, b ∈ bs -> is_Some (d !! (b ++ bloomExt))) ->
  Z.of_nat (length bs) <= INT_MAX -> sumZ (matches d v) (hits d v bs) <= INT_MAX ->
  triple (foldM (scan_bloom_file v) (0, 0) (map bloom_path bs)) fs
    (fun found fs' => fs' = fs /\
       found = (Z.of_nat (length (hits d v bs)), sumZ (matches d v) (hits d v bs))).
Proof.
  intros Hok Hd Hb Hn Hm. eapply triple_ext; [intros w; apply foldM_map|].
  apply (triple_foldM _ (fun done found fs' => fs' = fs /\
    found = (Z.of_nat (length (hits d v done)), sumZ (matches d v) (hits d v done)))); [done|].
  intros done b found fs' [rest Hbs] [-> ->].
  assert (sumZ (matches d v) (hits d v (done ++ [b])) <= INT_MAX) as Hm'.
  { etrans; [|exact Hm]. rewrite Hbs. replace (done ++ b :: rest) with ((done ++ [b]) ++ rest)
      by (by rewrite <- app_assoc). apply sumZ_hits_mono. }
  pose proof (length_hits d v done). rewrite hits_app, sumZ_app in Hm'.
  eapply triple_conseq; [apply (scan_turn fs d v b)|].
  - done.
  - done.
  - apply Hb. rewrite Hbs. set_solver.
  - rewrite Hbs, length_app in Hn. simpl in Hn. lia.
  - apply sumZ_nonneg. intros a _. apply matches_nonneg.
  - done.
  - intros found fs' [-> ->]. split; [done|].
    rewrite hits_app, length_app, sumZ_app, Nat2Z.inj_add. done.
Qed.

Lemma ScanningInBloomFiles_triple fs d v bs res :
  dir_ok D d -> dir_is D fs d -> (forall b, b ∈ bs -> is_Some (d !! (b ++ bloomExt))) ->
  Z.of_nat (length bs) <= INT_MAX -> sumZ (matches d v) (hits d v bs) <= INT_MAX ->
  triple (ScanningInBloomFiles (map bloom_path bs) v res) fs
    (fun res' fs' => fs' = fs /\
       res' = set_res F_foundInSSTable (sumZ (matches d v) (hits d v bs))
                (set_res F_foundInLeafBloom (Z.of_nat (length (hits d v bs))) res)).
Proof.
  intros Hok Hd Hb Hn Hm. unfold ScanningInBloomFiles.
  eapply triple_bind; [by apply (scan_triple fs d v bs)|]. intros found fs' [-> ->].
  triple_io. apply triple_ret. done.
Qed.

(** ** The abstract search *)

(** Occurrences of a value in all the tables of the directory. *)
Definition total d v : Z :=
  sumZ (fun n => occ v (file_records (in_dir D n) (d !! n))) (files_with dataExt d).

Lemma files_with_bases ext d bs : bases ext d bs -> files_with ext d ≡ₚ map (fun b => b ++ ext) bs.
Proof.
  intros [Hn Hb]. apply NoDup_Permutation; [apply NoDup_files_with| |].
  - apply NoDup_fmap_2; [intros ? ?; apply ext_inj|done].
  - intros n. rewrite elem_of_files_with, has_extension_spec, (list_elem_of_fmap (fun b => b ++ ext)).
    split; [intros (Hn' & b & ->); exists b; by rewrite Hb|].
    intros (b & -> & Hb'%Hb). eauto.
Qed.

Lemma total_bases d v ts : bases dataExt d ts -> total d v = sumZ (matches d v) ts.
Proof. intros Hb. unfold total. rewrite (files_with_bases _ _ _ Hb), sumZ_map. done. Qed.

(** Every table has a bloom file that reports the values of the table. *)
Definition covered d v : Prop :=
  forall b, is_Some (d !! (b ++ dataExt)) ->
    is_Some (d !! (b ++ bloomExt)) /\ (hit d v b = false -> matches d v b = 0).

Lemma no_table_no_match d v b : d !! (b ++ dataExt) = None -> matches d v b = 0.
Proof. intros Hb. unfold matches, table_records, file_records. rewrite Hb. by repeat case_match. Qed.

(** No false negatives, and stale bloom files add nothing: the occurrences behind
    the bloom files that report the value are all the occurrences. *)
Lemma hits_total d v bs :
  covered d v -> bases bloomExt d bs -> sumZ (matches d v) (hits d v bs) = total d v.
Proof.
  intros Hc [Hn Hb].
  assert (forall b, hit d v b = false -> matches d v b = 0) as Hz.
  { intros b Hh. destruct (d !! (b ++ dataExt)) eqn:E; [|by apply no_table_no_match].
    apply Hc; [by rewrite E|done]. }
  unfold hits. rewrite sumZ_filter by auto.
  destruct (listed_bases D dataExt d (map (in_dir D) (files_with dataExt d))) as (ts & _ & Ht);
    [by unfold listed|].
  rewrite (total_bases d v ts Ht). destruct Ht as [Hnt Ht]. apply sumZ_superset; [done|done| |].
  - intros t Hin. apply Hb, Hc. by apply Ht.
  - intros b _ Hnin. apply no_table_no_match. rewrite Ht in Hnin. by apply eq_None_not_Some.
Qed.

Lemma hits_perm d v bs bs' : bs ≡ₚ bs' -> hits d v bs ≡ₚ hits d v bs'.
Proof. apply filter_perm. Qed.

Lemma bases_unique ext d bs bs' : bases ext d bs -> bases ext d bs' -> bs ≡ₚ bs'.
Proof. intros [Hn Hb] [Hn' Hb']. apply NoDup_Permutation; [done|done|]. intros b. by rewrite Hb, Hb'. Qed.

(** Bloom files are at most as many as files. *)
Lemma bases_length ext d bs : bases ext d bs -> (length bs <= size d)%nat.
Proof.
  intros Hb. pose proof (files_with_bases _ _ _ Hb) as Hp. apply Permutation_length in Hp.
  rewrite length_map in Hp. rewrite <- Hp. unfold files_with. etrans; [apply filter_length_le|].
  rewrite length_fmap. by rewrite length_map_to_list.
Qed.

(** *** The directory after [CreateBloomValue] *)

Lemma bloomed_covered d v ts : bases dataExt d ts -> covered (bloomed D d ts) v.
Proof.
  intros [Hn Ht] b Hb. rewrite bloomed_data in Hb. apply Ht in Hb.
  unfold hit, bloom_of, matches, table_records. rewrite bloomed_data, bloomed_bloom, decide_True by done.
  split; [eauto|]. cbn [default from_option id]. rewrite decode_bloom_file by apply filter_of_wf.
  apply filter_of_complete.
Qed.

Lemma bloomed_names d ts n :
  is_Some (bloomed D d ts !! n) -> is_Some (d !! n) \/ exists b, b ∈ ts /\ n = b ++ bloomExt.
Proof.
  unfold bloomed. generalize d at 1 as d0. intros d0. revert d.
  induction ts as [|t ts IH]; intros d; cbn [foldl]; [by left|].
  intros [H|(b & Hb & ->)]%IH; [|right; set_solver]. unfold add_bloom in H.
  destruct (decide (n = t ++ bloomExt)) as [->|Hne]; [right; set_solver|].
  rewrite lookup_insert_ne in H by done. by left.
Qed.

Lemma bloomed_ok d ts : dir_ok D d -> bases dataExt d ts -> dir_ok D (bloomed D d ts).
Proof.
  intros Hok [Hn Ht]. split.
  - intros n [H|(b & Hb%Ht & ->)]%bloomed_names; [by eapply do_slash|].
    eapply slash_ext, slash_bloomExt. by eapply do_slash.
  - intros n [H|(b & Hb%Ht & ->)]%bloomed_names; [by eapply do_size|by eapply do_bloom_size].
  - intros b. rewrite bloomed_data. by apply do_bloom_size.
  - intros n data Hd [b ->]%has_extension_spec. rewrite bloomed_data in Hd.
    eapply do_tables; [done|exact Hd|]. apply has_extension_spec. by exists b.
Qed.

Lemma bloomed_bases d ts ts' : bases dataExt d ts' -> bases dataExt (bloomed D d ts) ts'.
Proof. intros [Hn Hb]. split; [done|]. intros b. by rewrite bloomed_data, Hb. Qed.

Lemma bloomed_total d v ts : bases dataExt d ts -> total (bloomed D d ts) v = total d v.
Proof.
  intros Hb. rewrite (total_bases d v ts Hb), (total_bases _ v ts (bloomed_bases d ts ts Hb)).
  apply sumZ_ext. intros b _. unfold matches, table_records. by rewrite bloomed_data.
Qed.

Lemma bloomed_other d ts n : (forall b, b ∈ ts -> n <> b ++ bloomExt) -> bloomed D d ts !! n = d !! n.
Proof.
  unfold bloomed. generalize d at 1 as d0. intros d0. revert d.
  induction ts as [|t ts IH]; intros d Hn; cbn [foldl]; [done|].
  rewrite IH by set_solver. unfold add_bloom. apply lookup_insert_ne. intros E. symmetry in E.
  revert E. apply Hn. set_solver.
Qed.

Lemma bloomed_size d ts : (size (bloomed D d ts) <= size d + length ts)%nat.
Proof.
  unfold bloomed. generalize d at 1 as d0. intros d0. revert d.
  induction ts as [|t ts IH]; intros d; cbn [foldl length]; [lia|].
  etrans; [apply IH|]. unfold add_bloom. rewrite map_size_insert. case_match; unfold id; lia.
Qed.

End search.

(** ** The operations *)

Section operations.
Context `{os : !OS, sh : !StdHash}.
Context (dbname : str).
Implicit Types (fs : filesystem) (d : gmap str str) (b v : str) (res : Result).

Let D := scan_directory dbname.

Lemma list_bases_triple ext d fs :
  dir_is D fs d -> ext = bloomExt \/ ext = dataExt ->
  triple (listFilesWithExtension D ext) fs
    (fun l fs' => fs' = fs /\ exists bs, l = map (fun b => in_dir D (b ++ ext)) bs /\ bases ext d bs).
Proof.
  intros Hd He. eapply triple_conseq; [apply list_triple; [exact Hd| |]; by destruct He as [-> | ->]|].
  intros l fs' [-> Hl]. split; [done|]. by apply listed_bases.
Qed.

(** [CreateBloomValue] gives every table a bloom file with the filter of its
    records and changes nothing else. *)
Lemma CreateBloomValue_triple d fs res :
  dir_ok D d -> dir_is D fs d -> bloom_writable D fs ->
  triple (CreateBloomValue dbname res) fs (fun res' fs' =>
    exists ts t, bases dataExt d ts /\ dir_is D fs' (bloomed D d ts) /\ locked fs' = locked fs /\
               res' = set_res F_tCreatingBloomExternally t res).
Proof.
  intros Hok Hd Hw. unfold CreateBloomValue. fold D. triple_io.
  eapply triple_bind; [apply (list_bases_triple dataExt d); auto|].
  intros l fs1 (-> & ts & -> & Ht). rewrite forM_map.
  eapply triple_bind.
  { apply (triple_forM _ (fun done fs' => dir_is D fs' (bloomed D d done) /\ locked fs' = locked fs)); [done|].
    intros done b fs' [rest Hts] [Hd' Hl']. eapply triple_conseq.
    - apply (create_bloom_turn D d done b fs'); [done| | |exact Hd'].
      + apply Ht. rewrite Hts. set_solver.
      + unfold bloom_writable. by rewrite Hl'.
    - intros ? fs2 [? ?]. split; [done|congruence]. }
  intros ? fs2 [Hd2 Hl2]. triple_io. apply triple_ret. eauto 8.
Qed.

Lemma ScanningWithBloom_triple d fs v res :
  dir_ok D d -> dir_is D fs d -> covered D d v ->
  Z.of_nat (size d) <= INT_MAX -> total D d v <= INT_MAX ->
  triple (ScanningWithBloom dbname v res) fs (fun res' fs' =>
    fs' = fs /\ exists bs t, bases bloomExt d bs /\
    res' = set_res F_tScanningWithBloom t (set_res F_foundInSSTable (total D d v)
             (set_res F_foundInLeafBloom (Z.of_nat (length (hits d v bs))) res))).
Proof.
  intros Hok Hd Hc Hn Ht. unfold ScanningWithBloom. fold D. triple_io.
  eapply triple_bind; [apply (list_bases_triple bloomExt d); auto|].
  intros l fs1 (-> & bs & -> & Hb). pose proof (bases_length _ _ _ Hb).
  pose proof (hits_total D d v bs Hc Hb) as Hh.
  eapply triple_bind; [apply (ScanningInBloomFiles_triple D fs d v bs); try done; try lia|].
  { intros b. apply Hb. }
  intros r fs1 [-> ->]. rewrite Hh. triple_io. apply triple_ret. eauto 6.
Qed.

(** The occurrences are counted, then dropped. *)
Lemma ScanningWithoutBloom_triple d fs v res :
  dir_ok D d -> dir_is D fs d -> total D d v <= INT_MAX ->
  triple (ScanningWithoutBloom dbname v res) fs (fun res' fs' =>
    fs' = fs /\ exists t, res' = set_res F_tScanningWithoutBloom t res).
Proof.
  intros Hok Hd Ht. unfold ScanningWithoutBloom. fold D. triple_io.
  eapply triple_bind; [apply (list_bases_triple dataExt d); auto|].
  intros l fs1 (-> & ts & -> & Hb). rewrite (total_bases D d v ts Hb) in Ht.
  eapply triple_bind.
  { eapply triple_ext; [intros w; apply foldM_map|].
    apply (triple_foldM _ (fun done k fs' => fs' = fs /\ k = sumZ (matches D d v) done)); [done|].
    intros done b k fs' [rest Hts] [-> ->].
    assert (sumZ (matches D d v) done + matches D d v b <= INT_MAX) as Hm.
    { etrans; [|exact Ht]. rewrite Hts, sumZ_app. simpl.
      pose proof (sumZ_nonneg (matches D d v) rest (fun a _ => matches_nonneg D d v a)). lia. }
    pose proof (sumZ_nonneg (matches D d v) done (fun a _ => matches_nonneg D d v a)).
    pose proof (matches_nonneg D d v b). assert (INT_MIN < 0) by done.
    assert (is_Some (d !! (b ++ dataExt))) as Hs by (apply Hb; rewrite Hts; set_solver).
    eapply triple_bind; [apply (table_triple D fs d v b); [done|done|by eapply do_slash|by eapply do_size|lia]|].
    intros k fs' [-> ->]. eapply triple_lift; [apply int_check_ok; lia|].
    split; [done|]. rewrite sumZ_app. simpl. lia. }
  intros k fs1 [-> _]. triple_io. apply triple_ret. eauto.
Qed.

(** *** The hierarchy *)

Definition bloom_leaf d b : Node := Node_leaf (bloom_of d b) (bloom_path D b).

Lemma CreateLeafHierarchyLevel_triple d fs t res :
  dir_ok D d -> dir_is D fs d ->
  triple (CreateLeafHierarchyLevel dbname t res) fs (fun q fs' =>
    fs' = fs /\ exists bs tm, bases bloomExt d bs /\
    q = (mkTree (ratio t) (root t) (leafNodes t ++ map (bloom_leaf d) bs) (foundInHierarchy t) (bloomNames t),
         set_res F_tCreatingLeafLevel tm res)).
Proof.
  intros Hok Hd. unfold CreateLeafHierarchyLevel. fold D. triple_io.
  eapply triple_bind; [apply (list_bases_triple bloomExt d); auto|].
  intros l fs1 (-> & bs & -> & Hb). eapply triple_bind.
  { eapply triple_ext; [intros w; apply foldM_map|].
    apply (triple_foldM _ (fun done t' fs' => fs' = fs /\ t' =
      mkTree (ratio t) (root t) (leafNodes t ++ map (bloom_leaf d) done) (foundInHierarchy t) (bloomNames t))).
    { split; [done|]. simpl. rewrite app_nil_r. by destruct t. }
    intros done b t' fs' [rest Hts] [-> ->].
    assert (is_Some (d !! (b ++ bloomExt))) as Hs by (apply Hb; rewrite Hts; set_solver).
    eapply triple_bind; [apply (load_triple D fs d b); [done|by eapply do_slash|done]|].
    intros f fs' [-> ->]. apply triple_ret. split; [done|]. unfold createLeafLevel. simpl.
    by rewrite map_app, app_assoc. }
  intros t' fs1 [-> ->]. triple_io. apply triple_ret. eauto 6.
Qed.

Lemma bloom_leaf_ok d bs : Forall leaf_ok (map (bloom_leaf d) bs).
Proof.
  apply Forall_forall. intros n (b & -> & _)%(list_elem_of_fmap (bloom_leaf d)). split; [|done].
  simpl. unfold bloom_path, in_dir, D, scan_directory. intros H. apply (f_equal head) in H. by simpl in H.
Qed.

Lemma sublist_map_inv {A B} (f : A -> B) l ys :
  ys `sublist_of` map f l -> exists xs, ys = map f xs /\ xs `sublist_of` l.
Proof.
  revert ys. induction l as [|a l IH]; intros ys H; simpl in H.
  { apply sublist_nil_r in H as ->. by exists []. }
  apply sublist_cons_r in H as [H|(ys' & -> & H)]; destruct (IH _ H) as (xs & -> & Hx).
  - exists xs. split; [done|]. by constructor.
  - exists (a :: xs). split; [done|]. by constructor.
Qed.

Lemma reported_bases d v cs bs :
  concat (map leaves cs) = map (bloom_leaf d) bs -> Forall hier_ok cs ->
  exists names, reported v (mem_node cs) = map (bloom_path D) names /\ names `sublist_of` bs /\
    (forall b, b ∈ bs -> hit d v b = true -> b ∈ names).
Proof.
  intros Hl Hh. pose proof (reported_sublist (mem_node cs) v) as Hs.
  rewrite leaves_mem_node, Hl in Hs. change (reported v (mem_node cs) `sublist_of` map filename (map (bloom_leaf d) bs)) in Hs.
  rewrite map_map in Hs.
  destruct (sublist_map_inv _ _ _ Hs) as (names & Hn & Hsub). exists names. split_and!; [done|done|].
  intros b Hb Hhit.
  assert (filename (bloom_leaf d b) ∈ reported v (mem_node cs)) as Hr.
  { apply reported_complete; [by apply mem_node_ok| |done|done].
    rewrite leaves_mem_node, Hl. by apply (list_elem_of_fmap_2 (bloom_leaf d)). }
  rewrite Hn in Hr. apply list_elem_of_fmap in Hr as (b' & Hb' & Hin).
  by apply in_dir_inj, ext_inj in Hb' as ->.
Qed.

(** What the query on the built hierarchy reports: a subsequence of the bloom
    files, without losing one whose filter reports the value. *)
Lemma CheckInHierarchy_triple d fs v ratio0 bs res :
  3 <= ratio0 -> Z.of_nat (length bs) + ratio0 <= INT_MAX ->
  dir_ok D d -> dir_is D fs d -> bases bloomExt d bs -> covered D d v -> total D d v <= INT_MAX ->
  exists tree, createTree (mkTree ratio0 None (map (bloom_leaf d) bs) 0 []) = Ret tree /\
  triple (CheckInHierarchy tree v res) fs (fun q fs' =>
    fs' = fs /\ exists names c t,
      names `sublist_of` bs /\ hits d v names = hits d v bs /\
      q.2 = set_res F_accessedBloomFilter (Z.of_nat (length names))
          (set_res F_hierarchyFilterNumber c (set_res F_tCheckingInHierarchy t
            (match names with
             | [] => res
             | _ => set_res F_foundInSSTable (total D d v)
                      (set_res F_foundInLeafBloom (Z.of_nat (length (hits d v bs))) res)
             end)))).
Proof.
  intros Hr Hn Hok Hd Hb Hc Ht. set (t0 := mkTree ratio0 None (map (bloom_leaf d) bs) 0 []).
  destruct (createTree_spec t0) as (cs & Hcr & Hl & Hh); [done|simpl; by rewrite length_map|].
  eexists. split; [exact Hcr|]. cbn [leafNodes t0] in *.
  rewrite (leaves_of_leaves _ (leaf_ok_names _ (bloom_leaf_ok d bs))) in Hl.
  specialize (Hh (leaf_ok_hier _ (bloom_leaf_ok d bs))).
  destruct (reported_bases d v cs bs Hl Hh) as (names & Hrep & Hsub & Hcompl).
  assert (hits d v names = hits d v bs) as Hhits.
  { apply sublist_filter_complete; [done|apply Hb|done]. }
  assert (length names <= length bs)%nat as Hlen by (by apply sublist_length).
  assert (triple (ScanningInBloomFiles (map (bloom_path D) names) v res) fs (fun r fs' => fs' = fs /\
    r = set_res F_foundInSSTable (total D d v)
          (set_res F_foundInLeafBloom (Z.of_nat (length (hits d v bs))) res))) as Hscan.
  { rewrite <- Hhits, <- (hits_total D d v bs Hc Hb), <- Hhits.
    apply ScanningInBloomFiles_triple; [done|done| |lia|by rewrite Hhits, (hits_total D d v bs)].
    intros b Hin. apply Hb. by eapply elem_of_sublist. }
  unfold CheckInHierarchy. triple_io. eapply triple_lift_bind.
  { unfold checkExistance. cbn [root]. rewrite check_spec, Hrep. reflexivity. }
  cbn beta iota. rewrite app_nil_l.
  eapply (triple_bind _ _ _ (fun r fs' => fs' = fs /\ r = match names with [] => res | _ =>
    set_res F_foundInSSTable (total D d v)
      (set_res F_foundInLeafBloom (Z.of_nat (length (hits d v bs))) res) end)).
  { destruct names; [simpl; triple_io; by apply triple_ret|exact Hscan]. }
  intros r fs' [-> ->]. triple_io. apply triple_ret. split; [done|].
  rewrite length_map. do 3 eexists. split_and!; [done|done|]. done.
Qed.

(** *** Many values *)

Lemma chunk_ranges_cover data_size threadNmb :
  0 < threadNmb -> 0 <= data_size ->
  concat (map block_indices (chunk_ranges data_size threadNmb)) = seqZ 0 data_size.
Proof.
  intros Ht Hn. unfold chunk_ranges. rewrite Z.quot_div_nonneg by lia.
  pose proof (Z.mul_div_le data_size threadNmb Ht). pose proof (Z.div_pos data_size threadNmb Hn Ht).
  pose proof (blocks_coverZ threadNmb (data_size / threadNmb) 0 data_size Ht ltac:(done) ltac:(lia)) as Hc.
  rewrite Z.sub_0_r in Hc. rewrite <- Hc. do 2 f_equal. apply map_ext. intros i.
  rewrite !Z.add_0_r. case_match; f_equal; lia.
Qed.

Lemma chunk_range_bounds data_size threadNmb r :
  0 < threadNmb -> 0 <= data_size -> r ∈ chunk_ranges data_size threadNmb ->
  0 <= r.1 /\ r.2 <= data_size.
Proof.
  intros Ht Hn (i & -> & Hi%elem_of_seqZ)%list_elem_of_fmap. simpl.
  pose proof (Z.mul_div_le data_size threadNmb Ht). pose proof (Z.div_pos data_size threadNmb Hn Ht).
  rewrite Z.quot_div_nonneg by lia. case_match; simpl; nia.
Qed.

Lemma scan_names_triple d fs v names :
  dir_ok D d -> dir_is D fs d -> (forall b, b ∈ names -> is_Some (d !! (b ++ bloomExt))) ->
  (forall b, matches D d v b <= INT_MAX) ->
  triple (ScanningInBloomFilesMultiplyValue (map (bloom_path D) names) v) fs (fun _ fs' => fs' = fs).
Proof.
  intros Hok Hd Hb Hm. unfold ScanningInBloomFilesMultiplyValue. rewrite forM_map.
  apply (triple_forM _ (fun _ fs' => fs' = fs)); [done|]. intros done b fs' [rest Hn] ->.
  assert (is_Some (d !! (b ++ bloomExt))) as Hs by (apply Hb; rewrite Hn; set_solver).
  destruct (bloom_base_ok D d b Hok Hs) as (H1 & H2 & Hz & Ht).
  eapply triple_bind; [by apply (load_triple D fs d b)|]. intros f fs' [-> ->].
  case_match; [|by apply triple_ret]. eapply triple_lift_bind; [exact Ht|].
  eapply triple_bind; [by apply (table_triple D fs d v b)|]. intros k fs' [-> _]. by apply triple_ret.
Qed.

Lemma matches_le_total d v b : total D d v <= INT_MAX -> matches D d v b <= INT_MAX.
Proof.
  intros Ht. destruct (decide (is_Some (d !! (b ++ dataExt)))) as [Hs|Hs].
  2: { rewrite no_table_no_match by (by apply eq_None_not_Some). done. }
  destruct (listed_bases D dataExt d (map (in_dir D) (files_with dataExt d))) as (ts & _ & Hb);
    [by unfold listed|].
  rewrite (total_bases D d v ts Hb) in Ht. apply Hb in Hs.
  apply list_elem_of_split in Hs as (l1 & l2 & ->). rewrite sumZ_app in Ht. simpl in Ht.
  pose proof (sumZ_nonneg (matches D d v) l1 (fun a _ => matches_nonneg D d v a)).
  pose proof (sumZ_nonneg (matches D d v) l2 (fun a _ => matches_nonneg D d v a)). lia.
Qed.

Lemma check_chunk_triple d fs ratio0 leafs cs bs found names0 values range :
  dir_ok D d -> dir_is D fs d -> bases bloomExt d bs ->
  concat (map leaves cs) = map (bloom_leaf d) bs -> Forall hier_ok cs ->
  (forall v, v ∈ values -> total D d v <= INT_MAX) ->
  0 <= range.1 -> range.2 <= Z.of_nat (length values) ->
  triple (check_chunk (mkTree ratio0 (Some (mem_node cs)) leafs found names0) values range) fs
    (fun _ fs' => fs' = fs).
Proof.
  intros Hok Hd Hb Hl Hh Ht H1 H2. destruct range as [start end_]. simpl in *.
  apply (triple_forM _ (fun _ fs' => fs' = fs)); [done|]. intros done i fs' [rest Hi] ->.
  assert (i ∈ seqZ start (end_ - start)) as Hin by (rewrite Hi; set_solver).
  apply elem_of_seqZ in Hin. destruct (lookup_lt_is_Some_2 values (Z.to_nat i)) as [v Hv]; [lia|].
  eapply triple_lift_bind; [apply vec_at_ok; [lia|exact Hv]|].
  eapply triple_lift_bind; [unfold checkExistanceThread; cbn [root]; rewrite check_thread_spec; reflexivity|].
  rewrite app_nil_l. destruct (reported_bases d v cs bs Hl Hh) as (names & -> & Hsub & _).
  assert (triple (ScanningInBloomFilesMultiplyValue (map (bloom_path D) names) v) fs (fun _ fs' => fs' = fs)) as Hs.
  { apply (scan_names_triple d); [done|done| |].
    - intros b Hbn. apply Hb. by eapply elem_of_sublist.
    - intros b. apply matches_le_total, Ht. by eapply list_elem_of_lookup_2. }
  destruct names; [by apply triple_put_cout|exact Hs].
Qed.

Lemma submit_triple (task : M unit) fs :
  triple task fs (fun _ fs' => fs' = fs) ->
  triple (submit_void task) fs (fun p fs' => fs' = fs /\ p = PValue true).
Proof.
  intros Ht w Hw. destruct (Ht w Hw) as (w' & [] & Hr & Hf). exists w', (PValue true).
  unfold submit_void, submit_wrapper, mbind, M_bind. by rewrite Hr.
Qed.

Lemma multi_triple d fs pool ratio0 leafs cs bs found names0 values threadNmb :
  dir_ok D d -> dir_is D fs d -> bases bloomExt d bs ->
  concat (map leaves cs) = map (bloom_leaf d) bs -> Forall hier_ok cs ->
  (forall v, v ∈ values -> total D d v <= INT_MAX) -> 0 < threadNmb ->
  triple (CheckInHierarchyMultiplyValueForOneThread (Some pool)
            (mkTree ratio0 (Some (mem_node cs)) leafs found names0) threadNmb values) fs
    (fun futures fs' => fs' = fs /\ futures = replicate (Z.to_nat threadNmb) (PValue true)).
Proof.
  intros Hok Hd Hb Hl Hh Ht Hn. unfold CheckInHierarchyMultiplyValueForOneThread. triple_io.
  eapply triple_bind.
  { apply (triple_foldM _ (fun done futures fs' => fs' = fs /\
      futures = replicate (length done) (PValue true))); [done|].
    intros done r futures fs' [rest Hr] [-> ->].
    destruct (chunk_range_bounds (Z.of_nat (length values)) threadNmb r Hn ltac:(lia)) as [H1 H2];
      [rewrite Hr; set_solver|].
    eapply triple_bind; [apply submit_triple, (check_chunk_triple d) with (bs := bs); done|].
    intros p fs' [-> ->]. apply triple_ret. split; [done|].
    rewrite length_app. simpl. by rewrite Nat.add_1_r, replicate_S_end. }
  intros futures fs' [-> ->]. eapply triple_bind.
  { apply (triple_forM _ (fun _ fs' => fs' = fs)); [done|]. intros ? p fs' _ ->. by eapply triple_lift. }
  intros ? fs' ->. triple_io. apply triple_ret. split; [done|].
  unfold chunk_ranges. by rewrite length_map, length_seqZ.
Qed.

(** ** Properties *)



End operations.
