(* ===== verification/MainFlow.v ===== *)
(** * main.cpp

    The flow of one experiment and the experiments themselves.  [MainFlow] creates
    a database, builds a bloom file per table, searches for a value by scanning the
    bloom files and through the hierarchy, and records what each search found.
    [spdlog] is a parameter: one call per message.  A [Result] that the source
    leaves uninitialised is an argument of the experiment. *)

From Stdlib Require Import ZArith Lia.
From S2P Require Import Prelude CString World BloomValue BloomTree SliceStatus Logging FilterPolicy.
From S2P Require Import DumpFile DBDumper ThreadPool DBOperation SearchSpec Search.

Class Spdlog := { spdlog_error : str -> M unit }.

Section main.
Context `{os : !OS, sh : !StdHash, LD : !LevelDB, SL : !Spdlog}.

(** ** Output files *)

(** [std::ofstream out(filename, std::ios::app)] and what is written before it is
    closed; [false] when the file cannot be opened. *)
Definition append_file (filename text : str) : M bool :=
  ok ← gets (fun w => fs_can_write (w_fs w) filename);
  if ok : bool then
    _ ← modify (set_fs (fun fs => fs_write fs filename (default [] (fs_read fs filename) ++ text)));
    mret true
  else mret false.

Definition writeCsvHeader (filename headerLine : str) : M unit :=
  ok ← append_file filename (headerLine ++ nl);
  if ok : bool then mret ()
  else
    _ ← spdlog_error ($"Utils: Nie udało się otworzyć pliku '" ++ filename ++ $"' do zapisu nagłówka!");
    lift (Crash (Exit 1)).

(** [log.open(logFileName)]: the file is truncated. *)
Definition log_open (logFileName : str) : M bool :=
  ok ← gets (fun w => fs_can_write (w_fs w) logFileName);
  _ ← modify (fun w => mkWorld
        (if ok : bool then fs_write (w_fs w) logFileName [] else w_fs w)
        (w_cout w) (w_cerr w) [] (w_clock w) (w_rng w) (w_scans w));
  mret ok.

(** [log.close()]: what was written to an open log is in its file. *)
Definition log_close (opened : bool) (logFileName : str) : M unit :=
  if opened then modify (fun w => set_fs (fun fs => fs_write fs logFileName (w_log w)) w)
  else mret ().

(** The experiment's log: open it, write its header line, run, close it. *)
Definition with_log {A} (folderName header : str) (body : M A) : M A :=
  let logFileName := outDir ++ folderName ++ $"_log.txt" in
  opened ← log_open logFileName;
  _ ← put_log (header ++ nl);
  a ← body;
  _ ← log_close opened logFileName;
  mret a.

(** Words separated by tabs. *)
Fixpoint tabbed (ws : list str) : str :=
  match ws with
  | [] => []
  | [x] => x
  | x :: rest => x ++ tab ++ tabbed rest
  end.

Definition header_flow : str :=
  tabbed [$"DBCr"; $"BlCr"; $"InBl"; $"InSST"; $"BlScan"; $"NoBlScan"; $"LeafCr"; $"HCr";
          $"InBl"; $"InSST"; $"HNmb"; $"HScan"; $"BlAccess"].

(** The header of the first two experiments has no tab between InSST and HCr. *)
Definition header_first : str :=
  tabbed [$"DBCr"; $"BlCr"; $"InBl"; $"InSST"; $"BlScan"; $"NoBlScan"; $"LeafCr";
          $"InBl"; $"InSSTHCr"; $"HNmb"; $"HScan"; $"BlAccess"].

(** ** The flows *)

(** [res.a = res.b] *)
Definition copy_res (a b : res_field) (res : Result) : Result := set_res a (get_res b res) res.

Definition MainFlowMultiplyValues (dbname : str) (itemNumber treeRatio persentage data_size : Z)
    (res : Result) : M Result :=
  let treeHierarchy := bloomTree_new treeRatio in
  res ← DbCreation dbname itemNumber persentage res;
  res ← CreateBloomValue dbname res;
  q ← CreateLeafHierarchyLevel dbname treeHierarchy res;
  let '(treeHierarchy, res) := (q : bloomTree * Result) in
  q ← CreateHierarchy treeHierarchy res;
  let '(treeHierarchy, res) := (q : bloomTree * Result) in
  _ ← CheckInHierarchyMultiplyValueForThreads treeHierarchy itemNumber data_size;
  mret res.

Definition MainFlow (dbname : str) (itemNumber treeRatio : Z) (valuetofind : str) (persentage : Z)
    (res : Result) : M Result :=
  let treeHierarchy := bloomTree_new treeRatio in
  res ← DbCreation dbname itemNumber persentage res;
  res ← CreateBloomValue dbname res;
  res ← ScanningWithBloom dbname valuetofind res;
  let res := copy_res F_foundInLeafBloomNoHierarchy F_foundInLeafBloom res in
  let res := copy_res F_foundInSSTableNoHierarchy F_foundInSSTable res in
  res ← ScanningWithoutBloom dbname valuetofind res;
  q ← CreateLeafHierarchyLevel dbname treeHierarchy res;
  let '(treeHierarchy, res) := (q : bloomTree * Result) in
  q ← CreateHierarchy treeHierarchy res;
  let '(treeHierarchy, res) := (q : bloomTree * Result) in
  q ← CheckInHierarchy treeHierarchy valuetofind res;
  let '(treeHierarchy, res) := (q : bloomTree * Result) in
  let res := copy_res F_foundInLeafBloomWithHierarchy F_foundInLeafBloom res in
  mret (copy_res F_foundInSSTableWithHierarchy F_foundInSSTable res).

(** ** The experiments *)

Definition value_sought : str := $"Value187719".

(** A sequence of flows, threading the result: (name suffix, items, ratio,
    percentage). *)
Definition run_flows (dbname valuetofind : str) (runs : list (str * Z * Z * Z)) (res : Result) : M Result :=
  foldM (fun res run =>
    let '(suffix, itemNumber, treeRatio, percentage) := (run : str * Z * Z * Z) in
    MainFlow (dbname ++ suffix) itemNumber treeRatio valuetofind percentage res) res runs.

Definition create_dbs (dbname : str) (runs : list (str * Z * Z)) (res : Result) : M Result :=
  foldM (fun res run =>
    let '(suffix, itemNumber, percentage) := (run : str * Z * Z) in
    DbCreation (dbname ++ suffix) itemNumber percentage res) res runs.

Definition open_failed : M unit :=
  spdlog_error ($"ExpBloomMetrics: Nie udało się otworzyć pliku wynikowego!").

Definition write_exp0 (res : Result) : M unit :=
  ok ← append_file ($"exp_0.csv") (to_string (itemNumber res) ++ $"," ++ to_string (dbCreationTime res) ++ nl);
  if ok : bool then mret () else open_failed.

Definition ExpZero (res : Result) : M unit :=
  res ← with_log ($"./ExpZero") header_first (
    let itemNumber := 10000000 in
    let res := set_res F_itemNumber 10000000 res in
    res ← create_dbs ($"ExpZero") [(to_string 0, itemNumber, 0)] res;
    _ ← put_cout ($"Creation Time" ++ to_string (dbCreationTime res) ++ nl);
    mret res);
  write_exp0 res.

Definition ExpOne (res : Result) : M unit :=
  res ← with_log ($"./expOne") header_first
          (run_flows ($"ExOne") value_sought [(to_string 0, 1000000, 5, 0)] res);
  write_exp0 res.

Definition ExpTwo (res : Result) : M Result :=
  with_log ($"./expTwo") header_flow
    (run_flows ($"ExTwo") value_sought
       [($"10mln", 10000000, 5, 0); ($"50mln", 50000000, 5, 0); ($"100mln", 100000000, 5, 0);
        ($"500mln", 500000000, 5, 0); ($"1mld", 1000000000, 5, 0)] res).

Definition ExpThree (res : Result) : M Result :=
  let bloomSize := 500000 in
  with_log ($"./expThree" ++ to_string bloomSize) header_flow
    (run_flows ($"ExThree") value_sought
       (map (fun r => (to_string r ++ $"_" ++ to_string bloomSize, 100000000, r, 0)) [3; 5; 10; 15; 20]) res).

Definition ExpFour (res : Result) : M Result :=
  with_log ($"./expFour1000") header_flow
    (run_flows ($"ExFour") value_sought [($"50mln", 50000000, 5, 0)] res).

(** The database is created under the bare name. *)
Definition ExpFive (res : Result) : M Result :=
  with_log ($"./expFive") header_flow (create_dbs ($"ExFive") [([], 1000000, 0)] res).

Definition ExpSix (res : Result) : M Result :=
  with_log ($"./expSix") ($"DBCr" ++ tab)
    (create_dbs ($"ExSix") [($"10mln", 10000000, 0); ($"50mln", 50000000, 0);
                            ($"100mln", 100000000, 0); ($"500mln", 500000000, 0)] res).

Definition exp_dbs : list str := [$"10mln"; $"50mln"; $"100mln"; $"500mln"].

Definition ExpSeven : M unit :=
  with_log ($"./expSeven") ($"Key" ++ tab)
    (forM exp_dbs (fun suffix => RetrieveData ($"ExTwo" ++ suffix) ($"Key187719"))).

Definition ExpEight (res : Result) : M Result :=
  with_log ($"./expEight") ($"Key" ++ tab)
    (foldM (fun res suffix => ScanningWithoutBloom ($"ExTwo" ++ suffix) ($"Key187719") res) res exp_dbs).

Definition ExpNine (res : Result) : M Result :=
  with_log ($"./expNine") ($"DBCr" ++ tab)
    (create_dbs ($"ExNine") [($"10Proc", 10000000, 10); ($"50Proc", 10000000, 50);
                             ($"80Porc", 10000000, 80)] res).

Definition exp10_header : str :=
  $"percentage," ++
  $"tScanningWithBloom, foundInLeafBloomNoHierarchy, foundInSSTableNoHierarchy" ++
  $"res.tScanningWithoutBloom,res.tCreatingLeafLevel,res.tCreatingHierarchy" ++
  $"res.foundInLeafBloomWithHierarchy, res.foundInSSTableWithHierarchy," ++
  $"res.tCheckingInHierarchy,res.hierarchyFilterNumber, res.accessedBloomFilter".

Definition writeExp1Headers : M unit := writeCsvHeader ($"exp_10.csv") exp10_header.

Definition exp10_row (res : Result) : str :=
  let c := $"," in
  to_string (percentage res) ++ c
  ++ c ++ to_string (tScanningWithBloom res) ++ c ++ to_string (foundInLeafBloomNoHierarchy res)
  ++ c ++ to_string (foundInSSTableNoHierarchy res) ++ c
  ++ to_string (tScanningWithoutBloom res) ++ c ++ to_string (tCreatingLeafLevel res) ++ c
  ++ to_string (tCreatingHierarchy res)
  ++ c ++ to_string (foundInLeafBloomWithHierarchy res) ++ c ++ to_string (foundInSSTableWithHierarchy res)
  ++ c ++ to_string (tCheckingInHierarchy res) ++ c ++ to_string (hierarchyFilterNumber res) ++ c
  ++ to_string (accessedBloomFilter res).

Definition writeExp10Content (filename : str) (res : Result) : M unit :=
  ok ← append_file filename (exp10_row res ++ nl);
  if ok : bool then mret () else open_failed.

Definition ExpTen (res : Result) : M Result :=
  with_log ($"./expTen") header_flow (
    _ ← writeExp1Headers;
    foldM (fun res p =>
      let res := set_res F_percentage p res in
      res ← MainFlow ($"ExTen" ++ to_string p ++ $"Proc") 50000000 5 ($"Value1879") p res;
      _ ← writeExp10Content ($"exp_10.csv") res;
      mret res) res [2; 5; 10; 40; 70; 100]).

Definition ExpEleven (res : Result) : M Result :=
  with_log ($"./expEleven") (tabbed [$"DBCr"; $"BlCr"; $"LeafCr"; $"HCr"; $"HScan"])
    (foldM (fun res run =>
       let '(suffix, itemNumber) := (run : str * Z) in
       MainFlowMultiplyValues ($"ExEleven" ++ suffix) itemNumber 5 0 1000 res)
     res [($"10mln", 10000000); ($"50mln", 50000000); ($"100mln", 100000000)]).

(** An exception that leaves [main] ends the process. *)
Definition main (res : Result) : M Z := fun w =>
  match (ExpTen res;; mret 0) w with
  | (w', Throw _) => (w', Crash Terminate)
  | r => r
  end.

(** ** What DbCreation stores *)

Definition put_entry (s : DB * filesystem) (kv : str * str) : DB * filesystem :=
  let '(db, fs, _) := db_Put s.1 s.2 kv.1 kv.2 in (db, fs).

(** The key-value pairs in the order they are put: [Key i] with [Value i], or with
    a value drawn from [1 .. max]; [rng] numbers the draws. *)
Fixpoint puts_from (percentageRandom max : Z) (rng : nat) (i : Z) (k : nat) : list (str * str) :=
  match k with
  | O => []
  | S k' =>
      if percentageRandom =? 0 then
        ($"Key" ++ to_string i, $"Value" ++ to_string i) :: puts_from percentageRandom max rng (i + 1) k'
      else
        ($"Key" ++ to_string i, $"Value" ++ to_string (uniform_int rng 1 max))
          :: puts_from percentageRandom max (S rng) (i + 1) k'
  end.

Definition creation_puts (rng : nat) (itemNumber percentageRandom : Z) : list (str * str) :=
  puts_from percentageRandom (Z.quot itemNumber 100 * percentageRandom) rng 1 (Z.to_nat (itemNumber - 1)).

(** The files after opening the database, putting the pairs and closing it. *)
Definition created (fs : filesystem) (dbname : str) (puts : list (str * str)) : option filesystem :=
  let '(fs, status, db) := db_Open fs None (dbDir ++ dbname) in
  match Status.ok status, db with
  | true, Some db => let '(db, fs) := foldl put_entry (db, fs) puts in Some (db_delete db fs)
  | _, _ => None
  end.

Definition create_body (percentageRandom max : Z) (db : DB) (i : Z) : M DB :=
  let key := $"Key" ++ to_string i in
  if percentageRandom =? 0 then put_db db key ($"Value" ++ to_string i)
  else ran ← draw 1 max; put_db db key ($"Value" ++ to_string ran).

Lemma open_db_ok policy path w fs1 st db :
  db_Open (w_fs w) policy path = (fs1, st, Some db) -> Status.ok st = true ->
  open_db policy path w = (set_fs (fun _ => fs1) w, Ret db).
Proof. intros Eo Es. unfold open_db, mbind, M_bind, gets, set_files. by rewrite Eo, Es. Qed.

Lemma put_db_run db k v w :
  put_db db k v w =
  let s := put_entry (db, w_fs w) (k, v) in (set_fs (fun _ => s.2) w, Ret s.1).
Proof.
  unfold put_db, put_entry, set_files, mbind, M_bind, gets, modify. cbn [fst snd].
  by destruct (db_Put db (w_fs w) k v) as [[db1 fs1] st].
Qed.

Lemma create_step pct max db i w :
  pct = 0 \/ 1 <= max ->
  let v := if pct =? 0 then i else uniform_int (w_rng w) 1 max in
  let s := put_entry (db, w_fs w) ($"Key" ++ to_string i, $"Value" ++ to_string v) in
  exists w1, create_body pct max db i w = (w1, Ret s.1) /\ w_fs w1 = s.2 /\
             w_rng w1 = if pct =? 0 then w_rng w else S (w_rng w).
Proof.
  intros Hm v s. subst s v. unfold create_body. destruct (Z.eqb_spec pct 0) as [E|E].
  - rewrite put_db_run. eexists. split_and!; [reflexivity|done|done].
  - unfold draw, mbind, M_bind. destruct (Z.ltb_spec max 1); [lia|]. rewrite put_db_run.
    eexists. split_and!; [reflexivity|done|done].
Qed.

Lemma put_loop pct max (k : nat) i db w :
  pct = 0 \/ 1 <= max ->
  exists w', let s := foldl put_entry (db, w_fs w) (puts_from pct max (w_rng w) i k) in
  foldM (create_body pct max) db (seqZ i (Z.of_nat k)) w = (w', Ret s.1) /\ w_fs w' = s.2.
Proof.
  intros Hm. revert i db w. induction k as [|k IH]; intros i db w.
  { exists w. done. }
  rewrite seqZ_cons by lia. replace (Z.pred (Z.of_nat (S k))) with (Z.of_nat k) by lia.
  rewrite <- Z.add_1_r. cbn [foldM]. destruct (create_step pct max db i w Hm) as (w1 & Hc & Hf & Hrng).
  rewrite (M_bind_Ret _ _ _ _ _ Hc).
  match type of Hf with _ = snd ?p => destruct (IH (i + 1) (fst p) w1) as (w' & Hr & Hf'); rewrite Hf, <- surjective_pairing, Hrng in Hr, Hf' end.
  exists w'. cbn [puts_from]. destruct (pct =? 0); cbn [foldl]; by split.
Qed.

Definition creation_ok (itemNumber percentageRandom : Z) : Prop :=
  1 <= itemNumber <= INT_MAX /\ 0 <= percentageRandom <= 100 /\
  (percentageRandom = 0 \/ 100 <= itemNumber).

Lemma creation_max n pct :
  creation_ok n pct ->
  let max := Z.quot n 100 * pct in 0 <= max <= INT_MAX /\ (pct = 0 \/ 1 <= max).
Proof.
  intros (Hn & Hp & Hc) max. subst max. rewrite Z.quot_div_nonneg by lia.
  assert (0 <= n / 100) by lia_div. assert (n / 100 * 100 <= n) by lia_div.
  split; [nia|]. destruct Hc as [->|Hc]; [by left|]. destruct (decide (pct = 0)); [by left|right].
  assert (1 <= n / 100) by lia_div. nia.
Qed.

Lemma DbCreation_run dbname n pct res w fs' :
  creation_ok n pct -> created (w_fs w) dbname (creation_puts (w_rng w) n pct) = Some fs' ->
  exists w' t, DbCreation dbname n pct res w = (w', Ret (set_res F_dbCreationTime t res)) /\ w_fs w' = fs'.
Proof.
  intros Hc Hcr. pose proof (creation_max n pct Hc) as [Hm1 Hm2]. destruct Hc as (Hn & _ & _).
  unfold created in Hcr. destruct (db_Open (w_fs w) None (dbDir ++ dbname)) as [[fs1 st] [db|]] eqn:Eo;
    destruct (Status.ok st) eqn:Es; try discriminate.
  unfold DbCreation. rewrite (M_bind_Ret _ _ _ _ _ eq_refl).
  set (w1 := mkWorld (w_fs w) (w_cout w) (w_cerr w) (w_log w) (S (w_clock w)) (w_rng w) (w_scans w)).
  rewrite (M_bind_Ret _ _ _ _ _ (open_db_ok None (dbDir ++ dbname) w1 fs1 st db Eo Es)).
  cbv zeta. rewrite int_check_ok by (unfold INT_MIN; lia).
  rewrite (M_bind_Ret _ (lift _) _ _ _ eq_refl).
  destruct (put_loop pct (Z.quot n 100 * pct) (Z.to_nat (n - 1)) 1 db (set_fs (fun _ => fs1) w1) Hm2)
    as (w2 & Hr & Hf).
  rewrite Z2Nat.id in Hr by lia. rewrite (M_bind_Ret _ _ _ _ _ Hr).
  cbn [set_fs w_fs w_rng w1] in Hf |- *.
  change (puts_from pct (Z.quot n 100 * pct) (w_rng w) 1 (Z.to_nat (n - 1))) with (creation_puts (w_rng w) n pct) in *.
  destruct (foldl put_entry (db, fs1) (creation_puts (w_rng w) n pct)) as [db2 fs2].
  injection Hcr as <-. cbn [fst snd] in *. subst fs2. eexists _, _. split; [reflexivity|done].
Qed.

(** ** The search flow *)

(** What [MainFlow] does once the database is there. *)
Definition search_flow (dbname : str) (treeRatio : Z) (valuetofind : str) (res : Result) : M Result :=
  let treeHierarchy := bloomTree_new treeRatio in
  res ← CreateBloomValue dbname res;
  res ← ScanningWithBloom dbname valuetofind res;
  let res := copy_res F_foundInLeafBloomNoHierarchy F_foundInLeafBloom res in
  let res := copy_res F_foundInSSTableNoHierarchy F_foundInSSTable res in
  res ← ScanningWithoutBloom dbname valuetofind res;
  q ← CreateLeafHierarchyLevel dbname treeHierarchy res;
  let '(treeHierarchy, res) := (q : bloomTree * Result) in
  q ← CreateHierarchy treeHierarchy res;
  let '(treeHierarchy, res) := (q : bloomTree * Result) in
  q ← CheckInHierarchy treeHierarchy valuetofind res;
  let '(treeHierarchy, res) := (q : bloomTree * Result) in
  let res := copy_res F_foundInLeafBloomWithHierarchy F_foundInLeafBloom res in
  mret (copy_res F_foundInSSTableWithHierarchy F_foundInSSTable res).

(** The counters a search must leave. *)
Record search_result (k n : Z) (res : Result) : Prop := {
  sr_sst : get_res F_foundInSSTableNoHierarchy res = n;
  sr_sst_hier : get_res F_foundInSSTableWithHierarchy res = n;
  sr_leaf : get_res F_foundInLeafBloomNoHierarchy res = k;
  sr_leaf_hier : get_res F_foundInLeafBloomWithHierarchy res = k
}.

Ltac res_simpl := unfold copy_res; rewrite !get_set_res; simpl.

Lemma int_of_small z : 0 <= z <= INT_MAX -> int_of z = z.
Proof. intros Hz. apply swrap32_small. unfold INT_MIN. lia. Qed.

Lemma int_of_twice z : int_of (int_of z) = int_of z.
Proof. apply swrap32_small, swrap32_range. Qed.

Lemma search_result_intro k n a t1 t2 t3 t4 c t5 r (stale : bool) :
  0 <= k <= INT_MAX -> 0 <= n <= INT_MAX ->
  let r1 := set_res F_tScanningWithBloom t1 (set_res F_foundInSSTable n (set_res F_foundInLeafBloom k r)) in
  let r2 := copy_res F_foundInSSTableNoHierarchy F_foundInSSTable
              (copy_res F_foundInLeafBloomNoHierarchy F_foundInLeafBloom r1) in
  let r3 := set_res F_tCreatingHierarchy t4 (set_res F_tCreatingLeafLevel t3 (set_res F_tScanningWithoutBloom t2 r2)) in
  let r4 := if stale then r3 else set_res F_foundInSSTable n (set_res F_foundInLeafBloom k r3) in
  let r5 := set_res F_accessedBloomFilter a (set_res F_hierarchyFilterNumber c (set_res F_tCheckingInHierarchy t5 r4)) in
  let r6 := copy_res F_foundInSSTableWithHierarchy F_foundInSSTable
              (copy_res F_foundInLeafBloomWithHierarchy F_foundInLeafBloom r5) in
  search_result k n r6 /\ get_res F_accessedBloomFilter r6 = int_of a.
Proof.
  intros Hk Hn r1 r2 r3 r4 r5 r6. subst r1 r2 r3 r4 r5 r6.
  destruct stale; (split; [split|]); res_simpl; rewrite ?int_of_twice; try done; by apply int_of_small.
Qed.

Lemma CreateHierarchy_triple t t' res fs :
  createTree t = Ret t' ->
  triple (CreateHierarchy t res) fs (fun q fs' => fs' = fs /\ exists tm, q = (t', set_res F_tCreatingHierarchy tm res)).
Proof.
  intros Ht. unfold CreateHierarchy. triple_io. eapply triple_lift_bind; [exact Ht|]. triple_io.
  apply triple_ret. eauto.
Qed.

(** The flow on a directory: both searches find every occurrence, they read the
    same tables, and the hierarchy reads no more bloom files than there are. *)
Lemma search_flow_triple dbname ratio0 v res d fs :
  let D := scan_directory dbname in
  dir_ok D d -> dir_is D fs d -> bloom_writable D fs ->
  3 <= ratio0 -> 2 * Z.of_nat (size d) + ratio0 <= INT_MAX -> total D d v <= INT_MAX ->
  triple (search_flow dbname ratio0 v res) fs (fun res' _ =>
    exists k, search_result k (total D d v) res' /\
      k <= get_res F_accessedBloomFilter res' <= 2 * Z.of_nat (size d)).
Proof.
  intros D Hok Hd Hw Hr Hn Ht. unfold search_flow. cbv zeta.
  eapply triple_bind; [by apply (CreateBloomValue_triple dbname d)|].
  intros r1 fs1 (ts & t1 & Hts & Hd1 & _ & _). fold D in Hd1.
  pose proof (bloomed_ok D d ts Hok Hts) as Hok1. pose proof (bloomed_total D d v ts Hts) as Htot.
  pose proof (bloomed_covered D d v ts Hts) as Hc. pose proof (bloomed_size D d ts) as Hsz.
  pose proof (bases_length _ _ _ Hts) as Hlt. set (d1 := bloomed D d ts) in *. clearbody d1.
  eapply triple_bind; [apply (ScanningWithBloom_triple dbname d1); [done|done|done|lia|by fold D; rewrite Htot]|].
  intros r2 fs2 (-> & bs & t2 & Hbs & ->). pose proof (bases_length _ _ _ Hbs). pose proof (length_hits d1 v bs).
  eapply triple_bind; [apply (ScanningWithoutBloom_triple dbname d1); [done|done|by fold D; rewrite Htot]|].
  intros r3 fs3 (-> & t3 & ->).
  eapply triple_bind; [by apply (CreateLeafHierarchyLevel_triple dbname d1)|].
  intros q fs4 (-> & bs' & t4 & Hbs' & ->). cbn beta iota. pose proof (bases_length _ _ _ Hbs').
  assert (length (hits d1 v bs') = length (hits d1 v bs)) as Hlen.
  { apply Permutation_length, hits_perm. by eapply bases_unique. }
  match goal with |- triple (mbind _ (CreateHierarchy _ ?r)) _ _ =>
    destruct (CheckInHierarchy_triple dbname d1 fs1 v ratio0 bs' (set_res F_tCreatingHierarchy 0 r))
      as (tree & Htree & _); try done; [lia|by fold D; rewrite Htot|] end.
  eapply triple_bind; [by apply CreateHierarchy_triple|]. intros q fs5 (-> & t5 & ->). cbn beta iota.
  match goal with |- triple (mbind _ (CheckInHierarchy _ _ ?r)) _ _ =>
    destruct (CheckInHierarchy_triple dbname d1 fs1 v ratio0 bs' r)
      as (tree' & Htree' & Hq); try done; [lia|by fold D; rewrite Htot|] end.
  rewrite Htree in Htree'. injection Htree' as <-. eapply triple_bind; [exact Hq|]. clear Hq.
  intros [tree2 r6] fs6 (-> & names & c & t6 & Hsub & Hhits & Hr6). simpl in Hr6. subst r6.
  apply triple_ret. fold D. rewrite Htot. exists (Z.of_nat (length (hits d1 v bs))).
  pose proof (sublist_length _ _ Hsub). pose proof (length_hits d1 v names). rewrite Hhits in *.
  rewrite Hlen in *.
  assert (0 <= total D d v) by (rewrite (total_bases D d v ts Hts); apply sumZ_nonneg; intros; apply matches_nonneg).
  destruct (search_result_intro (Z.of_nat (length (hits d1 v bs))) (total D d v)
    (Z.of_nat (length names)) t2 t3 t4 t5 c t6 r1 (match names with [] => true | _ => false end))
    as [Hi1 Hi2]; [lia|lia|].
  destruct names; (split; [exact Hi1|]); rewrite Hi2, int_of_small; simpl length in *; lia.
Qed.

(** ** Properties *)



(** C38: with a percentage and fewer than a hundred items the range of the
    distribution is empty, and the first draw from it breaks its precondition. *)
Theorem DbCreation_small_percentage dbname n pct res w fs1 st db :
  2 <= n < 100 -> 0 < pct <= 100 ->
  db_Open (w_fs w) None (dbDir ++ dbname) = (fs1, st, Some db) -> Status.ok st = true ->
  snd (DbCreation dbname n pct res w) = Crash BadDistribution.
Proof.
  intros Hn Hp Eo Es. unfold DbCreation. rewrite (M_bind_Ret _ _ _ _ _ eq_refl).
  set (w1 := mkWorld (w_fs w) (w_cout w) (w_cerr w) (w_log w) (S (w_clock w)) (w_rng w) (w_scans w)).
  rewrite (M_bind_Ret _ _ _ _ _ (open_db_ok None (dbDir ++ dbname) w1 fs1 st db Eo Es)).
  cbv zeta. rewrite Z.quot_small by lia. rewrite Z.mul_0_l, int_check_ok by done.
  rewrite (M_bind_Ret _ (lift _) _ _ _ eq_refl).
  rewrite (seqZ_cons 1 (n - 1)) by lia. cbn [foldM].
  destruct (Z.eqb_spec pct 0); [lia|]. reflexivity.
Qed.

(** The number of columns of a line of comma-separated values. *)
Definition csv_columns (line : str) : nat := S (count_occ Byte.byte_eq_dec line Byte.x2c).

Lemma digits_no_comma ds : Forall is_digit ds -> count_occ Byte.byte_eq_dec ds Byte.x2c = 0%nat.
Proof.
  intros Hd. apply count_occ_not_In. rewrite <- list_elem_of_In. intros Hin.
  rewrite Forall_forall in Hd. specialize (Hd _ Hin). unfold is_digit in Hd.
  change (b2z Byte.x2c) with 44 in Hd. lia.
Qed.

Lemma to_string_no_comma k : count_occ Byte.byte_eq_dec (to_string k) Byte.x2c = 0%nat.
Proof.
  unfold to_string. destruct (k <? 0); [|apply digits_no_comma, dec_is_digit].
  by rewrite count_occ_app, (digits_no_comma (dec (- k)) (dec_is_digit _)).
Qed.

(** the rows of [exp_10.csv] do not fit its header: the header line has ten
    columns, every row thirteen. *)
Theorem exp10_columns res : csv_columns exp10_header = 10%nat /\ csv_columns (exp10_row res) = 13%nat.
Proof.
  split; [done|]. unfold csv_columns, exp10_row. rewrite !count_occ_app, !to_string_no_comma. done.
Qed.

End main.

(** ** Concrete runs

    An engine that remembers how many pairs were put and, when it is closed,
    writes them as one table. *)
Definition run_dir (p : str) : str := if str_eqb (take 7 p) outDir then drop 7 p else p.

Definition run_os : OS.
Proof.
  refine {| resolve_dir := run_dir;
            readdir_order := fun _ d => $"." :: $".." :: (map_to_list d).*1;
            now_ns := fun k => Z.of_nat k * 1000000;
            uniform_int := fun _ a _ => a;
            hardware_concurrency := 4 |}.
  - reflexivity.
  - intros. lia.
Defined.

Definition demo_engine : LevelDB := {|
  DB := str * nat;
  db_Open := fun fs _ path => (fs, Status.OK, Some (path, O));
  db_Put := fun db fs _ _ => ((db.1, S db.2), fs, Status.OK);
  db_Get := fun db fs _ => (db, fs, Status.NotFound [] [], []);
  db_GetProperty := fun db fs _ => (db, fs, []);
  db_delete := fun db fs =>
    {| dirs := <[ db.1 := <[ $"000005.ldb" := demo_sst db.2 ]> (default ∅ (dirs fs !! db.1)) ]> (dirs fs);
       locked := locked fs |}
|}.

#[local] Existing Instance run_os.
#[local] Existing Instance demo_hash.
#[local] Existing Instance demo_engine.
#[local] Instance demo_spdlog : Spdlog := {| spdlog_error := put_cout |}.

Definition blank_result : Result := mkResult 0 0 0 0 0 0 0 0 0 0 0 0 0 0 0 0 0.
Definition blank_world : World := demo_world (mkFS ∅ ∅).
Definition demo_files : gmap str str := {[ $"000005.ldb" := demo_sst 4 ]}.
Definition demo_fs : filesystem := mkFS {[ $"./db/t" := demo_files ]} ∅.

Lemma demo_dir_is d l : dir_is (scan_directory ($"t")) (mkFS {[ $"./db/t" := d ]} l) d.
Proof.
  unfold dir_is. assert (resolve_dir (scan_directory ($"t")) = $"./db/t") as -> by reflexivity.
  apply lookup_singleton_eq.
Qed.

Lemma demo_scan :
  scan_table (in_dir (scan_directory ($"t")) ($"000005.ldb")) (demo_sst 4) = Ret (Entries (demo_entry <$> seq 0 4) Status.OK).
Proof. vm_compute. reflexivity. Qed.

Lemma demo_dir_ok : dir_ok (scan_directory ($"t")) demo_files.
Proof.
  assert (forall n data, demo_files !! n = Some data -> n = $"000005.ldb" /\ data = demo_sst 4) as H.
  { unfold demo_files. by intros n data [<- <-]%lookup_singleton_Some. }
  split.
  - intros n [data [-> _]%H]. const_notin.
  - intros n [data [-> _]%H]. done.
  - intros b [data [Hb _]%H]. change ($"000005.ldb") with ($"000005" ++ dataExt) in Hb.
    apply ext_inj in Hb as ->. done.
  - intros n data [-> ->]%H _. unfold table_fits. rewrite demo_scan. split; [repeat constructor|]; vm_compute; reflexivity.
Qed.



Lemma DbCreation_small_percentage_witness :
  snd (DbCreation ($"t") 50 10 blank_result blank_world) = Crash BadDistribution.
Proof.
  eapply (DbCreation_small_percentage ($"t") 50 10 blank_result blank_world);
    [lia|lia|reflexivity|reflexivity].
Defined.


(** The same directory with a bloom file. *)
Definition demo_blooms : gmap str str := <[ $"000005.bloom" := [] ]> demo_files.

Lemma demo_blooms_ok : dir_ok (scan_directory ($"t")) demo_blooms.
Proof.
  assert (forall n data, demo_blooms !! n = Some data -> n = $"000005.bloom" \/ demo_files !! n = Some data) as H.
  { unfold demo_blooms. intros n data [[<- _]|[_ ?]]%lookup_insert_Some; auto. }
  destruct demo_dir_ok as [H1 H2 H3 H4]. split.
  - intros n [data [->|Hn]%H]; [const_notin|eauto].
  - intros n [data [->|Hn]%H]; [done|eauto].
  - intros b [data [Hb|Hn]%H]; [|eauto]. by apply (ext_disjoint b ($"000005")) in Hb.
  - intros n data [->|Hn]%H He; [done|eauto].
Qed.

Lemma demo_bases : bases bloomExt demo_blooms [$"000005"].
Proof.
  split; [apply NoDup_singleton|]. intros b. rewrite list_elem_of_singleton. split.
  - intros ->. by eexists.
  - intros [data Hb]. unfold demo_blooms in Hb.
    apply lookup_insert_Some in Hb as [[Hb _]|[_ Hb]].
    + change ($"000005.bloom") with ($"000005" ++ bloomExt) in Hb. by apply ext_inj in Hb.
    + unfold demo_files in Hb. apply lookup_singleton_Some in Hb as [Hb _].
      by apply (ext_disjoint ($"000005") b) in Hb.
Qed.

Definition demo_bloom_world : World := demo_world (mkFS {[ $"./db/t" := demo_blooms ]} ∅).


(** One record, its value found; the fourth pair is the last of five items. *)
Example demo_puts : creation_puts 0 3 0 = [($"Key1", $"Value1"); ($"Key2", $"Value2")].
Proof. reflexivity. Qed.

Example demo_total : total (scan_directory ($"t")) demo_files ($"Value3") = 1.
Proof. vm_compute. reflexivity. Qed.
